(** * CellsDominion: the simulation engine, embedded and checked

    The engine is JavaScript.  Its numbers are modelled as rationals [Q]:
    every constant of the source (0.2, 0.85, 1.2, ...) is a decimal and
    therefore a rational, and the properties below are order properties of
    sums, products, [Math.min], [Math.max] and [Math.floor].  [NaN] and the
    infinities are outside the model; where the source divides by a count
    that can be zero the model spells the JavaScript outcome out.

    The engine rounds to binary64 and the rationals do not.  Rounding
    keeps order ([a <= b] gives [a + c <= b + c] after rounding as before
    it) and keeps [Math.min], [Math.max], [Math.floor] and comparisons as
    they are, but it does not keep identities of the field such as
    [(a - b) + b = a].  Where rounding matters, a statement about
    quantities is an order fact, a count, or an equality with the very
    expression the source evaluates; where a claim turns on an identity
    that holds of the rationals only, the expression is evaluated on
    binary64 numbers ([Binary64], on the primitive floats).

    [Math.random()] is a stream of draws threaded through the code in the
    order the source calls it.

    Objects that are shared and mutated (cells, colonies) live in a store
    keyed by their identity; arrays of objects are lists of keys. *)

From Stdlib Require Import QArith Qround Qminmax Qabs ZArith Lia Lqa Bool.
From Stdlib Require PrimFloat.
From stdpp Require Import gmap strings list fin_maps sorting.

Local Open Scope Q_scope.

(** ** Numbers *)

Definition Qlt_bool (a b : Q) : bool := negb (Qle_bool b a).

(** [Math.max(lo, Math.min(hi, v))], the clamp the source writes inline. *)
Definition clamp (lo hi v : Q) : Q := Qmax lo (Qmin hi v).

(** [Math.floor] *)
Definition floor (q : Q) : Z := Qfloor q.

(** The functions of the [Math] object that leave the rationals.  A double
    is a rational, so each of them is a function on [Q]; the engine is
    modelled over any such library. *)
Record MathLib := mkMath {
  PI : Q;
  cos : Q -> Q;
  sin : Q -> Q;
  sqrt : Q -> Q;
  atan2 : Q -> Q -> Q
}.

(** ** Math.random *)

Record Rng := mkRng { draws : nat -> Q; cursor : nat }.

(** A generator is fair when every draw lies in [0, 1), as the language
    guarantees for [Math.random()]. *)
Definition fair (g : Rng) : Prop := forall n, 0 <= draws g n /\ draws g n < 1.

(** Code that threads a mutable state [S]: a state-passing function. *)
Definition State (S A : Type) : Type := S -> A * S.

Definition ret {S A} (a : A) : State S A := fun s => (a, s).
Definition bind {S A B} (m : State S A) (k : A -> State S B) : State S B :=
  fun s => let '(a, s') := m s in k a s'.

(** Code whose only state is the generator. *)
Definition Rand (A : Type) : Type := State Rng A.

Definition random : Rand Q :=
  fun g => (draws g (cursor g), mkRng (draws g) (S (cursor g))).

Notation "'let*' x ':=' m 'in' k" := (bind m (fun x => k))
  (at level 10, x name, m at level 100, k at level 200).

(** [for (let i = 0; i < n; i++) body(i)] over a threaded state. *)
Fixpoint for_loop {G S : Type} (n : nat) (i : nat)
    (body : nat -> S -> State G S) (s : S) : State G S :=
  match n with
  | O => ret s
  | Datatypes.S n' => let* s' := body i s in for_loop n' (Datatypes.S i) body s'
  end.

Definition constant_rng (q : Q) : Rng := mkRng (fun _ => q) 0.

(** [always m P]: under every fair generator the result of [m] satisfies
    [P], and the generator it leaves behind is fair again. *)
Definition always {A} (m : Rand A) (P : A -> Prop) : Prop :=
  forall g, fair g -> P (fst (m g)) /\ fair (snd (m g)).

(** ** Food particles (class Food) *)

Module Food.

Inductive colour := Orange | Yellow | LightBlue.

Record t := mk {
  x : Q;
  y : Q;
  radius : Q;
  energyValue : Q;
  consumed : bool;
  age : Z;
  maxAge : Q;
  color : colour;
  pulseDraw : Q;   (* the draw behind pulsePhase; its factor 2 pi is for rendering *)
  decay : Q
}.

Definition set_consumed (b : bool) (f : t) : t :=
  mk (x f) (y f) (radius f) (energyValue f) b (age f) (maxAge f) (color f)
     (pulseDraw f) (decay f).

(** [getColorByValue] *)
Definition getColorByValue (energy : Q) : colour :=
  if Qlt_bool 40 energy then Orange
  else if Qlt_bool 25 energy then Yellow
  else LightBlue.

(** [size || (2 + Math.random() * 4)]: [null] and [0] are falsy, and the
    draw is made only then. *)
Definition radius_of (size : option Q) : Rand Q :=
  match size with
  | Some s =>
      if Qeq_bool s 0 then (let* r := random in ret (2 + r * 4)) else ret s
  | None => let* r := random in ret (2 + r * 4)
  end.

(** [constructor(x, y, size = null)] *)
Definition new (x0 y0 : Q) (size : option Q) : Rand t :=
  let* rad := radius_of size in
  let* m := random in
  let* p := random in
  ret (mk x0 y0 rad (rad * 8) false 0 (1800 + m * 1200)
          (getColorByValue (rad * 8)) p 1).

(** [update()]: the returned flag is [true] while the particle stays. *)
Definition update (f : t) : bool * t :=
  if consumed f then (false, f)
  else
    let age' := (age f + 1)%Z in
    let decay' :=
      if Qlt_bool (maxAge f * 0.8) (inject_Z age')
      then Qmax 0 (1 - ((inject_Z age' - maxAge f * 0.8) / (maxAge f * 0.2)))
      else decay f in
    let f' := mk (x f) (y f) (radius f) (energyValue f) (consumed f) age'
                 (maxAge f) (color f) (pulseDraw f) decay' in
    if Qlt_bool (maxAge f) (inject_Z age') then (false, f') else (true, f').

End Food.

(** ** The food field (class FoodManager) *)

Module FoodManager.

Record t := mk {
  width : Q;
  height : Q;
  food : list Food.t;
  maxFood : Q;
  spawnRate : Q;
  spawnCooldown : Q
}.

Definition set_food (l : list Food.t) (m : t) : t :=
  mk (width m) (height m) l (maxFood m) (spawnRate m) (spawnCooldown m).
Definition set_spawnCooldown (c : Q) (m : t) : t :=
  mk (width m) (height m) (food m) (maxFood m) (spawnRate m) c.

(** [spawnFood(x = null, y = null)]: one particle is pushed, whatever the
    size of the field. *)
Definition spawnFood (x y : option Q) (m : t) : Rand t :=
  let* spawnX := match x with Some v => ret v
                 | None => let* r := random in ret (r * width m) end in
  let* spawnY := match y with Some v => ret v
                 | None => let* r := random in ret (r * height m) end in
  let* rand := random in
  let* size :=
    if Qlt_bool rand 0.6 then (let* r := random in ret (2 + r * 2))
    else if Qlt_bool rand 0.9 then (let* r := random in ret (3 + r * 3))
    else (let* r := random in ret (5 + r * 3)) in
  let* newFood := Food.new spawnX spawnY (Some size) in
  ret (set_food (food m ++ [newFood]) m).

(** [nutrientCount] of [spawnFromDeath] *)
Definition nutrientCount (cellSize : Q) : Z := (floor (cellSize / 4) + 1)%Z.

(** [spawnFromDeath(x, y, cellSize)] *)
Definition spawnFromDeath (M : MathLib) (x y cellSize : Q) (m : t) : Rand t :=
  let n := nutrientCount cellSize in
  for_loop (Z.to_nat n) 0 (fun i m =>
    let* r := random in
    let angle := (inject_Z (Z.of_nat i) / inject_Z n) * PI M * 2 + r in
    let* d := random in
    let distance := d * cellSize * 2 in
    let spawnX := Qmax 10 (Qmin (width m - 10) (x + cos M angle * distance)) in
    let spawnY := Qmax 10 (Qmin (height m - 10) (y + sin M angle * distance)) in
    spawnFood (Some spawnX) (Some spawnY) m) m.

(** [this.food.filter(particle => particle.update())]: every particle is
    aged, the ones that report [false] are dropped. *)
Fixpoint age_and_filter (l : list Food.t) : list Food.t :=
  match l with
  | [] => []
  | f :: rest =>
      let '(keep, f') := Food.update f in
      if keep then f' :: age_and_filter rest else age_and_filter rest
  end.

(** [update()] *)
Definition update (m : t) : Rand t :=
  let m1 := set_food (age_and_filter (food m)) m in
  let m2 := set_spawnCooldown (spawnCooldown m1 - 1) m1 in
  if Qle_bool (spawnCooldown m2) 0
     && Qlt_bool (inject_Z (Z.of_nat (length (food m2)))) (maxFood m2)
  then
    let* m3 := spawnFood None None m2 in
    ret (set_spawnCooldown (Qmax 1 (60 / spawnRate m3)) m3)
  else ret m2.

(** [getFood()]: the particles not consumed *)
Definition getFood (m : t) : list Food.t :=
  List.filter (fun particle => negb (Food.consumed particle)) (food m).

(** [reset()] *)
Definition reset (m : t) : Rand t :=
  let m1 := set_spawnCooldown 0 (set_food [] m) in
  let initialFoodCount := 50%nat in
  for_loop initialFoodCount 0 (fun _ m => spawnFood None None m) m1.

End FoodManager.
(** ** Cells (class Cell): data

    A cell object is identified by [cell_id], the key under which the store
    holds it.  The [id] the constructor builds is the string
    [cell_<milliseconds>_<draw>], never a numeral; the model takes the ids
    of distinct objects to be distinct and lets the key stand for the id
    as well, so a cell carries no separate id field. *)

Definition cell_id := nat.
Definition colony_id := nat.

Inductive Shape := circle | triangle | square | hexagon | oval | star | diamond.
Inductive Defense :=
  | spikes | poison | armor | regen | camo
  | shield | electric | magnetic | phase | swarm
  | mimic | explosive | viral | barrier | reflect.
Inductive Ability :=
  | none | photosynthesis | parasite | pack_hunter | territorial
  | migratory | burrowing | leaping | splitting | fusion
  | time_dilation | energy_vampire | shape_shift | invisibility.
Inductive Metabolism := normal | efficient | burst | parasitic | photosynthetic.
Inductive Social :=
  | solitary | cooperative | aggressive | territorial_social | pack.
Inductive Lifestage := juvenile | adult | elder.
Inductive Role := sedentary | adventurer.

#[global] Instance Shape_eq_dec : EqDecision Shape.
Proof. solve_decision. Defined.
#[global] Instance Defense_eq_dec : EqDecision Defense.
Proof. solve_decision. Defined.
#[global] Instance Ability_eq_dec : EqDecision Ability.
Proof. solve_decision. Defined.
#[global] Instance Metabolism_eq_dec : EqDecision Metabolism.
Proof. solve_decision. Defined.
#[global] Instance Social_eq_dec : EqDecision Social.
Proof. solve_decision. Defined.
#[global] Instance Lifestage_eq_dec : EqDecision Lifestage.
Proof. solve_decision. Defined.
#[global] Instance Role_eq_dec : EqDecision Role.
Proof. solve_decision. Defined.

(** [cell.traits] *)
Module Traits.


Record t := mk {
  health : Q;
  maxHealth : Q;
  size : Q;
  speed : Q;
  energy : Q;
  maxEnergy : Q;
  shape : Shape;
  defenseType : Defense;
  specialAbility : Ability;
  metabolismType : Metabolism;
  socialBehavior : Social;
  lifestage : Lifestage;
  temperatureTolerance : Q;
  acidTolerance : Q;
  radiationResistance : Q;
  visionRange : Q;
  communicationRange : Q;
  pheromoneProduction : Q;
  toxinResistance : Q;
  magneticSensitivity : Q;
  electrogenesis : Q;
  generation : option Z;   (* the key mutate adds; absent on seeded cells' own traits *)
  aggression : option Q;   (* read by the continuous-mode orchestrator; absent unless passed in *)
  socialIntelligence : option Q;
  altruism : option Q
}.

Definition set_health (v : Q) (r : t) : t :=
  mk v (maxHealth r) (size r) (speed r) (energy r) (maxEnergy r) (shape r)
     (defenseType r) (specialAbility r) (metabolismType r) (socialBehavior r)
     (lifestage r) (temperatureTolerance r) (acidTolerance r)
     (radiationResistance r) (visionRange r) (communicationRange r)
     (pheromoneProduction r) (toxinResistance r) (magneticSensitivity r)
     (electrogenesis r) (generation r) (aggression r) (socialIntelligence r)
     (altruism r).
Definition set_maxHealth (v : Q) (r : t) : t :=
  mk (health r) v (size r) (speed r) (energy r) (maxEnergy r) (shape r)
     (defenseType r) (specialAbility r) (metabolismType r) (socialBehavior r)
     (lifestage r) (temperatureTolerance r) (acidTolerance r)
     (radiationResistance r) (visionRange r) (communicationRange r)
     (pheromoneProduction r) (toxinResistance r) (magneticSensitivity r)
     (electrogenesis r) (generation r) (aggression r) (socialIntelligence r)
     (altruism r).
Definition set_size (v : Q) (r : t) : t :=
  mk (health r) (maxHealth r) v (speed r) (energy r) (maxEnergy r) (shape r)
     (defenseType r) (specialAbility r) (metabolismType r) (socialBehavior r)
     (lifestage r) (temperatureTolerance r) (acidTolerance r)
     (radiationResistance r) (visionRange r) (communicationRange r)
     (pheromoneProduction r) (toxinResistance r) (magneticSensitivity r)
     (electrogenesis r) (generation r) (aggression r) (socialIntelligence r)
     (altruism r).
Definition set_speed (v : Q) (r : t) : t :=
  mk (health r) (maxHealth r) (size r) v (energy r) (maxEnergy r) (shape r)
     (defenseType r) (specialAbility r) (metabolismType r) (socialBehavior r)
     (lifestage r) (temperatureTolerance r) (acidTolerance r)
     (radiationResistance r) (visionRange r) (communicationRange r)
     (pheromoneProduction r) (toxinResistance r) (magneticSensitivity r)
     (electrogenesis r) (generation r) (aggression r) (socialIntelligence r)
     (altruism r).
Definition set_energy (v : Q) (r : t) : t :=
  mk (health r) (maxHealth r) (size r) (speed r) v (maxEnergy r) (shape r)
     (defenseType r) (specialAbility r) (metabolismType r) (socialBehavior r)
     (lifestage r) (temperatureTolerance r) (acidTolerance r)
     (radiationResistance r) (visionRange r) (communicationRange r)
     (pheromoneProduction r) (toxinResistance r) (magneticSensitivity r)
     (electrogenesis r) (generation r) (aggression r) (socialIntelligence r)
     (altruism r).
Definition set_maxEnergy (v : Q) (r : t) : t :=
  mk (health r) (maxHealth r) (size r) (speed r) (energy r) v (shape r)
     (defenseType r) (specialAbility r) (metabolismType r) (socialBehavior r)
     (lifestage r) (temperatureTolerance r) (acidTolerance r)
     (radiationResistance r) (visionRange r) (communicationRange r)
     (pheromoneProduction r) (toxinResistance r) (magneticSensitivity r)
     (electrogenesis r) (generation r) (aggression r) (socialIntelligence r)
     (altruism r).
Definition set_shape (v : Shape) (r : t) : t :=
  mk (health r) (maxHealth r) (size r) (speed r) (energy r) (maxEnergy r) v
     (defenseType r) (specialAbility r) (metabolismType r) (socialBehavior r)
     (lifestage r) (temperatureTolerance r) (acidTolerance r)
     (radiationResistance r) (visionRange r) (communicationRange r)
     (pheromoneProduction r) (toxinResistance r) (magneticSensitivity r)
     (electrogenesis r) (generation r) (aggression r) (socialIntelligence r)
     (altruism r).
Definition set_defenseType (v : Defense) (r : t) : t :=
  mk (health r) (maxHealth r) (size r) (speed r) (energy r) (maxEnergy r)
     (shape r) v (specialAbility r) (metabolismType r) (socialBehavior r)
     (lifestage r) (temperatureTolerance r) (acidTolerance r)
     (radiationResistance r) (visionRange r) (communicationRange r)
     (pheromoneProduction r) (toxinResistance r) (magneticSensitivity r)
     (electrogenesis r) (generation r) (aggression r) (socialIntelligence r)
     (altruism r).
Definition set_specialAbility (v : Ability) (r : t) : t :=
  mk (health r) (maxHealth r) (size r) (speed r) (energy r) (maxEnergy r)
     (shape r) (defenseType r) v (metabolismType r) (socialBehavior r)
     (lifestage r) (temperatureTolerance r) (acidTolerance r)
     (radiationResistance r) (visionRange r) (communicationRange r)
     (pheromoneProduction r) (toxinResistance r) (magneticSensitivity r)
     (electrogenesis r) (generation r) (aggression r) (socialIntelligence r)
     (altruism r).
Definition set_metabolismType (v : Metabolism) (r : t) : t :=
  mk (health r) (maxHealth r) (size r) (speed r) (energy r) (maxEnergy r)
     (shape r) (defenseType r) (specialAbility r) v (socialBehavior r)
     (lifestage r) (temperatureTolerance r) (acidTolerance r)
     (radiationResistance r) (visionRange r) (communicationRange r)
     (pheromoneProduction r) (toxinResistance r) (magneticSensitivity r)
     (electrogenesis r) (generation r) (aggression r) (socialIntelligence r)
     (altruism r).
Definition set_socialBehavior (v : Social) (r : t) : t :=
  mk (health r) (maxHealth r) (size r) (speed r) (energy r) (maxEnergy r)
     (shape r) (defenseType r) (specialAbility r) (metabolismType r) v
     (lifestage r) (temperatureTolerance r) (acidTolerance r)
     (radiationResistance r) (visionRange r) (communicationRange r)
     (pheromoneProduction r) (toxinResistance r) (magneticSensitivity r)
     (electrogenesis r) (generation r) (aggression r) (socialIntelligence r)
     (altruism r).
Definition set_lifestage (v : Lifestage) (r : t) : t :=
  mk (health r) (maxHealth r) (size r) (speed r) (energy r) (maxEnergy r)
     (shape r) (defenseType r) (specialAbility r) (metabolismType r)
     (socialBehavior r) v (temperatureTolerance r) (acidTolerance r)
     (radiationResistance r) (visionRange r) (communicationRange r)
     (pheromoneProduction r) (toxinResistance r) (magneticSensitivity r)
     (electrogenesis r) (generation r) (aggression r) (socialIntelligence r)
     (altruism r).
Definition set_temperatureTolerance (v : Q) (r : t) : t :=
  mk (health r) (maxHealth r) (size r) (speed r) (energy r) (maxEnergy r)
     (shape r) (defenseType r) (specialAbility r) (metabolismType r)
     (socialBehavior r) (lifestage r) v (acidTolerance r)
     (radiationResistance r) (visionRange r) (communicationRange r)
     (pheromoneProduction r) (toxinResistance r) (magneticSensitivity r)
     (electrogenesis r) (generation r) (aggression r) (socialIntelligence r)
     (altruism r).
Definition set_acidTolerance (v : Q) (r : t) : t :=
  mk (health r) (maxHealth r) (size r) (speed r) (energy r) (maxEnergy r)
     (shape r) (defenseType r) (specialAbility r) (metabolismType r)
     (socialBehavior r) (lifestage r) (temperatureTolerance r) v
     (radiationResistance r) (visionRange r) (communicationRange r)
     (pheromoneProduction r) (toxinResistance r) (magneticSensitivity r)
     (electrogenesis r) (generation r) (aggression r) (socialIntelligence r)
     (altruism r).
Definition set_radiationResistance (v : Q) (r : t) : t :=
  mk (health r) (maxHealth r) (size r) (speed r) (energy r) (maxEnergy r)
     (shape r) (defenseType r) (specialAbility r) (metabolismType r)
     (socialBehavior r) (lifestage r) (temperatureTolerance r)
     (acidTolerance r) v (visionRange r) (communicationRange r)
     (pheromoneProduction r) (toxinResistance r) (magneticSensitivity r)
     (electrogenesis r) (generation r) (aggression r) (socialIntelligence r)
     (altruism r).
Definition set_visionRange (v : Q) (r : t) : t :=
  mk (health r) (maxHealth r) (size r) (speed r) (energy r) (maxEnergy r)
     (shape r) (defenseType r) (specialAbility r) (metabolismType r)
     (socialBehavior r) (lifestage r) (temperatureTolerance r)
     (acidTolerance r) (radiationResistance r) v (communicationRange r)
     (pheromoneProduction r) (toxinResistance r) (magneticSensitivity r)
     (electrogenesis r) (generation r) (aggression r) (socialIntelligence r)
     (altruism r).
Definition set_communicationRange (v : Q) (r : t) : t :=
  mk (health r) (maxHealth r) (size r) (speed r) (energy r) (maxEnergy r)
     (shape r) (defenseType r) (specialAbility r) (metabolismType r)
     (socialBehavior r) (lifestage r) (temperatureTolerance r)
     (acidTolerance r) (radiationResistance r) (visionRange r) v
     (pheromoneProduction r) (toxinResistance r) (magneticSensitivity r)
     (electrogenesis r) (generation r) (aggression r) (socialIntelligence r)
     (altruism r).
Definition set_pheromoneProduction (v : Q) (r : t) : t :=
  mk (health r) (maxHealth r) (size r) (speed r) (energy r) (maxEnergy r)
     (shape r) (defenseType r) (specialAbility r) (metabolismType r)
     (socialBehavior r) (lifestage r) (temperatureTolerance r)
     (acidTolerance r) (radiationResistance r) (visionRange r)
     (communicationRange r) v (toxinResistance r) (magneticSensitivity r)
     (electrogenesis r) (generation r) (aggression r) (socialIntelligence r)
     (altruism r).
Definition set_toxinResistance (v : Q) (r : t) : t :=
  mk (health r) (maxHealth r) (size r) (speed r) (energy r) (maxEnergy r)
     (shape r) (defenseType r) (specialAbility r) (metabolismType r)
     (socialBehavior r) (lifestage r) (temperatureTolerance r)
     (acidTolerance r) (radiationResistance r) (visionRange r)
     (communicationRange r) (pheromoneProduction r) v (magneticSensitivity r)
     (electrogenesis r) (generation r) (aggression r) (socialIntelligence r)
     (altruism r).
Definition set_magneticSensitivity (v : Q) (r : t) : t :=
  mk (health r) (maxHealth r) (size r) (speed r) (energy r) (maxEnergy r)
     (shape r) (defenseType r) (specialAbility r) (metabolismType r)
     (socialBehavior r) (lifestage r) (temperatureTolerance r)
     (acidTolerance r) (radiationResistance r) (visionRange r)
     (communicationRange r) (pheromoneProduction r) (toxinResistance r) v
     (electrogenesis r) (generation r) (aggression r) (socialIntelligence r)
     (altruism r).
Definition set_electrogenesis (v : Q) (r : t) : t :=
  mk (health r) (maxHealth r) (size r) (speed r) (energy r) (maxEnergy r)
     (shape r) (defenseType r) (specialAbility r) (metabolismType r)
     (socialBehavior r) (lifestage r) (temperatureTolerance r)
     (acidTolerance r) (radiationResistance r) (visionRange r)
     (communicationRange r) (pheromoneProduction r) (toxinResistance r)
     (magneticSensitivity r) v (generation r) (aggression r)
     (socialIntelligence r) (altruism r).
Definition set_generation (v : option Z) (r : t) : t :=
  mk (health r) (maxHealth r) (size r) (speed r) (energy r) (maxEnergy r)
     (shape r) (defenseType r) (specialAbility r) (metabolismType r)
     (socialBehavior r) (lifestage r) (temperatureTolerance r)
     (acidTolerance r) (radiationResistance r) (visionRange r)
     (communicationRange r) (pheromoneProduction r) (toxinResistance r)
     (magneticSensitivity r) (electrogenesis r) v (aggression r)
     (socialIntelligence r) (altruism r).
Definition set_aggression (v : option Q) (r : t) : t :=
  mk (health r) (maxHealth r) (size r) (speed r) (energy r) (maxEnergy r)
     (shape r) (defenseType r) (specialAbility r) (metabolismType r)
     (socialBehavior r) (lifestage r) (temperatureTolerance r)
     (acidTolerance r) (radiationResistance r) (visionRange r)
     (communicationRange r) (pheromoneProduction r) (toxinResistance r)
     (magneticSensitivity r) (electrogenesis r) (generation r) v
     (socialIntelligence r) (altruism r).
Definition set_socialIntelligence (v : option Q) (r : t) : t :=
  mk (health r) (maxHealth r) (size r) (speed r) (energy r) (maxEnergy r)
     (shape r) (defenseType r) (specialAbility r) (metabolismType r)
     (socialBehavior r) (lifestage r) (temperatureTolerance r)
     (acidTolerance r) (radiationResistance r) (visionRange r)
     (communicationRange r) (pheromoneProduction r) (toxinResistance r)
     (magneticSensitivity r) (electrogenesis r) (generation r) (aggression r)
     v (altruism r).
Definition set_altruism (v : option Q) (r : t) : t :=
  mk (health r) (maxHealth r) (size r) (speed r) (energy r) (maxEnergy r)
     (shape r) (defenseType r) (specialAbility r) (metabolismType r)
     (socialBehavior r) (lifestage r) (temperatureTolerance r)
     (acidTolerance r) (radiationResistance r) (visionRange r)
     (communicationRange r) (pheromoneProduction r) (toxinResistance r)
     (magneticSensitivity r) (electrogenesis r) (generation r) (aggression r)
     (socialIntelligence r) v.

End Traits.

(** [cell.defenseStates] *)
Module DefenseStates.


Record t := mk {
  poisonAura : Q;
  regenCooldown : Q;
  camouflageActive : Q;
  spikesDamage : Q;
  shieldEnergy : Q;
  electricCharge : Q;
  magneticField : Q;
  phaseShift : Q;
  swarmSignal : Q;
  explosivePower : Q;
  viralLoad : Q;
  reflectCharge : option Q;   (* never initialised by the constructor: undefined *)
  parasiteHost : option cell_id;
  packMembers : list cell_id;
  territoryRadius : Q;
  migrationTarget : option (Q * Q)
}.

Definition set_poisonAura (v : Q) (r : t) : t :=
  mk v (regenCooldown r) (camouflageActive r) (spikesDamage r)
     (shieldEnergy r) (electricCharge r) (magneticField r) (phaseShift r)
     (swarmSignal r) (explosivePower r) (viralLoad r) (reflectCharge r)
     (parasiteHost r) (packMembers r) (territoryRadius r)
     (migrationTarget r).
Definition set_regenCooldown (v : Q) (r : t) : t :=
  mk (poisonAura r) v (camouflageActive r) (spikesDamage r) (shieldEnergy r)
     (electricCharge r) (magneticField r) (phaseShift r) (swarmSignal r)
     (explosivePower r) (viralLoad r) (reflectCharge r) (parasiteHost r)
     (packMembers r) (territoryRadius r) (migrationTarget r).
Definition set_camouflageActive (v : Q) (r : t) : t :=
  mk (poisonAura r) (regenCooldown r) v (spikesDamage r) (shieldEnergy r)
     (electricCharge r) (magneticField r) (phaseShift r) (swarmSignal r)
     (explosivePower r) (viralLoad r) (reflectCharge r) (parasiteHost r)
     (packMembers r) (territoryRadius r) (migrationTarget r).
Definition set_spikesDamage (v : Q) (r : t) : t :=
  mk (poisonAura r) (regenCooldown r) (camouflageActive r) v (shieldEnergy r)
     (electricCharge r) (magneticField r) (phaseShift r) (swarmSignal r)
     (explosivePower r) (viralLoad r) (reflectCharge r) (parasiteHost r)
     (packMembers r) (territoryRadius r) (migrationTarget r).
Definition set_shieldEnergy (v : Q) (r : t) : t :=
  mk (poisonAura r) (regenCooldown r) (camouflageActive r) (spikesDamage r) v
     (electricCharge r) (magneticField r) (phaseShift r) (swarmSignal r)
     (explosivePower r) (viralLoad r) (reflectCharge r) (parasiteHost r)
     (packMembers r) (territoryRadius r) (migrationTarget r).
Definition set_electricCharge (v : Q) (r : t) : t :=
  mk (poisonAura r) (regenCooldown r) (camouflageActive r) (spikesDamage r)
     (shieldEnergy r) v (magneticField r) (phaseShift r) (swarmSignal r)
     (explosivePower r) (viralLoad r) (reflectCharge r) (parasiteHost r)
     (packMembers r) (territoryRadius r) (migrationTarget r).
Definition set_magneticField (v : Q) (r : t) : t :=
  mk (poisonAura r) (regenCooldown r) (camouflageActive r) (spikesDamage r)
     (shieldEnergy r) (electricCharge r) v (phaseShift r) (swarmSignal r)
     (explosivePower r) (viralLoad r) (reflectCharge r) (parasiteHost r)
     (packMembers r) (territoryRadius r) (migrationTarget r).
Definition set_phaseShift (v : Q) (r : t) : t :=
  mk (poisonAura r) (regenCooldown r) (camouflageActive r) (spikesDamage r)
     (shieldEnergy r) (electricCharge r) (magneticField r) v (swarmSignal r)
     (explosivePower r) (viralLoad r) (reflectCharge r) (parasiteHost r)
     (packMembers r) (territoryRadius r) (migrationTarget r).
Definition set_swarmSignal (v : Q) (r : t) : t :=
  mk (poisonAura r) (regenCooldown r) (camouflageActive r) (spikesDamage r)
     (shieldEnergy r) (electricCharge r) (magneticField r) (phaseShift r) v
     (explosivePower r) (viralLoad r) (reflectCharge r) (parasiteHost r)
     (packMembers r) (territoryRadius r) (migrationTarget r).
Definition set_explosivePower (v : Q) (r : t) : t :=
  mk (poisonAura r) (regenCooldown r) (camouflageActive r) (spikesDamage r)
     (shieldEnergy r) (electricCharge r) (magneticField r) (phaseShift r)
     (swarmSignal r) v (viralLoad r) (reflectCharge r) (parasiteHost r)
     (packMembers r) (territoryRadius r) (migrationTarget r).
Definition set_viralLoad (v : Q) (r : t) : t :=
  mk (poisonAura r) (regenCooldown r) (camouflageActive r) (spikesDamage r)
     (shieldEnergy r) (electricCharge r) (magneticField r) (phaseShift r)
     (swarmSignal r) (explosivePower r) v (reflectCharge r) (parasiteHost r)
     (packMembers r) (territoryRadius r) (migrationTarget r).
Definition set_reflectCharge (v : option Q) (r : t) : t :=
  mk (poisonAura r) (regenCooldown r) (camouflageActive r) (spikesDamage r)
     (shieldEnergy r) (electricCharge r) (magneticField r) (phaseShift r)
     (swarmSignal r) (explosivePower r) (viralLoad r) v (parasiteHost r)
     (packMembers r) (territoryRadius r) (migrationTarget r).
Definition set_parasiteHost (v : option cell_id) (r : t) : t :=
  mk (poisonAura r) (regenCooldown r) (camouflageActive r) (spikesDamage r)
     (shieldEnergy r) (electricCharge r) (magneticField r) (phaseShift r)
     (swarmSignal r) (explosivePower r) (viralLoad r) (reflectCharge r) v
     (packMembers r) (territoryRadius r) (migrationTarget r).
Definition set_packMembers (v : list cell_id) (r : t) : t :=
  mk (poisonAura r) (regenCooldown r) (camouflageActive r) (spikesDamage r)
     (shieldEnergy r) (electricCharge r) (magneticField r) (phaseShift r)
     (swarmSignal r) (explosivePower r) (viralLoad r) (reflectCharge r)
     (parasiteHost r) v (territoryRadius r) (migrationTarget r).
Definition set_territoryRadius (v : Q) (r : t) : t :=
  mk (poisonAura r) (regenCooldown r) (camouflageActive r) (spikesDamage r)
     (shieldEnergy r) (electricCharge r) (magneticField r) (phaseShift r)
     (swarmSignal r) (explosivePower r) (viralLoad r) (reflectCharge r)
     (parasiteHost r) (packMembers r) v (migrationTarget r).
Definition set_migrationTarget (v : option (Q * Q)) (r : t) : t :=
  mk (poisonAura r) (regenCooldown r) (camouflageActive r) (spikesDamage r)
     (shieldEnergy r) (electricCharge r) (magneticField r) (phaseShift r)
     (swarmSignal r) (explosivePower r) (viralLoad r) (reflectCharge r)
     (parasiteHost r) (packMembers r) (territoryRadius r) v.

End DefenseStates.

Inductive Target := TargetCell (c : cell_id) | TargetFood (index : nat).

Record Territory := mkTerritory { tx : Q; ty : Q; tradius : Q }.

Module Cell.


Record t := mk {
  x : Q;
  y : Q;
  vx : Q;
  vy : Q;
  radius : Q;
  opacity : Q;
  traits : Traits.t;
  defenseStates : DefenseStates.t;
  age : Z;
  generation : Z;
  reproduced : bool;
  lastReproduction : Z;
  target : option Target;
  territory : option Territory;
  colony : option colony_id;
  bonds : list cell_id;
  maxBonds : nat;
  bondStrength : gmap cell_id Q;
  isColonyFounder : bool;
  colonyRole : Role;
  maturityAge : Q;
  elderAge : Q;
  isInfected : bool;
  infectionTimer : Q;
  infectionSeverity : Q;
  damageTaken : Q;   (* roundStats.damageTaken *)
  combatWins : Z;   (* roundStats.combatWins *)
  foodEaten : Z;   (* roundStats.foodEaten *)
  growthPoints : Q;
  lastFoodTime : option Z;
  fitnessScore : Q
}.

Definition set_x (v : Q) (r : t) : t :=
  mk v (y r) (vx r) (vy r) (radius r) (opacity r) (traits r)
     (defenseStates r) (age r) (generation r) (reproduced r)
     (lastReproduction r) (target r) (territory r) (colony r) (bonds r)
     (maxBonds r) (bondStrength r) (isColonyFounder r) (colonyRole r)
     (maturityAge r) (elderAge r) (isInfected r) (infectionTimer r)
     (infectionSeverity r) (damageTaken r) (combatWins r) (foodEaten r)
     (growthPoints r) (lastFoodTime r) (fitnessScore r).
Definition set_y (v : Q) (r : t) : t :=
  mk (x r) v (vx r) (vy r) (radius r) (opacity r) (traits r)
     (defenseStates r) (age r) (generation r) (reproduced r)
     (lastReproduction r) (target r) (territory r) (colony r) (bonds r)
     (maxBonds r) (bondStrength r) (isColonyFounder r) (colonyRole r)
     (maturityAge r) (elderAge r) (isInfected r) (infectionTimer r)
     (infectionSeverity r) (damageTaken r) (combatWins r) (foodEaten r)
     (growthPoints r) (lastFoodTime r) (fitnessScore r).
Definition set_vx (v : Q) (r : t) : t :=
  mk (x r) (y r) v (vy r) (radius r) (opacity r) (traits r) (defenseStates r)
     (age r) (generation r) (reproduced r) (lastReproduction r) (target r)
     (territory r) (colony r) (bonds r) (maxBonds r) (bondStrength r)
     (isColonyFounder r) (colonyRole r) (maturityAge r) (elderAge r)
     (isInfected r) (infectionTimer r) (infectionSeverity r) (damageTaken r)
     (combatWins r) (foodEaten r) (growthPoints r) (lastFoodTime r)
     (fitnessScore r).
Definition set_vy (v : Q) (r : t) : t :=
  mk (x r) (y r) (vx r) v (radius r) (opacity r) (traits r) (defenseStates r)
     (age r) (generation r) (reproduced r) (lastReproduction r) (target r)
     (territory r) (colony r) (bonds r) (maxBonds r) (bondStrength r)
     (isColonyFounder r) (colonyRole r) (maturityAge r) (elderAge r)
     (isInfected r) (infectionTimer r) (infectionSeverity r) (damageTaken r)
     (combatWins r) (foodEaten r) (growthPoints r) (lastFoodTime r)
     (fitnessScore r).
Definition set_radius (v : Q) (r : t) : t :=
  mk (x r) (y r) (vx r) (vy r) v (opacity r) (traits r) (defenseStates r)
     (age r) (generation r) (reproduced r) (lastReproduction r) (target r)
     (territory r) (colony r) (bonds r) (maxBonds r) (bondStrength r)
     (isColonyFounder r) (colonyRole r) (maturityAge r) (elderAge r)
     (isInfected r) (infectionTimer r) (infectionSeverity r) (damageTaken r)
     (combatWins r) (foodEaten r) (growthPoints r) (lastFoodTime r)
     (fitnessScore r).
Definition set_opacity (v : Q) (r : t) : t :=
  mk (x r) (y r) (vx r) (vy r) (radius r) v (traits r) (defenseStates r)
     (age r) (generation r) (reproduced r) (lastReproduction r) (target r)
     (territory r) (colony r) (bonds r) (maxBonds r) (bondStrength r)
     (isColonyFounder r) (colonyRole r) (maturityAge r) (elderAge r)
     (isInfected r) (infectionTimer r) (infectionSeverity r) (damageTaken r)
     (combatWins r) (foodEaten r) (growthPoints r) (lastFoodTime r)
     (fitnessScore r).
Definition set_traits (v : Traits.t) (r : t) : t :=
  mk (x r) (y r) (vx r) (vy r) (radius r) (opacity r) v (defenseStates r)
     (age r) (generation r) (reproduced r) (lastReproduction r) (target r)
     (territory r) (colony r) (bonds r) (maxBonds r) (bondStrength r)
     (isColonyFounder r) (colonyRole r) (maturityAge r) (elderAge r)
     (isInfected r) (infectionTimer r) (infectionSeverity r) (damageTaken r)
     (combatWins r) (foodEaten r) (growthPoints r) (lastFoodTime r)
     (fitnessScore r).
Definition set_defenseStates (v : DefenseStates.t) (r : t) : t :=
  mk (x r) (y r) (vx r) (vy r) (radius r) (opacity r) (traits r) v (age r)
     (generation r) (reproduced r) (lastReproduction r) (target r)
     (territory r) (colony r) (bonds r) (maxBonds r) (bondStrength r)
     (isColonyFounder r) (colonyRole r) (maturityAge r) (elderAge r)
     (isInfected r) (infectionTimer r) (infectionSeverity r) (damageTaken r)
     (combatWins r) (foodEaten r) (growthPoints r) (lastFoodTime r)
     (fitnessScore r).
Definition set_age (v : Z) (r : t) : t :=
  mk (x r) (y r) (vx r) (vy r) (radius r) (opacity r) (traits r)
     (defenseStates r) v (generation r) (reproduced r) (lastReproduction r)
     (target r) (territory r) (colony r) (bonds r) (maxBonds r)
     (bondStrength r) (isColonyFounder r) (colonyRole r) (maturityAge r)
     (elderAge r) (isInfected r) (infectionTimer r) (infectionSeverity r)
     (damageTaken r) (combatWins r) (foodEaten r) (growthPoints r)
     (lastFoodTime r) (fitnessScore r).
Definition set_generation (v : Z) (r : t) : t :=
  mk (x r) (y r) (vx r) (vy r) (radius r) (opacity r) (traits r)
     (defenseStates r) (age r) v (reproduced r) (lastReproduction r)
     (target r) (territory r) (colony r) (bonds r) (maxBonds r)
     (bondStrength r) (isColonyFounder r) (colonyRole r) (maturityAge r)
     (elderAge r) (isInfected r) (infectionTimer r) (infectionSeverity r)
     (damageTaken r) (combatWins r) (foodEaten r) (growthPoints r)
     (lastFoodTime r) (fitnessScore r).
Definition set_reproduced (v : bool) (r : t) : t :=
  mk (x r) (y r) (vx r) (vy r) (radius r) (opacity r) (traits r)
     (defenseStates r) (age r) (generation r) v (lastReproduction r)
     (target r) (territory r) (colony r) (bonds r) (maxBonds r)
     (bondStrength r) (isColonyFounder r) (colonyRole r) (maturityAge r)
     (elderAge r) (isInfected r) (infectionTimer r) (infectionSeverity r)
     (damageTaken r) (combatWins r) (foodEaten r) (growthPoints r)
     (lastFoodTime r) (fitnessScore r).
Definition set_lastReproduction (v : Z) (r : t) : t :=
  mk (x r) (y r) (vx r) (vy r) (radius r) (opacity r) (traits r)
     (defenseStates r) (age r) (generation r) (reproduced r) v (target r)
     (territory r) (colony r) (bonds r) (maxBonds r) (bondStrength r)
     (isColonyFounder r) (colonyRole r) (maturityAge r) (elderAge r)
     (isInfected r) (infectionTimer r) (infectionSeverity r) (damageTaken r)
     (combatWins r) (foodEaten r) (growthPoints r) (lastFoodTime r)
     (fitnessScore r).
Definition set_target (v : option Target) (r : t) : t :=
  mk (x r) (y r) (vx r) (vy r) (radius r) (opacity r) (traits r)
     (defenseStates r) (age r) (generation r) (reproduced r)
     (lastReproduction r) v (territory r) (colony r) (bonds r) (maxBonds r)
     (bondStrength r) (isColonyFounder r) (colonyRole r) (maturityAge r)
     (elderAge r) (isInfected r) (infectionTimer r) (infectionSeverity r)
     (damageTaken r) (combatWins r) (foodEaten r) (growthPoints r)
     (lastFoodTime r) (fitnessScore r).
Definition set_territory (v : option Territory) (r : t) : t :=
  mk (x r) (y r) (vx r) (vy r) (radius r) (opacity r) (traits r)
     (defenseStates r) (age r) (generation r) (reproduced r)
     (lastReproduction r) (target r) v (colony r) (bonds r) (maxBonds r)
     (bondStrength r) (isColonyFounder r) (colonyRole r) (maturityAge r)
     (elderAge r) (isInfected r) (infectionTimer r) (infectionSeverity r)
     (damageTaken r) (combatWins r) (foodEaten r) (growthPoints r)
     (lastFoodTime r) (fitnessScore r).
Definition set_colony (v : option colony_id) (r : t) : t :=
  mk (x r) (y r) (vx r) (vy r) (radius r) (opacity r) (traits r)
     (defenseStates r) (age r) (generation r) (reproduced r)
     (lastReproduction r) (target r) (territory r) v (bonds r) (maxBonds r)
     (bondStrength r) (isColonyFounder r) (colonyRole r) (maturityAge r)
     (elderAge r) (isInfected r) (infectionTimer r) (infectionSeverity r)
     (damageTaken r) (combatWins r) (foodEaten r) (growthPoints r)
     (lastFoodTime r) (fitnessScore r).
Definition set_bonds (v : list cell_id) (r : t) : t :=
  mk (x r) (y r) (vx r) (vy r) (radius r) (opacity r) (traits r)
     (defenseStates r) (age r) (generation r) (reproduced r)
     (lastReproduction r) (target r) (territory r) (colony r) v (maxBonds r)
     (bondStrength r) (isColonyFounder r) (colonyRole r) (maturityAge r)
     (elderAge r) (isInfected r) (infectionTimer r) (infectionSeverity r)
     (damageTaken r) (combatWins r) (foodEaten r) (growthPoints r)
     (lastFoodTime r) (fitnessScore r).
Definition set_maxBonds (v : nat) (r : t) : t :=
  mk (x r) (y r) (vx r) (vy r) (radius r) (opacity r) (traits r)
     (defenseStates r) (age r) (generation r) (reproduced r)
     (lastReproduction r) (target r) (territory r) (colony r) (bonds r) v
     (bondStrength r) (isColonyFounder r) (colonyRole r) (maturityAge r)
     (elderAge r) (isInfected r) (infectionTimer r) (infectionSeverity r)
     (damageTaken r) (combatWins r) (foodEaten r) (growthPoints r)
     (lastFoodTime r) (fitnessScore r).
Definition set_bondStrength (v : gmap cell_id Q) (r : t) : t :=
  mk (x r) (y r) (vx r) (vy r) (radius r) (opacity r) (traits r)
     (defenseStates r) (age r) (generation r) (reproduced r)
     (lastReproduction r) (target r) (territory r) (colony r) (bonds r)
     (maxBonds r) v (isColonyFounder r) (colonyRole r) (maturityAge r)
     (elderAge r) (isInfected r) (infectionTimer r) (infectionSeverity r)
     (damageTaken r) (combatWins r) (foodEaten r) (growthPoints r)
     (lastFoodTime r) (fitnessScore r).
Definition set_isColonyFounder (v : bool) (r : t) : t :=
  mk (x r) (y r) (vx r) (vy r) (radius r) (opacity r) (traits r)
     (defenseStates r) (age r) (generation r) (reproduced r)
     (lastReproduction r) (target r) (territory r) (colony r) (bonds r)
     (maxBonds r) (bondStrength r) v (colonyRole r) (maturityAge r)
     (elderAge r) (isInfected r) (infectionTimer r) (infectionSeverity r)
     (damageTaken r) (combatWins r) (foodEaten r) (growthPoints r)
     (lastFoodTime r) (fitnessScore r).
Definition set_colonyRole (v : Role) (r : t) : t :=
  mk (x r) (y r) (vx r) (vy r) (radius r) (opacity r) (traits r)
     (defenseStates r) (age r) (generation r) (reproduced r)
     (lastReproduction r) (target r) (territory r) (colony r) (bonds r)
     (maxBonds r) (bondStrength r) (isColonyFounder r) v (maturityAge r)
     (elderAge r) (isInfected r) (infectionTimer r) (infectionSeverity r)
     (damageTaken r) (combatWins r) (foodEaten r) (growthPoints r)
     (lastFoodTime r) (fitnessScore r).
Definition set_maturityAge (v : Q) (r : t) : t :=
  mk (x r) (y r) (vx r) (vy r) (radius r) (opacity r) (traits r)
     (defenseStates r) (age r) (generation r) (reproduced r)
     (lastReproduction r) (target r) (territory r) (colony r) (bonds r)
     (maxBonds r) (bondStrength r) (isColonyFounder r) (colonyRole r) v
     (elderAge r) (isInfected r) (infectionTimer r) (infectionSeverity r)
     (damageTaken r) (combatWins r) (foodEaten r) (growthPoints r)
     (lastFoodTime r) (fitnessScore r).
Definition set_elderAge (v : Q) (r : t) : t :=
  mk (x r) (y r) (vx r) (vy r) (radius r) (opacity r) (traits r)
     (defenseStates r) (age r) (generation r) (reproduced r)
     (lastReproduction r) (target r) (territory r) (colony r) (bonds r)
     (maxBonds r) (bondStrength r) (isColonyFounder r) (colonyRole r)
     (maturityAge r) v (isInfected r) (infectionTimer r)
     (infectionSeverity r) (damageTaken r) (combatWins r) (foodEaten r)
     (growthPoints r) (lastFoodTime r) (fitnessScore r).
Definition set_isInfected (v : bool) (r : t) : t :=
  mk (x r) (y r) (vx r) (vy r) (radius r) (opacity r) (traits r)
     (defenseStates r) (age r) (generation r) (reproduced r)
     (lastReproduction r) (target r) (territory r) (colony r) (bonds r)
     (maxBonds r) (bondStrength r) (isColonyFounder r) (colonyRole r)
     (maturityAge r) (elderAge r) v (infectionTimer r) (infectionSeverity r)
     (damageTaken r) (combatWins r) (foodEaten r) (growthPoints r)
     (lastFoodTime r) (fitnessScore r).
Definition set_infectionTimer (v : Q) (r : t) : t :=
  mk (x r) (y r) (vx r) (vy r) (radius r) (opacity r) (traits r)
     (defenseStates r) (age r) (generation r) (reproduced r)
     (lastReproduction r) (target r) (territory r) (colony r) (bonds r)
     (maxBonds r) (bondStrength r) (isColonyFounder r) (colonyRole r)
     (maturityAge r) (elderAge r) (isInfected r) v (infectionSeverity r)
     (damageTaken r) (combatWins r) (foodEaten r) (growthPoints r)
     (lastFoodTime r) (fitnessScore r).
Definition set_infectionSeverity (v : Q) (r : t) : t :=
  mk (x r) (y r) (vx r) (vy r) (radius r) (opacity r) (traits r)
     (defenseStates r) (age r) (generation r) (reproduced r)
     (lastReproduction r) (target r) (territory r) (colony r) (bonds r)
     (maxBonds r) (bondStrength r) (isColonyFounder r) (colonyRole r)
     (maturityAge r) (elderAge r) (isInfected r) (infectionTimer r) v
     (damageTaken r) (combatWins r) (foodEaten r) (growthPoints r)
     (lastFoodTime r) (fitnessScore r).
Definition set_damageTaken (v : Q) (r : t) : t :=
  mk (x r) (y r) (vx r) (vy r) (radius r) (opacity r) (traits r)
     (defenseStates r) (age r) (generation r) (reproduced r)
     (lastReproduction r) (target r) (territory r) (colony r) (bonds r)
     (maxBonds r) (bondStrength r) (isColonyFounder r) (colonyRole r)
     (maturityAge r) (elderAge r) (isInfected r) (infectionTimer r)
     (infectionSeverity r) v (combatWins r) (foodEaten r) (growthPoints r)
     (lastFoodTime r) (fitnessScore r).
Definition set_combatWins (v : Z) (r : t) : t :=
  mk (x r) (y r) (vx r) (vy r) (radius r) (opacity r) (traits r)
     (defenseStates r) (age r) (generation r) (reproduced r)
     (lastReproduction r) (target r) (territory r) (colony r) (bonds r)
     (maxBonds r) (bondStrength r) (isColonyFounder r) (colonyRole r)
     (maturityAge r) (elderAge r) (isInfected r) (infectionTimer r)
     (infectionSeverity r) (damageTaken r) v (foodEaten r) (growthPoints r)
     (lastFoodTime r) (fitnessScore r).
Definition set_foodEaten (v : Z) (r : t) : t :=
  mk (x r) (y r) (vx r) (vy r) (radius r) (opacity r) (traits r)
     (defenseStates r) (age r) (generation r) (reproduced r)
     (lastReproduction r) (target r) (territory r) (colony r) (bonds r)
     (maxBonds r) (bondStrength r) (isColonyFounder r) (colonyRole r)
     (maturityAge r) (elderAge r) (isInfected r) (infectionTimer r)
     (infectionSeverity r) (damageTaken r) (combatWins r) v (growthPoints r)
     (lastFoodTime r) (fitnessScore r).
Definition set_growthPoints (v : Q) (r : t) : t :=
  mk (x r) (y r) (vx r) (vy r) (radius r) (opacity r) (traits r)
     (defenseStates r) (age r) (generation r) (reproduced r)
     (lastReproduction r) (target r) (territory r) (colony r) (bonds r)
     (maxBonds r) (bondStrength r) (isColonyFounder r) (colonyRole r)
     (maturityAge r) (elderAge r) (isInfected r) (infectionTimer r)
     (infectionSeverity r) (damageTaken r) (combatWins r) (foodEaten r) v
     (lastFoodTime r) (fitnessScore r).
Definition set_lastFoodTime (v : option Z) (r : t) : t :=
  mk (x r) (y r) (vx r) (vy r) (radius r) (opacity r) (traits r)
     (defenseStates r) (age r) (generation r) (reproduced r)
     (lastReproduction r) (target r) (territory r) (colony r) (bonds r)
     (maxBonds r) (bondStrength r) (isColonyFounder r) (colonyRole r)
     (maturityAge r) (elderAge r) (isInfected r) (infectionTimer r)
     (infectionSeverity r) (damageTaken r) (combatWins r) (foodEaten r)
     (growthPoints r) v (fitnessScore r).
Definition set_fitnessScore (v : Q) (r : t) : t :=
  mk (x r) (y r) (vx r) (vy r) (radius r) (opacity r) (traits r)
     (defenseStates r) (age r) (generation r) (reproduced r)
     (lastReproduction r) (target r) (territory r) (colony r) (bonds r)
     (maxBonds r) (bondStrength r) (isColonyFounder r) (colonyRole r)
     (maturityAge r) (elderAge r) (isInfected r) (infectionTimer r)
     (infectionSeverity r) (damageTaken r) (combatWins r) (foodEaten r)
     (growthPoints r) (lastFoodTime r) v.

Definition health (c : t) : Q := Traits.health (traits c).
Definition maxHealth (c : t) : Q := Traits.maxHealth (traits c).
Definition energy (c : t) : Q := Traits.energy (traits c).
Definition maxEnergy (c : t) : Q := Traits.maxEnergy (traits c).
Definition size (c : t) : Q := Traits.size (traits c).

Definition set_health (v : Q) (c : t) : t := set_traits (Traits.set_health v (traits c)) c.
Definition set_energy (v : Q) (c : t) : t := set_traits (Traits.set_energy v (traits c)) c.
Definition set_maxHealth (v : Q) (c : t) : t :=
  set_traits (Traits.set_maxHealth v (traits c)) c.
Definition set_maxEnergy (v : Q) (c : t) : t :=
  set_traits (Traits.set_maxEnergy v (traits c)) c.

End Cell.

(** ** Mutation (Cell.mutate) *)

Module Mutation.

Definition shapes : list Shape :=
  [circle; triangle; square; hexagon; oval; star; diamond].
Definition defenseTypes : list Defense :=
  [spikes; poison; armor; regen; camo; shield; electric; magnetic; phase;
   swarm; mimic; explosive; viral; barrier; reflect].
Definition abilities : list Ability :=
  [none; photosynthesis; parasite; pack_hunter; territorial; migratory;
   burrowing; leaping; splitting; fusion; time_dilation; energy_vampire;
   shape_shift; invisibility].
Definition metabolismTypes : list Metabolism :=
  [normal; efficient; burst; parasitic; photosynthetic].
Definition socialBehaviors : list Social :=
  [solitary; cooperative; aggressive; territorial_social; pack].

(** [list[Math.floor(Math.random() * list.length)]]; the index is in range
    for every draw in [0, 1), the default stands for no draw at all. *)
Definition pick {A} (l : list A) (default : A) : Rand A :=
  let* r := random in
  ret (nth (Z.to_nat (floor (r * inject_Z (Z.of_nat (length l))))) l default).

Definition randomShape : Rand Shape := pick shapes circle.
Definition randomDefenseType : Rand Defense := pick defenseTypes spikes.
Definition randomSpecialAbility : Rand Ability := pick abilities none.
Definition randomMetabolismType : Rand Metabolism := pick metabolismTypes normal.
Definition randomSocialBehavior : Rand Social := pick socialBehaviors solitary.

(** [if (Math.random() < p) { ... }] *)
Definition roll (p : Q) (body : Traits.t -> Rand Traits.t) (t : Traits.t)
  : Rand Traits.t :=
  let* r := random in
  if Qlt_bool r p then body t else ret t.

(** [Math.max(lo, Math.min(hi, v + (Math.random() - 0.5) * span))] *)
Definition perturb (lo hi span v : Q) : Rand Q :=
  let* r := random in ret (clamp lo hi (v + (r - 0.5) * span)).

Definition mutate_size (rate : Q) : Traits.t -> Rand Traits.t :=
  roll rate (fun t =>
    let* v := perturb 4 20 4 (Traits.size t) in ret (Traits.set_size v t)).

Definition mutate_speed (rate : Q) : Traits.t -> Rand Traits.t :=
  roll rate (fun t =>
    let* v := perturb 0.2 3 0.6 (Traits.speed t) in ret (Traits.set_speed v t)).

Definition mutate_health (rate : Q) : Traits.t -> Rand Traits.t :=
  roll rate (fun t =>
    let* v := perturb 40 160 20 (Traits.maxHealth t) in
    ret (Traits.set_health v (Traits.set_maxHealth v t))).

Definition mutate_energy (rate : Q) : Traits.t -> Rand Traits.t :=
  roll rate (fun t =>
    let* v := perturb 40 120 20 (Traits.maxEnergy t) in
    ret (Traits.set_energy (v * 0.8) (Traits.set_maxEnergy v t))).

Definition mutate_shape (rate : Q) : Traits.t -> Rand Traits.t :=
  roll (rate * 0.3) (fun t =>
    let* s := randomShape in ret (Traits.set_shape s t)).

Definition mutate_defenseType (rate : Q) : Traits.t -> Rand Traits.t :=
  roll (rate * 0.4) (fun t =>
    let* d := randomDefenseType in ret (Traits.set_defenseType d t)).

Definition mutate_specialAbility (rate : Q) : Traits.t -> Rand Traits.t :=
  roll (rate * 0.3) (fun t =>
    let* a := randomSpecialAbility in ret (Traits.set_specialAbility a t)).

Definition mutate_metabolismType (rate : Q) : Traits.t -> Rand Traits.t :=
  roll (rate * 0.2) (fun t =>
    let* m := randomMetabolismType in ret (Traits.set_metabolismType m t)).

Definition mutate_socialBehavior (rate : Q) : Traits.t -> Rand Traits.t :=
  roll (rate * 0.25) (fun t =>
    let* s := randomSocialBehavior in ret (Traits.set_socialBehavior s t)).

Definition mutate_temperatureTolerance (rate : Q) : Traits.t -> Rand Traits.t :=
  roll rate (fun t =>
    let* v := perturb 0.1 0.9 0.2 (Traits.temperatureTolerance t) in
    ret (Traits.set_temperatureTolerance v t)).

Definition mutate_acidTolerance (rate : Q) : Traits.t -> Rand Traits.t :=
  roll rate (fun t =>
    let* v := perturb 0.1 0.9 0.2 (Traits.acidTolerance t) in
    ret (Traits.set_acidTolerance v t)).

Definition mutate_radiationResistance (rate : Q) : Traits.t -> Rand Traits.t :=
  roll rate (fun t =>
    let* v := perturb 0.05 0.8 0.15 (Traits.radiationResistance t) in
    ret (Traits.set_radiationResistance v t)).

Definition mutate_visionRange (rate : Q) : Traits.t -> Rand Traits.t :=
  roll rate (fun t =>
    let* v := perturb 20 120 20 (Traits.visionRange t) in
    ret (Traits.set_visionRange v t)).

Definition mutate_communicationRange (rate : Q) : Traits.t -> Rand Traits.t :=
  roll rate (fun t =>
    let* v := perturb 15 100 15 (Traits.communicationRange t) in
    ret (Traits.set_communicationRange v t)).

Definition mutate_pheromoneProduction (rate : Q) : Traits.t -> Rand Traits.t :=
  roll rate (fun t =>
    let* v := perturb 0 0.8 0.2 (Traits.pheromoneProduction t) in
    ret (Traits.set_pheromoneProduction v t)).

Definition mutate_toxinResistance (rate : Q) : Traits.t -> Rand Traits.t :=
  roll rate (fun t =>
    let* v := perturb 0 0.9 0.2 (Traits.toxinResistance t) in
    ret (Traits.set_toxinResistance v t)).

Definition mutate_magneticSensitivity (rate : Q) : Traits.t -> Rand Traits.t :=
  roll rate (fun t =>
    let* v := perturb 0 0.8 0.15 (Traits.magneticSensitivity t) in
    ret (Traits.set_magneticSensitivity v t)).

Definition mutate_electrogenesis (rate : Q) : Traits.t -> Rand Traits.t :=
  roll rate (fun t =>
    let* v := perturb 0 0.6 0.1 (Traits.electrogenesis t) in
    ret (Traits.set_electrogenesis v t)).

(** [mutate(mutationRate)]: the blocks of the source, in its order. *)
Definition mutate (c : Cell.t) (mutationRate : Q) : Rand Traits.t :=
  let newTraits :=
    Traits.set_generation (Some (Cell.generation c + 1)%Z) (Cell.traits c) in
  let* t := mutate_size mutationRate newTraits in
  let* t := mutate_speed mutationRate t in
  let* t := mutate_health mutationRate t in
  let* t := mutate_energy mutationRate t in
  let* t := mutate_shape mutationRate t in
  let* t := mutate_defenseType mutationRate t in
  let* t := mutate_specialAbility mutationRate t in
  let* t := mutate_metabolismType mutationRate t in
  let* t := mutate_socialBehavior mutationRate t in
  let* t := mutate_temperatureTolerance mutationRate t in
  let* t := mutate_acidTolerance mutationRate t in
  let* t := mutate_radiationResistance mutationRate t in
  let* t := mutate_visionRange mutationRate t in
  let* t := mutate_communicationRange mutationRate t in
  let* t := mutate_pheromoneProduction mutationRate t in
  let* t := mutate_toxinResistance mutationRate t in
  let* t := mutate_magneticSensitivity mutationRate t in
  let* t := mutate_electrogenesis mutationRate t in
  ret t.

(** The bands the source clamps the numeric traits to. *)
Definition within_bands (t : Traits.t) : Prop :=
  4 <= Traits.size t <= 20 /\
  0.2 <= Traits.speed t <= 3 /\
  40 <= Traits.maxHealth t <= 160 /\
  40 <= Traits.maxEnergy t <= 120 /\
  0.1 <= Traits.temperatureTolerance t <= 0.9 /\
  0.1 <= Traits.acidTolerance t <= 0.9 /\
  0.05 <= Traits.radiationResistance t <= 0.8 /\
  20 <= Traits.visionRange t <= 120 /\
  15 <= Traits.communicationRange t <= 100 /\
  0 <= Traits.pheromoneProduction t <= 0.8 /\
  0 <= Traits.toxinResistance t <= 0.9.

End Mutation.

(** ** Reproduction eligibility (Cell.considerReproduction) *)

Module Reproduction.

(** [this.colony && this.colony.members.length < 15]; the argument is the
    member count of the cell's colony, if it has one. *)
Definition inGrowingColony (members : option nat) : bool :=
  match members with
  | Some n => (n <? 15)%nat
  | None => false
  end.

Definition energyRatio (c : Cell.t) : Q := Cell.energy c / Cell.maxEnergy c.
Definition healthRatio (c : Cell.t) : Q := Cell.health c / Cell.maxHealth c.

(** The two locals [reproductionCooldown] and [energyThreshold], after all
    the adjustments of the source, in its order. *)
Definition cooldownAndThreshold (members : option nat) (c : Cell.t) : Q * Q :=
  let cd := 400 in
  let th := 0.75 in
  let '(cd, th) :=
    if Qlt_bool 0.85 (energyRatio c) then (180, 0.8) else (cd, th) in
  let '(cd, th) :=
    if Qlt_bool 0.95 (energyRatio c) then (100, 0.85) else (cd, th) in
  let '(cd, th) :=
    if inGrowingColony members then (cd * 0.6, th - 0.05) else (cd, th) in
  let '(cd, th) :=
    if decide (Cell.colonyRole c = sedentary)
    then (cd * 0.4, th - 0.1) else (cd, th) in
  let cd := if Qlt_bool 0.9 (healthRatio c) then cd * 0.7 else cd in
  let cd :=
    if decide (Traits.lifestage (Cell.traits c) = adult) then cd * 0.6 else cd in
  let cd :=
    if decide (Traits.lifestage (Cell.traits c) = elder) then cd * 1.3 else cd in
  let cd :=
    if decide (Traits.lifestage (Cell.traits c) = adult) then cd * 0.7 else cd in
  (cd, th).

Definition reproductionCooldown (members : option nat) (c : Cell.t) : Q :=
  fst (cooldownAndThreshold members c).
Definition energyThreshold (members : option nat) (c : Cell.t) : Q :=
  snd (cooldownAndThreshold members c).

Definition timeSinceLastReproduction (c : Cell.t) : Z :=
  (Cell.age c - Cell.lastReproduction c)%Z.

(** The condition of the final [if]: the call succeeds exactly when it holds. *)
Definition ready (members : option nat) (c : Cell.t) : bool :=
  Qlt_bool (reproductionCooldown members c)
           (inject_Z (timeSinceLastReproduction c))
  && Qlt_bool (energyThreshold members c) (energyRatio c)
  && Qlt_bool 0.5 (healthRatio c).

(** [createOffspring()] returns [null]. *)
Definition createOffspring (c : Cell.t) : option Cell.t := None.

(** [handleRoleBasedReproduction()]: both role branches act only on a
    non-null offspring, and [createOffspring] never returns one. *)
Definition handleRoleBasedReproduction (c : Cell.t) : Cell.t :=
  match createOffspring c with
  | Some _ => c
  | None => c
  end.

(** [considerReproduction()].  [addReproductionEffect] only pushes render
    particles and is left out. *)
Definition considerReproduction (members : option nat) (c : Cell.t) : Cell.t :=
  if ready members c then
    let c1 := Cell.set_reproduced true c in
    let c2 := Cell.set_lastReproduction (Cell.age c1) c1 in
    let energyCost := if Qlt_bool 0.95 (energyRatio c) then 0.7 else 0.6 in
    let c3 := Cell.set_energy (Cell.energy c2 * energyCost) c2 in
    handleRoleBasedReproduction c3
  else c.

End Reproduction.

(** ** The shared store *)

(** How a method ends: by returning, or by throwing TypeError. *)
Inductive Completion (A : Type) := Normal (a : A) | TypeError.
Arguments Normal {A} a.
Arguments TypeError {A}.

Record Bond := mkBond {
  cell1 : cell_id;
  cell2 : cell_id;
  strength : Q;
  bondAge : Z
}.

(** A colony object.  Its [structure] (centre of mass and radius) is an
    aggregate for rendering that no modelled function reads; it is left
    out, and so is [updateStructure], which writes nothing else. *)
Record ColonyData := mkColony {
  members : list cell_id;
  founder : cell_id;
  bondMap : gmap string Bond;      (* this.bonds *)
  sharedEnergy : Q                 (* this.sharedResources.energy *)
}.

Record World := mkWorld {
  cells : gmap cell_id Cell.t;          (* every Cell object, by identity *)
  colonies : gmap colony_id ColonyData; (* every Colony object, by identity *)
  foodManager : FoodManager.t;
  rng : Rng
}.

Definition set_cells (v : gmap cell_id Cell.t) (w : World) : World :=
  mkWorld v (colonies w) (foodManager w) (rng w).
Definition set_colonies (v : gmap colony_id ColonyData) (w : World) : World :=
  mkWorld (cells w) v (foodManager w) (rng w).
Definition set_foodManager (v : FoodManager.t) (w : World) : World :=
  mkWorld (cells w) (colonies w) v (rng w).
Definition set_rng (v : Rng) (w : World) : World :=
  mkWorld (cells w) (colonies w) (foodManager w) v.

(** A mutation of the object behind a key. *)
Definition modify_cell (c : cell_id) (f : Cell.t -> Cell.t) (w : World) : World :=
  set_cells (alter f c (cells w)) w.
Definition modify_colony (k : colony_id) (f : ColonyData -> ColonyData)
    (w : World) : World :=
  set_colonies (alter f k (colonies w)) w.

(** A draw made by code that runs on the world. *)
Definition draw : State World Q :=
  fun w => let '(r, g) := random (rng w) in (r, set_rng g w).

(** [Math.sqrt((b.x - a.x) ** 2 + (b.y - a.y) ** 2)], i.e. [a.distanceTo(b)] *)
Definition distanceTo (M : MathLib) (a b : Cell.t) : Q :=
  sqrt M ((Cell.x b - Cell.x a) * (Cell.x b - Cell.x a)
          + (Cell.y b - Cell.y a) * (Cell.y b - Cell.y a)).

(** ** Colonies (class Colony) *)

Module Colony.

Definition set_members (v : list cell_id) (k : ColonyData) : ColonyData :=
  mkColony v (founder k) (bondMap k) (sharedEnergy k).
Definition set_bondMap (v : gmap string Bond) (k : ColonyData) : ColonyData :=
  mkColony (members k) (founder k) v (sharedEnergy k).
Definition set_sharedEnergy (v : Q) (k : ColonyData) : ColonyData :=
  mkColony (members k) (founder k) (bondMap k) v.

(** [`${Math.min(cell1.id, cell2.id)}_${Math.max(cell1.id, cell2.id)}`]:
    the ids are the strings [cell_<milliseconds>_<draw>], [Math.min] and
    [Math.max] turn them into numbers and get NaN, so every pair of cells
    has the same key. *)
Definition bondKey (c1 c2 : cell_id) : string := "NaN_NaN".

(** [array.includes(x)] *)
Definition includes (l : list cell_id) (c : cell_id) : bool :=
  bool_decide (c ∈ l).

(** [const i = array.indexOf(x); if (i !== -1) array.splice(i, 1)] *)
Fixpoint remove_first (c : cell_id) (l : list cell_id) : list cell_id :=
  match l with
  | [] => []
  | a :: rest => if decide (a = c) then rest else a :: remove_first c rest
  end.

(** [constructor(founderCell)]: one draw goes into the colony's id. *)
Definition new (founderCell : cell_id) : State World colony_id :=
  let* r := draw in
  fun w =>
    let k := fresh (dom (colonies w)) in
    let w1 := set_colonies (<[k := mkColony [founderCell] founderCell ∅ 0]>
                              (colonies w)) w in
    let w2 := modify_cell founderCell
                (fun c => Cell.set_isColonyFounder true
                            (Cell.set_colony (Some k) c)) w1 in
    (k, w2).

(** [createBond(cell1, cell2)] *)
Definition createBond (k : colony_id) (c1 c2 : cell_id) : State World bool :=
  fun w =>
    match colonies w !! k, cells w !! c1, cells w !! c2 with
    | Some col, Some o1, Some o2 =>
        if negb (includes (members col) c1) || negb (includes (members col) c2)
        then (false, w)
        else if (Cell.maxBonds o1 <=? length (Cell.bonds o1))%nat
                || (Cell.maxBonds o2 <=? length (Cell.bonds o2))%nat
        then (false, w)
        else
          match bondMap col !! bondKey c1 c2 with
          | Some _ => (false, w)
          | None =>
              let w1 := modify_colony k
                (set_bondMap (<[bondKey c1 c2 := mkBond c1 c2 1 0]> (bondMap col))) w in
              let w2 := modify_cell c1
                (fun c => Cell.set_bonds (Cell.bonds c ++ [c2]) c) w1 in
              let w3 := modify_cell c2
                (fun c => Cell.set_bonds (Cell.bonds c ++ [c1]) c) w2 in
              let w4 := modify_cell c1
                (fun c => Cell.set_bondStrength (<[c2 := 1]> (Cell.bondStrength c)) c) w3 in
              let w5 := modify_cell c2
                (fun c => Cell.set_bondStrength (<[c1 := 1]> (Cell.bondStrength c)) c) w4 in
              (true, w5)
          end
    | _, _, _ => (false, w)
    end.

(** [addMember(cell, bondWith)] *)
Definition addMember (k : colony_id) (c : cell_id) (bondWith : option cell_id)
  : State World bool :=
  fun w =>
    match colonies w !! k with
    | Some col =>
        if includes (members col) c then (false, w)
        else if (20 <=? length (members col))%nat then (false, w)
        else
          let w1 := modify_colony k (set_members (members col ++ [c])) w in
          let w2 := modify_cell c (Cell.set_colony (Some k)) w1 in
          let w3 :=
            match bondWith with
            | Some b =>
                if includes (members col ++ [c]) b
                then snd (createBond k c b w2) else w2
            | None => w2
            end in
          (true, w3)
    | None => (false, w)
    end.

(** [removeMember(cell)].  The callback of [this.bonds.forEach] calls
    [bond.includes], and a bond is a plain object without that method: on
    the first bond the call throws, after the member was spliced out and
    its [colony] reset, before anything else is done. *)
Definition removeMember (k : colony_id) (c : cell_id)
  : State World (Completion bool) :=
  fun w =>
    match colonies w !! k with
    | Some col =>
        if includes (members col) c then
          let w1 := modify_colony k (set_members (remove_first c (members col))) w in
          let w2 := modify_cell c (Cell.set_colony None) w1 in
          if decide (bondMap col = ∅) then
            let w3 := modify_cell c (Cell.set_bonds []) w2 in
            (Normal true, w3)
          else (TypeError, w2)
        else (Normal false, w)
    | None => (Normal false, w)
    end.

(** [foundColony(partnerCell)], a method of the founding cell *)
Definition foundColony (this partnerCell : cell_id) : State World bool :=
  fun w =>
    match cells w !! this, cells w !! partnerCell with
    | Some o, Some p =>
        match Cell.colony o, Cell.colony p with
        | None, None =>
            let '(k, w1) := new this w in
            let '(_, w2) := addMember k partnerCell (Some this) w1 in
            (true, w2)
        | _, _ => (false, w)
        end
    | _, _ => (false, w)
    end.

(** The bond pass at the end of [updateColonyBehavior], for one bond:
    ageing, decay or strengthening by distance, deletion when weak. *)
Definition manageBond (M : MathLib) (k : colony_id) (key : string)
    (w : World) : World :=
  match colonies w !! k with
  | Some col =>
      match bondMap col !! key with
      | Some b =>
          let b1 := mkBond (cell1 b) (cell2 b) (strength b) (bondAge b + 1) in
          let w1 := modify_colony k (set_bondMap (<[key := b1]> (bondMap col))) w in
          if includes (members col) (cell1 b) && includes (members col) (cell2 b)
          then
            match cells w !! cell1 b, cells w !! cell2 b with
            | Some o1, Some o2 =>
                let distance := distanceTo M o1 o2 in
                let maxDistance :=
                  if bool_decide (Cell.colonyRole o1 = sedentary)
                     && bool_decide (Cell.colonyRole o2 = sedentary)
                  then 60 else 100 in
                let s :=
                  if Qlt_bool maxDistance distance then strength b1 - 0.015
                  else if Qlt_bool distance 30 then Qmin 1 (strength b1 + 0.01)
                  else strength b1 in
                let b2 := mkBond (cell1 b) (cell2 b) s (bondAge b1) in
                if Qle_bool s 0 then
                  let w2 := modify_colony k (set_bondMap (delete key (bondMap col))) w1 in
                  let w3 := modify_cell (cell1 b)
                    (fun c => Cell.set_bonds
                       (filter (fun i => i ≠ cell2 b) (Cell.bonds c)) c) w2 in
                  let w4 := modify_cell (cell2 b)
                    (fun c => Cell.set_bonds
                       (filter (fun i => i ≠ cell1 b) (Cell.bonds c)) c) w3 in
                  let w5 := modify_cell (cell1 b)
                    (fun c => Cell.set_bondStrength
                       (delete (cell2 b) (Cell.bondStrength c)) c) w4 in
                  modify_cell (cell2 b)
                    (fun c => Cell.set_bondStrength
                       (delete (cell1 b) (Cell.bondStrength c)) c) w5
                else
                  modify_colony k (set_bondMap (<[key := b2]> (bondMap col))) w1
            | _, _ => w1
            end
          else w1
      | None => w
      end
  | None => w
  end.

(** [this.colony.bonds.forEach(...)] of [updateColonyBehavior] *)
Definition manageBonds (M : MathLib) (k : colony_id) (w : World) : World :=
  match colonies w !! k with
  | Some col =>
      foldl (fun w key => manageBond M k key w) w
            (map fst (map_to_list (bondMap col)))
  | None => w
  end.

(** [shareResources()] *)
Definition totalEnergy (w : World) (l : list cell_id) : Q :=
  foldl (fun acc c =>
           match cells w !! c with
           | Some o => acc + Cell.energy o
           | None => acc
           end) 0 l.

Definition shareWith (k : colony_id) (individualEnergy shared : Q)
    (w : World) (c : cell_id) : World :=
  match cells w !! c with
  | Some o =>
      let targetEnergy := Qmin individualEnergy (Cell.maxEnergy o) in
      if Qlt_bool (Cell.energy o) targetEnergy then
        let energyDiff := Qmin (targetEnergy - Cell.energy o) shared in
        let w1 := modify_cell c
                    (fun o => Cell.set_energy (Cell.energy o + energyDiff) o) w in
        modify_colony k
          (fun col => set_sharedEnergy (sharedEnergy col - energyDiff) col) w1
      else w
  | None => w
  end.

Definition shareResources (k : colony_id) (w : World) : World :=
  match colonies w !! k with
  | Some col =>
      let total := totalEnergy w (members col) in
      let shared := total * 0.1 in
      let individualEnergy :=
        (total * 0.9) / inject_Z (Z.of_nat (length (members col))) in
      let w1 := modify_colony k (set_sharedEnergy shared) w in
      foldl (shareWith k individualEnergy shared) w1 (members col)
  | None => w
  end.

End Colony.

(** Bond symmetry: whenever a cell lists another, the other lists it. *)
Definition bonds_symmetric (w : World) : Prop :=
  forall a b ca cb,
    cells w !! a = Some ca -> cells w !! b = Some cb ->
    b ∈ Cell.bonds ca -> a ∈ Cell.bonds cb.

(** Colonies and cells agree: no cell is twice a member of a colony,
    every member refers back to its colony, and whoever a cell lists as
    bonded is an object of the store and the pair is a bond recorded in
    the map of the lister's colony.  The constructor, [addMember] and
    [createBond] write both sides together, so that this holds of every
    store they build from cells without a colony. *)
Definition colony_coherent (w : World) : Prop :=
  (forall k col, colonies w !! k = Some col ->
     NoDup (members col) /\
     forall c, c ∈ members col ->
       exists o, cells w !! c = Some o /\ Cell.colony o = Some k) /\
  (forall c o d, cells w !! c = Some o -> d ∈ Cell.bonds o ->
     is_Some (cells w !! d) /\
     exists k col key b,
       Cell.colony o = Some k /\ colonies w !! k = Some col /\
       bondMap col !! key = Some b /\
       ((cell1 b = c /\ cell2 b = d) \/ (cell1 b = d /\ cell2 b = c))).

(** The vital signs within their bounds. *)
Definition within_vitals (o : Cell.t) : Prop :=
  (0 <= Cell.health o /\ Cell.health o <= Cell.maxHealth o) /\
  (0 <= Cell.energy o /\ Cell.energy o <= Cell.maxEnergy o).

(** ** The per-tick life of a cell (Cell.update and what it calls)

    Particle effects are render data and are not kept; the draws the source
    makes for them are still taken from the generator. *)

Module Behaviour.

(** The [environment] object handed to [update]. *)
Record Env := mkEnv { temperature : Q; acidity : Q; radiation : Q }.

(** [n] draws whose values only reach render particles. *)
Fixpoint discard (n : nat) : State World unit :=
  match n with
  | O => ret tt
  | S n' => let* _ := draw in discard n'
  end.

(** Run a step on the object behind [this]. *)
Definition on_cell (this : cell_id) (f : Cell.t -> Cell.t) : State World unit :=
  fun w => (tt, modify_cell this f w).

Definition read_cell {A} (this : cell_id) (default : A) (f : Cell.t -> A)
  : State World A :=
  fun w => match cells w !! this with
           | Some o => (f o, w)
           | None => (default, w)
           end.

(** [updateLifecycle()] *)
Definition updateLifecycle (o : Cell.t) : Cell.t :=
  let t := Cell.traits o in
  if Qlt_bool (Cell.maturityAge o) (inject_Z (Cell.age o))
     && bool_decide (Traits.lifestage t = juvenile)
  then
    let maxHealth' := Traits.maxHealth t * 1.2 in
    Cell.set_traits
      (Traits.set_maxEnergy (Traits.maxEnergy t * 1.15)
         (Traits.set_health maxHealth'
            (Traits.set_maxHealth maxHealth'
               (Traits.set_lifestage adult t)))) o
  else if Qlt_bool (Cell.elderAge o) (inject_Z (Cell.age o))
          && bool_decide (Traits.lifestage t = adult)
  then
    Cell.set_traits
      (Traits.set_visionRange (Traits.visionRange t * 1.5)
         (Traits.set_speed (Traits.speed t * 0.7)
            (Traits.set_lifestage elder t))) o
  else o.

(** [q % d === 0] *)
Definition divides (d q : Q) : bool := Qeq_bool (inject_Z (Qfloor (q / d))) (q / d).

(** [handleInfection()] *)
Definition handleInfection (this : cell_id) : State World unit :=
  let* infected := read_cell this false Cell.isInfected in
  if negb infected then ret tt
  else
    let* _ := on_cell this (fun o =>
      let o1 := Cell.set_infectionTimer (Cell.infectionTimer o - 1) o in
      let damagePerTick := Cell.infectionSeverity o1 * 0.5 in
      let o2 := Cell.set_health (Cell.health o1 - damagePerTick) o1 in
      Cell.set_energy (Cell.energy o2 - damagePerTick * 0.3) o2) in
    let* timer := read_cell this 0 Cell.infectionTimer in
    let* _ := if divides 20 timer then discard 9 else ret tt in
    if Qle_bool timer 0 then
      let* survivalChance := read_cell this 0 (fun o =>
        (Cell.health o / Cell.maxHealth o) * 0.7
        + Traits.toxinResistance (Cell.traits o) * 0.3) in
      let* r := draw in
      if Qlt_bool r survivalChance then
        on_cell this (fun o =>
          let o1 := Cell.set_isInfected false o in
          let o2 := Cell.set_infectionTimer 0 o1 in
          let o3 := Cell.set_infectionSeverity 0 o2 in
          Cell.set_traits
            (Traits.set_toxinResistance
               (Qmin 0.9 (Traits.toxinResistance (Cell.traits o3) + 0.1))
               (Cell.traits o3)) o3)
      else on_cell this (Cell.set_health 0)
    else ret tt.

(** [randomBeneficialMutation()] *)
Definition randomBeneficialMutation (this : cell_id) : State World unit :=
  let* r := draw in
  on_cell this (fun o =>
    let t := Cell.traits o in
    match Z.to_nat (floor (r * 5)) with
    | 0%nat => Cell.set_traits (Traits.set_speed (Traits.speed t + 0.1) t) o
    | 1%nat => Cell.set_traits (Traits.set_maxHealth (Traits.maxHealth t + 5) t) o
    | 2%nat => Cell.set_traits (Traits.set_maxEnergy (Traits.maxEnergy t + 3) t) o
    | 3%nat => Cell.set_traits (Traits.set_visionRange (Traits.visionRange t + 5) t) o
    | _ => Cell.set_traits
             (Traits.set_toxinResistance (Traits.toxinResistance t + 0.05) t) o
    end).

(** [applyEnvironmentalEffects(environment)].  [if (environment.temperature)]
    is a truthiness test: a temperature of 0 skips the block. *)
Definition applyEnvironmentalEffects (env : Env) (this : cell_id)
  : State World unit :=
  let* _ := on_cell this (fun o =>
    if negb (Qeq_bool (temperature env) 0) then
      let tempDiff := Qabs (temperature env - 0.5) in
      let tol := Traits.temperatureTolerance (Cell.traits o) in
      if Qlt_bool tol tempDiff
      then Cell.set_health (Cell.health o - (tempDiff - tol) * 2) o
      else o
    else o) in
  let* _ := on_cell this (fun o =>
    let tol := Traits.acidTolerance (Cell.traits o) in
    if Qlt_bool tol (acidity env)
    then Cell.set_health (Cell.health o - (acidity env - tol) * 3) o
    else o) in
  let* res := read_cell this 0 (fun o => Traits.radiationResistance (Cell.traits o)) in
  if Qlt_bool res (radiation env) then
    let* _ := on_cell this (fun o =>
      Cell.set_health (Cell.health o - (radiation env - res) * 1.5) o) in
    let* r := draw in
    if Qlt_bool r 0.01 then randomBeneficialMutation this else ret tt
  else ret tt.

(** [calculateEnergyDrain()] *)
Definition shapeEfficiency (s : Shape) : Q :=
  match s with
  | circle => 1
  | triangle => 0.9
  | square => 1.1
  | hexagon => 0.95
  | oval => 1.05
  | star => 1.2
  | diamond => 1
  end.

Definition calculateEnergyDrain (o : Cell.t) : Q :=
  let t := Cell.traits o in
  let baseDrain := 0.1 + Traits.size t * 0.01 in
  let baseDrain :=
    match Traits.metabolismType t with
    | efficient => baseDrain * 0.7
    | burst => baseDrain * 1.5
    | photosynthetic => baseDrain * 0.5
    | _ => baseDrain
    end in
  let baseDrain := baseDrain * shapeEfficiency (Traits.shape t) in
  match Traits.lifestage t with
  | juvenile => baseDrain * 0.8
  | elder => baseDrain * 1.3
  | adult => baseDrain
  end.


(** *** Special abilities *)

Definition square_of (q : Q) : Q := q * q.

(** [distanceToPoint(x, y)] *)
Definition distanceToPoint (M : MathLib) (o : Cell.t) (px py : Q) : Q :=
  sqrt M (square_of (px - Cell.x o) + square_of (py - Cell.y o)).

(** [moveTowards(targetX, targetY)] *)
Definition moveTowards (M : MathLib) (targetX targetY : Q) (o : Cell.t) : Cell.t :=
  let dx := targetX - Cell.x o in
  let dy := targetY - Cell.y o in
  let distance := sqrt M (dx * dx + dy * dy) in
  if Qlt_bool 0 distance then
    let force := 0.3 in
    Cell.set_vy (Cell.vy o + (dy / distance) * force)
      (Cell.set_vx (Cell.vx o + (dx / distance) * force) o)
  else o.

(** [findNearestCell(cells, maxRange)] *)
Definition findNearestCell (M : MathLib) (cellsArr : list cell_id)
    (this : cell_id) (maxRange : Q) (w : World) : option cell_id :=
  match cells w !! this with
  | Some o =>
      fst (foldl (fun acc c =>
                    if decide (c = this) then acc
                    else match cells w !! c with
                         | Some oc =>
                             let distance := distanceTo M o oc in
                             if Qlt_bool distance (snd acc)
                             then (Some c, distance) else acc
                         | None => acc
                         end)
                 (None, maxRange) cellsArr)
  | None => None
  end.

(** [findPackTarget(cells)] *)
Definition findPackTarget (M : MathLib) (cellsArr : list cell_id)
    (this : cell_id) (w : World) : option cell_id :=
  match cells w !! this with
  | Some o =>
      fst (foldl (fun acc c =>
                    match cells w !! c with
                    | Some oc =>
                        if bool_decide (Traits.specialAbility (Cell.traits oc) = pack_hunter)
                        then acc
                        else if Qlt_bool (Traits.visionRange (Cell.traits o))
                                         (distanceTo M o oc)
                        then acc
                        else if Qlt_bool (snd acc) (Cell.size oc)
                        then (Some c, Cell.size oc) else acc
                    | None => acc
                    end)
                 (None, 0) cellsArr)
  | None => None
  end.

Definition set_parasiteHost (h : option cell_id) (o : Cell.t) : Cell.t :=
  Cell.set_defenseStates
    (DefenseStates.set_parasiteHost h (Cell.defenseStates o)) o.

(** [parasiteBehavior(cells)] *)
Definition parasiteBehavior (M : MathLib) (cellsArr : list cell_id)
    (this : cell_id) (w : World) : World :=
  let seek (w : World) : World :=
    match cells w !! this with
    | Some o =>
        match findNearestCell M cellsArr this (Traits.visionRange (Cell.traits o)) w with
        | Some n =>
            match cells w !! n with
            | Some on =>
                if Qlt_bool (Cell.size o * 0.8) (Cell.size on)
                then modify_cell this
                       (fun o => Cell.set_target (Some (TargetCell n))
                                   (set_parasiteHost (Some n) o)) w
                else w
            | None => w
            end
        | None => w
        end
    | None => w
    end in
  match cells w !! this with
  | Some o =>
      match DefenseStates.parasiteHost (Cell.defenseStates o) with
      | Some h =>
          match cells w !! h with
          | Some host =>
              if Qlt_bool 0 (Cell.health host)
                 && Qlt_bool (distanceTo M o host)
                             (Cell.radius o + Cell.radius host + 5)
              then
                let drainAmount := 0.8 in
                let w1 := modify_cell h (fun c =>
                            Cell.set_energy (Cell.energy c - drainAmount) c) w in
                let w2 := modify_cell h (fun c =>
                            Cell.set_health (Cell.health c - drainAmount * 0.3) c) w1 in
                let w3 := modify_cell this (fun c =>
                            Cell.set_energy (Cell.energy c + drainAmount * 0.7) c) w2 in
                modify_cell this (fun c =>
                  Cell.set_health (Cell.health c + drainAmount * 0.2) c) w3
              else seek (modify_cell this (set_parasiteHost None) w)
          | None => seek (modify_cell this (set_parasiteHost None) w)
          end
      | None => seek w
      end
  | None => w
  end.

(** [packHuntingBehavior(cells)] *)
Definition packHuntingBehavior (M : MathLib) (cellsArr : list cell_id)
    (this : cell_id) (w : World) : World :=
  match cells w !! this with
  | Some o =>
      let packMembers :=
        List.filter (fun c =>
          negb (bool_decide (c = this))
          && match cells w !! c with
             | Some oc =>
                 bool_decide (Traits.specialAbility (Cell.traits oc) = pack_hunter)
                 && Qlt_bool (distanceTo M o oc)
                             (Traits.communicationRange (Cell.traits o))
             | None => false
             end) cellsArr in
      let w1 := modify_cell this (fun c =>
                  Cell.set_defenseStates
                    (DefenseStates.set_packMembers packMembers
                       (Cell.defenseStates c)) c) w in
      match packMembers with
      | [] => w1
      | _ :: _ =>
          let w2 :=
            match Cell.target o with
            | Some _ => w1
            | None =>
                match findPackTarget M cellsArr this w1 with
                | Some commonTarget =>
                    foldl (fun w m =>
                             modify_cell m
                               (Cell.set_target (Some (TargetCell commonTarget))) w)
                          (modify_cell this
                             (Cell.set_target (Some (TargetCell commonTarget))) w1)
                          packMembers
                | None => w1
                end
            end in
          modify_cell this (fun c =>
            let c1 := Cell.set_traits
                        (Traits.set_speed (Traits.speed (Cell.traits c) * 1.1)
                           (Cell.traits c)) c in
            Cell.set_health (Cell.health c1 + 0.1) c1) w2
      end
  | None => w
  end.

(** [territorialBehavior(cells)] *)
Definition territorialBehavior (M : MathLib) (cellsArr : list cell_id)
    (this : cell_id) (w : World) : World :=
  match cells w !! this with
  | Some o =>
      let terr :=
        match Cell.territory o with
        | Some t => t
        | None => mkTerritory (Cell.x o) (Cell.y o)
                    (DefenseStates.territoryRadius (Cell.defenseStates o))
        end in
      let w1 := modify_cell this (Cell.set_territory (Some terr)) w in
      foldl (fun w intruder =>
               if decide (intruder = this) then w
               else match cells w !! intruder with
                    | Some i =>
                        let distanceFromCenter :=
                          sqrt M (square_of (Cell.x i - tx terr)
                                  + square_of (Cell.y i - ty terr)) in
                        if Qlt_bool distanceFromCenter (tradius terr) then
                          modify_cell this (fun c =>
                            Cell.set_health (Cell.health c + 0.2)
                              (Cell.set_target (Some (TargetCell intruder)) c)) w
                        else w
                    | None => w
                    end)
            w1 cellsArr
  | None => w
  end.

Definition set_migrationTarget (t : option (Q * Q)) (o : Cell.t) : Cell.t :=
  Cell.set_defenseStates
    (DefenseStates.set_migrationTarget t (Cell.defenseStates o)) o.

(** [migratoryBehavior()] *)
Definition migratoryBehavior (M : MathLib) (this : cell_id) : State World unit :=
  let* stale := read_cell this false (fun o =>
    match DefenseStates.migrationTarget (Cell.defenseStates o) with
    | None => true
    | Some (mx, my) => Qlt_bool (distanceToPoint M o mx my) 20
    end) in
  let* _ :=
    if stale then
      let* rx := draw in
      let* ry := draw in
      on_cell this (set_migrationTarget (Some (rx * 1000, ry * 700)))
    else ret tt in
  on_cell this (fun o =>
    let o1 :=
      match DefenseStates.migrationTarget (Cell.defenseStates o) with
      | Some (mx, my) => moveTowards M mx my o
      | None => o
      end in
    Cell.set_energy (Cell.energy o1 - 0.05) o1).

(** [burrowingBehavior()] *)
Definition burrowingBehavior (o : Cell.t) : Cell.t :=
  if Qlt_bool (Cell.energy o) (Cell.maxEnergy o * 0.3) then
    let o1 := Cell.set_opacity 0.3 o in
    let o2 := Cell.set_vx (Cell.vx o1 * 0.5) o1 in
    let o3 := Cell.set_vy (Cell.vy o2 * 0.5) o2 in
    Cell.set_energy (Cell.energy o3 + 0.1) o3
  else o.

(** The position of [this.target], a cell or a food particle. *)
Definition target_position (w : World) (t : Target) : option (Q * Q) :=
  match t with
  | TargetCell c =>
      match cells w !! c with
      | Some o => Some (Cell.x o, Cell.y o)
      | None => None
      end
  | TargetFood i =>
      match FoodManager.food (foodManager w) !! i with
      | Some f => Some (Food.x f, Food.y f)
      | None => None
      end
  end.

(** [leapingBehavior(cells)] *)
Definition leapingBehavior (M : MathLib) (this : cell_id) : State World unit :=
  let* tgt := read_cell this None Cell.target in
  match tgt with
  | Some t =>
      let* r := draw in
      if Qlt_bool r 0.05 then
        fun w =>
          match target_position w t with
          | Some (px, py) =>
              (tt, modify_cell this (fun o =>
                 let angle := atan2 M (py - Cell.y o) (px - Cell.x o) in
                 let leapPower := Traits.speed (Cell.traits o) * 3 in
                 let o1 := Cell.set_vx (Cell.vx o + cos M angle * leapPower) o in
                 let o2 := Cell.set_vy (Cell.vy o1 + sin M angle * leapPower) o1 in
                 Cell.set_energy (Cell.energy o2 - 2) o2) w)
          | None => (tt, w)
          end
      else ret tt
  | None => ret tt
  end.

(** [splittingBehavior()]: the draw is made only when the two tests before
    it pass. *)
Definition splittingBehavior (this : cell_id) : State World unit :=
  let* primed := read_cell this false (fun o =>
    Qlt_bool (Cell.maxEnergy o * 0.9) (Cell.energy o)
    && Qlt_bool 12 (Cell.size o)) in
  if primed then
    let* r := draw in
    if Qlt_bool r 0.001 then
      on_cell this (fun o =>
        let o1 := Cell.set_reproduced true o in
        Cell.set_traits
          (Traits.set_size (Cell.size o1 * 0.7) (Cell.traits o1)) o1)
    else ret tt
  else ret tt.

(** [fusionBehavior(cells)] *)
Definition fusionBehavior (M : MathLib) (cellsArr : list cell_id)
    (this : cell_id) : State World unit :=
  fun w =>
    match cells w !! this with
    | Some o =>
        let nearbyFusionCells :=
          List.filter (fun c =>
            negb (bool_decide (c = this))
            && match cells w !! c with
               | Some oc =>
                   bool_decide (Traits.specialAbility (Cell.traits oc) = fusion)
                   && Qlt_bool (distanceTo M o oc)
                               (Cell.radius o + Cell.radius oc + 2)
                   && Qlt_bool (Cell.size oc + Cell.size o) 25
               | None => false
               end) cellsArr in
        match nearbyFusionCells with
        | partner :: _ =>
            let '(r, w1) := draw w in
            if Qlt_bool r 0.01 then
              match cells w1 !! partner with
              | Some p =>
                  let w2 := modify_cell this (fun o =>
                    let o1 := Cell.set_traits
                                (Traits.set_size (Cell.size o + Cell.size p * 0.3)
                                   (Cell.traits o)) o in
                    let o2 := Cell.set_health (Cell.health o1 + Cell.health p * 0.2) o1 in
                    Cell.set_energy (Cell.energy o2 + Cell.energy p * 0.3) o2) w1 in
                  (tt, modify_cell partner (Cell.set_health 0) w2)
              | None => (tt, w1)
              end
            else (tt, w1)
        | [] => (tt, w)
        end
    | None => (tt, w)
    end.

(** [energyVampireBehavior(cells)] *)
Definition energyVampireBehavior (M : MathLib) (cellsArr : list cell_id)
    (this : cell_id) (w : World) : World :=
  foldl (fun w victim =>
           if decide (victim = this) then w
           else match cells w !! this, cells w !! victim with
                | Some o, Some v =>
                    if Qlt_bool (distanceTo M o v)
                                (Cell.radius o + Cell.radius v + 10)
                    then
                      let drainAmount := 0.5 in
                      let w1 := modify_cell victim (fun c =>
                        Cell.set_energy (Cell.energy c - drainAmount) c) w in
                      modify_cell this (fun c =>
                        Cell.set_energy (Cell.energy c + drainAmount * 0.8) c) w1
                    else w
                | _, _ => w
                end)
        w cellsArr.

(** [shapeShiftBehavior()]; [hitbox] and [mass], recomputed here, are read
    by no modelled function and are not kept. *)
Definition shapeShiftBehavior (this : cell_id) : State World unit :=
  let* r := draw in
  if Qlt_bool r 0.005 then
    fun w =>
      let '(s, g) := Mutation.randomShape (rng w) in
      (tt, modify_cell this (fun o =>
             Cell.set_traits (Traits.set_shape s (Cell.traits o)) o)
             (set_rng g w))
  else ret tt.

(** [timeDilationBehavior()] *)
Definition timeDilationBehavior (o : Cell.t) : Cell.t :=
  if Qlt_bool (Cell.maxEnergy o * 0.7) (Cell.energy o) then
    let o1 := Cell.set_traits
                (Traits.set_speed (Traits.speed (Cell.traits o) * 1.2)
                   (Cell.traits o)) o in
    Cell.set_energy (Cell.energy o1 - 0.3) o1
  else o.

(** The [photosynthesis] case of [applySpecialAbilities] *)
Definition photosynthesise (o : Cell.t) : Cell.t :=
  Cell.set_energy (Cell.energy o + 0.3 * (1 - Cell.opacity o)) o.

(** [applySpecialAbilities(cells, food)] *)
Definition applySpecialAbilities (M : MathLib) (cellsArr : list cell_id)
    (this : cell_id) : State World unit :=
  let* ability := read_cell this none (fun o =>
    Traits.specialAbility (Cell.traits o)) in
  match ability with
  | photosynthesis => on_cell this photosynthesise
  | parasite => fun w => (tt, parasiteBehavior M cellsArr this w)
  | pack_hunter => fun w => (tt, packHuntingBehavior M cellsArr this w)
  | territorial => fun w => (tt, territorialBehavior M cellsArr this w)
  | migratory => migratoryBehavior M this
  | burrowing => on_cell this burrowingBehavior
  | leaping => leapingBehavior M this
  | splitting => splittingBehavior this
  | fusion => fusionBehavior M cellsArr this
  | energy_vampire => fun w => (tt, energyVampireBehavior M cellsArr this w)
  | shape_shift => shapeShiftBehavior this
  | time_dilation => on_cell this timeDilationBehavior
  | none | invisibility => ret tt
  end.

(** *** Cell.update

    [rest] stands for what [update] does after the death check: defence
    mechanisms, communication, decisions, movement and visual effects.
    It is not embedded; the engine is modelled over every such step. *)
Definition update (M : MathLib)
    (rest : list cell_id -> Env -> cell_id -> World -> World)
    (cellsArr : list cell_id) (env : Env) (this : cell_id)
  : State World bool :=
  let* _ := on_cell this (fun o => Cell.set_age (Cell.age o + 1) o) in
  let* _ := on_cell this updateLifecycle in
  let* _ := handleInfection this in
  let* _ := applyEnvironmentalEffects env this in
  let* _ := on_cell this (fun o =>
    Cell.set_energy (Cell.energy o - calculateEnergyDrain o) o) in
  let* _ := applySpecialAbilities M cellsArr this in
  let* dead := read_cell this true (fun o =>
    Qle_bool (Cell.energy o) 0 || Qle_bool (Cell.health o) 0) in
  if dead then ret false
  else fun w => (true, rest cellsArr env this w).

(** *** Feeding and collisions *)

(** [canEat(food)] *)
Definition canEat (M : MathLib) (o : Cell.t) (f : Food.t) : bool :=
  let dx := Food.x f - Cell.x o in
  let dy := Food.y f - Cell.y o in
  let distance := sqrt M (dx * dx + dy * dy) in
  Qlt_bool distance (Cell.radius o + Food.radius f).

(** [eat(food)], on the particle at [index] of the food array *)
Definition eat (M : MathLib) (this : cell_id) (index : nat) : State World bool :=
  fun w =>
    match cells w !! this, FoodManager.food (foodManager w) !! index with
    | Some o, Some f =>
        if canEat M o f && negb (Food.consumed f) then
          let fm := foodManager w in
          let w1 := set_foodManager
                      (FoodManager.set_food
                         (<[index := Food.set_consumed true f]> (FoodManager.food fm))
                         fm) w in
          let w2 := modify_cell this (fun o =>
                      Cell.set_energy (Cell.energy o + Food.energyValue f) o) w1 in
          let w3 := modify_cell this (fun o =>
                      Cell.set_energy (Qmin (Cell.energy o) (Cell.maxEnergy o)) o) w2 in
          (true, w3)
        else (false, w)
    | _, _ => (false, w)
    end.

(** [collidesWith(other)] *)
Definition collidesWith (M : MathLib) (o other : Cell.t) : bool :=
  let dx := Cell.x other - Cell.x o in
  let dy := Cell.y other - Cell.y o in
  let distance := sqrt M (dx * dx + dy * dy) in
  Qlt_bool distance (Cell.radius o + Cell.radius other).

(** [move(boundaries)]: speed limit, step, friction, and the bounce off
    the borders of the field. *)
Definition move (M : MathLib) (width height : Q) (o : Cell.t) : Cell.t :=
  let maxSpeed := Traits.speed (Cell.traits o) in
  let currentSpeed := sqrt M (Cell.vx o * Cell.vx o + Cell.vy o * Cell.vy o) in
  let o :=
    if Qlt_bool maxSpeed currentSpeed then
      let o1 := Cell.set_vx ((Cell.vx o / currentSpeed) * maxSpeed) o in
      Cell.set_vy ((Cell.vy o1 / currentSpeed) * maxSpeed) o1
    else o in
  let o := Cell.set_x (Cell.x o + Cell.vx o) o in
  let o := Cell.set_y (Cell.y o + Cell.vy o) o in
  let o := Cell.set_vx (Cell.vx o * 0.98) o in
  let o := Cell.set_vy (Cell.vy o * 0.98) o in
  let o :=
    if Qlt_bool (Cell.x o - Cell.radius o) 0
       || Qlt_bool width (Cell.x o + Cell.radius o)
    then
      let o1 := Cell.set_vx (Cell.vx o * -0.8) o in
      Cell.set_x (clamp (Cell.radius o1) (width - Cell.radius o1) (Cell.x o1)) o1
    else o in
  if Qlt_bool (Cell.y o - Cell.radius o) 0
     || Qlt_bool height (Cell.y o + Cell.radius o)
  then
    let o1 := Cell.set_vy (Cell.vy o * -0.8) o in
    Cell.set_y (clamp (Cell.radius o1) (height - Cell.radius o1) (Cell.y o1)) o1
  else o.

(** *** Colony formation (updateColonyBehavior) *)

(** [cell => !cell.colony] *)
Definition withoutColony (w : World) (c : cell_id) : bool :=
  match cells w !! c with
  | Some o => bool_decide (Cell.colony o = None)
  | None => false
  end.

(** The filter that builds [nearbyCells].  The conditions are tested in
    the order of the source; the draw of the last one is made only for a
    cell that passed the others and whose role differs. *)
Fixpoint nearbyCells (M : MathLib) (this : cell_id) (cellsArr : list cell_id)
  : State World (list cell_id) :=
  match cellsArr with
  | [] => ret []
  | cell :: more =>
      fun w =>
        match cells w !! this, cells w !! cell with
        | Some o, Some p =>
            let bondingDistance :=
              if bool_decide (Cell.colonyRole o = sedentary) then 80 else 100 in
            if negb (bool_decide (cell = this))
               && bool_decide (Traits.defenseType (Cell.traits p)
                               = Traits.defenseType (Cell.traits o))
               && Qlt_bool (distanceTo M o p) bondingDistance
               && (bool_decide (Cell.colony o = None)
                   || bool_decide (Cell.colony p = None)
                   || bool_decide (Cell.colony o = Cell.colony p))
            then
              let '(kept, w) :=
                if bool_decide (Cell.colonyRole o = Cell.colonyRole p)
                then (true, w)
                else let '(r, w) := draw w in (Qlt_bool r 0.3, w) in
              let '(others, w) := nearbyCells M this more w in
              (if kept then cell :: others else others, w)
            else nearbyCells M this more w
        | _, _ => nearbyCells M this more w
        end
  end.

(** [if (this.colony && this.colony.members.length > 1
         && Math.random() > 0.02) return] *)
Definition settled (this : cell_id) : State World bool :=
  fun w =>
    match cells w !! this with
    | Some o =>
        match Cell.colony o with
        | Some k =>
            match colonies w !! k with
            | Some col =>
                if (1 <? length (members col))%nat
                then let '(r, w) := draw w in (Qlt_bool 0.02 r, w)
                else (false, w)
            | None => (false, w)
            end
        | None => (false, w)
        end
    | None => (false, w)
    end.

(** The founding block: a cell without a colony and with more than half
    its energy founds one with the first nearby cell without a colony,
    when the draw is below the formation chance. *)
Definition considerFounding (this : cell_id) (nearby : list cell_id)
  : State World unit :=
  fun w =>
    match cells w !! this with
    | Some o =>
        let formationChance :=
          if bool_decide (Cell.colonyRole o = sedentary) then 0.08 else 0.03 in
        if bool_decide (Cell.colony o = None)
           && Qlt_bool (Cell.maxEnergy o * 0.5) (Cell.energy o)
        then
          match List.find (withoutColony w) nearby with
          | Some candidate =>
              let '(r, w) := draw w in
              if Qlt_bool r formationChance
              then (tt, snd (Colony.foundColony this candidate w))
              else (tt, w)
          | None => (tt, w)
          end
        else (tt, w)
    | None => (tt, w)
    end.

(** The invitation block: the founder of a colony that is not full takes
    in the first nearby cell without a colony, when the draw is below
    0.04.  The [homePosition] the source then gives a sedentary newcomer
    is read by the movement decisions only, which are not embedded; it is
    left out. *)
Definition considerInviting (this : cell_id) (nearby : list cell_id)
  : State World unit :=
  fun w =>
    match cells w !! this with
    | Some o =>
        let maxColonySize : nat :=
          if bool_decide (Cell.colonyRole o = sedentary) then 12%nat else 8%nat in
        match Cell.colony o with
        | Some k =>
            match colonies w !! k with
            | Some col =>
                if Cell.isColonyFounder o
                   && (length (members col) <? maxColonySize)%nat
                then
                  match List.find (withoutColony w) nearby with
                  | Some candidate =>
                      let '(r, w) := draw w in
                      if Qlt_bool r 0.04
                      then (tt, snd (Colony.addMember k candidate (Some this) w))
                      else (tt, w)
                  | None => (tt, w)
                  end
                else (tt, w)
            | None => (tt, w)
            end
        | None => (tt, w)
        end
    | None => (tt, w)
    end.

(** [updateColonyBehavior(cells)] *)
Definition updateColonyBehavior (M : MathLib) (cellsArr : list cell_id)
    (this : cell_id) : State World unit :=
  let* stop := settled this in
  if stop then ret tt
  else
    let* nearby := nearbyCells M this cellsArr in
    match nearby with
    | [] => ret tt
    | _ :: _ =>
        let* _ := considerFounding this nearby in
        let* _ := considerInviting this nearby in
        fun w =>
          match cells w !! this with
          | Some o =>
              match Cell.colony o with
              | Some k => (tt, Colony.manageBonds M k w)
              | None => (tt, w)
              end
          | None => (tt, w)
          end
    end.

End Behaviour.

(** ** Pairwise interaction of the round-based orchestrator
    (Simulation.handleCellInteraction and its helpers) *)

Module Combat.

Definition states (o : Cell.t) : DefenseStates.t := Cell.defenseStates o.
Definition on_states (f : DefenseStates.t -> DefenseStates.t) (o : Cell.t) : Cell.t :=
  Cell.set_defenseStates (f (Cell.defenseStates o)) o.

(** The [shapeAdvantages] table *)
Definition shapeMultiplier (attackerShape defenderShape : Shape) : option Q :=
  match attackerShape, defenderShape with
  | triangle, circle => Some 1.2
  | square, triangle => Some 1.2
  | star, square => Some 1.3
  | hexagon, star => Some 1.1
  | _, _ => None
  end.

(** [calculateDefenseInteraction(attacker, defender, baseDamage)] *)
Definition calculateDefenseInteraction (attacker defender : cell_id)
    (baseDamage : Q) : State World Q :=
  fun w =>
    match cells w !! attacker, cells w !! defender with
    | Some a, Some d =>
        let '(finalDamage, w1) :=
          match Traits.defenseType (Cell.traits d) with
          | armor => (baseDamage * 0.5, w)
          | shield =>
              if Qlt_bool 20 (DefenseStates.shieldEnergy (states d)) then
                (baseDamage * 0.3,
                 modify_cell defender (on_states (fun s =>
                   DefenseStates.set_shieldEnergy
                     (DefenseStates.shieldEnergy s - 10) s)) w)
              else (baseDamage * 0.8, w)
          | phase =>
              if Qlt_bool 30 (DefenseStates.phaseShift (states d))
              then (baseDamage * 0.1, w) else (baseDamage, w)
          | reflect =>
              match DefenseStates.reflectCharge (states d) with
              | Some charge =>
                  if Qlt_bool 20 charge then
                    let w1 := modify_cell attacker (fun c =>
                      Cell.set_health (Cell.health c - baseDamage * 0.5) c) w in
                    (baseDamage,
                     modify_cell defender (on_states
                       (DefenseStates.set_reflectCharge (Some (charge - 15)))) w1)
                  else (baseDamage, w)
              | None => (baseDamage, w)   (* undefined > 20 is false *)
              end
          | _ => (baseDamage, w)
          end in
        match cells w1 !! attacker with
        | Some a1 =>
            let '(finalDamage, w2) :=
              match Traits.defenseType (Cell.traits a1) with
              | spikes =>
                  (finalDamage,
                   modify_cell defender (fun c =>
                     Cell.set_health
                       (Cell.health c - DefenseStates.spikesDamage (states a1)) c) w1)
              | electric =>
                  if Qlt_bool 70 (DefenseStates.electricCharge (states a1)) then
                    (finalDamage * 1.5,
                     modify_cell defender (fun c =>
                       Cell.set_energy (Cell.energy c - 5) c) w1)
                  else (finalDamage, w1)
              | explosive =>
                  if Qlt_bool (Cell.health a1) (Cell.maxHealth a1 * 0.3)
                  then (finalDamage * 2, w1) else (finalDamage, w1)
              | _ => (finalDamage, w1)
              end in
            let finalDamage :=
              match shapeMultiplier (Traits.shape (Cell.traits a))
                                    (Traits.shape (Cell.traits d)) with
              | Some m => finalDamage * m
              | None => finalDamage
              end in
            (Qmax 0 finalDamage, w2)
        | None => (0, w1)
        end
    | _, _ => (0, w)
    end.

(** [handleSpecialCombatEffects(cell1, cell2)] *)
Definition handleSpecialCombatEffects (c1 c2 : cell_id) : State World unit :=
  fun w =>
    match cells w !! c1 with
    | Some o1 =>
        (* poison *)
        let w :=
          if bool_decide (Traits.defenseType (Cell.traits o1) = poison) then
            modify_cell c2 (fun c => Cell.set_health (Cell.health c - 1) c)
              (modify_cell c1 (on_states (DefenseStates.set_poisonAura 120)) w)
          else w in
        (* viral transmission *)
        let w :=
          if bool_decide (Traits.defenseType (Cell.traits o1) = viral)
             && Qlt_bool 50 (DefenseStates.viralLoad (states o1)) then
            modify_cell c2 (fun c =>
              Cell.set_traits
                (Traits.set_toxinResistance
                   (Traits.toxinResistance (Cell.traits c) - 0.1) (Cell.traits c))
                (on_states (fun s =>
                   DefenseStates.set_viralLoad (DefenseStates.viralLoad s + 30) s) c)) w
          else w in
        (* magnetic disruption *)
        let '(_, w) :=
          match cells w !! c2 with
          | Some o2 =>
              if bool_decide (Traits.defenseType (Cell.traits o1) = magnetic)
                 && Qlt_bool 0.3 (Traits.magneticSensitivity (Cell.traits o2)) then
                let disruptionForce := DefenseStates.magneticField (states o1) * 0.1 in
                let '(r1, w1) := draw w in
                let w2 := modify_cell c2 (fun c =>
                  Cell.set_vx (Cell.vx c + (r1 - 0.5) * disruptionForce) c) w1 in
                let '(r2, w3) := draw w2 in
                (tt, modify_cell c2 (fun c =>
                  Cell.set_vy (Cell.vy c + (r2 - 0.5) * disruptionForce) c) w3)
              else (tt, w)
          | None => (tt, w)
          end in
        match cells w !! c1, cells w !! c2 with
        | Some a, Some b =>
            if bool_decide (Traits.defenseType (Cell.traits a) = swarm)
               && bool_decide (Traits.defenseType (Cell.traits b) = swarm) then
              (tt, modify_cell c2 (fun c => Cell.set_health (Cell.health c + 1) c)
                     (modify_cell c1 (fun c => Cell.set_health (Cell.health c + 1) c) w))
            else
              let w :=
                if bool_decide (Traits.specialAbility (Cell.traits a) = pack_hunter)
                   && negb (bool_decide (DefenseStates.packMembers (states a) = []))
                then
                  let packBonus :=
                    Qmin 2 (inject_Z (Z.of_nat
                              (length (DefenseStates.packMembers (states a)))) * 0.5) in
                  modify_cell c2 (fun c =>
                    Cell.set_health (Cell.health c - packBonus) c) w
                else w in
              let w :=
                if bool_decide (Traits.specialAbility (Cell.traits a) = parasite)
                   && Qlt_bool (Cell.size a) (Cell.size b)
                then modify_cell c1 (Behaviour.set_parasiteHost (Some c2)) w
                else w in
              (tt, w)
        | _, _ => (tt, w)
        end
    | None => (tt, w)
    end.

(** [handleCellInteraction(cell1, cell2)].  The two blocks guarded by
    [if (cell.roundStats)] always run: the [Cell] constructor gives every
    cell its [roundStats] object (cell.js, line 288) and nothing removes
    it. *)
Definition handleCellInteraction (M : MathLib) (c1 c2 : cell_id)
  : State World unit :=
  fun w =>
    match cells w !! c1, cells w !! c2 with
    | Some o1, Some o2 =>
        if negb (Behaviour.collidesWith M o1 o2) then (tt, w)
        else
          let baseDamage1 := Cell.size o1 * 0.2 in
          let baseDamage2 := Cell.size o2 * 0.2 in
          let '(damage1, w) := calculateDefenseInteraction c1 c2 baseDamage1 w in
          let '(damage2, w) := calculateDefenseInteraction c2 c1 baseDamage2 w in
          let w := modify_cell c1 (fun c => Cell.set_health (Cell.health c - damage2) c) w in
          let w := modify_cell c2 (fun c => Cell.set_health (Cell.health c - damage1) c) w in
          let w := modify_cell c1 (fun c =>
            let c' := Cell.set_damageTaken (Cell.damageTaken c + damage2) c in
            if Qlt_bool damage2 damage1
            then Cell.set_combatWins (Cell.combatWins c' + 1) c' else c') w in
          let w := modify_cell c2 (fun c =>
            let c' := Cell.set_damageTaken (Cell.damageTaken c + damage1) c in
            if Qlt_bool damage1 damage2
            then Cell.set_combatWins (Cell.combatWins c' + 1) c' else c') w in
          let w := modify_cell c1 (fun c =>
            Cell.set_energy (Cell.energy c - Qmin 3 (Cell.energy c * 0.05)) c) w in
          let w := modify_cell c2 (fun c =>
            Cell.set_energy (Cell.energy c - Qmin 3 (Cell.energy c * 0.05)) c) w in
          handleSpecialCombatEffects c1 c2 w
    | _, _ => (tt, w)
    end.

End Combat.

(** ** Cooperation and predation of the continuous-mode orchestrator
    (attemptCooperation, canPredate, handlePredation and the
    handleCellInteraction that calls them)

    That orchestrator's [calculateDefenseInteraction] and
    [handleSpecialCombatEffects] are, line for line, the ones embedded in
    [Combat]. *)

Module Predation.

(** What the orchestrator itself contributes to an interaction. *)
Record Context := mkContext {
  population : nat;                (* this.cells.length *)
  maxPopulation : Q;               (* settings.maxPopulation *)
  predationReproduction : bool;    (* settings.predationReproduction *)
  tick : Z
}.

(** [v || fallback] on an optional number: absent and 0 are falsy. *)
Definition or_default (v : option Q) (fallback : Q) : Q :=
  match v with
  | Some q => if Qeq_bool q 0 then fallback else q
  | None => fallback
  end.

(** [canPredate(predator, prey)] *)
Definition canPredate (predator prey : Cell.t) : bool :=
  if Qlt_bool (Cell.size predator) (Cell.size prey * 2) then false
  else if Qlt_bool (Cell.health predator) (Cell.health prey * 1.2) then false
  else if Qlt_bool (or_default (Traits.aggression (Cell.traits predator)) 0.3) 0.4
  then false
  else if Qlt_bool (Cell.energy predator) (Cell.maxEnergy predator * 0.6) then false
  else if bool_decide (Traits.defenseType (Cell.traits prey) = explosive) then false
  else if bool_decide (Traits.defenseType (Cell.traits prey) = poison)
          && Qlt_bool (Traits.toxinResistance (Cell.traits predator)) 0.7
  then false
  else if bool_decide (Traits.specialAbility (Cell.traits predator) = parasite)
  then true
  else if bool_decide (Traits.specialAbility (Cell.traits predator) = pack_hunter)
          && negb (bool_decide
                     (DefenseStates.packMembers (Cell.defenseStates predator) = []))
  then true
  else true.

(** [handlePredation(predator, prey, newCells)] *)
Definition handlePredation (M : MathLib) (ctx : Context)
    (predator prey : cell_id) : State World unit :=
  fun w =>
    match cells w !! predator, cells w !! prey with
    | Some p, Some q =>
        let energyGain :=
          Qmin (Cell.maxEnergy q * 0.8) (Cell.maxEnergy p - Cell.energy p) in
        let healthGain :=
          Qmin (Cell.maxHealth q * 0.3) (Cell.maxHealth p - Cell.health p) in
        let w := modify_cell predator (fun c =>
                   Cell.set_energy (Cell.energy c + energyGain) c) w in
        let w := modify_cell predator (fun c =>
                   Cell.set_health (Cell.health c + healthGain) c) w in
        let w := modify_cell prey (Cell.set_health 0) w in
        let '(_, w) :=
          if predationReproduction ctx then
            let reproductionChance :=
              Qmin 0.7 (energyGain / Cell.maxEnergy p + 0.2) in
            let populationPressure :=
              Qmax 1 (inject_Z (Z.of_nat (population ctx)) / maxPopulation ctx) in
            let adjustedChance := reproductionChance / sqrt M populationPressure in
            let '(r, w) := draw w in
            if Qlt_bool r adjustedChance then
              (tt, modify_cell predator (fun c =>
                     Cell.set_lastFoodTime (Some (tick ctx))
                       (Cell.set_reproduced true c)) w)
            else (tt, w)
          else (tt, w) in
        Behaviour.discard 25 w
    | _, _ => (tt, w)
    end.

(** [attemptCooperation(cell1, cell2)] *)
Definition attemptCooperation (c1 c2 : cell_id) : State World bool :=
  fun w =>
    match cells w !! c1, cells w !! c2 with
    | Some o1, Some o2 =>
        let social1 := or_default (Traits.socialIntelligence (Cell.traits o1)) 0.5 in
        let social2 := or_default (Traits.socialIntelligence (Cell.traits o2)) 0.5 in
        let altruism1 := or_default (Traits.altruism (Cell.traits o1)) 0.4 in
        let altruism2 := or_default (Traits.altruism (Cell.traits o2)) 0.4 in
        let cooperationChance := (social1 + social2 + altruism1 + altruism2) / 4 in
        let '(r, w) := draw w in
        if Qlt_bool r (cooperationChance * 0.6) then
          let shareAmount :=
            Qmin 5 (Qabs (Cell.energy o1 - Cell.energy o2) * 0.1) in
          let '(giver, taker) :=
            if Qlt_bool (Cell.energy o2) (Cell.energy o1) then (c1, c2) else (c2, c1) in
          let w := modify_cell giver (fun c =>
                     Cell.set_energy (Cell.energy c - shareAmount) c) w in
          let w := modify_cell taker (fun c =>
                     Cell.set_energy (Cell.energy c + shareAmount) c) w in
          let heal (patient helper : cell_id) (w : World) : World :=
            match cells w !! helper with
            | Some h =>
                let healAmount := Qmin 3 (Cell.energy h * 0.02) in
                let w := modify_cell patient (fun c =>
                           Cell.set_health (Cell.health c + healAmount) c) w in
                modify_cell helper (fun c =>
                  Cell.set_energy (Cell.energy c - healAmount * 0.5) c) w
            | None => w
            end in
          let w :=
            match cells w !! c1, cells w !! c2 with
            | Some a, Some b =>
                if Qlt_bool (Cell.health a) (Cell.maxHealth a * 0.7)
                   && Qlt_bool (Cell.maxHealth b * 0.8) (Cell.health b)
                then heal c1 c2 w
                else if Qlt_bool (Cell.health b) (Cell.maxHealth b * 0.7)
                        && Qlt_bool (Cell.maxHealth a * 0.8) (Cell.health a)
                then heal c2 c1 w
                else w
            | _, _ => w
            end in
          let w := modify_cell c1 (fun c =>
                     Cell.set_growthPoints (Cell.growthPoints c + 0.5) c) w in
          let w := modify_cell c2 (fun c =>
                     Cell.set_growthPoints (Cell.growthPoints c + 0.5) c) w in
          let '(_, w) := Behaviour.discard 15 w in
          (true, w)
        else (false, w)
    | _, _ => (false, w)
    end.

(** Which branch an interaction took; the source method returns nothing,
    the tag only names the branch. *)
Inductive Outcome :=
  | NoContact
  | Cooperated
  | Predated (predator prey : cell_id)
  | Fought.

(** [handleCellInteraction(cell1, cell2, newCells)] as written at line 1981,
    the only caller of [canPredate] and [handlePredation].  The class body
    defines a method of this name a second time (line 2931, below), and in
    JavaScript the later definition of a method replaces the earlier one:
    the class as it runs never calls this body. *)
Definition handleCellInteraction (M : MathLib) (ctx : Context)
    (c1 c2 : cell_id) : State World Outcome :=
  fun w =>
    match cells w !! c1, cells w !! c2 with
    | Some o1, Some o2 =>
        if negb (Behaviour.collidesWith M o1 o2) then (NoContact, w)
        else
          let '(cooperated, w) := attemptCooperation c1 c2 w in
          if cooperated then (Cooperated, w)
          else
            match cells w !! c1, cells w !! c2 with
            | Some o1, Some o2 =>
                if canPredate o1 o2 then
                  let '(_, w) := handlePredation M ctx c1 c2 w in
                  (Predated c1 c2, w)
                else if canPredate o2 o1 then
                  let '(_, w) := handlePredation M ctx c2 c1 w in
                  (Predated c2 c1, w)
                else
                  let baseDamage1 := Cell.size o1 * 0.05 in
                  let baseDamage2 := Cell.size o2 * 0.05 in
                  let '(d1, w) := Combat.calculateDefenseInteraction c1 c2 baseDamage1 w in
                  let damage1 := d1 * 0.5 in
                  let '(d2, w) := Combat.calculateDefenseInteraction c2 c1 baseDamage2 w in
                  let damage2 := d2 * 0.5 in
                  let w := modify_cell c1 (fun c =>
                             Cell.set_health (Cell.health c - damage2) c) w in
                  let w := modify_cell c2 (fun c =>
                             Cell.set_health (Cell.health c - damage1) c) w in
                  let w := modify_cell c1 (fun c =>
                    Cell.set_energy (Cell.energy c - Qmin 1 (Cell.energy c * 0.01)) c) w in
                  let w := modify_cell c2 (fun c =>
                    Cell.set_energy (Cell.energy c - Qmin 1 (Cell.energy c * 0.01)) c) w in
                  let '(_, w) := Combat.handleSpecialCombatEffects c1 c2 w in
                  (Fought, w)
            | _, _ => (NoContact, w)
            end
    | _, _ => (NoContact, w)
    end.


(** [handleCellInteraction(cell1, cell2)] as written at line 2931, the
    method the class ends up with: line for line the round-based body of
    [Combat.handleCellInteraction], which knows neither cooperation nor
    predation. *)
Definition handleCellInteraction_later (M : MathLib) (c1 c2 : cell_id)
  : State World Outcome :=
  fun w =>
    match cells w !! c1, cells w !! c2 with
    | Some o1, Some o2 =>
        if negb (Behaviour.collidesWith M o1 o2) then (NoContact, w)
        else (Fought, snd (Combat.handleCellInteraction M c1 c2 w))
    | _, _ => (NoContact, w)
    end.

End Predation.

(** ** The gain of a predation on binary64 numbers

    The two gain lines of [handlePredation] and the additions that follow
    them, run on the doubles of the engine.  [Math.min] of two numbers of
    which none is NaN is the smaller one. *)

Module Binary64.

Import PrimFloat.
Local Open Scope float_scope.

(** [Math.min(a, b)] *)
Definition min (a b : float) : float := if b <? a then b else a.

(** [Math.min(offer, maximum - current)] *)
Definition gain (offer maximum current : float) : float :=
  min offer (maximum - current).

(** [current += gain] *)
Definition absorbed (offer maximum current : float) : float :=
  current + gain offer maximum current.

End Binary64.


(** ** Natural selection of the continuous-mode orchestrator
    (applyNaturalSelection) *)

Module Selection.

(** What the method reads from the orchestrator around it.  The fitness
    score is [calculateEvolutionaryFitness], a weighted sum clamped to
    [1, 1000]; the selection is modelled over every scoring function.
    [minPopulation] is a head count, an integer. *)
Record Context := mkContext {
  maxPopulation : Q;                       (* settings.maxPopulation *)
  minPopulation : Z;                       (* settings.minPopulation *)
  toxicity : Q;                            (* environment pressures *)
  radiation : Q;
  virusCount : nat;                        (* this.viruses.length *)
  averageFitness : option Q;               (* this.stats.averageFitness *)
  calculateEvolutionaryFitness : World -> cell_id -> Q
}.

(** [this.foodManager.getFood().length] *)
Definition currentFood (w : World) : nat :=
  length (List.filter (fun f => negb (Food.consumed f))
                      (FoodManager.food (foodManager w))).

Definition scarcityThreshold (currentCells : nat) : Q :=
  if (currentCells <? 100)%nat
  then Qmax 0.8 (1.5 - (100 - inject_Z (Z.of_nat currentCells)) * 0.007)
  else 1.5.

(** [foodPerCell < scarcityThreshold]; with no cells the quotient is NaN or
    Infinity and the comparison is false. *)
Definition resourceScarcity (w : World) (currentCells : nat) : bool :=
  match currentCells with
  | O => false
  | _ => Qlt_bool (inject_Z (Z.of_nat (currentFood w))
                   / inject_Z (Z.of_nat currentCells))
                  (scarcityThreshold currentCells)
  end.

Definition overpopulation (ctx : Context) (currentCells : nat) : bool :=
  Qlt_bool (maxPopulation ctx * 0.85) (inject_Z (Z.of_nat currentCells)).

Definition removalRate (ctx : Context) (w : World) (currentCells : nat) : Q :=
  let rate := 0.05 in
  let rate :=
    if (currentCells <? 80)%nat then rate * 0.4
    else if (currentCells <? 150)%nat then rate * 0.7
    else rate in
  let scarce := resourceScarcity w currentCells in
  let over := overpopulation ctx currentCells in
  let rate :=
    if scarce && over then Qmin (rate * 3) 0.12
    else if scarce then Qmin (rate * 1.6) 0.08
    else if over then Qmin (rate * 1.2) 0.06
    else rate in
  let rate := if Qlt_bool 0.6 (toxicity ctx) then rate + 0.03 else rate in
  let rate := if Qlt_bool 0.4 (radiation ctx) then rate + 0.02 else rate in
  if (10 <? virusCount ctx)%nat then rate + 0.04 else rate.

(** [cellsToRemove] *)
Definition cellsToRemove (ctx : Context) (w : World) (currentCells : nat) : Z :=
  Z.min (floor (inject_Z (Z.of_nat currentCells) * removalRate ctx w currentCells))
        (Z.of_nat currentCells - minPopulation ctx).

Definition score (w : World) (c : cell_id) : Q :=
  match cells w !! c with
  | Some o => Cell.fitnessScore o
  | None => 0
  end.

(** [[...this.cells].sort((a, b) => b.fitnessScore - a.fitnessScore)]: a
    stable sort, highest score first.  The array is built from its last
    element backwards: an element goes in front of what follows it in the
    array, except for the cells that score strictly more, so cells of equal
    score keep the order they had. *)
Fixpoint insert_by_score (w : World) (c : cell_id) (sorted : list cell_id)
  : list cell_id :=
  match sorted with
  | [] => [c]
  | d :: rest =>
      if Qlt_bool (score w c) (score w d) then d :: insert_by_score w c rest
      else c :: d :: rest
  end.

Definition sort_by_score (w : World) (l : list cell_id) : list cell_id :=
  foldr (fun c acc => insert_by_score w c acc) [] l.

(** The three protections.  The first compares [this.simulationTime -
    (cell.lastReproduction || 0)] with 200; the class never defines
    [simulationTime], the difference is NaN and the comparison false. *)
Definition recentlyReproduced (o : Cell.t) : bool :=
  Cell.reproduced o && false.

Definition isProtected (ctx : Context) (w : World) (c : cell_id) : bool :=
  match cells w !! c with
  | Some o =>
      recentlyReproduced o
      || match Cell.colony o with
         | Some k =>
             match colonies w !! k with
             | Some col => (5 <=? length (members col))%nat
             | None => false
             end
         | None => false
         end
      || Qlt_bool (Predation.or_default (averageFitness ctx) 1 * 1.5)
                  (Cell.fitnessScore o)
  | None => false
  end.

(** [array.slice(-k)]: the last [k] elements; [slice(-0)] is [slice(0)],
    the whole array. *)
Definition slice_last (k : nat) (l : list cell_id) : list cell_id :=
  match k with
  | O => l
  | _ => drop (length l - k) l
  end.

(** The weights of one round: one draw per candidate. *)
Fixpoint fitnessWeights (ctx : Context) (w : World) (candidates : list cell_id)
  : State World (list Q) :=
  match candidates with
  | [] => ret []
  | c :: rest =>
      let* r := draw in
      let avgFitness := Predation.or_default (averageFitness ctx) 1 in
      let weight := Qmax 0.1 (avgFitness - score w c + r * 10) in
      let* ws := fitnessWeights ctx w rest in
      ret (weight :: ws)
  end.

(** The inner [for (j ...)] loop: the index at which [randomValue] first
    drops to 0 or below, if any. *)
Fixpoint pick_index (weights : list Q) (randomValue : Q) (j : nat) : option nat :=
  match weights with
  | [] => None
  | wj :: rest =>
      let randomValue := randomValue - wj in
      if Qle_bool randomValue 0 then Some j
      else pick_index rest randomValue (S j)
  end.

(** The outer removal loop: [rounds] iterations of
    [for (i = 0; i < cellsToRemove && removalCandidates.length > 0; i++)]. *)
Fixpoint select (ctx : Context) (rounds : nat)
    (candidates removed : list cell_id) : State World (list cell_id) :=
  match rounds with
  | O => ret removed
  | S rounds' =>
      match candidates with
      | [] => ret removed
      | _ :: _ =>
          fun w =>
            let '(weights, w) := fitnessWeights ctx w candidates w in
            let totalWeight := foldl Qplus 0 weights in
            let '(r, w) := draw w in
            match pick_index weights (r * totalWeight) 0 with
            | Some j =>
                match candidates !! j with
                | Some c =>
                    select ctx rounds' (delete j candidates) (removed ++ [c]) w
                | None => select ctx rounds' candidates removed w
                end
            | None => select ctx rounds' candidates removed w
            end
      end
  end.

(** [removedCells.forEach(...)]: each one found in the array is turned into
    food and spliced out. *)
Definition bury (M : MathLib) (acc : list cell_id * World) (c : cell_id)
  : list cell_id * World :=
  let '(arr, w) := acc in
  if Colony.includes arr c then
    match cells w !! c with
    | Some o =>
        let '(fm, g) :=
          FoodManager.spawnFromDeath M (Cell.x o) (Cell.y o) (Cell.size o * 2)
            (foodManager w) (rng w) in
        (Colony.remove_first c arr, set_rng g (set_foodManager fm w))
    | None => (Colony.remove_first c arr, w)
    end
  else (arr, w).

(** [applyNaturalSelection()], on the array [this.cells] *)
Definition applyNaturalSelection (M : MathLib) (ctx : Context)
    (cellsArr : list cell_id) (w : World) : list cell_id * World :=
  let currentCells := length cellsArr in
  if resourceScarcity w currentCells || overpopulation ctx currentCells then
    let toRemove := cellsToRemove ctx w currentCells in
    let w := foldl (fun w c =>
               modify_cell c
                 (Cell.set_fitnessScore (calculateEvolutionaryFitness ctx w c)) w)
               w cellsArr in
    let sortedCells := sort_by_score w cellsArr in
    let removalCandidates :=
      slice_last (Z.to_nat (floor (inject_Z (Z.of_nat (length sortedCells)) * 0.4)))
        (List.filter (fun c => negb (isProtected ctx w c)) sortedCells) in
    let '(removedCells, w) :=
      select ctx (Z.to_nat toRemove) removalCandidates [] w in
    foldl (bury M) (cellsArr, w) removedCells
  else (cellsArr, w).

End Selection.

(** ** The round-based orchestrator (class Simulation of simulation.js) *)

Module Simulation.

Inductive RoundStatus := waiting | starting | active | ending | finished.

Record Settings := mkSettings {
  initialCells : nat;
  mutationRate : Q;
  simulationSpeed : Q;
  maxCells : Q
}.

(** [this.stats], without the trait histogram, which is derived from the
    cells and read by the user interface only. *)
Record Stats := mkStats {
  totalCells : nat;
  statsGeneration : Z;
  statsTick : Z;
  foodCount : nat;
  roundStatus : RoundStatus;
  populationHistory : list (Z * nat * nat);
  extinctions : Z
}.

Record t := mk {
  width : Q;
  height : Q;
  cellsArr : list cell_id;        (* this.cells *)
  virusesArr : list cell_id;      (* this.viruses *)
  coloniesArr : list colony_id;   (* this.colonies *)
  world : World;                  (* the objects, the food manager, the draws *)
  tick : Z;
  roundTick : Z;
  roundDuration : Z;
  generation : Z;
  maxGeneration : Z;
  settings : Settings;
  stats : Stats
}.

Definition set_cellsArr (v : list cell_id) (s : t) : t :=
  mk (width s) (height s) v (virusesArr s) (coloniesArr s) (world s) (tick s)
     (roundTick s) (roundDuration s) (generation s) (maxGeneration s)
     (settings s) (stats s).
Definition set_virusesArr (v : list cell_id) (s : t) : t :=
  mk (width s) (height s) (cellsArr s) v (coloniesArr s) (world s) (tick s)
     (roundTick s) (roundDuration s) (generation s) (maxGeneration s)
     (settings s) (stats s).
Definition set_coloniesArr (v : list colony_id) (s : t) : t :=
  mk (width s) (height s) (cellsArr s) (virusesArr s) v (world s) (tick s)
     (roundTick s) (roundDuration s) (generation s) (maxGeneration s)
     (settings s) (stats s).
Definition set_world (v : World) (s : t) : t :=
  mk (width s) (height s) (cellsArr s) (virusesArr s) (coloniesArr s) v (tick s)
     (roundTick s) (roundDuration s) (generation s) (maxGeneration s)
     (settings s) (stats s).
Definition set_tick (v : Z) (s : t) : t :=
  mk (width s) (height s) (cellsArr s) (virusesArr s) (coloniesArr s) (world s) v
     (roundTick s) (roundDuration s) (generation s) (maxGeneration s)
     (settings s) (stats s).
Definition set_roundTick (v : Z) (s : t) : t :=
  mk (width s) (height s) (cellsArr s) (virusesArr s) (coloniesArr s) (world s)
     (tick s) v (roundDuration s) (generation s) (maxGeneration s)
     (settings s) (stats s).
Definition set_generation (v : Z) (s : t) : t :=
  mk (width s) (height s) (cellsArr s) (virusesArr s) (coloniesArr s) (world s)
     (tick s) (roundTick s) (roundDuration s) v (maxGeneration s)
     (settings s) (stats s).
Definition set_maxGeneration (v : Z) (s : t) : t :=
  mk (width s) (height s) (cellsArr s) (virusesArr s) (coloniesArr s) (world s)
     (tick s) (roundTick s) (roundDuration s) (generation s) v
     (settings s) (stats s).
Definition set_stats (v : Stats) (s : t) : t :=
  mk (width s) (height s) (cellsArr s) (virusesArr s) (coloniesArr s) (world s)
     (tick s) (roundTick s) (roundDuration s) (generation s) (maxGeneration s)
     (settings s) v.

Definition set_roundStatus (v : RoundStatus) (st : Stats) : Stats :=
  mkStats (totalCells st) (statsGeneration st) (statsTick st) (foodCount st) v
          (populationHistory st) (extinctions st).
Definition set_extinctions (v : Z) (st : Stats) : Stats :=
  mkStats (totalCells st) (statsGeneration st) (statsTick st) (foodCount st)
          (roundStatus st) (populationHistory st) v.

(** The parts of the program the orchestrator calls and this development
    does not embed.  Every property of the orchestrator below is proved
    for all of them.
    - [math]: the [Math] functions;
    - [rest]: [Cell.update] after its death check (defence mechanisms,
      communication, decisions, movement, visual effects);
    - [generateEnvironment]: the conditions of a tick, sines of the tick;
    - [endRound]: the end of a tournament round, which replaces the
      population;
    - [construct]: the [Cell] constructor, from a position, a generation
      and the traits passed in: it draws whatever is missing;
    - [updateViruses], [spawnViruses]: the virus pass, which owns the virus
      array and may infect cells. *)
Record Externals := mkExternals {
  math : MathLib;
  rest : list cell_id -> Behaviour.Env -> cell_id -> World -> World;
  generateEnvironment : Z -> Behaviour.Env;
  endRound : t -> t;
  construct : Q -> Q -> Z -> option Traits.t -> Rand Cell.t;
  updateViruses : list cell_id -> list cell_id -> Behaviour.Env -> World
                  -> list cell_id * World;
  spawnViruses : list cell_id -> list cell_id -> World -> list cell_id * World
}.

(** A new object enters the store under a key no object has. *)
Definition allocate (o : Cell.t) : State World cell_id :=
  fun w =>
    let k := fresh (dom (cells w)) in
    (k, set_cells (<[k := o]> (cells w)) w).

Definition construct_in (E : Externals) (x y : Q) (gen : Z)
    (traits : option Traits.t) : State World cell_id :=
  fun w =>
    let '(o, g) := construct E x y gen traits (rng w) in
    allocate o (set_rng g w).

(** [spawnInitialCells()] *)
Definition spawnInitialCells (E : Externals) (s : t) : t :=
  let '(arr, w) :=
    for_loop (initialCells (settings s)) 0
      (fun _ arr w =>
         let '(rx, w) := draw w in
         let x := 50 + rx * (width s - 100) in
         let '(ry, w) := draw w in
         let y := 50 + ry * (height s - 100) in
         let '(k, w) := construct_in E x y 1 None w in
         (arr ++ [k], w))
      (cellsArr s) (world s) in
  set_world w (set_cellsArr arr s).

(** [updateRoundSystem()] *)
Definition updateRoundSystem (E : Externals) (s : t) : t :=
  let s := if (roundDuration s <=? roundTick s)%Z then endRound E s else s in
  let status :=
    if (roundTick s <? 300)%Z then starting
    else if (roundDuration s - 300 <=? roundTick s)%Z then ending
    else active in
  set_stats (set_roundStatus status (stats s)) s.

(** [cell.reproduce(mutationRate)] *)
Definition reproduce (E : Externals) (this : cell_id) (rate : Q)
  : State World (option cell_id) :=
  fun w =>
    match cells w !! this with
    | Some o =>
        if negb (Cell.reproduced o) then (None, w)
        else
          let w := modify_cell this (Cell.set_reproduced false) w in
          let '(r, w) := draw w in
          let angle := r * PI (math E) * 2 in
          let distance := Cell.radius o * 3 in
          let childX := Cell.x o + cos (math E) angle * distance in
          let childY := Cell.y o + sin (math E) angle * distance in
          let '(mutatedTraits, g) := Mutation.mutate o rate (rng w) in
          let w := set_rng g w in
          let '(k, w) :=
            construct_in E childX childY (Cell.generation o + 1)
              (Some (Traits.set_generation (Some (Cell.generation o + 1)%Z)
                       mutatedTraits)) w in
          (Some k, w)
    | None => (None, w)
    end.

(** [this.foodManager.getFood()]: the particles not consumed, as positions
    in the manager's array. *)
Definition getFood (w : World) : list nat :=
  List.filter
    (fun i => match FoodManager.food (foodManager w) !! i with
              | Some f => negb (Food.consumed f)
              | None => false
              end)
    (seq 0 (length (FoodManager.food (foodManager w)))).

(** The state of the per-cell pass.  [interactions] is a log of the calls
    of [handleCellInteraction], latest last; the source keeps no such log,
    it is there to state which pairs the pass resolves. *)
Record Pass := mkPass {
  passWorld : World;
  deadCells : list (cell_id * nat);
  newCells : list cell_id;
  passMaxGeneration : Z;
  interactions : list (cell_id * cell_id)
}.

(** [food.forEach(foodParticle => ...)] of a cell's turn *)
Definition feed (E : Externals) (cell : cell_id) (food : list nat) (w : World)
  : World :=
  foldl (fun w particle =>
           let '(ate, w) := Behaviour.eat (math E) cell particle w in
           if ate
           then modify_cell cell (fun o =>
                  Cell.set_foodEaten (Cell.foodEaten o + 1) o) w
           else w) w food.

(** [this.cells.forEach(other => ...)] of a cell's turn: every entry of the
    array other than the cell itself is tried, whatever its health. *)
Definition fight (E : Externals) (cell : cell_id) (others : list cell_id)
    (w : World) (log : list (cell_id * cell_id))
  : World * list (cell_id * cell_id) :=
  foldl (fun '(w, log) other =>
           match cells w !! cell, cells w !! other with
           | Some o, Some p =>
               if negb (bool_decide (other = cell))
                  && Behaviour.collidesWith (math E) o p
               then (snd (Combat.handleCellInteraction (math E) cell other w),
                     log ++ [(cell, other)])
               else (w, log)
           | _, _ => (w, log)
           end)
        (w, log) others.

(** The death test of a cell's turn:
    [!isAlive || cell.traits.health <= 0]. *)
Definition foundDead (isAlive : bool) (w : World) (cell : cell_id) : bool :=
  negb isAlive
  || match cells w !! cell with
     | Some o => Qle_bool (Cell.health o) 0
     | None => false
     end.

(** One turn of [this.cells.forEach((cell, index) => ...)].
    [updateCellScore] writes only the round statistics of the cell
    (survival time, distance, fitness score of the round), which nothing
    embedded reads, and is left out. *)
Definition visit (E : Externals) (s : t) (env : Behaviour.Env)
    (food : list nat) (acc : Pass) (index : nat) (cell : cell_id) : Pass :=
  let '(isAlive, w) :=
    Behaviour.update (math E) (rest E) (cellsArr s) env cell (passWorld acc) in
  if foundDead isAlive w cell then
    mkPass w (deadCells acc ++ [(cell, index)]) (newCells acc)
           (passMaxGeneration acc) (interactions acc)
  else
    (* food consumption *)
    let w := feed E cell food w in
    (* combat *)
    let '(w, log) := fight E cell (cellsArr s) w (interactions acc) in
    (* reproduction *)
    let reproduced :=
      match cells w !! cell with
      | Some o => Cell.reproduced o
      | None => false
      end in
    if reproduced then
      let '(offspring, w) := reproduce E cell (mutationRate (settings s)) w in
      match offspring with
      | Some child =>
          if Qlt_bool (inject_Z (Z.of_nat (length (cellsArr s))))
                      (maxCells (settings s))
          then
            let childGeneration :=
              match cells w !! child with
              | Some o => Cell.generation o
              | None => 0%Z
              end in
            mkPass w (deadCells acc) (newCells acc ++ [child])
                   (Z.max (passMaxGeneration acc) childGeneration) log
          else mkPass w (deadCells acc) (newCells acc) (passMaxGeneration acc) log
      | None => mkPass w (deadCells acc) (newCells acc) (passMaxGeneration acc) log
      end
    else mkPass w (deadCells acc) (newCells acc) (passMaxGeneration acc) log.

(** [this.cells.forEach(...)], from position [index] on *)
Fixpoint pass_from (E : Externals) (s : t) (env : Behaviour.Env)
    (food : list nat) (index : nat) (remaining : list cell_id) (acc : Pass)
  : Pass :=
  match remaining with
  | [] => acc
  | cell :: more =>
      pass_from E s env food (S index) more (visit E s env food acc index cell)
  end.

Definition pass (E : Externals) (s : t) (env : Behaviour.Env) (food : list nat)
  : Pass :=
  pass_from E s env food 0 (cellsArr s)
    (mkPass (world s) [] [] (maxGeneration s) []).

(** One turn of [deadCells.reverse().forEach(({ cell, index }) => ...)]:
    food is spawned at the corpse and the array entry at the recorded
    position is spliced out. *)
Definition removeOne (E : Externals) (acc : list cell_id * World)
    (entry : cell_id * nat) : list cell_id * World :=
  let '(arr, w) := acc in
  let '(cell, index) := entry in
  let w :=
    match cells w !! cell with
    | Some o =>
        let '(fm, g) :=
          FoodManager.spawnFromDeath (math E) (Cell.x o) (Cell.y o)
            (Cell.size o) (foodManager w) (rng w) in
        set_rng g (set_foodManager fm w)
    | None => w
    end in
  (delete index arr, w).

(** [deadCells.reverse().forEach(...)]: last recorded position first. *)
Definition removeDead (E : Externals) (dead : list (cell_id * nat))
    (arr : list cell_id) (w : World) : list cell_id * World :=
  foldl (removeOne E) (arr, w) (reverse dead).

(** [this.colonies.forEach((colony, index) => ...)] of [updateColonies]: an
    empty colony is spliced out of the array while it is being walked, so
    the entry that slides into its place is not visited. *)
Fixpoint walkColonies (turns : nat) (index : nat) (arr : list colony_id)
    (w : World) : list colony_id * World :=
  match turns with
  | O => (arr, w)
  | S turns' =>
      match arr !! index with
      | Some k =>
          match colonies w !! k with
          | Some col =>
              match members col with
              | [] => walkColonies turns' (S index) (delete index arr) w
              | [_] => walkColonies turns' (S index) arr w
              | _ => walkColonies turns' (S index) arr (Colony.shareResources k w)
              end
          | None => walkColonies turns' (S index) arr w
          end
      | None => (arr, w)
      end
  end.

(** [updateColonies()] *)
Definition updateColonies (s : t) : t :=
  let '(arr, w) :=
    walkColonies (length (coloniesArr s)) 0 (coloniesArr s) (world s) in
  let arr :=
    foldl (fun arr cell =>
             match cells w !! cell with
             | Some o =>
                 match Cell.colony o with
                 | Some k => if bool_decide (k ∈ arr) then arr else arr ++ [k]
                 | None => arr
                 end
             | None => arr
             end) arr (cellsArr s) in
  set_world w (set_coloniesArr arr s).

(** [applyPoisonEffects()] *)
Definition applyPoisonEffects (E : Externals) (s : t) : t :=
  let w :=
    foldl (fun w cell =>
             match cells w !! cell with
             | Some o =>
                 if negb (bool_decide (Traits.defenseType (Cell.traits o) = poison))
                 then w
                 else if Qle_bool (DefenseStates.poisonAura (Cell.defenseStates o)) 0
                 then w
                 else
                   let poisonRadius := Cell.radius o + 20 in
                   foldl (fun w target =>
                            if bool_decide (target = cell) then w
                            else match cells w !! cell, cells w !! target with
                                 | Some o, Some p =>
                                     if Qlt_bool (distanceTo (math E) o p) poisonRadius
                                     then
                                       modify_cell target (fun c =>
                                         Cell.set_energy (Cell.energy c - 0.2)
                                           (Cell.set_health (Cell.health c - 0.3) c)) w
                                     else w
                                 | _, _ => w
                                 end)
                         w (cellsArr s)
             | None => w
             end)
          (world s) (cellsArr s) in
  set_world w s.

(** The rounded-down mean generation of the living cells *)
Definition meanGeneration (s : t) : Z :=
  let total :=
    foldl (fun sum cell =>
             match cells (world s) !! cell with
             | Some o => (sum + Cell.generation o)%Z
             | None => sum
             end) 0%Z (cellsArr s) in
  (total / Z.of_nat (length (cellsArr s)))%Z.

(** [updateStats()] *)
Definition updateStats (s : t) : t :=
  let food := length (getFood (world s)) in
  let history :=
    if (tick s mod 10 =? 0)%Z then
      let h := populationHistory (stats s)
               ++ [(tick s, length (cellsArr s), food)] in
      if (1000 <? length h)%nat then drop (length h - 500) h else h
    else populationHistory (stats s) in
  set_stats (mkStats (length (cellsArr s)) (generation s) (tick s) food
                     (roundStatus (stats s)) history (extinctions (stats s))) s.

(** [updateSingleStep()], in three parts: what precedes the per-cell pass,
    the pass, and what follows it. *)
Definition beginStep (E : Externals) (s : t) : t * Behaviour.Env * list nat :=
  let s := set_tick (tick s + 1) s in
  let s := set_roundTick (roundTick s + 1) s in
  let s := updateRoundSystem E s in
  let environment := generateEnvironment E (tick s) in
  (* food system *)
  let '(fm, g) := FoodManager.update (foodManager (world s)) (rng (world s)) in
  let s := set_world (set_rng g (set_foodManager fm (world s))) s in
  (s, environment, getFood (world s)).

Definition endStep (E : Externals) (s : t) (environment : Behaviour.Env)
    (p : Pass) : t :=
  let s := set_maxGeneration (passMaxGeneration p) (set_world (passWorld p) s) in
  (* corpses out, offspring in *)
  let '(arr, w) := removeDead E (deadCells p) (cellsArr s) (world s) in
  let s := set_world w (set_cellsArr (arr ++ newCells p) s) in
  (* viruses *)
  let '(vs, w) := updateViruses E (virusesArr s) (cellsArr s) environment (world s) in
  let s := set_world w (set_virusesArr vs s) in
  let '(vs, w) := spawnViruses E (virusesArr s) (cellsArr s) (world s) in
  let s := set_world w (set_virusesArr vs s) in
  (* colonies *)
  let s := updateColonies s in
  (* extinction *)
  let s :=
    match cellsArr s with
    | [] => spawnInitialCells E
              (set_stats (set_extinctions (extinctions (stats s) + 1) (stats s)) s)
    | _ :: _ => s
    end in
  let s :=
    match cellsArr s with
    | [] => s
    | _ :: _ => set_generation (meanGeneration s) s
    end in
  let s := applyPoisonEffects E s in
  updateStats s.

(** The per-cell pass of a tick. *)
Definition stepPass (E : Externals) (s : t) : Pass :=
  let '(s1, environment, food) := beginStep E s in
  pass E s1 environment food.

Definition updateSingleStep (E : Externals) (s : t) : t :=
  let '(s1, environment, food) := beginStep E s in
  endStep E s1 environment (pass E s1 environment food).

(** The cells the removal leaves in the array. *)
Definition survivors (E : Externals) (s : t) (p : Pass) : list cell_id :=
  fst (removeDead E (deadCells p) (cellsArr s) (passWorld p)).

(** The particles [spawnFromDeath] pushes for a corpse of a given size:
    floor(size / 4) + 1, none if that is not positive. *)
Definition corpseParticles (w : World) (c : cell_id) : nat :=
  match cells w !! c with
  | Some o => Z.to_nat (FoodManager.nutrientCount (Cell.size o))
  | None => 0
  end.

(** *** What the pass is expected to respect *)

(** No cell marked dead at an earlier position is a party of an interaction
    a later cell starts. *)
Definition dead_party_free (arr : list cell_id) (p : Pass) : Prop :=
  forall c o d i j,
    (c, o) ∈ interactions p -> (d, j) ∈ deadCells p ->
    arr !! i = Some c -> (j < i)%nat -> o ≠ d /\ c ≠ d.

(** No cell of the list is dead: health and energy are above 0. *)
Definition dead_are_gone (s : t) : Prop :=
  forall c o,
    c ∈ cellsArr s -> cells (world s) !! c = Some o ->
    0 < Cell.health o /\ 0 < Cell.energy o.

(** What holds of the pass once the cells [visited] have had their turn:
    who started the logged interactions, where the marked cells stand in
    the array, that no marked cell started an interaction, that the
    offspring are new objects, that the objects of the array are still in
    the store, and that the marked positions were recorded in increasing
    order. *)
Record pass_invariant (arr visited : list cell_id) (acc : Pass) : Prop :=
  mkPassInvariant {
    inv_parties : forall a b,
      (a, b) ∈ interactions acc -> a ∈ visited /\ b ∈ arr /\ b ≠ a;
    inv_dead : forall d j, (d, j) ∈ deadCells acc -> visited !! j = Some d;
    inv_initiator : forall a b d j,
      (a, b) ∈ interactions acc -> (d, j) ∈ deadCells acc -> a ≠ d;
    inv_offspring : forall k, k ∈ newCells acc -> k ∉ arr;
    inv_store : forall c, c ∈ arr -> c ∈ dom (cells (passWorld acc));
    inv_order : StronglySorted (flip lt) (reverse (deadCells acc).*2)
  }.

(** Every entry of the cells array is an object of the store. *)
Definition array_in_store (s : t) : Prop :=
  forall c, c ∈ cellsArr s -> c ∈ dom (cells (world s)).

(** The unembedded part of [Cell.update] destroys no object. *)
Definition rest_keeps_objects (E : Externals) : Prop :=
  forall l env c w, dom (cells w) ⊆ dom (cells (rest E l env c w)).

(** [speedMultiplier % 1] for a positive multiplier *)
Definition fractionalPart (q : Q) : Q := q - inject_Z (floor q).

(** The number of whole steps [update()] always runs. *)
Definition updates (s : t) : nat :=
  Z.to_nat (Z.max 1 (floor (simulationSpeed (settings s)))).

(** [update()] *)
Definition update (E : Externals) (s : t) : t :=
  if Qle_bool (simulationSpeed (settings s)) 0 then s
  else
    let speedMultiplier := simulationSpeed (settings s) in
    let n := updates s in
    let partialUpdate := fractionalPart speedMultiplier in
    let s := Nat.iter n (updateSingleStep E) s in
    if Qlt_bool 0 partialUpdate then
      let '(r, w) := draw (world s) in
      let s := set_world w s in
      if Qlt_bool r partialUpdate then updateSingleStep E s else s
    else s.

(** Where [spawnFromDeath] puts a particle for a corpse at (x, y): at the
    corpse's position, moved in some direction by a fraction below 1 of
    twice the corpse's size, and pulled back to 10 inside the borders of
    the field. *)
Definition nearCorpse (M : MathLib) (width height x y cellSize : Q)
    (particle : Food.t) : Prop :=
  exists angle d,
    0 <= d /\ d < 1 /\
    Food.x particle
    = Qmax 10 (Qmin (width - 10) (x + cos M angle * (d * cellSize * 2))) /\
    Food.y particle
    = Qmax 10 (Qmin (height - 10) (y + sin M angle * (d * cellSize * 2))).

(** The state of the pass when the cell at position [index] gets its
    turn. *)
Definition pass_before (E : Externals) (s : t) (env : Behaviour.Env)
    (food : list nat) (index : nat) : Pass :=
  pass_from E s env food 0 (take index (cellsArr s))
    (mkPass (world s) [] [] (maxGeneration s) []).

(** The store in which the combat of a turn starts: the cell has been
    updated and has fed. *)
Definition combatWorld (E : Externals) (s : t) (env : Behaviour.Env)
    (food : list nat) (acc : Pass) (cell : cell_id) : World :=
  feed E cell food
    (snd (Behaviour.update (math E) (rest E) (cellsArr s) env cell (passWorld acc))).

(** *** The experiment controls of the class *)

(** [killRandomCell()].  The index is in range for every draw in [0, 1);
    the entry it names is removed as a dead cell is, with food at the
    corpse. *)
Definition killRandomCell (E : Externals) (s : t) : t :=
  match cellsArr s with
  | [] => s
  | _ :: _ =>
      let '(r, w) := draw (world s) in
      let randomIndex :=
        Z.to_nat (floor (r * inject_Z (Z.of_nat (length (cellsArr s))))) in
      match cellsArr s !! randomIndex with
      | Some cell =>
          let '(arr, w) := removeOne E (cellsArr s, w) (cell, randomIndex) in
          set_world w (set_cellsArr arr s)
      | None => set_world w s
      end
  end.

(** [introduceDisease()]: a fifth of the population, rounded down, is
    drawn with replacement, and each draw costs the cell it names three
    tenths of its health. *)
Definition introduceDisease (s : t) : t :=
  let affectedCount :=
    Z.to_nat (floor (inject_Z (Z.of_nat (length (cellsArr s))) * 0.2)) in
  let '(_, w) :=
    for_loop affectedCount 0
      (fun _ (_ : unit) w =>
         let '(r, w) := draw w in
         let randomIndex :=
           Z.to_nat (floor (r * inject_Z (Z.of_nat (length (cellsArr s))))) in
         match cellsArr s !! randomIndex with
         | Some cell =>
             (tt, modify_cell cell (fun o =>
                    Cell.set_health (Cell.health o * 0.7) o) w)
         | None => (tt, w)
         end)
      tt (world s) in
  set_world w s.

End Simulation.

(** ** What a step leaves of every cell *)

(** What a projection sees of the cells of a store. *)
Definition view {A} (proj : Cell.t -> A) (w : World) : gmap cell_id A :=
  proj <$> cells w.

(** Where a cell is and how large: all that [collidesWith] reads. *)
Definition geometry (o : Cell.t) : Q * Q * Q :=
  (Cell.x o, Cell.y o, Cell.radius o).

(** The colony a cell refers to and the cells it lists as bonded. *)
Definition kinship (o : Cell.t) : option colony_id * list cell_id :=
  (Cell.colony o, Cell.bonds o).

(** Who is a member of a colony and which pairs of cells its bonds
    join. *)
Definition colonyShape (col : ColonyData)
  : list cell_id * gmap string (cell_id * cell_id) :=
  (members col, (fun b => (cell1 b, cell2 b)) <$> bondMap col).

(** All that coherence and bond symmetry read of a store. *)
Definition kin (w : World)
  : gmap cell_id (option colony_id * list cell_id)
    * gmap colony_id (list cell_id * gmap string (cell_id * cell_id)) :=
  (view kinship w, colonyShape <$> colonies w).

(** A store in order: coherent, with symmetric bonds. *)
Definition bonds_in_order (w : World) : Prop :=
  colony_coherent w /\ bonds_symmetric w.

(** What the tick asks of the parts it calls and this development does not
    embed, for the colonies and bonds to stay in order: the constructor
    makes a cell of no colony and without bonds (cell.js, lines 274-275),
    and the others leave a store in order as one. *)
Record keeps_bonds (E : Simulation.Externals) : Prop := mkKeepsBonds {
  kb_rest : forall l env c w,
    bonds_in_order w -> bonds_in_order (Simulation.rest E l env c w);
  kb_endRound : forall s,
    bonds_in_order (Simulation.world s) ->
    bonds_in_order (Simulation.world (Simulation.endRound E s));
  kb_construct : forall x y g traits r,
    kinship (fst (Simulation.construct E x y g traits r)) = (None, []);
  kb_updateViruses : forall vs cs env w,
    bonds_in_order w ->
    bonds_in_order (snd (Simulation.updateViruses E vs cs env w));
  kb_spawnViruses : forall vs cs w,
    bonds_in_order w -> bonds_in_order (snd (Simulation.spawnViruses E vs cs w))
}.

(** ** Sample values

    A cell as the constructor seeds it (middle-of-range traits), used to
    run the definitions on concrete inputs. *)

Module Sample.

(** A rational [Math] library to run the engine with: square roots rounded
    down to six decimals, sine by range reduction and its series up to the
    thirteenth power, arctangent by a quadratic fit.  The runs below use
    only that the square root of 0 is 0 and that of a positive number is
    not negative. *)
Definition pi : Q := 3.14159265358979.

Definition sqrt_down (q : Q) : Q :=
  if Qle_bool q 0 then 0
  else inject_Z (Z.sqrt (Qfloor (q * 1000000000000))) / 1000000.

Definition sine (a : Q) : Q :=
  let turns := inject_Z (Qfloor (a / (2 * pi) + 0.5)) in
  let x := Qred (a - turns * (2 * pi)) in
  let x2 := Qred (x * x) in
  Qred (x * (1 - x2 / 6 * (1 - x2 / 20 * (1 - x2 / 42 * (1 - x2 / 72
            * (1 - x2 / 110 * (1 - x2 / 156))))))).

Definition cosine (a : Q) : Q := sine (a + pi / 2).

Definition arctan_unit (t : Q) : Q :=
  (pi / 4) * t + 0.273 * t * (1 - Qabs t).

Definition arctan (t : Q) : Q :=
  if Qle_bool (Qabs t) 1 then arctan_unit t
  else if Qlt_bool 0 t then pi / 2 - arctan_unit (1 / t)
  else - (pi / 2) - arctan_unit (1 / t).

Definition arctan2 (y x : Q) : Q :=
  if Qlt_bool 0 x then arctan (y / x)
  else if Qlt_bool x 0 then
    (if Qle_bool 0 y then arctan (y / x) + pi else arctan (y / x) - pi)
  else if Qlt_bool 0 y then pi / 2
  else if Qlt_bool y 0 then - (pi / 2)
  else 0.

Definition math : MathLib := mkMath pi cosine sine sqrt_down arctan2.

Definition traits : Traits.t :=
  Traits.mk 100 100 10 1 80 80 circle armor none normal solitary juvenile
            0.5 0.5 0.3 60 50 0.2 0.2 0.1 0.1 None None None None.

Definition defenseStates : DefenseStates.t :=
  DefenseStates.mk 0 0 0 3 0 0 0 0 0 5 0 None None [] 80 None.

Definition cell (x y : Q) : Cell.t :=
  Cell.mk x y 0 0 10 1 traits defenseStates 0 1 false 0 None None None
          [] 4 ∅ false sedentary 300 1200 false 0 0 0 0 0 0 None 0.

(** The same cell at age 500, fully fed and healthy. *)
Definition parent : Cell.t := Cell.set_age 500 (cell 100 100).

(** An empty 1000 x 700 world whose draws are all 0.5 and whose food
    spawner is idle for the next hundred ticks. *)
Definition foodManager : FoodManager.t := FoodManager.mk 1000 700 [] 150 1 100.

Definition world (population : gmap cell_id Cell.t) : World :=
  mkWorld population ∅ foodManager (constant_rng 0.5).

(** A large aggressive cell and a small one in the same place. *)
Definition hunter : Cell.t :=
  let t := Traits.set_aggression (Some 0.5) (Traits.set_size 20 traits) in
  Cell.set_radius 20 (Cell.set_traits t (cell 100 100)).

Definition quarry : Cell.t :=
  let t := Traits.set_health 50 (Traits.set_size 8 traits) in
  Cell.set_radius 8 (Cell.set_traits t (cell 100 100)).

Definition hunt : World := world {[ 1%nat := hunter; 2%nat := quarry ]}.

Definition huntContext : Predation.Context :=
  Predation.mkContext 2 3500 true 1.

(** Nine seeded cells in a row, no food, a toxic and irradiated world
    during an outbreak; fitness grows with the key. *)
Definition crowdArray : list cell_id := seq 1 9.

Definition crowd : World :=
  world (list_to_map
           (map (fun c => (c, cell (inject_Z (Z.of_nat c) * 50) 100)) crowdArray)).

Definition crowdContext : Selection.Context :=
  Selection.mkContext 3500 5 0.7 0.5 11 None
    (fun _ c => inject_Z (Z.of_nat c) / 10).

End Sample.

(** ** Scenarios *)

Module Scenario.

(** The collaborators at rest.  With every draw at 0.5, the part of
    [Cell.update] after the death check leaves a seeded cell where it is:
    an armoured cell has no defence mechanism to run, emits no pheromone
    (0.5 is not below its production rate), founds no colony (0.5 is not
    below the formation chance), finds no food in an empty field, and at
    zero distance from its neighbour and from its home no force acts on
    it.  No round ends, no virus exists or is spawned (fewer than ten
    cells), and the conditions of the tick stay within every tolerance of
    the seeded cell. *)
Definition inert : Simulation.Externals :=
  Simulation.mkExternals
    Sample.math
    (fun _ _ _ w => w)
    (fun _ => Behaviour.mkEnv 0.5 0.3 0.1)
    (fun s => s)
    (fun x y gen traits => ret (Cell.set_generation gen
                                  (Cell.set_traits
                                     (default Sample.traits traits)
                                     (Sample.cell x y))))
    (fun viruses _ _ w => (viruses, w))
    (fun viruses _ w => (viruses, w)).

Definition settings : Simulation.Settings := Simulation.mkSettings 50 0.1 1 1000.

Definition stats : Simulation.Stats :=
  Simulation.mkStats 0 1 0 0 Simulation.waiting [] 0.

Definition simulation (cellsArr : list cell_id) (w : World) : Simulation.t :=
  Simulation.mk 1000 700 cellsArr [] [] w 0 0 3000 1 1 settings stats.

(** Two overlapping cells; the first one is out of energy. *)
Definition starved : Cell.t := Cell.set_energy 0.05 (Sample.cell 100 100).

Definition wake : Simulation.t :=
  simulation [1; 2]%nat
    (Sample.world {[ 1%nat := starved; 2%nat := Sample.cell 100 100 ]}).

(** Two overlapping cells; the first one is down to half a health point. *)
Definition wounded : Cell.t := Cell.set_health 0.5 (Sample.cell 100 100).

Definition duel : Simulation.t :=
  simulation [1; 2]%nat
    (Sample.world {[ 1%nat := wounded; 2%nat := Sample.cell 100 100 ]}).

(** Two cells; the first founds a colony with the second, which bonds
    them.  Then, as no call site of the constructor does, a second colony
    is constructed around the first cell, and the first cell is removed
    from it. *)
Definition pair : World :=
  Sample.world {[ 1%nat := Sample.cell 100 100; 2%nat := Sample.cell 110 100 ]}.

Definition bonded : World := snd (Colony.foundColony 1%nat 2%nat pair).

Definition regrouped : colony_id * World := Colony.new 1%nat bonded.

Definition removal : Completion bool * World :=
  Colony.removeMember (fst regrouped) 1%nat (snd regrouped).

(** The collaborators at rest, but for the colony formation of
    [updateSocialConnections], which every living cell runs in its
    turn. *)
Definition social : Simulation.Externals :=
  Simulation.mkExternals
    (Simulation.math inert)
    (fun cellsArr _ this w =>
       snd (Behaviour.updateColonyBehavior (Simulation.math inert) cellsArr this w))
    (Simulation.generateEnvironment inert)
    (Simulation.endRound inert)
    (Simulation.construct inert)
    (Simulation.updateViruses inert)
    (Simulation.spawnViruses inert).

(** The bonded pair as the population of a simulation. *)
Definition clan : Simulation.t := simulation [1; 2]%nat bonded.

(** The bonded pair after the first cell has spent most of its energy: it
    holds 10, its partner has the energy it started with. *)
Definition unequal : World :=
  modify_cell 1%nat (Cell.set_energy 10) bonded.

(** A territorial cell at full health with a second cell inside its
    territory (radius 80) and out of reach (30 apart, radii 10 each). *)
Definition guard : Cell.t :=
  Cell.set_traits (Traits.set_specialAbility territorial Sample.traits)
    (Sample.cell 100 100).

Definition patrol : Simulation.t :=
  simulation [1; 2]%nat
    (Sample.world {[ 1%nat := guard; 2%nat := Sample.cell 130 100 ]}).

(** A photosynthetic cell with full energy, half transparent (as a
    camouflaged cell at rest is). *)
Definition leaf : Cell.t :=
  Cell.set_opacity 0.5
    (Cell.set_traits (Traits.set_specialAbility photosynthesis Sample.traits)
       (Sample.cell 100 100)).

(** An adult adventurer of age 500 that has not reproduced yet, with four
    fifths of its energy and of its health. *)
Definition breeder : Cell.t :=
  Cell.set_colonyRole adventurer
    (Cell.set_energy 64
       (Cell.set_health 80
          (Cell.set_traits (Traits.set_lifestage adult Sample.traits)
             Sample.parent))).

(** The breeder 50 ticks after a successful [considerReproduction]:
    [reproduce] has cleared the flag and the cell has fed back to full
    energy. *)
Definition breeder_later : Cell.t :=
  let c1 := Reproduction.considerReproduction None breeder in
  Cell.set_energy 80
    (Cell.set_age (Cell.age c1 + 50) (Cell.set_reproduced false c1)).

(** A hungry predator (health 31.02599360544266 of 63.981) and a prey with
    a maximal health of 120, so that three tenths of it exceed the room the
    predator has left. *)
Definition glutton : Cell.t :=
  let t := Traits.set_aggression (Some 0.5)
             (Traits.set_size 20
                (Traits.set_maxHealth 63.981
                   (Traits.set_health 31.02599360544266 Sample.traits))) in
  Cell.set_radius 20 (Cell.set_traits t (Sample.cell 100 100)).

Definition morsel : Cell.t :=
  let t := Traits.set_size 8
             (Traits.set_maxHealth 120
                (Traits.set_health 20 Sample.traits)) in
  Cell.set_radius 8 (Cell.set_traits t (Sample.cell 100 100)).

End Scenario.

(** ** The viewport (class Camera of camera.js)

    Coordinates and the zoom are rationals.  A zoom of 0 divides by zero
    in the source; the properties below that divide by the zoom assume it
    positive, which [setZoom] keeps whenever [minZoom] is. *)

Module Camera.

Record t := mk {
  canvasWidth : Q;
  canvasHeight : Q;
  worldWidth : Q;
  worldHeight : Q;
  x : Q;
  y : Q;
  zoom : Q;
  minZoom : Q;
  maxZoom : Q;
  panSpeed : Q;
  smoothPan : bool;
  targetX : Q;
  targetY : Q;
  isDragging : bool;
  lastMouseX : Q;
  lastMouseY : Q
}.

Definition set_position (x' y' : Q) (c : t) : t :=
  mk (canvasWidth c) (canvasHeight c) (worldWidth c) (worldHeight c) x' y'
     (zoom c) (minZoom c) (maxZoom c) (panSpeed c) (smoothPan c)
     (targetX c) (targetY c) (isDragging c) (lastMouseX c) (lastMouseY c).
Definition set_target (tx ty : Q) (c : t) : t :=
  mk (canvasWidth c) (canvasHeight c) (worldWidth c) (worldHeight c) (x c) (y c)
     (zoom c) (minZoom c) (maxZoom c) (panSpeed c) (smoothPan c)
     tx ty (isDragging c) (lastMouseX c) (lastMouseY c).
Definition set_zoom (z : Q) (c : t) : t :=
  mk (canvasWidth c) (canvasHeight c) (worldWidth c) (worldHeight c) (x c) (y c)
     z (minZoom c) (maxZoom c) (panSpeed c) (smoothPan c)
     (targetX c) (targetY c) (isDragging c) (lastMouseX c) (lastMouseY c).
Definition set_mouse (dragging : bool) (mx my : Q) (c : t) : t :=
  mk (canvasWidth c) (canvasHeight c) (worldWidth c) (worldHeight c) (x c) (y c)
     (zoom c) (minZoom c) (maxZoom c) (panSpeed c) (smoothPan c)
     (targetX c) (targetY c) dragging mx my.

(** [new Camera(canvasWidth, canvasHeight, worldWidth, worldHeight)] *)
Definition new (cw ch ww wh : Q) : t :=
  mk cw ch ww wh 0 0 1 0.25 3 50 true 0 0 false 0 0.

(** [constrainToWorld()] *)
Definition constrainToWorld (c : t) : t :=
  let viewWidth := canvasWidth c / zoom c in
  let viewHeight := canvasHeight c / zoom c in
  let c1 := set_target (clamp 0 (worldWidth c - viewWidth) (targetX c))
                       (clamp 0 (worldHeight c - viewHeight) (targetY c)) c in
  set_position (clamp 0 (worldWidth c1 - viewWidth) (x c1))
               (clamp 0 (worldHeight c1 - viewHeight) (y c1)) c1.

(** [update()] *)
Definition update (c : t) : t :=
  let c1 :=
    if smoothPan c then
      let lerpSpeed := 0.1 in
      let x' := x c + (targetX c - x c) * lerpSpeed in
      let y' := y c + (targetY c - y c) * lerpSpeed in
      set_position x' y' c
    else set_position (targetX c) (targetY c) c in
  constrainToWorld c1.

(** [setTarget(x, y)] *)
Definition setTarget (tx ty : Q) (c : t) : t := set_target tx ty c.

(** [pan(deltaX, deltaY)] *)
Definition pan (deltaX deltaY : Q) (c : t) : t :=
  set_target (targetX c + deltaX) (targetY c + deltaY) c.

(** [centerOn(x, y)] *)
Definition centerOn (px py : Q) (c : t) : t :=
  set_target (px - (canvasWidth c / zoom c) / 2)
             (py - (canvasHeight c / zoom c) / 2) c.

(** [setZoom(newZoom)] *)
Definition setZoom (newZoom : Q) (c : t) : t :=
  let oldZoom := zoom c in
  let c1 := set_zoom (clamp (minZoom c) (maxZoom c) newZoom) c in
  let centerX := x c1 + (canvasWidth c1 / oldZoom) / 2 in
  let centerY := y c1 + (canvasHeight c1 / oldZoom) / 2 in
  set_target (centerX - (canvasWidth c1 / zoom c1) / 2)
             (centerY - (canvasHeight c1 / zoom c1) / 2) c1.

(** [zoomBy(factor)] *)
Definition zoomBy (factor : Q) (c : t) : t := setZoom (zoom c * factor) c.

(** [screenToWorld(screenX, screenY)] *)
Definition screenToWorld (c : t) (screenX screenY : Q) : Q * Q :=
  (screenX / zoom c + x c, screenY / zoom c + y c).

(** [worldToScreen(worldX, worldY)] *)
Definition worldToScreen (c : t) (worldX worldY : Q) : Q * Q :=
  ((worldX - x c) * zoom c, (worldY - y c) * zoom c).

(** [isVisible(worldX, worldY, margin = 0)] *)
Definition isVisible (c : t) (worldX worldY margin : Q) : bool :=
  let viewLeft := x c - margin in
  let viewRight := x c + canvasWidth c / zoom c + margin in
  let viewTop := y c - margin in
  let viewBottom := y c + canvasHeight c / zoom c + margin in
  Qle_bool viewLeft worldX && Qle_bool worldX viewRight
  && Qle_bool viewTop worldY && Qle_bool worldY viewBottom.

(** [isAreaVisible(x, y, width, height)] *)
Definition isAreaVisible (c : t) (ax ay width height : Q) : bool :=
  let viewLeft := x c in
  let viewRight := x c + canvasWidth c / zoom c in
  let viewTop := y c in
  let viewBottom := y c + canvasHeight c / zoom c in
  negb (Qlt_bool (ax + width) viewLeft || Qlt_bool viewRight ax
        || Qlt_bool (ay + height) viewTop || Qlt_bool viewBottom ay).

(** [handleMouseDown(e)], [handleMouseMove(e)], [handleMouseUp(e)]: the
    event is its [clientX], [clientY] and the left and top of the bounding
    rectangle of its target. *)
Record MouseEvent := mkMouseEvent {
  clientX : Q; clientY : Q; rectLeft : Q; rectTop : Q
}.

Definition handleMouseDown (e : MouseEvent) (c : t) : t :=
  set_mouse true (clientX e - rectLeft e) (clientY e - rectTop e) c.

Definition handleMouseMove (e : MouseEvent) (c : t) : t :=
  if negb (isDragging c) then c
  else
    let mouseX := clientX e - rectLeft e in
    let mouseY := clientY e - rectTop e in
    let deltaX := (mouseX - lastMouseX c) / zoom c in
    let deltaY := (mouseY - lastMouseY c) / zoom c in
    let c1 := pan (- deltaX) (- deltaY) c in
    set_mouse (isDragging c1) mouseX mouseY c1.

Definition handleMouseUp (c : t) : t :=
  set_mouse false (lastMouseX c) (lastMouseY c) c.

(** [handleWheel(e)], from [e.deltaY] *)
Definition handleWheel (deltaY : Q) (c : t) : t :=
  zoomBy (if Qlt_bool 0 deltaY then 0.9 else 1.1) c.

End Camera.
(** * Properties *)

(** ** Numbers and draws *)

Lemma Qlt_bool_iff (a b : Q) : Qlt_bool a b = true <-> a < b.
Proof.
  unfold Qlt_bool. rewrite negb_true_iff. split.
  - intros H. apply Qnot_le_lt. intros Hle.
    apply Qle_bool_iff in Hle. congruence.
  - intros H. destruct (Qle_bool b a) eqn:E; [|reflexivity].
    apply Qle_bool_iff in E. apply Qlt_not_le in H. contradiction.
Qed.

Lemma Qlt_bool_false (a b : Q) : Qlt_bool a b = false <-> b <= a.
Proof.
  unfold Qlt_bool. rewrite negb_false_iff. apply Qle_bool_iff.
Qed.

Lemma Qle_bool_false (a b : Q) : Qle_bool a b = false <-> b < a.
Proof.
  split.
  - intros H. apply Qnot_le_lt. intros Hle.
    apply Qle_bool_iff in Hle. congruence.
  - intros H. destruct (Qle_bool a b) eqn:E; [|reflexivity].
    apply Qle_bool_iff in E. apply Qlt_not_le in H. contradiction.
Qed.

Lemma clamp_bounds (lo hi v : Q) : lo <= hi -> lo <= clamp lo hi v <= hi.
Proof.
  intros H. unfold clamp. split.
  - apply Q.le_max_l.
  - apply Q.max_lub; [exact H | apply Q.le_min_l].
Qed.

Lemma fair_constant_half : fair (constant_rng 0.5).
Proof. intros n. simpl. unfold Qle, Qlt. simpl. lia. Qed.

Lemma random_fair (g : Rng) :
  fair g -> 0 <= fst (random g) /\ fst (random g) < 1 /\ fair (snd (random g)).
Proof.
  intros H. unfold random. simpl. destruct (H (cursor g)) as [H0 H1].
  split; [exact H0 | split; [exact H1 | exact H]].
Qed.

(** ** Food particles *)

Lemma always_ret {A} (a : A) (P : A -> Prop) : P a -> always (ret a) P.
Proof. intros H g Hg. split; assumption. Qed.

Lemma always_bind {A B} (m : Rand A) (k : A -> Rand B)
    (P : A -> Prop) (R : B -> Prop) :
  always m P -> (forall a, P a -> always (k a) R) -> always (bind m k) R.
Proof.
  intros Hm Hk g Hg. unfold bind.
  destruct (Hm g Hg) as [Ha Hg']. destruct (m g) as [a g']. simpl in *.
  exact (Hk a Ha g' Hg').
Qed.

Lemma always_random : always random (fun r => 0 <= r /\ r < 1).
Proof.
  intros g Hg. destruct (random_fair g Hg) as (H0 & H1 & H2).
  split; [split; assumption | assumption].
Qed.

Lemma always_weaken {A} (m : Rand A) (P R : A -> Prop) :
  always m P -> (forall a, P a -> R a) -> always m R.
Proof.
  intros Hm HPR g Hg. destruct (Hm g Hg) as [Ha Hg']. split; auto.
Qed.

(** C9.  A particle built with radius 6 has energy value 48; for every
    radius the energy value is eight times the radius; and [Food.update]
    keeps the particle (returns true) exactly when it is not consumed and
    the age it has just counted up to is at most [maxAge], and reports it
    gone (returns false) exactly when it is consumed or that age exceeds
    [maxAge]. *)
Theorem food_energy_value_and_expiry :
  (forall x y g, Food.energyValue (fst (Food.new x y (Some 6) g)) == 48) /\
  (forall x y size g,
      let f := fst (Food.new x y size g) in
      Food.energyValue f == Food.radius f * 8) /\
  (forall f,
      fst (Food.update f) = true <->
      Food.consumed f = false /\
      inject_Z (Food.age (snd (Food.update f))) <= Food.maxAge f) /\
  (forall f,
      fst (Food.update f) = false <->
      Food.consumed f = true \/
      Food.maxAge f < inject_Z (Food.age (snd (Food.update f)))) /\
  (forall f, Food.consumed f = false ->
      Food.age (snd (Food.update f)) = (Food.age f + 1)%Z).
Proof.
  split; [|split; [|split; [|split]]].
  - intros x y g. reflexivity.
  - intros x y size g. unfold Food.new, bind, ret, random.
    destruct (Food.radius_of size g) as [r g']. simpl. reflexivity.
  - intros f. unfold Food.update.
    destruct (Food.consumed f).
    + simpl. split; [discriminate | intros [H _]; discriminate].
    + destruct (Qlt_bool (Food.maxAge f) (inject_Z (Food.age f + 1))) eqn:E; simpl.
      * apply Qlt_bool_iff in E. split; [discriminate|].
        intros [_ H]. apply Qlt_not_le in E. contradiction.
      * apply Qlt_bool_false in E. split; [intros _; split; [reflexivity|exact E]|reflexivity].
  - intros f. unfold Food.update.
    destruct (Food.consumed f).
    + simpl. split; [intros _; left; reflexivity | reflexivity].
    + destruct (Qlt_bool (Food.maxAge f) (inject_Z (Food.age f + 1))) eqn:E; simpl.
      * apply Qlt_bool_iff in E. split; [intros _; right; exact E | reflexivity].
      * apply Qlt_bool_false in E. split; [discriminate|].
        intros [H | H]; [discriminate|]. apply Qlt_not_le in H. contradiction.
  - intros f Hc. unfold Food.update. rewrite Hc.
    destruct (Qlt_bool (Food.maxAge f) (inject_Z (Food.age f + 1))); reflexivity.
Qed.

Lemma always_for_loop {S} (Inv : S -> Prop) (body : nat -> S -> Rand S) n :
  (forall i s, Inv s -> always (body i s) Inv) ->
  forall i s, Inv s -> always (for_loop n i body s) Inv.
Proof.
  intros Hbody. induction n as [|n IH]; intros i s Hs; cbn.
  - apply always_ret. exact Hs.
  - eapply always_bind; [apply Hbody, Hs|]. intros s' Hs'. apply IH, Hs'.
Qed.

(** A particle as [spawnFood] makes it. *)
Lemma spawnFood_particle (x y : option Q) (m : FoodManager.t) :
  always (FoodManager.spawnFood x y m) (fun m' =>
    FoodManager.width m' = FoodManager.width m /\
    FoodManager.height m' = FoodManager.height m /\
    FoodManager.maxFood m' = FoodManager.maxFood m /\
    FoodManager.spawnRate m' = FoodManager.spawnRate m /\
    FoodManager.spawnCooldown m' = FoodManager.spawnCooldown m /\
    exists p,
      FoodManager.food m' = FoodManager.food m ++ [p] /\
      Food.consumed p = false /\ Food.age p = 0%Z /\
      2 <= Food.radius p /\ Food.radius p < 8 /\
      Food.energyValue p == Food.radius p * 8 /\
      1800 <= Food.maxAge p /\ Food.decay p = 1 /\
      match x with
      | Some v => Food.x p = v
      | None => exists r, 0 <= r /\ r < 1 /\ Food.x p = r * FoodManager.width m
      end /\
      match y with
      | Some v => Food.y p = v
      | None => exists r, 0 <= r /\ r < 1 /\ Food.y p = r * FoodManager.height m
      end).
Proof.
  unfold FoodManager.spawnFood.
  eapply always_bind with
    (P := fun sx => match x with
                    | Some v => sx = v
                    | None => exists r, 0 <= r /\ r < 1 /\ sx = r * FoodManager.width m
                    end).
  { destruct x; [apply always_ret; reflexivity|].
    eapply always_bind; [apply always_random|]. intros r [H0 H1].
    apply always_ret. exists r. auto. }
  intros sx Hsx.
  eapply always_bind with
    (P := fun sy => match y with
                    | Some v => sy = v
                    | None => exists r, 0 <= r /\ r < 1 /\ sy = r * FoodManager.height m
                    end).
  { destruct y; [apply always_ret; reflexivity|].
    eapply always_bind; [apply always_random|]. intros r [H0 H1].
    apply always_ret. exists r. auto. }
  intros sy Hsy.
  eapply always_bind; [apply always_random|]. intros rand _.
  eapply always_bind with (P := fun size => 2 <= size /\ size < 8).
  { destruct (Qlt_bool rand 0.6); [|destruct (Qlt_bool rand 0.9)];
      (eapply always_bind; [apply always_random|]); intros r [H0 H1];
      apply always_ret; lra. }
  intros size [Hs0 Hs1].
  eapply always_bind with
    (P := fun p => Food.x p = sx /\ Food.y p = sy /\ Food.radius p = size /\
                   Food.consumed p = false /\ Food.age p = 0%Z /\
                   Food.energyValue p == Food.radius p * 8 /\
                   1800 <= Food.maxAge p /\ Food.decay p = 1).
  { unfold Food.new, Food.radius_of.
    destruct (Qeq_bool size 0) eqn:Es; [apply Qeq_bool_iff in Es; lra|].
    eapply always_bind with (P := fun rad => rad = size);
      [apply always_ret; reflexivity|]. intros rad ->.
    eapply always_bind; [apply always_random|]. intros rm [Hm0 Hm1].
    eapply always_bind; [apply always_random|]. intros rp _.
    apply always_ret. cbn. repeat split; try reflexivity. lra. }
  intros p (Hpx & Hpy & Hpr & Hpc & Hpa & Hpe & Hpm & Hpd).
  apply always_ret. cbn. repeat split; try reflexivity.
  exists p. rewrite Hpr. repeat split; auto; try lra.
  - rewrite <- Hpr. exact Hpe.
  - destruct x; [congruence|]. destruct Hsx as (r & ? & ? & ->). exists r. auto.
  - destruct y; [congruence|]. destruct Hsy as (r & ? & ? & ->). exists r. auto.
Qed.

(** ** Mutation *)

Section MutationBands.
Import Mutation.

(** A roll against rate 1 always succeeds: the draw is below 1. *)
Lemma roll_sure body t (P : Traits.t -> Prop) :
  always (body t) P -> always (roll 1 body t) P.
Proof.
  intros Hb. unfold roll. eapply always_bind; [apply always_random|].
  intros r [_ Hr]. apply Qlt_bool_iff in Hr. rewrite Hr. exact Hb.
Qed.

Lemma roll_either p body t (P : Traits.t -> Prop) :
  P t -> always (body t) P -> always (roll p body t) P.
Proof.
  intros Ht Hb. unfold roll. eapply always_bind; [apply always_random|].
  intros r _. destruct (Qlt_bool r p); [exact Hb | apply always_ret; exact Ht].
Qed.

Lemma perturb_band lo hi span v :
  lo <= hi -> always (perturb lo hi span v) (fun v' => lo <= v' <= hi).
Proof.
  intros H. unfold perturb. eapply always_bind; [apply always_random|].
  intros r _. apply always_ret. apply clamp_bounds. exact H.
Qed.

Lemma pick_any {A} (l : list A) (d : A) : always (pick l d) (fun _ => True).
Proof.
  unfold pick. eapply always_bind; [apply always_random|].
  intros r _. apply always_ret. exact I.
Qed.

(** What one numeric block does at rate 1: it stores a value of the band. *)
Ltac numeric_block :=
  intros; apply roll_sure;
  eapply always_bind;
    [apply perturb_band; unfold Qle; simpl; lia
    |intros v Hv; apply always_ret; exists v; split; [exact Hv | reflexivity]].

Lemma mutate_size_full t :
  always (mutate_size 1 t)
    (fun t' => exists v, 4 <= v <= 20 /\ t' = Traits.set_size v t).
Proof. numeric_block. Qed.

Lemma mutate_speed_full t :
  always (mutate_speed 1 t)
    (fun t' => exists v, 0.2 <= v <= 3 /\ t' = Traits.set_speed v t).
Proof. numeric_block. Qed.

Lemma mutate_health_full t :
  always (mutate_health 1 t)
    (fun t' => exists v, 40 <= v <= 160 /\
       t' = Traits.set_health v (Traits.set_maxHealth v t)).
Proof. numeric_block. Qed.

Lemma mutate_energy_full t :
  always (mutate_energy 1 t)
    (fun t' => exists v, 40 <= v <= 120 /\
       t' = Traits.set_energy (v * 0.8) (Traits.set_maxEnergy v t)).
Proof. numeric_block. Qed.

Lemma mutate_temperatureTolerance_full t :
  always (mutate_temperatureTolerance 1 t)
    (fun t' => exists v, 0.1 <= v <= 0.9 /\
       t' = Traits.set_temperatureTolerance v t).
Proof. numeric_block. Qed.

Lemma mutate_acidTolerance_full t :
  always (mutate_acidTolerance 1 t)
    (fun t' => exists v, 0.1 <= v <= 0.9 /\ t' = Traits.set_acidTolerance v t).
Proof. numeric_block. Qed.

Lemma mutate_radiationResistance_full t :
  always (mutate_radiationResistance 1 t)
    (fun t' => exists v, 0.05 <= v <= 0.8 /\
       t' = Traits.set_radiationResistance v t).
Proof. numeric_block. Qed.

Lemma mutate_visionRange_full t :
  always (mutate_visionRange 1 t)
    (fun t' => exists v, 20 <= v <= 120 /\ t' = Traits.set_visionRange v t).
Proof. numeric_block. Qed.

Lemma mutate_communicationRange_full t :
  always (mutate_communicationRange 1 t)
    (fun t' => exists v, 15 <= v <= 100 /\
       t' = Traits.set_communicationRange v t).
Proof. numeric_block. Qed.

Lemma mutate_pheromoneProduction_full t :
  always (mutate_pheromoneProduction 1 t)
    (fun t' => exists v, 0 <= v <= 0.8 /\
       t' = Traits.set_pheromoneProduction v t).
Proof. numeric_block. Qed.

Lemma mutate_toxinResistance_full t :
  always (mutate_toxinResistance 1 t)
    (fun t' => exists v, 0 <= v <= 0.9 /\ t' = Traits.set_toxinResistance v t).
Proof. numeric_block. Qed.

Lemma mutate_magneticSensitivity_full t :
  always (mutate_magneticSensitivity 1 t)
    (fun t' => exists v, 0 <= v <= 0.8 /\
       t' = Traits.set_magneticSensitivity v t).
Proof. numeric_block. Qed.

Lemma mutate_electrogenesis_full t :
  always (mutate_electrogenesis 1 t)
    (fun t' => exists v, 0 <= v <= 0.6 /\ t' = Traits.set_electrogenesis v t).
Proof. numeric_block. Qed.

(** A categorical block stores some member of its enumeration, or nothing. *)
Ltac categorical_block setter getter :=
  intros t; apply roll_either;
    [exists (getter t); destruct t; reflexivity
    |eapply always_bind; [apply pick_any|];
     intros s _; apply always_ret; exists s; reflexivity].

Lemma mutate_shape_any rate :
  forall t, always (mutate_shape rate t)
    (fun t' => exists s, t' = Traits.set_shape s t).
Proof. categorical_block Traits.set_shape Traits.shape. Qed.

Lemma mutate_defenseType_any rate :
  forall t, always (mutate_defenseType rate t)
    (fun t' => exists s, t' = Traits.set_defenseType s t).
Proof. categorical_block Traits.set_defenseType Traits.defenseType. Qed.

Lemma mutate_specialAbility_any rate :
  forall t, always (mutate_specialAbility rate t)
    (fun t' => exists s, t' = Traits.set_specialAbility s t).
Proof. categorical_block Traits.set_specialAbility Traits.specialAbility. Qed.

Lemma mutate_metabolismType_any rate :
  forall t, always (mutate_metabolismType rate t)
    (fun t' => exists s, t' = Traits.set_metabolismType s t).
Proof. categorical_block Traits.set_metabolismType Traits.metabolismType. Qed.

Lemma mutate_socialBehavior_any rate :
  forall t, always (mutate_socialBehavior rate t)
    (fun t' => exists s, t' = Traits.set_socialBehavior s t).
Proof. categorical_block Traits.set_socialBehavior Traits.socialBehavior. Qed.

End MutationBands.

Lemma mutate_full_rate (c : Cell.t) :
  always (Mutation.mutate c 1)
    (fun t => Mutation.within_bands t /\
              Traits.generation t = Some (Cell.generation c + 1)%Z).
Proof.
  unfold Mutation.mutate.
  eapply always_bind; [apply mutate_size_full|]. intros ? (v1 & H1 & ->).
  eapply always_bind; [apply mutate_speed_full|]. intros ? (v2 & H2 & ->).
  eapply always_bind; [apply mutate_health_full|]. intros ? (v3 & H3 & ->).
  eapply always_bind; [apply mutate_energy_full|]. intros ? (v4 & H4 & ->).
  eapply always_bind; [apply mutate_shape_any|]. intros ? (s1 & ->).
  eapply always_bind; [apply mutate_defenseType_any|]. intros ? (s2 & ->).
  eapply always_bind; [apply mutate_specialAbility_any|]. intros ? (s3 & ->).
  eapply always_bind; [apply mutate_metabolismType_any|]. intros ? (s4 & ->).
  eapply always_bind; [apply mutate_socialBehavior_any|]. intros ? (s5 & ->).
  eapply always_bind; [apply mutate_temperatureTolerance_full|].
  intros ? (v5 & H5 & ->).
  eapply always_bind; [apply mutate_acidTolerance_full|]. intros ? (v6 & H6 & ->).
  eapply always_bind; [apply mutate_radiationResistance_full|].
  intros ? (v7 & H7 & ->).
  eapply always_bind; [apply mutate_visionRange_full|]. intros ? (v8 & H8 & ->).
  eapply always_bind; [apply mutate_communicationRange_full|].
  intros ? (v9 & H9 & ->).
  eapply always_bind; [apply mutate_pheromoneProduction_full|].
  intros ? (v10 & H10 & ->).
  eapply always_bind; [apply mutate_toxinResistance_full|].
  intros ? (v11 & H11 & ->).
  eapply always_bind; [apply mutate_magneticSensitivity_full|].
  intros ? (v12 & H12 & ->).
  eapply always_bind; [apply mutate_electrogenesis_full|].
  intros ? (v13 & H13 & ->).
  apply always_ret. unfold Mutation.within_bands. simpl.
  split; [repeat (split; [assumption|]); assumption | reflexivity].
Qed.

(** C7.  Whatever the parent's traits and whatever the draws, [mutate] at
    mutation rate 1.0 returns size in [4,20], speed in [0.2,3], maxHealth
    in [40,160], maxEnergy in [40,120], temperature and acid tolerance in
    [0.1,0.9], radiation resistance in [0.05,0.8], vision range in
    [20,120], communication range in [15,100], pheromone production in
    [0,0.8], toxin resistance in [0,0.9], and a trait vector whose
    generation is the parent's generation plus one. *)
Theorem mutate_full_rate_within_bands (c : Cell.t) (g : Rng) :
  fair g ->
  let t := fst (Mutation.mutate c 1 g) in
  Mutation.within_bands t /\ Traits.generation t = Some (Cell.generation c + 1)%Z.
Proof.
  intros Hg. exact (proj1 (mutate_full_rate c g Hg)).
Qed.

Lemma mutate_full_rate_within_bands_witness :
  fair (constant_rng 0.5) /\
  Mutation.within_bands (fst (Mutation.mutate (Sample.cell 0 0) 1 (constant_rng 0.5))) /\
  Traits.generation (fst (Mutation.mutate (Sample.cell 0 0) 1 (constant_rng 0.5)))
    = Some 2%Z.
Proof.
  split; [exact fair_constant_half|].
  exact (mutate_full_rate_within_bands (Sample.cell 0 0) (constant_rng 0.5)
           fair_constant_half).
Defined.

(** ** Reproduction eligibility *)

(** The cooldown never drops to 7 ticks or less, whatever the state. *)
Lemma reproductionCooldown_floor (members : option nat) (c : Cell.t) :
  7 < Reproduction.reproductionCooldown members c.
Proof.
  unfold Reproduction.reproductionCooldown, Reproduction.cooldownAndThreshold.
  destruct (Qlt_bool 0.85 (Reproduction.energyRatio c));
  destruct (Qlt_bool 0.95 (Reproduction.energyRatio c));
  destruct (Reproduction.inGrowingColony members);
  destruct (decide (Cell.colonyRole c = sedentary));
  destruct (Qlt_bool 0.9 (Reproduction.healthRatio c));
  destruct (Traits.lifestage (Cell.traits c));
  vm_compute; reflexivity.
Qed.

(** A call made while the time since the last reproduction is within the
    cooldown it computes does not succeed. *)
Lemma not_ready_within_cooldown (members : option nat) (c : Cell.t) :
  inject_Z (Reproduction.timeSinceLastReproduction c)
    <= Reproduction.reproductionCooldown members c ->
  Reproduction.ready members c = false.
Proof.
  intros H. unfold Reproduction.ready.
  apply Qlt_bool_false in H. rewrite H. reflexivity.
Qed.

Lemma considerReproduction_not_ready (members : option nat) (c : Cell.t) :
  Reproduction.ready members c = false ->
  Reproduction.considerReproduction members c = c.
Proof.
  intros H. unfold Reproduction.considerReproduction. rewrite H. reflexivity.
Qed.

Lemma considerReproduction_ready (members : option nat) (c : Cell.t) :
  Reproduction.ready members c = true ->
  let c1 := Reproduction.considerReproduction members c in
  Cell.reproduced c1 = true /\
  Cell.lastReproduction c1 = Cell.age c /\ Cell.age c1 = Cell.age c.
Proof.
  intros H. unfold Reproduction.considerReproduction. rewrite H.
  simpl. repeat split.
Qed.

(** C6.  Once [considerReproduction] has succeeded on a cell (the flag is
    set and [lastReproduction] is the current age), no later call succeeds
    while [lastReproduction] stands and the age is within the cooldown
    that call computes; the cooldown always exceeds 7 ticks, so in
    particular every further call in the same tick, however many and
    whatever the colony, energy or health by then, leaves the cell as it
    is. *)
Theorem considerReproduction_once_per_cooldown
    (members : option nat) (c : Cell.t) :
  Reproduction.ready members c = true ->
  let c1 := Reproduction.considerReproduction members c in
  Cell.reproduced c1 = true /\
  Cell.lastReproduction c1 = Cell.age c /\
  (forall (m' : option nat) (c2 : Cell.t),
      Cell.lastReproduction c2 = Cell.lastReproduction c1 ->
      inject_Z (Cell.age c2 - Cell.age c)
        <= Reproduction.reproductionCooldown m' c2 ->
      Reproduction.ready m' c2 = false /\
      Reproduction.considerReproduction m' c2 = c2) /\
  (forall (m' : option nat) (c2 : Cell.t),
      Cell.lastReproduction c2 = Cell.lastReproduction c1 ->
      (Cell.age c2 - Cell.age c <= 7)%Z ->
      Reproduction.ready m' c2 = false) /\
  (forall (n : nat) (m' : option nat),
      Nat.iter n (Reproduction.considerReproduction m') c1 = c1).
Proof.
  intros Hready c1.
  destruct (considerReproduction_ready members c Hready) as (Hflag & Hlast & Hage).
  fold c1 in Hflag, Hlast, Hage.
  assert (Hwin : forall m' c2,
             Cell.lastReproduction c2 = Cell.lastReproduction c1 ->
             inject_Z (Cell.age c2 - Cell.age c)
               <= Reproduction.reproductionCooldown m' c2 ->
             Reproduction.ready m' c2 = false).
  { intros m' c2 Hl Hle. apply not_ready_within_cooldown.
    unfold Reproduction.timeSinceLastReproduction. rewrite Hl, Hlast. exact Hle. }
  assert (Hshort : forall m' c2,
             Cell.lastReproduction c2 = Cell.lastReproduction c1 ->
             (Cell.age c2 - Cell.age c <= 7)%Z ->
             Reproduction.ready m' c2 = false).
  { intros m' c2 Hl Hle. apply Hwin; [exact Hl|].
    apply Qlt_le_weak. eapply Qle_lt_trans; [|apply reproductionCooldown_floor].
    change (inject_Z (Cell.age c2 - Cell.age c) <= inject_Z 7).
    rewrite <- Zle_Qle. exact Hle. }
  split; [exact Hflag|]. split; [exact Hlast|].
  split; [|split].
  - intros m' c2 Hl Hle. split; [apply Hwin; assumption|].
    apply considerReproduction_not_ready. apply Hwin; assumption.
  - exact Hshort.
  - intros n m'. induction n as [|n IH]; [reflexivity|].
    simpl. rewrite IH. apply considerReproduction_not_ready.
    apply Hshort; [reflexivity|]. rewrite Hage. lia.
Qed.

Lemma considerReproduction_once_per_cooldown_witness :
  Reproduction.ready None Sample.parent = true /\
  Cell.reproduced (Reproduction.considerReproduction None Sample.parent) = true /\
  forall n m',
    Nat.iter n (Reproduction.considerReproduction m')
      (Reproduction.considerReproduction None Sample.parent)
    = Reproduction.considerReproduction None Sample.parent.
Proof.
  split; [vm_compute; reflexivity|].
  pose proof (considerReproduction_once_per_cooldown None Sample.parent) as H.
  simpl in H. specialize (H ltac:(vm_compute; reflexivity)).
  destruct H as (H1 & _ & _ & _ & H5). split; [exact H1 | exact H5].
Defined.

(** C6 as stated fails.  An adult cell with four fifths of its energy
    succeeds at age 500 under a cooldown of 168 ticks.  Fifty ticks later,
    fed back to full energy and with its flag cleared by [reproduce], the
    same cell is given a cooldown of 42 ticks by the call itself and
    succeeds again, inside the window computed at its first success. *)
Lemma considerReproduction_again_within_cooldown :
  let c0 := Scenario.breeder in
  let c1 := Reproduction.considerReproduction None c0 in
  let c2 := Scenario.breeder_later in
  Reproduction.ready None c0 = true /\
  Cell.reproduced c1 = true /\
  Cell.lastReproduction c1 = Cell.age c0 /\
  Cell.lastReproduction c2 = Cell.lastReproduction c1 /\
  Cell.age c2 = (Cell.age c0 + 50)%Z /\
  inject_Z (Cell.age c2 - Cell.age c0) < Reproduction.reproductionCooldown None c0 /\
  Reproduction.reproductionCooldown None c2 < inject_Z (Cell.age c2 - Cell.age c0) /\
  Reproduction.ready None c2 = true /\
  Cell.reproduced (Reproduction.considerReproduction None c2) = true /\
  Cell.lastReproduction (Reproduction.considerReproduction None c2) = Cell.age c2.
Proof.
  cbv zeta. repeat split; vm_compute; reflexivity.
Qed.


(** ** Colonies and bonds *)

Arguments modify_cell : simpl never.
Arguments modify_colony : simpl never.

Lemma lookup_modify_cell (c a : cell_id) (f : Cell.t -> Cell.t) (w : World)
    (o' : Cell.t) :
  cells (modify_cell c f w) !! a = Some o' <->
  exists o, cells w !! a = Some o /\ o' = if decide (c = a) then f o else o.
Proof.
  unfold modify_cell. simpl. rewrite lookup_alter.
  destruct (decide (c = a)) as [->|Hne].
  - destruct (cells w !! a) as [o|]; simpl.
    + split; [intros [= <-]; eauto | intros (o0 & [= <-] & ->); reflexivity].
    + split; [discriminate | intros (o0 & [=] & _)].
  - split; [intros H; eauto | intros (o0 & H & ->); exact H].
Qed.

Lemma cells_modify_colony (k : colony_id) f (w : World) :
  cells (modify_colony k f w) = cells w.
Proof. reflexivity. Qed.

Lemma colonies_modify_cell c f w : colonies (modify_cell c f w) = colonies w.
Proof. reflexivity. Qed.

Lemma lookup_modify_colony_eq k f w :
  colonies (modify_colony k f w) !! k = f <$> colonies w !! k.
Proof. unfold modify_colony. simpl. apply lookup_alter_eq. Qed.

Lemma lookup_modify_colony (k a : colony_id) f w :
  colonies (modify_colony k f w) !! a
  = if decide (k = a) then f <$> colonies w !! a else colonies w !! a.
Proof.
  unfold modify_colony. simpl. destruct (decide (k = a)) as [->|Hne].
  - apply lookup_alter_eq.
  - apply lookup_alter_ne. exact Hne.
Qed.

(** What a successful [createBond] does to the bond lists. *)
Lemma createBond_bonds (k : colony_id) (c1 c2 : cell_id) (w : World) :
  fst (Colony.createBond k c1 c2 w) = true ->
  forall a o',
    cells (snd (Colony.createBond k c1 c2 w)) !! a = Some o' ->
    exists o, cells w !! a = Some o /\
      Cell.bonds o' =
        Cell.bonds o ++ (if decide (c1 = a) then [c2] else [])
                     ++ (if decide (c2 = a) then [c1] else []).
Proof.
  unfold Colony.createBond.
  destruct (colonies w !! k) as [col|]; [|discriminate].
  destruct (cells w !! c1) as [o1|] eqn:E1; [|discriminate].
  destruct (cells w !! c2) as [o2|] eqn:E2; [|discriminate].
  destruct (negb _ || negb _); [discriminate|].
  destruct (_ || _); [discriminate|].
  destruct (bondMap col !! Colony.bondKey c1 c2); [discriminate|].
  intros _ a o' H. cbv zeta in H. cbn [snd] in H.
  apply lookup_modify_cell in H as (o4 & H & ->).
  apply lookup_modify_cell in H as (o3 & H & ->).
  apply lookup_modify_cell in H as (o2' & H & ->).
  apply lookup_modify_cell in H as (o & H & ->).
  rewrite cells_modify_colony in H. exists o. split; [exact H|].
  destruct (decide (c1 = a)), (decide (c2 = a)); simpl;
    rewrite ?app_nil_r, <- ?app_assoc; reflexivity.
Qed.

Lemma createBond_refused (k : colony_id) (c1 c2 : cell_id) (w : World) :
  fst (Colony.createBond k c1 c2 w) = false ->
  snd (Colony.createBond k c1 c2 w) = w.
Proof.
  unfold Colony.createBond.
  destruct (colonies w !! k) as [col|]; [|reflexivity].
  destruct (cells w !! c1) as [o1|]; [|reflexivity].
  destruct (cells w !! c2) as [o2|]; [|reflexivity].
  destruct (negb _ || negb _); [reflexivity|].
  destruct (_ || _); [reflexivity|].
  destruct (bondMap col !! Colony.bondKey c1 c2); [reflexivity|discriminate].
Qed.

(** [createBond] keeps the bonds symmetric. *)
Lemma createBond_symmetric (k : colony_id) (c1 c2 : cell_id) (w : World) :
  bonds_symmetric w -> bonds_symmetric (snd (Colony.createBond k c1 c2 w)).
Proof.
  intros Hsym.
  destruct (fst (Colony.createBond k c1 c2 w)) eqn:Hres.
  - intros a b ca cb Ha Hb Hin.
    destruct (createBond_bonds k c1 c2 w Hres a ca Ha) as (oa & Hoa & Ea).
    destruct (createBond_bonds k c1 c2 w Hres b cb Hb) as (ob & Hob & Eb).
    rewrite Ea in Hin. rewrite Eb.
    pose proof (Hsym a b oa ob Hoa Hob) as Hab.
    revert Hin. rewrite !elem_of_app.
    destruct (decide (c1 = a)), (decide (c2 = a)),
             (decide (c1 = b)), (decide (c2 = b));
      rewrite ?list_elem_of_singleton, ?elem_of_nil;
      intuition (subst; auto; congruence).
  - rewrite createBond_refused by exact Hres. exact Hsym.
Qed.

Lemma lookup_modify_cell_bonds (c : cell_id) (f : Cell.t -> Cell.t) (w : World) :
  (forall o, Cell.bonds (f o) = Cell.bonds o) ->
  bonds_symmetric w -> bonds_symmetric (modify_cell c f w).
Proof.
  intros Hf Hsym a b ca cb Ha Hb Hin.
  apply lookup_modify_cell in Ha as (oa & Ha & ->).
  apply lookup_modify_cell in Hb as (ob & Hb & ->).
  assert (Cell.bonds (if decide (c = a) then f oa else oa) = Cell.bonds oa) as Ea
    by (destruct (decide (c = a)); [apply Hf | reflexivity]).
  assert (Cell.bonds (if decide (c = b) then f ob else ob) = Cell.bonds ob) as Eb
    by (destruct (decide (c = b)); [apply Hf | reflexivity]).
  rewrite Ea in Hin. rewrite Eb. eauto.
Qed.

Lemma modify_colony_symmetric (k : colony_id) f (w : World) :
  bonds_symmetric w -> bonds_symmetric (modify_colony k f w).
Proof. intros H. exact H. Qed.

Lemma set_colonies_symmetric v (w : World) :
  bonds_symmetric w -> bonds_symmetric (set_colonies v w).
Proof. intros H. exact H. Qed.

Lemma set_rng_symmetric v (w : World) :
  bonds_symmetric w -> bonds_symmetric (set_rng v w).
Proof. intros H. exact H. Qed.

(** The constructor, [addMember] and [foundColony] keep them symmetric too. *)
Lemma new_symmetric (c : cell_id) (w : World) :
  bonds_symmetric w -> bonds_symmetric (snd (Colony.new c w)).
Proof.
  intros H. unfold Colony.new, bind, draw.
  destruct (random (rng w)) as [r g]. simpl.
  apply lookup_modify_cell_bonds; [reflexivity|].
  apply set_colonies_symmetric, set_rng_symmetric, H.
Qed.

Lemma addMember_symmetric (k : colony_id) (c : cell_id) (b : option cell_id)
    (w : World) :
  bonds_symmetric w -> bonds_symmetric (snd (Colony.addMember k c b w)).
Proof.
  intros H. unfold Colony.addMember.
  destruct (colonies w !! k) as [col|]; [|exact H].
  destruct (Colony.includes (members col) c); [exact H|].
  destruct (20 <=? length (members col))%nat; [exact H|].
  simpl.
  assert (bonds_symmetric
            (modify_cell c (Cell.set_colony (Some k))
               (modify_colony k (Colony.set_members (members col ++ [c])) w))) as H2.
  { apply lookup_modify_cell_bonds; [reflexivity|].
    apply modify_colony_symmetric, H. }
  destruct b as [b|]; [|exact H2].
  destruct (Colony.includes (members col ++ [c]) b); [|exact H2].
  apply createBond_symmetric, H2.
Qed.

Lemma foundColony_symmetric (this partner : cell_id) (w : World) :
  bonds_symmetric w -> bonds_symmetric (snd (Colony.foundColony this partner w)).
Proof.
  intros H. unfold Colony.foundColony.
  destruct (cells w !! this) as [o|]; [|exact H].
  destruct (cells w !! partner) as [p|]; [|exact H].
  destruct (Cell.colony o); [exact H|].
  destruct (Cell.colony p); [exact H|].
  pose proof (new_symmetric this w H) as H1.
  destruct (Colony.new this w) as [k w1]. simpl in H1.
  pose proof (addMember_symmetric k partner (Some this) w1 H1) as H2.
  destruct (Colony.addMember k partner (Some this) w1) as [r w2]. exact H2.
Qed.

(** Deleting a weak bond filters each end out of the other's list. *)
Lemma unbond_symmetric (c1 c2 : cell_id) (w : World) :
  bonds_symmetric w ->
  bonds_symmetric
    (modify_cell c2
       (fun c => Cell.set_bonds (filter (fun i => i ≠ c1) (Cell.bonds c)) c)
       (modify_cell c1
          (fun c => Cell.set_bonds (filter (fun i => i ≠ c2) (Cell.bonds c)) c)
          w)).
Proof.
  intros Hsym a b ca cb Ha Hb Hin.
  apply lookup_modify_cell in Ha as (oa1 & Ha & ->).
  apply lookup_modify_cell in Ha as (oa & Ha & ->).
  apply lookup_modify_cell in Hb as (ob1 & Hb & ->).
  apply lookup_modify_cell in Hb as (ob & Hb & ->).
  pose proof (Hsym a b oa ob Ha Hb) as Hab.
  revert Hin.
  destruct (decide (c1 = a)), (decide (c2 = a)),
           (decide (c1 = b)), (decide (c2 = b));
    simpl; rewrite ?list_elem_of_filter;
    intuition (subst; auto; congruence).
Qed.

Lemma manageBond_symmetric (M : MathLib) (k : colony_id) (key : string)
    (w : World) :
  bonds_symmetric w -> bonds_symmetric (Colony.manageBond M k key w).
Proof.
  intros H. unfold Colony.manageBond.
  destruct (colonies w !! k) as [col|]; [|exact H].
  destruct (bondMap col !! key) as [b|]; [|exact H].
  cbv zeta.
  destruct (Colony.includes (members col) (cell1 b)
            && Colony.includes (members col) (cell2 b)); [|exact H].
  destruct (cells w !! cell1 b) as [o1|]; [|exact H].
  destruct (cells w !! cell2 b) as [o2|]; [|exact H].
  destruct (Qle_bool _ 0); [|exact H].
  apply lookup_modify_cell_bonds; [reflexivity|].
  apply lookup_modify_cell_bonds; [reflexivity|].
  apply unbond_symmetric. exact H.
Qed.

(** The bond pass of [updateColonyBehavior], weak-bond deletion included,
    keeps the bonds symmetric. *)
Lemma manageBonds_symmetric (M : MathLib) (k : colony_id) (w : World) :
  bonds_symmetric w -> bonds_symmetric (Colony.manageBonds M k w).
Proof.
  intros H. unfold Colony.manageBonds.
  destruct (colonies w !! k) as [col|]; [|exact H].
  generalize (map fst (map_to_list (bondMap col))). intros keys.
  revert w H. induction keys as [|key keys IH]; intros w H; [exact H|].
  simpl. apply IH. apply manageBond_symmetric. exact H.
Qed.

(** When [removeMember] throws, no bond list has been touched. *)
Lemma removeMember_throw_cells (k : colony_id) (c : cell_id) (w : World) :
  fst (Colony.removeMember k c w) = TypeError ->
  bonds_symmetric w -> bonds_symmetric (snd (Colony.removeMember k c w)).
Proof.
  unfold Colony.removeMember.
  destruct (colonies w !! k) as [col|]; [|discriminate].
  destruct (Colony.includes (members col) c); [|discriminate].
  cbv zeta. destruct (decide (bondMap col = ∅)); [discriminate|].
  intros _ H. cbn [snd].
  apply lookup_modify_cell_bonds; [reflexivity|]. exact H.
Qed.

(** [removeMember] throws exactly when the member's colony holds a bond. *)
Lemma removeMember_throws_iff (k : colony_id) (c : cell_id) (w : World) :
  fst (Colony.removeMember k c w) = TypeError <->
  exists col, colonies w !! k = Some col /\ c ∈ members col /\ bondMap col ≠ ∅.
Proof.
  unfold Colony.removeMember, Colony.includes.
  destruct (colonies w !! k) as [col|].
  - destruct (bool_decide (c ∈ members col)) eqn:E.
    + apply bool_decide_eq_true in E. cbv zeta.
      destruct (decide (bondMap col = ∅)) as [Hm|Hm]; cbn [fst].
      * split; [discriminate | intros (col' & [= <-] & _ & Hne); contradiction].
      * split; [intros _; eauto | reflexivity].
    + apply bool_decide_eq_false in E. cbn [fst].
      split; [discriminate | intros (col' & [= <-] & Hin & _); contradiction].
  - cbn [fst]. split; [discriminate | intros (col' & [=] & _)].
Qed.

Lemma lookup_modify_cell_eq (c : cell_id) (f : Cell.t -> Cell.t) (w : World) :
  cells (modify_cell c f w) !! c = f <$> cells w !! c.
Proof. unfold modify_cell. simpl. apply lookup_alter_eq. Qed.

Lemma lookup_modify_cell_ne (c a : cell_id) (f : Cell.t -> Cell.t) (w : World) :
  c ≠ a -> cells (modify_cell c f w) !! a = cells w !! a.
Proof. intros H. unfold modify_cell. simpl. apply lookup_alter_ne. exact H. Qed.

(** Every operation that creates or weakens bonds keeps them symmetric. *)
Lemma bond_operations_symmetric (M : MathLib) (k : colony_id)
    (c1 c2 : cell_id) (bondWith : option cell_id) (w : World) :
  bonds_symmetric w ->
  bonds_symmetric (snd (Colony.createBond k c1 c2 w)) /\
  bonds_symmetric (snd (Colony.addMember k c1 bondWith w)) /\
  bonds_symmetric (snd (Colony.foundColony c1 c2 w)) /\
  bonds_symmetric (Colony.manageBonds M k w).
Proof.
  intros H. split; [apply createBond_symmetric, H|].
  split; [apply addMember_symmetric, H|].
  split; [apply foundColony_symmetric, H | apply manageBonds_symmetric, H].
Qed.

Lemma pair_symmetric : bonds_symmetric Scenario.pair.
Proof.
  intros a b ca cb Ha Hb Hin. unfold Scenario.pair, Sample.world in Ha.
  cbn [cells] in Ha.
  apply lookup_insert_Some in Ha as [[_ <-]|[_ Ha]].
  - apply elem_of_nil in Hin. contradiction.
  - apply lookup_singleton_Some in Ha as [_ <-].
    apply elem_of_nil in Hin. contradiction.
Qed.

(** ** Predation *)

Lemma cells_draw (w : World) : cells (snd (draw w)) = cells w.
Proof. unfold draw. destruct (random (rng w)). reflexivity. Qed.

Lemma cells_discard (n : nat) (w : World) :
  cells (snd (Behaviour.discard n w)) = cells w.
Proof.
  revert w. induction n as [|n IH]; intros w; [reflexivity|].
  simpl. unfold bind. pose proof (cells_draw w) as H.
  destruct (draw w) as [r w1]. simpl in H. rewrite IH. exact H.
Qed.

Lemma or_default_floor (v : option Q) :
  0.4 <= Predation.or_default v 0.3 <-> exists a, v = Some a /\ 0.4 <= a.
Proof.
  unfold Predation.or_default. destruct v as [a|].
  - destruct (Qeq_bool a 0) eqn:E.
    + apply Qeq_bool_iff in E. split.
      * intros H. exfalso. revert H. unfold Qle. simpl. lia.
      * intros (b & [= <-] & H). exfalso. rewrite E in H.
        revert H. unfold Qle. simpl. lia.
    + split; [intros H; eauto | intros (b & [= <-] & H); exact H].
  - split.
    + intros H. exfalso. revert H. unfold Qle. simpl. lia.
    + intros (b & [=] & _).
Qed.

(** [canPredate] holds exactly under the listed conditions. *)
Lemma canPredate_iff (predator prey : Cell.t) :
  Predation.canPredate predator prey = true <->
  Cell.size prey * 2 <= Cell.size predator /\
  Cell.health prey * 1.2 <= Cell.health predator /\
  (exists a, Traits.aggression (Cell.traits predator) = Some a /\ 0.4 <= a) /\
  Cell.maxEnergy predator * 0.6 <= Cell.energy predator /\
  Traits.defenseType (Cell.traits prey) <> explosive /\
  (Traits.defenseType (Cell.traits prey) = poison ->
   0.7 <= Traits.toxinResistance (Cell.traits predator)).
Proof.
  rewrite <- or_default_floor. unfold Predation.canPredate.
  destruct (Qlt_bool (Cell.size predator) (Cell.size prey * 2)) eqn:E1.
  { apply Qlt_bool_iff in E1. split; [discriminate|].
    intros (H & _). apply Qlt_not_le in E1. contradiction. }
  apply Qlt_bool_false in E1.
  destruct (Qlt_bool (Cell.health predator) (Cell.health prey * 1.2)) eqn:E2.
  { apply Qlt_bool_iff in E2. split; [discriminate|].
    intros (_ & H & _). apply Qlt_not_le in E2. contradiction. }
  apply Qlt_bool_false in E2.
  destruct (Qlt_bool (Predation.or_default _ 0.3) 0.4) eqn:E3.
  { apply Qlt_bool_iff in E3. split; [discriminate|].
    intros (_ & _ & H & _). apply Qlt_not_le in E3. contradiction. }
  apply Qlt_bool_false in E3.
  destruct (Qlt_bool (Cell.energy predator) (Cell.maxEnergy predator * 0.6)) eqn:E4.
  { apply Qlt_bool_iff in E4. split; [discriminate|].
    intros (_ & _ & _ & H & _). apply Qlt_not_le in E4. contradiction. }
  apply Qlt_bool_false in E4.
  destruct (bool_decide (Traits.defenseType (Cell.traits prey) = explosive)) eqn:E5.
  { apply bool_decide_eq_true in E5. split; [discriminate|].
    intros (_ & _ & _ & _ & H & _). contradiction. }
  apply bool_decide_eq_false in E5.
  destruct (bool_decide (Traits.defenseType (Cell.traits prey) = poison)) eqn:E6.
  - apply bool_decide_eq_true in E6.
    destruct (Qlt_bool (Traits.toxinResistance (Cell.traits predator)) 0.7) eqn:E7.
    + apply Qlt_bool_iff in E7. simpl. split; [discriminate|].
      intros (_ & _ & _ & _ & _ & H). apply Qlt_not_le in E7.
      specialize (H E6). contradiction.
    + apply Qlt_bool_false in E7. simpl.
      split; [intros _ | intros _; repeat case_match; reflexivity].
      repeat split; auto.
  - apply bool_decide_eq_false in E6. simpl.
    split; [intros _ | intros _; repeat case_match; reflexivity].
    repeat split; auto. intros H. contradiction.
Qed.

(** What [handlePredation] leaves behind. *)
Lemma handlePredation_effect (M : MathLib) (ctx : Predation.Context)
    (p q : cell_id) (w : World) (op oq : Cell.t) :
  p ≠ q -> cells w !! p = Some op -> cells w !! q = Some oq ->
  let w' := snd (Predation.handlePredation M ctx p q w) in
  exists op' oq',
    cells w' !! p = Some op' /\ cells w' !! q = Some oq' /\
    Cell.health oq' = 0 /\
    Cell.maxEnergy op' = Cell.maxEnergy op /\
    Cell.maxHealth op' = Cell.maxHealth op /\
    Cell.energy op' =
      Cell.energy op
      + Qmin (Cell.maxEnergy oq * 0.8) (Cell.maxEnergy op - Cell.energy op) /\
    Cell.health op' =
      Cell.health op
      + Qmin (Cell.maxHealth oq * 0.3) (Cell.maxHealth op - Cell.health op).
Proof.
  intros Hne Hp Hq. unfold Predation.handlePredation. rewrite Hp, Hq.
  set (eg := Qmin (Cell.maxEnergy oq * 0.8) (Cell.maxEnergy op - Cell.energy op)).
  set (hg := Qmin (Cell.maxHealth oq * 0.3) (Cell.maxHealth op - Cell.health op)).
  set (w3 := modify_cell q (Cell.set_health 0)
               (modify_cell p (fun c => Cell.set_health (Cell.health c + hg) c)
                  (modify_cell p (fun c => Cell.set_energy (Cell.energy c + eg) c) w))).
  assert (Hp3 : cells w3 !! p =
                Some (Cell.set_health (Cell.health op + hg)
                        (Cell.set_energy (Cell.energy op + eg) op))).
  { unfold w3. rewrite lookup_modify_cell_ne by congruence.
    rewrite !lookup_modify_cell_eq, Hp. reflexivity. }
  assert (Hq3 : cells w3 !! q = Some (Cell.set_health 0 oq)).
  { unfold w3. rewrite lookup_modify_cell_eq.
    rewrite !lookup_modify_cell_ne by congruence. rewrite Hq. reflexivity. }
  cbv zeta. fold w3.
  destruct (Predation.predationReproduction ctx).
  - pose proof (cells_draw w3) as Hd. destruct (draw w3) as [r w4]. cbn [snd] in Hd.
    destruct (Qlt_bool r _).
    + rewrite cells_discard.
      exists (Cell.set_lastFoodTime (Some (Predation.tick ctx))
                (Cell.set_reproduced true
                   (Cell.set_health (Cell.health op + hg)
                      (Cell.set_energy (Cell.energy op + eg) op)))),
             (Cell.set_health 0 oq).
      rewrite lookup_modify_cell_eq, lookup_modify_cell_ne by congruence.
      rewrite Hd, Hp3, Hq3. repeat split.
    + rewrite cells_discard, Hd, Hp3, Hq3.
      eexists _, _. repeat split.
  - rewrite cells_discard, Hp3, Hq3. eexists _, _. repeat split.
Qed.

Lemma attemptCooperation_declined (c1 c2 : cell_id) (w : World) :
  fst (Predation.attemptCooperation c1 c2 w) = false ->
  cells (snd (Predation.attemptCooperation c1 c2 w)) = cells w.
Proof.
  unfold Predation.attemptCooperation.
  destruct (cells w !! c1) as [o1|]; [|reflexivity].
  destruct (cells w !! c2) as [o2|]; [|reflexivity].
  pose proof (cells_draw w) as Hd. destruct (draw w) as [r w1]. simpl in Hd.
  destruct (Qlt_bool r _).
  - cbv zeta. repeat case_match; simpl; discriminate.
  - intros _. exact Hd.
Qed.



Section PredationOnDoubles.

Import PrimFloat.
Set Warnings "-inexact-float".


Set Warnings "inexact-float".

End PredationOnDoubles.

(** ** Natural selection *)

Lemma remove_first_length (c : cell_id) (l : list cell_id) :
  (length l <= S (length (Colony.remove_first c l)))%nat.
Proof.
  induction l as [|a l IH]; simpl; [lia|].
  destruct (decide (a = c)); simpl; lia.
Qed.

Lemma remove_first_absent (c : cell_id) (l : list cell_id) :
  c ∉ l -> Colony.remove_first c l = l.
Proof.
  induction l as [|a l IH]; intros H; [reflexivity|].
  simpl. apply not_elem_of_cons in H as [Hne Hl].
  destruct (decide (a = c)); [congruence|]. rewrite IH by exact Hl. reflexivity.
Qed.

(** Each round of the removal loop selects at most one cell. *)
Lemma select_length (ctx : Selection.Context) (rounds : nat) :
  forall candidates removed w,
    (length (fst (Selection.select ctx rounds candidates removed w))
     <= length removed + rounds)%nat.
Proof.
  induction rounds as [|rounds IH]; intros candidates removed w.
  - simpl. lia.
  - simpl. destruct candidates as [|c0 rest]; [simpl; lia|].
    destruct (Selection.fitnessWeights ctx w (c0 :: rest) w) as [weights w1].
    repeat case_match;
      (eapply Nat.le_trans; [apply IH|]); rewrite ?length_app; simpl; lia.
Qed.

(** Each burial takes at most one entry out of the array. *)
Lemma bury_length (M : MathLib) (arr : list cell_id) (w : World) (c : cell_id) :
  (length arr <= S (length (fst (Selection.bury M (arr, w) c))))%nat.
Proof.
  unfold Selection.bury. destruct (Colony.includes arr c); [|simpl; lia].
  destruct (cells w !! c) as [o|].
  - destruct (FoodManager.spawnFromDeath _ _ _ _ _ _) as [fm g]. simpl.
    apply remove_first_length.
  - simpl. apply remove_first_length.
Qed.

Lemma bury_all_length (M : MathLib) (removed : list cell_id) :
  forall arr w,
    (length arr
     <= length (fst (foldl (Selection.bury M) (arr, w) removed))
        + length removed)%nat.
Proof.
  induction removed as [|c removed IH]; intros arr w; cbn [foldl length fst];
    [lia|].
  pose proof (bury_length M arr w c) as H1.
  destruct (Selection.bury M (arr, w) c) as [arr1 w1]. simpl in H1.
  specialize (IH arr1 w1). lia.
Qed.

(** C4.  [applyNaturalSelection] never takes the population below the
    configured minimum: a population of at least [minPopulation] cells is
    still at least that large afterwards, and from a population below the
    minimum no cell is removed. *)
Theorem natural_selection_keeps_minimum (M : MathLib) (ctx : Selection.Context)
    (cellsArr : list cell_id) (w : World) :
  let after := fst (Selection.applyNaturalSelection M ctx cellsArr w) in
  ((Selection.minPopulation ctx <= Z.of_nat (length cellsArr))%Z ->
   (Selection.minPopulation ctx <= Z.of_nat (length after))%Z) /\
  ((Z.of_nat (length cellsArr) < Selection.minPopulation ctx)%Z ->
   after = cellsArr).
Proof.
  unfold Selection.applyNaturalSelection.
  destruct (_ || _); [|simpl; split; [lia | reflexivity]].
  cbv zeta.
  set (w1 := foldl _ w cellsArr).
  set (cands := Selection.slice_last _ _).
  set (rounds := Z.to_nat (Selection.cellsToRemove ctx w (length cellsArr))).
  pose proof (select_length ctx rounds cands [] w1) as Hsel.
  destruct (Selection.select ctx rounds cands [] w1) as [removed w2].
  simpl in Hsel.
  pose proof (bury_all_length M removed cellsArr w2) as Hbury.
  assert (Hrounds : (Z.of_nat rounds
                     <= Z.max 0 (Z.of_nat (length cellsArr)
                                 - Selection.minPopulation ctx))%Z).
  { unfold rounds, Selection.cellsToRemove. lia. }
  split.
  - intros Hmin. lia.
  - intros Hbelow.
    assert (rounds = 0%nat) as Hz by lia.
    assert (removed = []) as -> by (destruct removed; [reflexivity | simpl in Hsel; lia]).
    reflexivity.
Qed.

(** A run in which the selection does remove a cell: nine cells, a minimum
    of five, one removal, six food particles from the corpse. *)
Example natural_selection_run :
  let result := Selection.applyNaturalSelection Sample.math Sample.crowdContext
                  Sample.crowdArray Sample.crowd in
  fst result = [1; 3; 4; 5; 6; 7; 8; 9]%nat /\
  length (FoodManager.food (foodManager (snd result))) = 6%nat.
Proof. vm_compute. split; reflexivity. Qed.

Lemma natural_selection_keeps_minimum_witness :
  (Selection.minPopulation Sample.crowdContext
   <= Z.of_nat (length Sample.crowdArray))%Z /\
  (Selection.minPopulation Sample.crowdContext
   <= Z.of_nat (length (fst (Selection.applyNaturalSelection Sample.math
                               Sample.crowdContext Sample.crowdArray
                               Sample.crowd))))%Z.
Proof.
  assert (H : (Selection.minPopulation Sample.crowdContext
               <= Z.of_nat (length Sample.crowdArray))%Z)
    by (vm_compute; discriminate).
  split; [exact H|].
  exact (proj1 (natural_selection_keeps_minimum Sample.math Sample.crowdContext
                  Sample.crowdArray Sample.crowd) H).
Defined.

(** ** The orchestrator: speed and whole steps *)

(** The draw [update] makes for the extra step moves the generator on and
    leaves every object and the food field alone. *)
Lemma draw_frame (w : World) :
  cells (snd (draw w)) = cells w /\
  colonies (snd (draw w)) = colonies w /\
  foodManager (snd (draw w)) = foodManager w.
Proof. unfold draw. destruct (random (rng w)). repeat split. Qed.



(** ** Vital signs *)

Lemma sample_cell_vitals (x y : Q) : within_vitals (Sample.cell x y).
Proof. unfold within_vitals. vm_compute. repeat split; discriminate. Qed.

(** C1, at the failing input.  Both cells start within their bounds.  One
    tick later the territorial cell, which had full health and one cell
    inside its territory, is alive, still in the cells list, and has a
    health of 100.2 against a maximum of 100: the territory bonus is added
    without a clamp.  In the same way one photosynthesis step takes a
    cell with full energy and opacity 0.5 from 80 to 80.15 against a
    maximum of 80. *)
Theorem territorial_gain_overshoots_maxHealth :
  (forall c o, cells (Simulation.world Scenario.patrol) !! c = Some o ->
               within_vitals o) /\
  (let s1 := Simulation.updateSingleStep Scenario.inert Scenario.patrol in
   Simulation.cellsArr s1 = [1; 2]%nat /\
   exists o, cells (Simulation.world s1) !! 1%nat = Some o /\
             Cell.maxHealth o == 100 /\ Cell.health o == 100.2 /\
             Cell.maxHealth o < Cell.health o /\ 0 < Cell.energy o /\
             ~ within_vitals o) /\
  (within_vitals Scenario.leaf /\
   Cell.maxEnergy (Behaviour.photosynthesise Scenario.leaf) == 80 /\
   Cell.energy (Behaviour.photosynthesise Scenario.leaf) == 80.15 /\
   ~ within_vitals (Behaviour.photosynthesise Scenario.leaf)).
Proof.
  split; [|split].
  - intros c o H. unfold Scenario.patrol, Scenario.simulation, Sample.world in H.
    cbn [Simulation.world cells] in H.
    apply lookup_insert_Some in H as [[_ <-]|[_ H]].
    + unfold within_vitals. vm_compute. repeat split; discriminate.
    + apply lookup_singleton_Some in H as [_ <-]. apply sample_cell_vitals.
  - cbv zeta. split; [vm_compute; reflexivity|].
    eexists. split; [vm_compute; reflexivity|].
    split; [reflexivity|]. split; [reflexivity|].
    split; [reflexivity|]. split; [reflexivity|].
    unfold within_vitals. intros [[_ H] _]. revert H. vm_compute. intros H.
    apply H. reflexivity.
  - split; [unfold within_vitals; vm_compute; repeat split; discriminate|].
    split; [reflexivity|]. split; [reflexivity|].
    unfold within_vitals. intros [_ [_ H]]. revert H. vm_compute. intros H.
    apply H. reflexivity.
Qed.

(** Where the source does clamp.  A meal never lifts the energy above
    [maxEnergy]. *)
Lemma eat_caps_energy (M : MathLib) (this : cell_id) (index : nat) (w : World)
    (o' : Cell.t) :
  fst (Behaviour.eat M this index w) = true ->
  cells (snd (Behaviour.eat M this index w)) !! this = Some o' ->
  Cell.energy o' <= Cell.maxEnergy o'.
Proof.
  unfold Behaviour.eat.
  destruct (cells w !! this) as [o|] eqn:Eo; [|discriminate].
  destruct (FoodManager.food (foodManager w) !! index) as [f|]; [|discriminate].
  destruct (Behaviour.canEat M o f && negb (Food.consumed f)); [|discriminate].
  intros _. cbv zeta. cbn [snd]. rewrite !lookup_modify_cell_eq.
  cbn [cells set_foodManager]. rewrite Eo. cbn [fmap option_fmap option_map].
  intros [= <-]. apply Q.le_min_r.
Qed.

(** One share of [shareResources] raises the energy of a member, never
    beyond its [maxEnergy], and changes nothing else about any cell. *)
Lemma shareWith_cells (k : colony_id) (individual shared : Q) (w : World)
    (c a : cell_id) (o' : Cell.t) :
  0 <= shared ->
  cells (Colony.shareWith k individual shared w c) !! a = Some o' ->
  exists o, cells w !! a = Some o /\
    Cell.health o' = Cell.health o /\ Cell.maxHealth o' = Cell.maxHealth o /\
    Cell.maxEnergy o' = Cell.maxEnergy o /\
    Cell.energy o <= Cell.energy o' /\
    (Cell.energy o <= Cell.maxEnergy o -> Cell.energy o' <= Cell.maxEnergy o').
Proof.
  intros Hshared. unfold Colony.shareWith.
  destruct (cells w !! c) as [oc|] eqn:Ec.
  - destruct (Qlt_bool (Cell.energy oc) _) eqn:Elt.
    + apply Qlt_bool_iff in Elt. rewrite cells_modify_colony.
      intros H. apply lookup_modify_cell in H as (o & Ho & ->).
      exists o. split; [exact Ho|].
      destruct (decide (c = a)) as [<-|Hne].
      * rewrite Ec in Ho. injection Ho as <-.
        repeat (split; [reflexivity|]).
        unfold Cell.energy, Cell.maxEnergy, Cell.set_energy. simpl.
        fold (Cell.energy oc). fold (Cell.maxEnergy oc).
        set (target := Qmin individual (Cell.maxEnergy oc)) in *.
        assert (0 <= Qmin (target - Cell.energy oc) shared) as Hpos.
        { apply Q.min_glb; [lra | exact Hshared]. }
        pose proof (Q.le_min_l (target - Cell.energy oc) shared) as Hl.
        pose proof (Q.le_min_r individual (Cell.maxEnergy oc)) as Hr.
        fold target in Hr. split; [lra | intros _; lra].
      * repeat (split; [reflexivity|]). split; [apply Qle_refl | auto].
    + intros H. exists o'. split; [exact H|].
      repeat (split; [reflexivity|]). split; [apply Qle_refl | auto].
  - intros H. exists o'. split; [exact H|].
    repeat (split; [reflexivity|]). split; [apply Qle_refl | auto].
Qed.

Lemma shareResources_cells (k : colony_id) (w : World) (a : cell_id)
    (o' : Cell.t) :
  (forall c o, cells w !! c = Some o -> 0 <= Cell.energy o) ->
  cells (Colony.shareResources k w) !! a = Some o' ->
  exists o, cells w !! a = Some o /\
    Cell.health o' = Cell.health o /\ Cell.maxHealth o' = Cell.maxHealth o /\
    Cell.maxEnergy o' = Cell.maxEnergy o /\
    Cell.energy o <= Cell.energy o' /\
    (Cell.energy o <= Cell.maxEnergy o -> Cell.energy o' <= Cell.maxEnergy o').
Proof.
  intros Hpos. unfold Colony.shareResources.
  destruct (colonies w !! k) as [col|].
  2:{ intros H. exists o'. split; [exact H|].
      repeat (split; [reflexivity|]). split; [apply Qle_refl | auto]. }
  cbv zeta.
  assert (Htotal : forall l acc, 0 <= acc ->
            0 <= foldl (fun acc c =>
                          match cells w !! c with
                          | Some o => acc + Cell.energy o
                          | None => acc
                          end) acc l).
  { induction l as [|c l IH]; intros acc Hacc; [exact Hacc|].
    simpl. apply IH. destruct (cells w !! c) as [o|] eqn:E; [|exact Hacc].
    specialize (Hpos c o E). lra. }
  assert (Hshared : 0 <= Colony.totalEnergy w (members col) * 0.1).
  { specialize (Htotal (members col) 0 (Qle_refl 0)).
    unfold Colony.totalEnergy. lra. }
  set (shared := Colony.totalEnergy w (members col) * 0.1) in *.
  set (individual := _ / _).
  set (w1 := modify_colony k (Colony.set_sharedEnergy shared) w).
  assert (Hw1 : cells w1 = cells w) by reflexivity.
  rewrite <- Hw1. clearbody w1. clear Hw1.
  generalize (members col). intros l. revert w1 o'.
  induction l as [|c l IH] using rev_ind; intros w1 o' H.
  - exists o'. split; [exact H|].
    repeat (split; [reflexivity|]). split; [apply Qle_refl | auto].
  - rewrite foldl_app in H. cbn [foldl] in H.
    destruct (shareWith_cells k individual shared _ c a o' Hshared H)
      as (o1 & H1 & Eh & Emh & Eme & Ele & Ecap).
    destruct (IH w1 o1 H1) as (o & H0 & Eh0 & Emh0 & Eme0 & Ele0 & Ecap0).
    exists o. split; [exact H0|].
    split; [congruence|]. split; [congruence|]. split; [congruence|].
    split; [lra|]. intros Hin. apply Ecap, Ecap0, Hin.
Qed.

(** ** Objects are never destroyed *)

Lemma dom_modify_cell (c : cell_id) (f : Cell.t -> Cell.t) (w : World) :
  dom (cells (modify_cell c f w)) = dom (cells w).
Proof. unfold modify_cell. simpl. apply dom_alter_L. Qed.

Lemma cells_set_rng g w : cells (set_rng g w) = cells w.
Proof. reflexivity. Qed.
Lemma cells_set_foodManager m w : cells (set_foodManager m w) = cells w.
Proof. reflexivity. Qed.
Lemma cells_set_colonies m w : cells (set_colonies m w) = cells w.
Proof. reflexivity. Qed.

Lemma dom_draw w : dom (cells (snd (draw w))) = dom (cells w).
Proof. unfold draw. destruct (random (rng w)). reflexivity. Qed.

Lemma dom_on_cell c f w : dom (cells (snd (Behaviour.on_cell c f w))) = dom (cells w).
Proof. apply dom_modify_cell. Qed.

Lemma dom_read_cell {A} c (d : A) f w :
  dom (cells (snd (Behaviour.read_cell c d f w))) = dom (cells w).
Proof. unfold Behaviour.read_cell. destruct (cells w !! c); reflexivity. Qed.

Lemma dom_foldl {A} (f : World -> A -> World) (l : list A) (w : World) :
  (forall w x, dom (cells (f w x)) = dom (cells w)) ->
  dom (cells (foldl f w l)) = dom (cells w).
Proof.
  intros Hf. revert w. induction l as [|x l IH]; intros w; simpl; [reflexivity|].
  rewrite IH. apply Hf.
Qed.

Create Rewrite HintDb objects.
#[local] Hint Rewrite dom_modify_cell cells_set_rng cells_set_foodManager
  cells_set_colonies dom_draw dom_on_cell @dom_read_cell : objects.

Ltac run_pair :=
  match goal with
  | |- context [match ?e with pair _ _ => _ end] =>
      let a := fresh "a" in
      let w' := fresh "w" in
      let E := fresh "E" in
      destruct e as [a w'] eqn:E;
      apply (f_equal (fun p => dom (cells (snd p)))) in E;
      cbv beta in E; cbn [snd] in E;
      autorewrite with objects in E
  end.

Ltac run_eq :=
  match goal with
  | E : ?e = (?a, ?w') |- _ =>
      lazymatch type of w' with World => idtac end;
      apply (f_equal (fun p => dom (cells (snd p)))) in E;
      cbv beta in E; cbn [snd] in E;
      autorewrite with objects in E
  end.

Ltac objects :=
  repeat first
    [ run_pair
    | run_eq
    | case_match
    | progress cbv beta zeta
    | progress cbn [snd fst]
    | progress unfold bind, ret
    | rewrite dom_foldl; [|intros]
    | progress autorewrite with objects ];
  unfold ret in *; cbn [snd] in *; autorewrite with objects in *; try congruence.

Lemma dom_discard n w : dom (cells (snd (Behaviour.discard n w))) = dom (cells w).
Proof.
  revert w. induction n as [|n IH]; intros w; simpl; [reflexivity|].
  unfold bind. destruct (draw w) as [r w1] eqn:E. rewrite IH.
  rewrite <- (dom_draw w), E. reflexivity.
Qed.
#[local] Hint Rewrite dom_discard : objects.

Lemma dom_handleInfection c w :
  dom (cells (snd (Behaviour.handleInfection c w))) = dom (cells w).
Proof. unfold Behaviour.handleInfection. objects. Qed.
#[local] Hint Rewrite dom_handleInfection : objects.

Lemma dom_randomBeneficialMutation c w :
  dom (cells (snd (Behaviour.randomBeneficialMutation c w))) = dom (cells w).
Proof. unfold Behaviour.randomBeneficialMutation. objects. Qed.
#[local] Hint Rewrite dom_randomBeneficialMutation : objects.

Lemma dom_applyEnvironmentalEffects env c w :
  dom (cells (snd (Behaviour.applyEnvironmentalEffects env c w))) = dom (cells w).
Proof. unfold Behaviour.applyEnvironmentalEffects. objects. Qed.
#[local] Hint Rewrite dom_applyEnvironmentalEffects : objects.

Lemma dom_parasiteBehavior M l c w :
  dom (cells (Behaviour.parasiteBehavior M l c w)) = dom (cells w).
Proof. unfold Behaviour.parasiteBehavior. objects. Qed.

Lemma dom_packHuntingBehavior M l c w :
  dom (cells (Behaviour.packHuntingBehavior M l c w)) = dom (cells w).
Proof. unfold Behaviour.packHuntingBehavior. objects. Qed.

Lemma dom_territorialBehavior M l c w :
  dom (cells (Behaviour.territorialBehavior M l c w)) = dom (cells w).
Proof. unfold Behaviour.territorialBehavior. objects. Qed.

Lemma dom_energyVampireBehavior M l c w :
  dom (cells (Behaviour.energyVampireBehavior M l c w)) = dom (cells w).
Proof. unfold Behaviour.energyVampireBehavior. objects. Qed.

Lemma dom_migratoryBehavior M c w :
  dom (cells (snd (Behaviour.migratoryBehavior M c w))) = dom (cells w).
Proof. unfold Behaviour.migratoryBehavior. objects. Qed.

Lemma dom_leapingBehavior M c w :
  dom (cells (snd (Behaviour.leapingBehavior M c w))) = dom (cells w).
Proof. unfold Behaviour.leapingBehavior. objects. Qed.

Lemma dom_splittingBehavior c w :
  dom (cells (snd (Behaviour.splittingBehavior c w))) = dom (cells w).
Proof. unfold Behaviour.splittingBehavior. objects. Qed.

Lemma dom_fusionBehavior M l c w :
  dom (cells (snd (Behaviour.fusionBehavior M l c w))) = dom (cells w).
Proof. unfold Behaviour.fusionBehavior. objects. Qed.

Lemma dom_shapeShiftBehavior c w :
  dom (cells (snd (Behaviour.shapeShiftBehavior c w))) = dom (cells w).
Proof. unfold Behaviour.shapeShiftBehavior. objects. Qed.

#[local] Hint Rewrite dom_parasiteBehavior dom_packHuntingBehavior
  dom_territorialBehavior dom_energyVampireBehavior dom_migratoryBehavior
  dom_leapingBehavior dom_splittingBehavior dom_fusionBehavior
  dom_shapeShiftBehavior : objects.

Lemma dom_applySpecialAbilities M l c w :
  dom (cells (snd (Behaviour.applySpecialAbilities M l c w))) = dom (cells w).
Proof. unfold Behaviour.applySpecialAbilities. objects. Qed.
#[local] Hint Rewrite dom_applySpecialAbilities : objects.

Lemma dom_eat M c i w :
  dom (cells (snd (Behaviour.eat M c i w))) = dom (cells w).
Proof. unfold Behaviour.eat. objects. Qed.

Lemma dom_calculateDefenseInteraction a d q w :
  dom (cells (snd (Combat.calculateDefenseInteraction a d q w))) = dom (cells w).
Proof. unfold Combat.calculateDefenseInteraction. objects. Qed.

Lemma dom_handleSpecialCombatEffects a d w :
  dom (cells (snd (Combat.handleSpecialCombatEffects a d w))) = dom (cells w).
Proof. unfold Combat.handleSpecialCombatEffects. objects. Qed.
#[local] Hint Rewrite dom_eat dom_calculateDefenseInteraction
  dom_handleSpecialCombatEffects : objects.

Lemma dom_handleCellInteraction M a d w :
  dom (cells (snd (Combat.handleCellInteraction M a d w))) = dom (cells w).
Proof. unfold Combat.handleCellInteraction. objects. Qed.
#[local] Hint Rewrite dom_handleCellInteraction : objects.

(** ** Frames *)

Lemma view_lookup {A} (proj : Cell.t -> A) (w : World) (a : cell_id) :
  view proj w !! a = proj <$> cells w !! a.
Proof. unfold view. apply lookup_fmap. Qed.

Lemma view_modify_cell {A} (proj : Cell.t -> A) (c : cell_id)
    (f : Cell.t -> Cell.t) (w : World) :
  (forall o, proj (f o) = proj o) ->
  view proj (modify_cell c f w) = view proj w.
Proof.
  intros Hf. apply map_eq. intros a. rewrite !view_lookup.
  destruct (decide (c = a)) as [->|Hne].
  - rewrite lookup_modify_cell_eq. destruct (cells w !! a); simpl; [|reflexivity].
    rewrite Hf. reflexivity.
  - rewrite lookup_modify_cell_ne by exact Hne. reflexivity.
Qed.

Lemma view_set_rng {A} (proj : Cell.t -> A) g w :
  view proj (set_rng g w) = view proj w.
Proof. reflexivity. Qed.
Lemma view_set_foodManager {A} (proj : Cell.t -> A) m w :
  view proj (set_foodManager m w) = view proj w.
Proof. reflexivity. Qed.
Lemma view_set_colonies {A} (proj : Cell.t -> A) m w :
  view proj (set_colonies m w) = view proj w.
Proof. reflexivity. Qed.
Lemma view_modify_colony {A} (proj : Cell.t -> A) k f w :
  view proj (modify_colony k f w) = view proj w.
Proof. reflexivity. Qed.

Lemma view_draw {A} (proj : Cell.t -> A) w :
  view proj (snd (draw w)) = view proj w.
Proof. unfold draw. destruct (random (rng w)). reflexivity. Qed.

Lemma view_on_cell {A} (proj : Cell.t -> A) c f w :
  (forall o, proj (f o) = proj o) ->
  view proj (snd (Behaviour.on_cell c f w)) = view proj w.
Proof. apply view_modify_cell. Qed.

Lemma view_read_cell {A B} (proj : Cell.t -> A) c (d : B) f w :
  view proj (snd (Behaviour.read_cell c d f w)) = view proj w.
Proof. unfold Behaviour.read_cell. destruct (cells w !! c); reflexivity. Qed.

Lemma view_foldl {A B} (proj : Cell.t -> A) (f : World -> B -> World)
    (l : list B) (w : World) :
  (forall w x, view proj (f w x) = view proj w) ->
  view proj (foldl f w l) = view proj w.
Proof.
  intros Hf. revert w. induction l as [|x l IH]; intros w; simpl; [reflexivity|].
  rewrite IH. apply Hf.
Qed.

Lemma kin_modify_cell (c : cell_id) (f : Cell.t -> Cell.t) (w : World) :
  (forall o, kinship (f o) = kinship o) -> kin (modify_cell c f w) = kin w.
Proof.
  intros Hf. unfold kin. rewrite view_modify_cell by exact Hf. reflexivity.
Qed.

Lemma kin_modify_colony (k : colony_id) (f : ColonyData -> ColonyData) (w : World) :
  (forall col, colonyShape (f col) = colonyShape col) ->
  kin (modify_colony k f w) = kin w.
Proof.
  intros Hf. unfold kin. f_equal. apply map_eq. intros a.
  rewrite !lookup_fmap. unfold modify_colony. cbn.
  destruct (decide (k = a)) as [->|Hne].
  - rewrite lookup_alter_eq. destruct (colonies w !! a); cbn; [|reflexivity].
    rewrite Hf. reflexivity.
  - rewrite lookup_alter_ne by exact Hne. reflexivity.
Qed.

Lemma kin_set_rng g w : kin (set_rng g w) = kin w.
Proof. reflexivity. Qed.
Lemma kin_set_foodManager m w : kin (set_foodManager m w) = kin w.
Proof. reflexivity. Qed.

Lemma kin_draw w : kin (snd (draw w)) = kin w.
Proof. unfold draw. destruct (random (rng w)). reflexivity. Qed.

Lemma kin_on_cell c f w :
  (forall o, kinship (f o) = kinship o) ->
  kin (snd (Behaviour.on_cell c f w)) = kin w.
Proof. apply kin_modify_cell. Qed.

Lemma kin_read_cell {B} c (d : B) f w :
  kin (snd (Behaviour.read_cell c d f w)) = kin w.
Proof. unfold Behaviour.read_cell. destruct (cells w !! c); reflexivity. Qed.

Lemma kin_foldl {B} (f : World -> B -> World) (l : list B) (w : World) :
  (forall w x, kin (f w x) = kin w) -> kin (foldl f w l) = kin w.
Proof.
  intros Hf. revert w. induction l as [|x l IH]; intros w; simpl; [reflexivity|].
  rewrite IH. apply Hf.
Qed.

Create HintDb shape.
#[local] Hint Unfold Behaviour.moveTowards Behaviour.updateLifecycle
  Behaviour.burrowingBehavior Behaviour.timeDilationBehavior : shape.

Ltac untouched :=
  solve [ intros; reflexivity
        | intros ?; autounfold with shape; cbv zeta;
          repeat case_match; reflexivity ].

Create Rewrite HintDb frames.
#[local] Hint Rewrite @view_set_rng @view_set_foodManager @view_set_colonies
  @view_modify_colony @view_draw @view_read_cell
  kin_set_rng kin_set_foodManager kin_draw @kin_read_cell : frames.
#[local] Hint Rewrite @view_modify_cell @view_on_cell kin_modify_cell
  kin_modify_colony kin_on_cell using untouched : frames.

(** The projection a frame goal is about. *)
Ltac frame_of k :=
  match goal with
  | |- _ = ?P ?w => lazymatch type of w with World => k P end
  end.

Ltac frame_pair :=
  frame_of ltac:(fun P =>
    match goal with
    | |- context [match ?e with pair _ _ => _ end] =>
        let a := fresh "a" in
        let w' := fresh "w" in
        let E := fresh "E" in
        destruct e as [a w'] eqn:E;
        apply (f_equal (fun p => P (snd p))) in E;
        cbv beta in E; cbn [snd] in E;
        autorewrite with frames in E
    end).

Ltac frame_eq :=
  frame_of ltac:(fun P =>
    match goal with
    | E : ?e = (?a, ?w') |- _ =>
        lazymatch type of w' with World => idtac end;
        apply (f_equal (fun p => P (snd p))) in E;
        cbv beta in E; cbn [snd] in E;
        autorewrite with frames in E
    end).

Ltac frames :=
  repeat first
    [ frame_pair
    | frame_eq
    | case_match
    | progress cbv beta zeta
    | progress cbn [snd fst]
    | progress unfold bind, ret
    | rewrite view_foldl; [|intros]
    | rewrite kin_foldl; [|intros]
    | progress autorewrite with frames ];
  unfold ret in *; cbn [snd] in *; autorewrite with frames in *; try congruence.

Lemma geometry_calculateDefenseInteraction a d q w :
  view geometry (snd (Combat.calculateDefenseInteraction a d q w)) = view geometry w.
Proof. unfold Combat.calculateDefenseInteraction. frames. Qed.

Lemma geometry_handleSpecialCombatEffects a d w :
  view geometry (snd (Combat.handleSpecialCombatEffects a d w)) = view geometry w.
Proof. unfold Combat.handleSpecialCombatEffects. frames. Qed.
#[local] Hint Rewrite geometry_calculateDefenseInteraction
  geometry_handleSpecialCombatEffects : frames.

Lemma geometry_handleCellInteraction M a d w :
  view geometry (snd (Combat.handleCellInteraction M a d w)) = view geometry w.
Proof. unfold Combat.handleCellInteraction. frames. Qed.

(** *** No step of a cell's turn touches a colony or a bond list *)

Lemma kin_discard n w : kin (snd (Behaviour.discard n w)) = kin w.
Proof.
  revert w. induction n as [|n IH]; intros w; simpl; [reflexivity|].
  unfold bind. destruct (draw w) as [r w1] eqn:E. rewrite IH.
  rewrite <- (kin_draw w), E. reflexivity.
Qed.
#[local] Hint Rewrite kin_discard : frames.

Lemma kin_handleInfection c w :
  kin (snd (Behaviour.handleInfection c w)) = kin w.
Proof. unfold Behaviour.handleInfection. frames. Qed.
#[local] Hint Rewrite kin_handleInfection : frames.

Lemma kin_randomBeneficialMutation c w :
  kin (snd (Behaviour.randomBeneficialMutation c w)) = kin w.
Proof. unfold Behaviour.randomBeneficialMutation. frames. Qed.
#[local] Hint Rewrite kin_randomBeneficialMutation : frames.

Lemma kin_applyEnvironmentalEffects env c w :
  kin (snd (Behaviour.applyEnvironmentalEffects env c w)) = kin w.
Proof. unfold Behaviour.applyEnvironmentalEffects. frames. Qed.
#[local] Hint Rewrite kin_applyEnvironmentalEffects : frames.

Lemma kin_parasiteBehavior M l c w :
  kin (Behaviour.parasiteBehavior M l c w) = kin w.
Proof. unfold Behaviour.parasiteBehavior. frames. Qed.

Lemma kin_packHuntingBehavior M l c w :
  kin (Behaviour.packHuntingBehavior M l c w) = kin w.
Proof. unfold Behaviour.packHuntingBehavior. frames. Qed.

Lemma kin_territorialBehavior M l c w :
  kin (Behaviour.territorialBehavior M l c w) = kin w.
Proof. unfold Behaviour.territorialBehavior. frames. Qed.

Lemma kin_energyVampireBehavior M l c w :
  kin (Behaviour.energyVampireBehavior M l c w) = kin w.
Proof. unfold Behaviour.energyVampireBehavior. frames. Qed.

Lemma kin_migratoryBehavior M c w :
  kin (snd (Behaviour.migratoryBehavior M c w)) = kin w.
Proof. unfold Behaviour.migratoryBehavior. frames. Qed.

Lemma kin_leapingBehavior M c w :
  kin (snd (Behaviour.leapingBehavior M c w)) = kin w.
Proof. unfold Behaviour.leapingBehavior. frames. Qed.

Lemma kin_splittingBehavior c w :
  kin (snd (Behaviour.splittingBehavior c w)) = kin w.
Proof. unfold Behaviour.splittingBehavior. frames. Qed.

Lemma kin_fusionBehavior M l c w :
  kin (snd (Behaviour.fusionBehavior M l c w)) = kin w.
Proof. unfold Behaviour.fusionBehavior. frames. Qed.

Lemma kin_shapeShiftBehavior c w :
  kin (snd (Behaviour.shapeShiftBehavior c w)) = kin w.
Proof. unfold Behaviour.shapeShiftBehavior. frames. Qed.

#[local] Hint Rewrite kin_parasiteBehavior kin_packHuntingBehavior
  kin_territorialBehavior kin_energyVampireBehavior kin_migratoryBehavior
  kin_leapingBehavior kin_splittingBehavior kin_fusionBehavior
  kin_shapeShiftBehavior : frames.

Lemma kin_applySpecialAbilities M l c w :
  kin (snd (Behaviour.applySpecialAbilities M l c w)) = kin w.
Proof. unfold Behaviour.applySpecialAbilities. frames. Qed.
#[local] Hint Rewrite kin_applySpecialAbilities : frames.

Lemma kin_eat M c i w : kin (snd (Behaviour.eat M c i w)) = kin w.
Proof. unfold Behaviour.eat. frames. Qed.

Lemma kin_calculateDefenseInteraction a d q w :
  kin (snd (Combat.calculateDefenseInteraction a d q w)) = kin w.
Proof. unfold Combat.calculateDefenseInteraction. frames. Qed.

Lemma kin_handleSpecialCombatEffects a d w :
  kin (snd (Combat.handleSpecialCombatEffects a d w)) = kin w.
Proof. unfold Combat.handleSpecialCombatEffects. frames. Qed.
#[local] Hint Rewrite kin_eat kin_calculateDefenseInteraction
  kin_handleSpecialCombatEffects : frames.

Lemma kin_handleCellInteraction M a d w :
  kin (snd (Combat.handleCellInteraction M a d w)) = kin w.
Proof. unfold Combat.handleCellInteraction. frames. Qed.
#[local] Hint Rewrite kin_handleCellInteraction : frames.

Lemma kin_shareResources k w : kin (Colony.shareResources k w) = kin w.
Proof.
  unfold Colony.shareResources. case_match; [|reflexivity]. cbv zeta.
  rewrite kin_foldl.
  - frames.
  - intros w0 c0. unfold Colony.shareWith. frames.
Qed.

(** ** The per-cell pass *)

Import Simulation.

Lemma dom_update (E : Externals) l env c w :
  rest_keeps_objects E ->
  dom (cells w) ⊆ dom (cells (snd (Behaviour.update (math E) (rest E) l env c w))).
Proof.
  intros Hrest. unfold Behaviour.update. objects;
    try (etrans; [|apply Hrest]);
    match goal with
    | |- dom (cells ?a) ⊆ dom (cells ?b) =>
        replace (dom (cells b)) with (dom (cells a)) by congruence; reflexivity
    end.
Qed.

Lemma dom_feed E c food w : dom (cells (feed E c food w)) = dom (cells w).
Proof. unfold feed. objects. Qed.

Lemma fight_spec E c others w log :
  dom (cells (fight E c others w log).1) = dom (cells w) /\
  exists ext,
    (fight E c others w log).2 = log ++ ext /\
    forall a b, (a, b) ∈ ext -> a = c /\ b ∈ others /\ b ≠ c.
Proof.
  unfold fight. revert w log.
  induction others as [|x l IH]; intros w log; simpl.
  - split; [reflexivity|]. exists []. rewrite app_nil_r. split; [reflexivity|].
    intros a b Hin. inversion Hin.
  - match goal with |- context [foldl _ ?acc l] => destruct acc as [w1 log1] eqn:Est end.
    destruct (IH w1 log1) as [Hd [ext [Hlog Hext]]].
    assert (Hst : dom (cells w1) = dom (cells w) /\
                  (log1 = log \/ (log1 = log ++ [(c, x)] /\ x ≠ c))).
    { repeat case_match; simplify_eq; try (split; [reflexivity|left; reflexivity]).
      split; [apply dom_handleCellInteraction|].
      right. split; [reflexivity|].
      match goal with
      | Hb : _ && _ = true |- _ =>
          apply andb_true_iff in Hb as [Hne _];
          apply negb_true_iff, bool_decide_eq_false in Hne; exact Hne
      end. }
    destruct Hst as [Hd1 Hl1]. split; [congruence|].
    destruct Hl1 as [->|[-> Hne]].
    + exists ext. split; [exact Hlog|].
      intros a b Hin. destruct (Hext a b Hin) as (? & ? & ?).
      repeat split; auto. now right.
    + exists ((c, x) :: ext). split.
      { rewrite Hlog, <- app_assoc. reflexivity. }
      intros a b Hin. apply elem_of_cons in Hin as [Heq|Hin].
      * inversion Heq; subst. repeat split; auto. now left.
      * destruct (Hext a b Hin) as (? & ? & ?). repeat split; auto. now right.
Qed.

Lemma reproduce_spec E c rate w :
  dom (cells w) ⊆ dom (cells (reproduce E c rate w).2) /\
  forall k, (reproduce E c rate w).1 = Some k -> k ∉ dom (cells w).
Proof.
  unfold reproduce, construct_in, allocate.
  repeat case_match; simpl; try (split; [done|intros; discriminate]).
  match goal with H : construct _ _ _ _ _ _ = _ |- _ => clear H end.
  match goal with H : Mutation.mutate _ _ _ = _ |- _ => clear H end.
  simplify_eq. run_eq. simpl.
  match goal with
  | K : dom (cells w) = dom (cells ?w') |- _ =>
      split; [rewrite dom_insert, <- K; apply union_subseteq_r|];
      intros k [= <-]; rewrite K; apply is_fresh
  end.
Qed.

(** What one turn of the pass adds to its state. *)
Lemma visit_shape E s env food acc i c :
  rest_keeps_objects E ->
  dom (cells (passWorld acc)) ⊆ dom (cells (passWorld (visit E s env food acc i c))) /\
  ((deadCells (visit E s env food acc i c) = deadCells acc ++ [(c, i)] /\
    interactions (visit E s env food acc i c) = interactions acc /\
    newCells (visit E s env food acc i c) = newCells acc) \/
   (deadCells (visit E s env food acc i c) = deadCells acc /\
    (exists ext,
       interactions (visit E s env food acc i c) = interactions acc ++ ext /\
       forall a b, (a, b) ∈ ext -> a = c /\ b ∈ cellsArr s /\ b ≠ c) /\
    (exists kids,
       newCells (visit E s env food acc i c) = newCells acc ++ kids /\
       forall k, k ∈ kids -> k ∉ dom (cells (passWorld acc))))).
Proof.
  intros Hrest. unfold visit.
  pose proof (dom_update E (cellsArr s) env c (passWorld acc) Hrest) as Hup.
  destruct (Behaviour.update _ _ _ _ _ _) as [alive w1]. cbn [snd] in Hup.
  destruct (foundDead alive w1 c).
  { cbn. split; [exact Hup|]. left. auto. }
  pose proof (dom_feed E c food w1) as Hfeed.
  pose proof (fight_spec E c (cellsArr s) (feed E c food w1) (interactions acc))
    as [Hfight [ext [Hlog Hext]]].
  destruct (fight _ _ _ _ _) as [w3 log]. cbn [fst snd] in Hfight, Hlog.
  assert (H3 : dom (cells (passWorld acc)) ⊆ dom (cells w3)).
  { rewrite Hfight, Hfeed. exact Hup. }
  pose proof (reproduce_spec E c (mutationRate (settings s)) w3) as [Hrep Hkid].
  destruct (reproduce _ _ _ w3) as [offspring w4]. cbn [fst snd] in Hrep, Hkid.
  assert (H4 : dom (cells (passWorld acc)) ⊆ dom (cells w4)) by (etrans; eassumption).
  assert (Hnone : exists kids : list cell_id,
             newCells acc = newCells acc ++ kids /\
             forall k, k ∈ kids -> k ∉ dom (cells (passWorld acc))).
  { exists []. rewrite app_nil_r. split; [reflexivity|]. intros k Hk. inversion Hk. }
  repeat case_match; cbn; (split; [assumption|]); right;
    (split; [reflexivity|]); (split; [exists ext; split; assumption|]);
    try exact Hnone.
  all: match goal with
       | Hk : forall k, Some ?child = Some k -> _ |- _ =>
           exists [child]; split; [reflexivity|];
           intros k Hin; apply list_elem_of_singleton in Hin; subst k;
           intros Hd; apply (Hk child eq_refl), H3, Hd
       end.
Qed.

(** One turn keeps the invariant of the pass. *)
Lemma visit_invariant E s env food acc visited c :
  rest_keeps_objects E ->
  c ∉ visited ->
  pass_invariant (cellsArr s) visited acc ->
  pass_invariant (cellsArr s) (visited ++ [c])
    (visit E s env food acc (length visited) c).
Proof.
  intros Hrest Hnew [Hpar Hdead Hini Hoff Hsto Hord].
  destruct (visit_shape E s env food acc (length visited) c Hrest)
    as [Hdom [(Hd & Hi & Hn)|(Hd & (ext & Hi & Hext) & (kids & Hn & Hkids))]];
    split; rewrite ?Hd, ?Hi, ?Hn.
  - intros a b Hin. destruct (Hpar a b Hin) as (? & ? & ?).
    repeat split; auto. apply elem_of_app. now left.
  - intros d j Hin. apply elem_of_app in Hin as [Hin|Hin].
    + apply lookup_app_l_Some, Hdead, Hin.
    + apply list_elem_of_singleton in Hin. inversion Hin; subst.
      apply list_lookup_middle. reflexivity.
  - intros a b d j Hin Hdj. apply elem_of_app in Hdj as [Hdj|Hdj].
    + eapply Hini; eassumption.
    + apply list_elem_of_singleton in Hdj. inversion Hdj; subst.
      destruct (Hpar a b Hin) as (Ha & _). intros ->. contradiction.
  - exact Hoff.
  - intros x Hx. apply Hdom, Hsto, Hx.
  - rewrite fmap_app, reverse_app. cbn. apply SSorted_cons; [exact Hord|].
    apply Forall_forall. intros j Hj. unfold flip.
    apply elem_of_reverse, list_elem_of_fmap in Hj as [[d j'] [-> Hin]].
    apply Hdead in Hin. apply lookup_lt_Some in Hin. exact Hin.
  - intros a b Hin. apply elem_of_app in Hin as [Hin|Hin].
    + destruct (Hpar a b Hin) as (? & ? & ?).
      repeat split; auto. apply elem_of_app. now left.
    + destruct (Hext a b Hin) as (-> & ? & ?).
      repeat split; auto. apply elem_of_app. right. now left.
  - intros d j Hin. apply lookup_app_l_Some, Hdead, Hin.
  - intros a b d j Hin Hdj. apply elem_of_app in Hin as [Hin|Hin].
    + eapply Hini; eassumption.
    + destruct (Hext a b Hin) as (-> & _). intros ->.
      apply Hnew. eapply list_elem_of_lookup_2, Hdead, Hdj.
  - intros k Hk. apply elem_of_app in Hk as [Hk|Hk]; [apply Hoff, Hk|].
    intros Hin. apply (Hkids k Hk), Hsto, Hin.
  - intros x Hx. apply Hdom, Hsto, Hx.
  - exact Hord.
Qed.

(** The invariant holds all along the pass. *)
Lemma pass_from_invariant E s env food remaining :
  rest_keeps_objects E ->
  forall visited acc,
    NoDup (visited ++ remaining) ->
    pass_invariant (cellsArr s) visited acc ->
    pass_invariant (cellsArr s) (visited ++ remaining)
      (pass_from E s env food (length visited) remaining acc).
Proof.
  intros Hrest. induction remaining as [|c more IH]; intros visited acc Hnd Hinv.
  - rewrite app_nil_r. exact Hinv.
  - simpl. replace (visited ++ c :: more) with ((visited ++ [c]) ++ more) in *
      by (rewrite <- app_assoc; reflexivity).
    replace (S (length visited)) with (length (visited ++ [c]))
      by (rewrite length_app; simpl; lia).
    apply IH; [exact Hnd|].
    apply visit_invariant; [exact Hrest| |exact Hinv].
    apply NoDup_app in Hnd as [Hnd _]. apply NoDup_app in Hnd as (_ & Hnd & _).
    intros Hin. apply (Hnd c Hin). now left.
Qed.

Lemma pass_invariant_holds E s env food :
  rest_keeps_objects E -> NoDup (cellsArr s) -> array_in_store s ->
  pass_invariant (cellsArr s) (cellsArr s) (pass E s env food).
Proof.
  intros Hrest Hnd Hsto. unfold pass.
  apply (pass_from_invariant E s env food (cellsArr s) Hrest []); [exact Hnd|].
  split; cbn; try (intros; match goal with H : _ ∈ [] |- _ => inversion H end).
  - exact Hsto.
  - constructor.
Qed.

(** [collidesWith] reads the position and the radius only. *)
Lemma collidesWith_geometry M o o' p p' :
  geometry o = geometry o' -> geometry p = geometry p' ->
  Behaviour.collidesWith M o p = Behaviour.collidesWith M o' p'.
Proof.
  unfold geometry, Behaviour.collidesWith. intros [= -> -> ->] [= -> -> ->].
  reflexivity.
Qed.

Lemma geometry_same w w' a o :
  view geometry w' = view geometry w -> cells w !! a = Some o ->
  exists o', cells w' !! a = Some o' /\ geometry o' = geometry o.
Proof.
  intros Hv Ho. apply (f_equal (fun m => m !! a)) in Hv.
  rewrite !view_lookup, Ho in Hv.
  destruct (cells w' !! a) as [o'|]; simpl in Hv; [|discriminate].
  exists o'. split; [reflexivity|congruence].
Qed.

(** The combat of a turn hands every entry of the array that is not the
    cell itself and collides with it to [handleCellInteraction]. *)
Lemma fight_hands_over E a others :
  forall w log b oa ob,
    b ∈ others -> b ≠ a ->
    cells w !! a = Some oa -> cells w !! b = Some ob ->
    Behaviour.collidesWith (math E) oa ob = true ->
    (a, b) ∈ (fight E a others w log).2.
Proof.
  induction others as [|x l IH]; intros w log b oa ob Hin Hne Ha Hb Hcol.
  { inversion Hin. }
  unfold fight. cbn [foldl].
  match goal with |- context [foldl _ ?acc l] => destruct acc as [w1 log1] eqn:Est end.
  fold (fight E a l w1 log1).
  assert (Hgeo : view geometry w1 = view geometry w).
  { repeat case_match; simplify_eq; try reflexivity.
    apply geometry_handleCellInteraction. }
  apply elem_of_cons in Hin as [->|Hin].
  - assert (Hlog : (a, x) ∈ log1).
    { rewrite Ha, Hb, Hcol in Est.
      destruct (bool_decide (x = a)) eqn:Ex;
        [apply bool_decide_eq_true in Ex; contradiction|].
      cbn in Est. simplify_eq. apply elem_of_app. right. now left. }
    destruct (fight_spec E a l w1 log1) as [_ [ext [-> _]]].
    apply elem_of_app. now left.
  - destruct (geometry_same w w1 a oa Hgeo Ha) as (oa' & Ha' & Hga).
    destruct (geometry_same w w1 b ob Hgeo Hb) as (ob' & Hb' & Hgb).
    apply (IH w1 log1 b oa' ob' Hin Hne Ha' Hb').
    rewrite (collidesWith_geometry _ oa' oa ob' ob Hga Hgb). exact Hcol.
Qed.

Lemma visit_hands_over E s env food acc i a b oa ob :
  foundDead
    (Behaviour.update (math E) (rest E) (cellsArr s) env a (passWorld acc)).1
    (Behaviour.update (math E) (rest E) (cellsArr s) env a (passWorld acc)).2
    a = false ->
  b ∈ cellsArr s -> b ≠ a ->
  cells (combatWorld E s env food acc a) !! a = Some oa ->
  cells (combatWorld E s env food acc a) !! b = Some ob ->
  Behaviour.collidesWith (math E) oa ob = true ->
  (a, b) ∈ interactions (visit E s env food acc i a).
Proof.
  unfold combatWorld, visit.
  destruct (Behaviour.update _ _ _ _ _ _) as [alive w1]. cbn [fst snd].
  intros -> Hin Hne Ha Hb Hcol.
  pose proof (fight_hands_over E a (cellsArr s) (feed E a food w1)
                (interactions acc) b oa ob Hin Hne Ha Hb Hcol) as Hlog.
  destruct (fight _ _ _ _ _) as [w3 log]. cbn [snd] in Hlog.
  repeat case_match; exact Hlog.
Qed.

Lemma pass_from_app E s env food l1 : forall l2 i acc,
  pass_from E s env food i (l1 ++ l2) acc
  = pass_from E s env food (i + length l1) l2 (pass_from E s env food i l1 acc).
Proof.
  induction l1 as [|c l1 IH]; intros l2 i acc; cbn.
  - rewrite Nat.add_0_r. reflexivity.
  - rewrite IH. f_equal. lia.
Qed.

Lemma pass_from_interactions E s env food l :
  rest_keeps_objects E ->
  forall i acc x,
    x ∈ interactions acc -> x ∈ interactions (pass_from E s env food i l acc).
Proof.
  intros Hrest. induction l as [|c l IH]; intros i acc x Hx; cbn; [exact Hx|].
  apply IH.
  destruct (visit_shape E s env food acc i c Hrest)
    as [_ [(_ & -> & _)|(_ & (ext & -> & _) & _)]]; [exact Hx|].
  apply elem_of_app. now left.
Qed.

(** The pass runs the turn of position [i] on the state [pass_before]. *)
Lemma pass_split E s env food i a :
  cellsArr s !! i = Some a ->
  pass E s env food
  = pass_from E s env food (S i) (drop (S i) (cellsArr s))
      (visit E s env food (pass_before E s env food i) i a).
Proof.
  intros Hi. unfold pass, pass_before.
  rewrite <- (take_drop_middle (cellsArr s) i a Hi) at 1.
  rewrite pass_from_app. cbn.
  rewrite length_take, Nat.min_l by (apply lookup_lt_Some in Hi; lia).
  reflexivity.
Qed.

(** C8, as the pass does it.  In the per-cell pass of a tick, every
    interaction is started by a cell of the array that the pass has not
    marked dead, with another entry of the array as the other party; the
    offspring of the tick are not entries of the array, so they are on
    neither side of an interaction.  The other party is not filtered: a
    cell that passes the death test of its turn starts an interaction
    with every other entry of the array it collides with when its combat
    begins, whether the pass has marked that entry dead or not. *)
Theorem pass_initiators_unmarked_offspring_excluded
    (E : Externals) (s : t) (env : Behaviour.Env) (food : list nat) :
  rest_keeps_objects E -> NoDup (cellsArr s) -> array_in_store s ->
  let p := pass E s env food in
  (forall a b, (a, b) ∈ interactions p ->
     a ∈ cellsArr s /\ b ∈ cellsArr s /\ b ≠ a /\
     (a ∉ (deadCells p).*1) /\ (a ∉ newCells p) /\ (b ∉ newCells p)) /\
  (forall k, k ∈ newCells p -> k ∉ cellsArr s) /\
  (forall i a b oa ob,
     cellsArr s !! i = Some a ->
     let acc := pass_before E s env food i in
     foundDead
       (Behaviour.update (math E) (rest E) (cellsArr s) env a (passWorld acc)).1
       (Behaviour.update (math E) (rest E) (cellsArr s) env a (passWorld acc)).2
       a = false ->
     b ∈ cellsArr s -> b ≠ a ->
     cells (combatWorld E s env food acc a) !! a = Some oa ->
     cells (combatWorld E s env food acc a) !! b = Some ob ->
     Behaviour.collidesWith (math E) oa ob = true ->
     (a, b) ∈ interactions p).
Proof.
  intros Hrest Hnd Hsto p.
  destruct (pass_invariant_holds E s env food Hrest Hnd Hsto)
    as [Hpar Hdead Hini Hoff _ _].
  fold p in Hpar, Hdead, Hini, Hoff.
  split; [|split; [exact Hoff|]].
  - intros a b Hin. destruct (Hpar a b Hin) as (Ha & Hb & Hne).
    repeat split; auto.
    + intros Hd. apply list_elem_of_fmap in Hd as [[d j] [-> Hd]].
      exact (Hini _ _ _ _ Hin Hd eq_refl).
    + intros Hk. exact (Hoff a Hk Ha).
    + intros Hk. exact (Hoff b Hk Hb).
  - intros i a b oa ob Hi acc Halive Hb Hne Hoa Hob Hcol.
    subst p. rewrite (pass_split E s env food i a Hi).
    apply pass_from_interactions; [exact Hrest|].
    eapply visit_hands_over; eassumption.
Qed.

Lemma wake_ready :
  rest_keeps_objects Scenario.inert /\ NoDup (cellsArr Scenario.wake) /\
  array_in_store Scenario.wake.
Proof.
  split; [|split].
  - intros l env c w. reflexivity.
  - cbn. apply NoDup_cons. split; [|apply NoDup_singleton].
    rewrite list_elem_of_singleton. discriminate.
  - intros c Hc. cbn in Hc. apply elem_of_dom.
    apply elem_of_cons in Hc as [->|Hc];
      [|apply list_elem_of_singleton in Hc as ->]; eexists; vm_compute; reflexivity.
Defined.

Lemma pass_initiators_unmarked_offspring_excluded_witness :
  (rest_keeps_objects Scenario.inert /\ NoDup (cellsArr Scenario.wake) /\
   array_in_store Scenario.wake) /\
  forall a b,
    (a, b) ∈ interactions
               (pass Scenario.inert Scenario.wake (Behaviour.mkEnv 0.5 0.3 0.1) []) ->
    a ∉ (deadCells
           (pass Scenario.inert Scenario.wake (Behaviour.mkEnv 0.5 0.3 0.1) [])).*1.
Proof.
  split; [exact wake_ready|].
  destruct wake_ready as (H1 & H2 & H3).
  intros a b Hin.
  apply (proj1 (pass_initiators_unmarked_offspring_excluded
                  Scenario.inert Scenario.wake (Behaviour.mkEnv 0.5 0.3 0.1) []
                  H1 H2 H3) a b Hin).
Defined.

(** C8 as stated fails.  In the first tick of two overlapping cells of
    which the first is out of energy, the first cell is marked dead at
    position 0, and the second cell, whose turn comes after, interacts with
    it. *)
Lemma marked_cell_is_still_attacked :
  let p := stepPass Scenario.inert Scenario.wake in
  cellsArr (beginStep Scenario.inert Scenario.wake).1.1 = [1; 2]%nat /\
  deadCells p = [(1, 0)]%nat /\
  interactions p = [(2, 1)]%nat /\
  ~ dead_party_free [1; 2]%nat p.
Proof.
  cbv zeta.
  assert (Hd : deadCells (stepPass Scenario.inert Scenario.wake) = [(1, 0)]%nat)
    by (vm_compute; reflexivity).
  assert (Hi : interactions (stepPass Scenario.inert Scenario.wake) = [(2, 1)]%nat)
    by (vm_compute; reflexivity).
  split; [vm_compute; reflexivity|]. split; [exact Hd|]. split; [exact Hi|].
  intros H.
  destruct (H 2 1 1 1 0)%nat as [Hne _].
  - rewrite Hi. apply list_elem_of_singleton. reflexivity.
  - rewrite Hd. apply list_elem_of_singleton. reflexivity.
  - reflexivity.
  - lia.
  - apply Hne. reflexivity.
Qed.


(** ** Removal of the marked cells *)

(** Splicing positions out from the last to the first leaves the entries
    at the other positions. *)
Lemma removeOne_members E (L : list (cell_id * nat)) :
  StronglySorted (flip lt) L.*2 ->
  forall arr w x,
    x ∈ (foldl (removeOne E) (arr, w) L).1 <->
    exists i, arr !! i = Some x /\ i ∉ L.*2.
Proof.
  induction L as [|[d j] L IH]; intros Hsorted arr w x;
    [|rewrite fmap_cons in Hsorted |- *]; cbn [foldl snd] in *.
  - cbn. rewrite list_elem_of_lookup. split; intros [i Hi].
    + exists i. split; [exact Hi|]. apply not_elem_of_nil.
    + exists i. apply Hi.
  - apply StronglySorted_inv in Hsorted as [Hs Hall].
    rewrite Forall_forall in Hall. unfold flip in Hall.
    unfold removeOne at 2. cbn [fst snd].
    rewrite (IH Hs). split; intros [i [Hi Hni]].
    + destruct (decide (i < j)%nat) as [Hlt|Hge].
      * exists i. rewrite list_lookup_delete_lt in Hi by exact Hlt.
        split; [exact Hi|]. rewrite not_elem_of_cons. split; [lia|exact Hni].
      * exists (S i). rewrite list_lookup_delete_ge in Hi by lia.
        split; [exact Hi|]. rewrite not_elem_of_cons. split; [lia|].
        intros Hin. apply Hall in Hin. lia.
    + apply not_elem_of_cons in Hni as [Hne Hni].
      destruct (decide (i < j)%nat) as [Hlt|Hge].
      * exists i. rewrite list_lookup_delete_lt by exact Hlt. split; assumption.
      * destruct i as [|i]; [lia|]. exists i.
        rewrite list_lookup_delete_ge by lia. split; [exact Hi|].
        intros Hin. apply Hall in Hin. lia.
Qed.

(** [spawnFood] pushes one particle. *)
Lemma spawnFood_length x y m g :
  length (FoodManager.food (FoodManager.spawnFood x y m g).1)
  = S (length (FoodManager.food m)).
Proof.
  unfold FoodManager.spawnFood, bind, ret.
  repeat case_match; simplify_eq; cbn; rewrite length_app; cbn; lia.
Qed.

Lemma for_loop_length {G} n :
  forall i (body : nat -> FoodManager.t -> State G FoodManager.t) m g,
    (forall i m g, length (FoodManager.food (body i m g).1)
                   = S (length (FoodManager.food m))) ->
    length (FoodManager.food (for_loop n i body m g).1)
    = (length (FoodManager.food m) + n)%nat.
Proof.
  induction n as [|n IH]; intros i body m g Hbody; cbn.
  - lia.
  - unfold bind. pose proof (Hbody i m g) as Hstep.
    destruct (body i m g) as [m1 g1]. cbn [fst] in Hstep.
    rewrite IH by exact Hbody. lia.
Qed.

Lemma spawnFromDeath_length M x y size m g :
  length (FoodManager.food (FoodManager.spawnFromDeath M x y size m g).1)
  = (length (FoodManager.food m) + Z.to_nat (FoodManager.nutrientCount size))%nat.
Proof.
  unfold FoodManager.spawnFromDeath. apply for_loop_length.
  intros i m0 g0. unfold bind.
  destruct (random g0) as [r g1]. destruct (random g1) as [d g2].
  apply spawnFood_length.
Qed.

Lemma corpseParticles_cells w w' :
  cells w' = cells w ->
  forall L : list (cell_id * nat),
    sum_list_with (fun e => corpseParticles w' e.1) L
    = sum_list_with (fun e => corpseParticles w e.1) L.
Proof.
  intros Hc L. induction L as [|e L IH]; cbn; [reflexivity|].
  rewrite IH. unfold corpseParticles. rewrite Hc. reflexivity.
Qed.

(** The removal leaves every cell object as it is and pushes the
    particles of each corpse. *)
Lemma removeOne_food E (L : list (cell_id * nat)) :
  forall arr w,
    cells (foldl (removeOne E) (arr, w) L).2 = cells w /\
    length (FoodManager.food (foodManager (foldl (removeOne E) (arr, w) L).2))
    = (length (FoodManager.food (foodManager w))
       + sum_list_with (fun e => corpseParticles w e.1) L)%nat.
Proof.
  induction L as [|[d j] L IH]; intros arr w; cbn [foldl sum_list_with].
  - cbn. split; [reflexivity|lia].
  - unfold removeOne at 2 4. cbn [fst snd].
    match goal with
    | |- context [foldl _ (?a, ?b) L] => destruct (IH a b) as [Hc Hf]; set (w1 := b) in *
    end.
    assert (Hw1 : cells w1 = cells w /\
                  length (FoodManager.food (foodManager w1))
                  = (length (FoodManager.food (foodManager w)) + corpseParticles w d)%nat).
    { subst w1. unfold corpseParticles. destruct (cells w !! d) as [o|]; [|split; [reflexivity|lia]].
      pose proof (spawnFromDeath_length (math E) (Cell.x o) (Cell.y o) (Cell.size o)
                    (foodManager w) (rng w)) as Hlen.
      destruct (FoodManager.spawnFromDeath _ _ _ _ _ _) as [fm g].
      cbn in *. split; [reflexivity|exact Hlen]. }
    destruct Hw1 as [Hc1 Hf1]. split; [congruence|].
    rewrite Hf, Hf1, (corpseParticles_cells w w1 Hc1). cbn [fst]. lia.
Qed.

(** The particles of one corpse. *)
Lemma spawnFromDeath_particles (M : MathLib) (x y size : Q)
    (m : FoodManager.t) (g : Rng) :
  fair g ->
  let r := FoodManager.spawnFromDeath M x y size m g in
  fair r.2 /\
  FoodManager.width r.1 = FoodManager.width m /\
  FoodManager.height r.1 = FoodManager.height m /\
  exists group,
    FoodManager.food r.1 = FoodManager.food m ++ group /\
    length group = Z.to_nat (FoodManager.nutrientCount size) /\
    Forall (nearCorpse M (FoodManager.width m) (FoodManager.height m) x y size)
           group.
Proof.
  intros Hg. cbv zeta.
  pose proof (spawnFromDeath_length M x y size m g) as Hlen.
  unfold FoodManager.spawnFromDeath in *. cbv zeta in *.
  pose (Inv := fun s : FoodManager.t =>
    FoodManager.width s = FoodManager.width m /\
    FoodManager.height s = FoodManager.height m /\
    exists group,
      FoodManager.food s = FoodManager.food m ++ group /\
      Forall (nearCorpse M (FoodManager.width m) (FoodManager.height m) x y size)
             group).
  match type of Hlen with
  | context [for_loop ?n ?i ?body m g] =>
      assert (H : always (for_loop n i body m) Inv)
  end.
  { apply always_for_loop.
    - intros i s (Hsw & Hsh & group & Hex & Hall).
      eapply always_bind; [apply always_random|]. intros r _.
      eapply always_bind; [apply always_random|]. intros d [Hd0 Hd1].
      eapply always_weaken; [apply spawnFood_particle|].
      intros s' (Ew & Eh & _ & _ & _ & p & Ep & _ & _ & _ & _ & _ & _ & _ & Hx & Hy).
      unfold Inv. rewrite Ew, Eh, Ep. repeat split; try assumption.
      exists (group ++ [p]). rewrite Hex, <- app_assoc. split; [reflexivity|].
      apply Forall_app. split; [exact Hall|]. constructor; [|constructor].
      eexists _, d. rewrite Hx, Hy, Hsw, Hsh.
      split; [exact Hd0|]. split; [exact Hd1|]. split; reflexivity.
    - unfold Inv. repeat split. exists []. rewrite app_nil_r.
      split; [reflexivity|constructor]. }
  destruct (H g Hg) as [(Hw & Hh & group & Hex & Hall) Hfair].
  split; [exact Hfair|]. split; [exact Hw|]. split; [exact Hh|].
  exists group. split; [exact Hex|]. split; [|exact Hall].
  rewrite Hex, length_app in Hlen. lia.
Qed.

(** The removal pushes, corpse after corpse, the particles of each corpse
    near the place where the corpse lies. *)
Lemma removeOne_particles E (L : list (cell_id * nat)) :
  forall arr w,
    fair (rng w) ->
    let w' := (foldl (removeOne E) (arr, w) L).2 in
    fair (rng w') /\
    exists groups,
      FoodManager.food (foodManager w')
      = FoodManager.food (foodManager w) ++ concat groups /\
      Forall2 (fun e group =>
                 length group = corpseParticles w e.1 /\
                 forall o, cells w !! e.1 = Some o ->
                   Forall (nearCorpse (math E)
                             (FoodManager.width (foodManager w))
                             (FoodManager.height (foodManager w))
                             (Cell.x o) (Cell.y o) (Cell.size o)) group)
              L groups.
Proof.
  induction L as [|[d j] L IH]; intros arr w Hg; cbn [foldl].
  - cbn. split; [exact Hg|]. exists []. cbn. rewrite app_nil_r.
    split; [reflexivity|constructor].
  - unfold removeOne at 2 4. cbn [fst snd].
    match goal with
    | |- context [foldl _ (?a, ?b) L] => set (w1 := b) in *; set (arr1 := a) in *
    end.
    assert (Hw1 : fair (rng w1) /\ cells w1 = cells w /\
                  FoodManager.width (foodManager w1) = FoodManager.width (foodManager w) /\
                  FoodManager.height (foodManager w1) = FoodManager.height (foodManager w) /\
                  exists group,
                    FoodManager.food (foodManager w1)
                    = FoodManager.food (foodManager w) ++ group /\
                    length group = corpseParticles w d /\
                    forall o, cells w !! d = Some o ->
                      Forall (nearCorpse (math E)
                                (FoodManager.width (foodManager w))
                                (FoodManager.height (foodManager w))
                                (Cell.x o) (Cell.y o) (Cell.size o)) group).
    { subst w1. unfold corpseParticles. destruct (cells w !! d) as [o|].
      - pose proof (spawnFromDeath_particles (math E) (Cell.x o) (Cell.y o)
                      (Cell.size o) (foodManager w) (rng w) Hg) as Hs.
        cbv zeta in Hs.
        destruct (FoodManager.spawnFromDeath _ _ _ _ _ _) as [fm g].
        cbn [fst snd] in Hs. destruct Hs as (Hf & Hw & Hh & group & Hex & Hl & Hall).
        cbn. split; [exact Hf|]. split; [reflexivity|].
        split; [exact Hw|]. split; [exact Hh|].
        exists group. split; [exact Hex|]. split; [exact Hl|].
        intros o' [= <-]. exact Hall.
      - split; [exact Hg|]. split; [reflexivity|]. split; [reflexivity|].
        split; [reflexivity|]. exists []. rewrite app_nil_r.
        split; [reflexivity|]. split; [reflexivity|]. intros o' [=]. }
    destruct Hw1 as (Hg1 & Hc1 & Hwd & Hht & group & Hex & Hl & Hall).
    destruct (IH arr1 w1 Hg1) as (Hg' & groups & Hfood & Hgroups).
    split; [exact Hg'|].
    exists (group :: groups). cbn [concat].
    split; [rewrite Hfood, Hex, <- app_assoc; reflexivity|].
    constructor; [split; [exact Hl|exact Hall]|].
    eapply Forall2_impl; [exact Hgroups|].
    intros e grp [Hlen Hnear]. unfold corpseParticles in *.
    rewrite Hc1, Hwd, Hht in *. split; [exact Hlen|exact Hnear].
Qed.

(** What follows the removal leaves the cells array alone, unless it is
    empty. *)
Lemma endStep_cellsArr E s env p :
  survivors E s p ++ newCells p ≠ [] ->
  cellsArr (endStep E s env p) = survivors E s p ++ newCells p.
Proof.
  unfold endStep, survivors. cbn [world set_world set_maxGeneration cellsArr].
  destruct (removeDead _ _ _ _) as [arr w]. cbn [fst].
  intros Hne.
  destruct (updateViruses _ _ _ _ _) as [vs w1].
  destruct (spawnViruses _ _ _ _) as [vs1 w2].
  unfold updateColonies.
  destruct (walkColonies _ _ _ _) as [cs w3].
  cbn.
  destruct (arr ++ newCells p) as [|c l] eqn:Earr; [contradiction|].
  reflexivity.
Qed.

(** A turn marks its cell exactly when the death test of the turn passes. *)
Lemma visit_marks E s env food acc i c :
  deadCells (visit E s env food acc i c)
  = if foundDead
         (Behaviour.update (math E) (rest E) (cellsArr s) env c (passWorld acc)).1
         (Behaviour.update (math E) (rest E) (cellsArr s) env c (passWorld acc)).2
         c
    then deadCells acc ++ [(c, i)] else deadCells acc.
Proof.
  unfold visit. destruct (Behaviour.update _ _ _ _ _ _) as [alive w]. cbn [fst snd].
  repeat case_match; reflexivity.
Qed.

(** The cells the removal leaves are the cells of the array that the pass
    did not mark. *)
Lemma survivors_spec E s env food :
  rest_keeps_objects E -> NoDup (cellsArr s) -> array_in_store s ->
  forall c,
    c ∈ survivors E s (pass E s env food) <->
    c ∈ cellsArr s /\ c ∉ (deadCells (pass E s env food)).*1.
Proof.
  intros Hrest Hnd Hsto c.
  destruct (pass_invariant_holds E s env food Hrest Hnd Hsto)
    as [_ Hdead _ _ _ Hord].
  unfold survivors, removeDead.
  rewrite removeOne_members by (rewrite fmap_reverse; exact Hord).
  split.
  - intros [i [Hi Hni]]. split; [eapply list_elem_of_lookup_2, Hi|].
    intros Hin. apply list_elem_of_fmap in Hin as [[d j] [-> Hin]]. cbn in Hi.
    pose proof (Hdead d j Hin) as Hj.
    assert (i = j) by (eapply NoDup_lookup; eassumption). subst i.
    apply Hni. rewrite fmap_reverse, elem_of_reverse.
    apply list_elem_of_fmap. exists (d, j). split; [reflexivity|exact Hin].
  - intros [Hin Hnot]. apply list_elem_of_lookup_1 in Hin as [i Hi].
    exists i. split; [exact Hi|].
    rewrite fmap_reverse, elem_of_reverse. intros Hj.
    apply list_elem_of_fmap in Hj as [[d j] [-> Hj]]. cbn in Hi.
    pose proof (Hdead d j Hj) as Hd. rewrite Hi in Hd. injection Hd as ->.
    apply Hnot. apply list_elem_of_fmap. exists (d, j). split; [reflexivity|exact Hj].
Qed.

(** C3, as the tick does it.  A turn of the pass marks its cell exactly
    when the cell's own [update] of that turn reports it dead (energy or
    health at or below 0 after its abilities ran) or leaves its health at
    or below 0.  At the end of the pass the marked cells are spliced out:
    the cells kept are the entries of the array that were not marked, no
    marked cell is among them or among the offspring, and unless nothing
    is left the cells array at the end of the tick is the kept cells
    followed by the offspring.  For each marked cell floor(size / 4) + 1
    food particles are pushed (none when that number is not positive),
    each of them near the place where the cell lies: at its position,
    moved in some direction by less than twice its size and pulled back
    to 10 inside the borders of the field.  A cell that drops to 0 in
    another cell's turn or after the pass is not marked. *)
Theorem marked_cells_removed_with_food
    (E : Externals) (s : t) (env : Behaviour.Env) (food : list nat) :
  rest_keeps_objects E -> NoDup (cellsArr s) -> array_in_store s ->
  let p := pass E s env food in
  let removed := removeDead E (deadCells p) (cellsArr s) (passWorld p) in
  (forall acc i c,
     deadCells (visit E s env food acc i c)
     = if foundDead
            (Behaviour.update (math E) (rest E) (cellsArr s) env c (passWorld acc)).1
            (Behaviour.update (math E) (rest E) (cellsArr s) env c (passWorld acc)).2
            c
       then deadCells acc ++ [(c, i)] else deadCells acc) /\
  (forall c, c ∈ survivors E s p <-> c ∈ cellsArr s /\ c ∉ (deadCells p).*1) /\
  (forall d, d ∈ (deadCells p).*1 ->
     d ∈ cellsArr s /\ d ∉ survivors E s p ++ newCells p) /\
  (survivors E s p ++ newCells p ≠ [] ->
     cellsArr (endStep E s env p) = survivors E s p ++ newCells p) /\
  cells removed.2 = cells (passWorld p) /\
  length (FoodManager.food (foodManager removed.2))
  = (length (FoodManager.food (foodManager (passWorld p)))
     + sum_list_with (fun e => corpseParticles (passWorld p) e.1) (deadCells p))%nat /\
  (fair (rng (passWorld p)) ->
   exists groups,
     FoodManager.food (foodManager removed.2)
     = FoodManager.food (foodManager (passWorld p)) ++ concat groups /\
     Forall2 (fun e group =>
                length group = corpseParticles (passWorld p) e.1 /\
                forall o, cells (passWorld p) !! e.1 = Some o ->
                  Forall (nearCorpse (math E)
                            (FoodManager.width (foodManager (passWorld p)))
                            (FoodManager.height (foodManager (passWorld p)))
                            (Cell.x o) (Cell.y o) (Cell.size o)) group)
             (reverse (deadCells p)) groups).
Proof.
  intros Hrest Hnd Hsto p removed.
  pose proof (survivors_spec E s env food Hrest Hnd Hsto) as Hsurv. fold p in Hsurv.
  destruct (pass_invariant_holds E s env food Hrest Hnd Hsto)
    as [_ Hdead _ Hoff _ _].
  fold p in Hdead, Hoff.
  split; [intros; apply visit_marks|].
  split; [exact Hsurv|].
  split; [|split; [apply endStep_cellsArr|]].
  - intros d Hd.
    assert (Harr : d ∈ cellsArr s).
    { apply list_elem_of_fmap in Hd as [[d' j] [-> Hd]].
      eapply list_elem_of_lookup_2, Hdead, Hd. }
    split; [exact Harr|]. intros Hin. apply elem_of_app in Hin as [Hin|Hin].
    + apply Hsurv in Hin as [_ Hnot]. exact (Hnot Hd).
    + exact (Hoff d Hin Harr).
  - subst removed. unfold removeDead.
    destruct (removeOne_food E (reverse (deadCells p)) (cellsArr s) (passWorld p))
      as [Hc Hf].
    split; [exact Hc|].
    split; [rewrite Hf, sum_list_with_reverse; reflexivity|].
    intros Hg.
    exact (proj2 (removeOne_particles E (reverse (deadCells p)) (cellsArr s)
                    (passWorld p) Hg)).
Qed.

(** The draws of the sample world stay fair along the pass. *)
Lemma wake_pass_fair :
  fair (rng (passWorld
               (pass Scenario.inert Scenario.wake (Behaviour.mkEnv 0.5 0.3 0.1) []))).
Proof.
  intros n.
  assert (H : draws (rng (passWorld
                (pass Scenario.inert Scenario.wake (Behaviour.mkEnv 0.5 0.3 0.1) []))) n
              = 0.5) by (vm_compute; reflexivity).
  rewrite H. split; [discriminate|reflexivity].
Defined.

Lemma marked_cells_removed_with_food_witness :
  (rest_keeps_objects Scenario.inert /\ NoDup (cellsArr Scenario.wake) /\
   array_in_store Scenario.wake) /\
  (forall d,
    d ∈ (deadCells
           (pass Scenario.inert Scenario.wake (Behaviour.mkEnv 0.5 0.3 0.1) [])).*1 ->
    d ∉ survivors Scenario.inert Scenario.wake
          (pass Scenario.inert Scenario.wake (Behaviour.mkEnv 0.5 0.3 0.1) [])
        ++ newCells
             (pass Scenario.inert Scenario.wake (Behaviour.mkEnv 0.5 0.3 0.1) [])) /\
  exists groups,
    length groups
    = length (deadCells
                (pass Scenario.inert Scenario.wake (Behaviour.mkEnv 0.5 0.3 0.1) [])) /\
    FoodManager.food
      (foodManager
         (removeDead Scenario.inert
            (deadCells
               (pass Scenario.inert Scenario.wake (Behaviour.mkEnv 0.5 0.3 0.1) []))
            (cellsArr Scenario.wake)
            (passWorld
               (pass Scenario.inert Scenario.wake (Behaviour.mkEnv 0.5 0.3 0.1) []))).2)
    = FoodManager.food
        (foodManager
           (passWorld
              (pass Scenario.inert Scenario.wake (Behaviour.mkEnv 0.5 0.3 0.1) [])))
      ++ concat groups.
Proof.
  split; [exact wake_ready|].
  destruct wake_ready as (H1 & H2 & H3).
  pose proof (marked_cells_removed_with_food
                Scenario.inert Scenario.wake (Behaviour.mkEnv 0.5 0.3 0.1) []
                H1 H2 H3) as H.
  cbv zeta in H. destruct H as (_ & _ & Hgone & _ & _ & _ & Hnear).
  split; [intros d Hd; apply (Hgone d Hd)|].
  destruct (Hnear wake_pass_fair) as (groups & Hfood & Hgroups).
  exists groups. split; [|exact Hfood].
  apply Forall2_length in Hgroups. rewrite length_reverse in Hgroups.
  symmetry. exact Hgroups.
Defined.

(** C3 as stated fails.  Two overlapping cells, both alive, the first with
    half a health point.  In the first tick the first cell passes the death
    test of its own turn, then loses a point in the interaction it starts
    and another in the one the second cell starts: at the end of the tick
    its health is -1.5 and it is still in the cells list. *)
Lemma cell_killed_in_combat_stays_listed :
  dead_are_gone Scenario.duel /\
  (let s1 := updateSingleStep Scenario.inert Scenario.duel in
   cellsArr s1 = [1; 2]%nat /\
   exists o, cells (world s1) !! 1%nat = Some o /\
             Cell.health o == -1.5 /\
             ~ dead_are_gone s1).
Proof.
  split.
  - intros c o Hc Ho. cbn in Hc.
    apply elem_of_cons in Hc as [->|Hc];
      [|apply list_elem_of_singleton in Hc as ->];
      vm_compute in Ho; injection Ho as <-; vm_compute; split; reflexivity.
  - cbv zeta.
    assert (Harr : cellsArr (updateSingleStep Scenario.inert Scenario.duel)
                   = [1; 2]%nat) by (vm_compute; reflexivity).
    split; [exact Harr|].
    eexists. split; [vm_compute; reflexivity|].
    split; [reflexivity|].
    intros H.
    destruct (H 1%nat _ ltac:(rewrite Harr; left) ltac:(vm_compute; reflexivity))
      as [Hh _].
    revert Hh. vm_compute. discriminate.
Qed.

(** ** Colonies and bonds stay in order *)

Lemma is_Some_modify_cell c f w a :
  is_Some (cells (modify_cell c f w) !! a) <-> is_Some (cells w !! a).
Proof.
  rewrite <- !elem_of_dom, dom_modify_cell. reflexivity.
Qed.

(** A store of cells that belong to no colony and list no bond, without
    colonies, is coherent, and its bonds are symmetric. *)
Lemma unbonded_coherent (w : World) :
  colonies w = ∅ ->
  (forall c o, cells w !! c = Some o -> Cell.bonds o = []) ->
  colony_coherent w /\ bonds_symmetric w.
Proof.
  intros Hcol Hb. split; [split|].
  - intros k col H. rewrite Hcol in H. inversion H.
  - intros c o d Ho Hd. rewrite (Hb c o Ho) in Hd. inversion Hd.
  - intros a b ca cb Ha _ Hin. rewrite (Hb a ca Ha) in Hin. inversion Hin.
Qed.

(** Changing a cell without touching its colony or its bond list, and a
    colony without touching its members or the cells of its bonds, keeps
    the store coherent. *)
Lemma coherent_modify_cell c f w :
  (forall o, Cell.colony (f o) = Cell.colony o) ->
  (forall o, Cell.bonds (f o) = Cell.bonds o) ->
  colony_coherent w -> colony_coherent (modify_cell c f w).
Proof.
  intros Hfc Hfb [Hm Hb]. split.
  - intros k col Hk. rewrite colonies_modify_cell in Hk.
    destruct (Hm k col Hk) as [Hnd Hin]. split; [exact Hnd|].
    intros a Ha. destruct (Hin a Ha) as (o & Ho & Hc).
    exists (if decide (c = a) then f o else o).
    split; [apply lookup_modify_cell; eauto|].
    destruct (decide (c = a)); [rewrite Hfc|]; exact Hc.
  - intros a o' d Ho' Hd.
    apply lookup_modify_cell in Ho' as (o & Ho & ->).
    assert (Ec : Cell.colony (if decide (c = a) then f o else o) = Cell.colony o)
      by (destruct (decide (c = a)); [apply Hfc|reflexivity]).
    assert (Eb : Cell.bonds (if decide (c = a) then f o else o) = Cell.bonds o)
      by (destruct (decide (c = a)); [apply Hfb|reflexivity]).
    rewrite Eb in Hd. rewrite Ec.
    destruct (Hb a o d Ho Hd) as [Hex Hrec].
    split; [apply is_Some_modify_cell; exact Hex|exact Hrec].
Qed.

Lemma coherent_set_rng g w : colony_coherent w -> colony_coherent (set_rng g w).
Proof. intros H. exact H. Qed.
Lemma coherent_set_foodManager m w :
  colony_coherent w -> colony_coherent (set_foodManager m w).
Proof. intros H. exact H. Qed.

(** [createBond] records what it pushes. *)
Lemma createBond_coherent (k : colony_id) (c1 c2 : cell_id) (w : World) :
  colony_coherent w -> colony_coherent (snd (Colony.createBond k c1 c2 w)).
Proof.
  intros Hco.
  destruct (fst (Colony.createBond k c1 c2 w)) eqn:Hres;
    [|rewrite createBond_refused by exact Hres; exact Hco].
  pose proof (createBond_bonds k c1 c2 w Hres) as Hbonds.
  destruct Hco as [Hm Hb].
  revert Hres Hbonds. unfold Colony.createBond.
  destruct (colonies w !! k) as [col|] eqn:Hcol; [|discriminate].
  destruct (cells w !! c1) as [o1|] eqn:E1; [|discriminate].
  destruct (cells w !! c2) as [o2|] eqn:E2; [|discriminate].
  destruct (negb (Colony.includes (members col) c1)
            || negb (Colony.includes (members col) c2)) eqn:Hinc; [discriminate|].
  apply orb_false_iff in Hinc as [Hi1 Hi2].
  apply negb_false_iff, bool_decide_eq_true in Hi1, Hi2.
  destruct (_ || _); [discriminate|].
  destruct (bondMap col !! Colony.bondKey c1 c2) eqn:Hkey; [discriminate|].
  cbv zeta. cbn [fst snd]. intros _ Hbonds.
  set (w' := modify_cell c2 _ _) in *.
  assert (Hcolony : forall a o', cells w' !! a = Some o' ->
            exists o, cells w !! a = Some o /\ Cell.colony o' = Cell.colony o).
  { intros a o' H. unfold w' in H.
    apply lookup_modify_cell in H as (o4 & H & ->).
    apply lookup_modify_cell in H as (o3 & H & ->).
    apply lookup_modify_cell in H as (o2' & H & ->).
    apply lookup_modify_cell in H as (o & H & ->).
    rewrite cells_modify_colony in H. exists o. split; [exact H|].
    repeat case_match; reflexivity. }
  assert (Hdom : forall a, is_Some (cells w !! a) -> is_Some (cells w' !! a)).
  { intros a Ha. unfold w'. rewrite !is_Some_modify_cell, cells_modify_colony.
    exact Ha. }
  assert (Hcols : forall a, colonies w' !! a
            = if decide (k = a)
              then Some (Colony.set_bondMap
                           (<[Colony.bondKey c1 c2 := mkBond c1 c2 1 0]> (bondMap col)) col)
              else colonies w !! a).
  { intros a. unfold w'. rewrite !colonies_modify_cell, lookup_modify_colony.
    destruct (decide (k = a)) as [<-|]; [rewrite Hcol|]; reflexivity. }
  split.
  - intros a cola Ha. rewrite Hcols in Ha.
    assert (Hold : exists col0, colonies w !! a = Some col0
                                /\ members cola = members col0).
    { destruct (decide (k = a)) as [<-|].
      - injection Ha as <-. exists col. split; [exact Hcol|reflexivity].
      - exists cola. split; [exact Ha|reflexivity]. }
    destruct Hold as (col0 & Hcol0 & ->).
    destruct (Hm a col0 Hcol0) as [Hnd Hin]. split; [exact Hnd|].
    intros c Hc. destruct (Hin c Hc) as (o & Ho & Hk).
    destruct (Hdom c (mk_is_Some _ _ Ho)) as [o' Ho'].
    exists o'. split; [exact Ho'|].
    destruct (Hcolony c o' Ho') as (o0 & Ho0 & ->). congruence.
  - intros a o' d Ho' Hd.
    destruct (Hbonds a o' Ho') as (o & Ho & Eb).
    destruct (Hcolony a o' Ho') as (o0 & Ho0 & Ec).
    assert (o0 = o) by congruence. subst o0. rewrite Ec.
    rewrite Eb, !elem_of_app in Hd.
    destruct Hd as [Hd|[Hd|Hd]].
    + destruct (Hb a o d Ho Hd) as [Hex (k0 & col0 & key & b & Hk0 & Hc0 & Hkb & Hends)].
      split; [apply Hdom, Hex|].
      exists k0. destruct (decide (k = k0)) as [<-|Hne].
      * assert (col0 = col) by congruence. subst col0.
        eexists _, key, b. split; [exact Hk0|].
        split; [rewrite Hcols, decide_True by reflexivity; reflexivity|].
        split; [|exact Hends]. cbn.
        rewrite lookup_insert_ne; [exact Hkb|]. intros <-. congruence.
      * exists col0, key, b. split; [exact Hk0|].
        split; [rewrite Hcols, decide_False by exact Hne; exact Hc0|].
        split; [exact Hkb|exact Hends].
    + destruct (decide (c1 = a)) as [<-|]; [|inversion Hd].
      apply list_elem_of_singleton in Hd as ->.
      split; [apply Hdom; eauto|].
      destruct (Hm k col Hcol) as [_ Hin].
      destruct (Hin c1 Hi1) as (o1' & Ho1' & Hk1).
      assert (o1' = o) by congruence. subst o1'.
      eexists k, _, (Colony.bondKey c1 c2), (mkBond c1 c2 1 0).
      split; [exact Hk1|].
      split; [rewrite Hcols, decide_True by reflexivity; reflexivity|].
      split; [cbn; apply lookup_insert_eq|]. left. split; reflexivity.
    + destruct (decide (c2 = a)) as [<-|]; [|inversion Hd].
      apply list_elem_of_singleton in Hd as ->.
      split; [apply Hdom; eauto|].
      destruct (Hm k col Hcol) as [_ Hin].
      destruct (Hin c2 Hi2) as (o2' & Ho2' & Hk2).
      assert (o2' = o) by congruence. subst o2'.
      eexists k, _, (Colony.bondKey c1 c2), (mkBond c1 c2 1 0).
      split; [exact Hk2|].
      split; [rewrite Hcols, decide_True by reflexivity; reflexivity|].
      split; [cbn; apply lookup_insert_eq|]. right. split; reflexivity.
Qed.

(** The constructor, called on a cell of the store that has no colony. *)
Lemma new_coherent (c : cell_id) (o : Cell.t) (w : World) :
  cells w !! c = Some o -> Cell.colony o = None ->
  colony_coherent w -> colony_coherent (snd (Colony.new c w)).
Proof.
  intros Ho Hnone [Hm Hb]. unfold Colony.new, bind, draw.
  destruct (random (rng w)) as [r g]. cbn [snd fst].
  set (k := fresh (dom (colonies (set_rng g w)))).
  assert (Hfresh : colonies w !! k = None).
  { apply not_elem_of_dom. apply is_fresh. }
  set (f := fun c0 => Cell.set_isColonyFounder true (Cell.set_colony (Some k) c0)).
  assert (Hempty : forall d, d ∉ Cell.bonds o).
  { intros d Hd. destruct (Hb c o d Ho Hd) as [_ (k0 & _ & _ & _ & Hk0 & _)].
    congruence. }
  split.
  - intros a cola Ha. rewrite colonies_modify_cell in Ha. cbn in Ha.
    destruct (decide (k = a)) as [<-|Hne].
    + rewrite lookup_insert_eq in Ha. injection Ha as <-. cbn.
      split; [apply NoDup_singleton|].
      intros x Hx. apply list_elem_of_singleton in Hx as ->.
      exists (f o). split; [|reflexivity].
      rewrite lookup_modify_cell_eq. cbn. rewrite Ho. reflexivity.
    + rewrite lookup_insert_ne in Ha by exact Hne.
      destruct (Hm a cola Ha) as [Hnd Hin]. split; [exact Hnd|].
      intros x Hx. destruct (Hin x Hx) as (ox & Hox & Hk).
      assert (c ≠ x) by (intros <-; congruence).
      exists ox. split; [|exact Hk].
      rewrite lookup_modify_cell_ne by assumption. exact Hox.
  - intros a o' d Ho' Hd.
    apply lookup_modify_cell in Ho' as (o0 & Ho0 & ->). cbn in Ho0.
    destruct (decide (c = a)) as [<-|Hne].
    + assert (o0 = o) by congruence. subst o0. exfalso. exact (Hempty d Hd).
    + destruct (Hb a o0 d Ho0 Hd) as [Hex (k0 & col0 & key & b & Hk0 & Hc0 & Hkb & Hends)].
      split; [apply is_Some_modify_cell; exact Hex|].
      exists k0, col0, key, b. split; [exact Hk0|]. split; [|auto].
      rewrite colonies_modify_cell. cbn.
      rewrite lookup_insert_ne; [exact Hc0|]. intros <-. congruence.
Qed.

(** [addMember], called on a cell of the store that has no colony. *)
Lemma addMember_coherent (k : colony_id) (c : cell_id) (bondWith : option cell_id)
    (o : Cell.t) (w : World) :
  cells w !! c = Some o -> Cell.colony o = None ->
  colony_coherent w ->
  colony_coherent (snd (Colony.addMember k c bondWith w)).
Proof.
  intros Ho Hnone Hco. unfold Colony.addMember.
  destruct (colonies w !! k) as [col|] eqn:Hcol; [|exact Hco].
  destruct (Colony.includes (members col) c) eqn:Hinc; [exact Hco|].
  apply bool_decide_eq_false in Hinc.
  destruct (20 <=? length (members col))%nat; [exact Hco|].
  cbv zeta. cbn [snd].
  set (w2 := modify_cell c (Cell.set_colony (Some k))
               (modify_colony k (Colony.set_members (members col ++ [c])) w)).
  assert (H2 : colony_coherent w2).
  { destruct Hco as [Hm Hb].
    assert (Hempty : forall d, d ∉ Cell.bonds o).
    { intros d Hd. destruct (Hb c o d Ho Hd) as [_ (k0 & _ & _ & _ & Hk0 & _)].
      congruence. }
    assert (Hcols : forall a, colonies w2 !! a
              = if decide (k = a)
                then Some (Colony.set_members (members col ++ [c]) col)
                else colonies w !! a).
    { intros a. unfold w2. rewrite colonies_modify_cell, lookup_modify_colony.
      destruct (decide (k = a)) as [<-|]; [rewrite Hcol|]; reflexivity. }
    split.
    - intros a cola Ha. rewrite Hcols in Ha.
      destruct (decide (k = a)) as [<-|Hne].
      + injection Ha as <-. cbn. destruct (Hm k col Hcol) as [Hnd Hin].
        split.
        { apply NoDup_app. split; [exact Hnd|]. split; [|apply NoDup_singleton].
          intros x Hx Hx'. apply list_elem_of_singleton in Hx' as ->. contradiction. }
        intros x Hx. apply elem_of_app in Hx as [Hx|Hx].
        * destruct (Hin x Hx) as (ox & Hox & Hk).
          assert (c ≠ x) by (intros <-; contradiction).
          exists ox. split; [|exact Hk]. unfold w2.
          rewrite lookup_modify_cell_ne by assumption. exact Hox.
        * apply list_elem_of_singleton in Hx as ->.
          exists (Cell.set_colony (Some k) o). split; [|reflexivity].
          unfold w2. rewrite lookup_modify_cell_eq, cells_modify_colony, Ho.
          reflexivity.
      + destruct (Hm a cola Ha) as [Hnd Hin]. split; [exact Hnd|].
        intros x Hx. destruct (Hin x Hx) as (ox & Hox & Hk).
        assert (c ≠ x) by (intros <-; congruence).
        exists ox. split; [|exact Hk]. unfold w2.
        rewrite lookup_modify_cell_ne by assumption. exact Hox.
    - intros a o' d Ho' Hd. unfold w2 in Ho'.
      apply lookup_modify_cell in Ho' as (o0 & Ho0 & ->).
      rewrite cells_modify_colony in Ho0.
      destruct (decide (c = a)) as [<-|Hne].
      + assert (o0 = o) by congruence. subst o0. exfalso. exact (Hempty d Hd).
      + destruct (Hb a o0 d Ho0 Hd)
          as [Hex (k0 & col0 & key & b & Hk0 & Hc0 & Hkb & Hends)].
        split; [apply is_Some_modify_cell; exact Hex|].
        exists k0. destruct (decide (k = k0)) as [<-|Hnk].
        * assert (col0 = col) by congruence. subst col0.
          eexists _, key, b. split; [exact Hk0|].
          split; [rewrite Hcols, decide_True by reflexivity; reflexivity|].
          split; [exact Hkb|exact Hends].
        * exists col0, key, b. split; [exact Hk0|].
          split; [rewrite Hcols, decide_False by exact Hnk; exact Hc0|].
          split; [exact Hkb|exact Hends]. }
  destruct bondWith as [b|]; [|exact H2].
  destruct (Colony.includes (members col ++ [c]) b); [|exact H2].
  apply createBond_coherent, H2.
Qed.

(** [foundColony] tests both cells itself. *)
Lemma foundColony_coherent (this partner : cell_id) (w : World) :
  colony_coherent w -> colony_coherent (snd (Colony.foundColony this partner w)).
Proof.
  intros Hco. unfold Colony.foundColony.
  destruct (cells w !! this) as [o|] eqn:Ho; [|exact Hco].
  destruct (cells w !! partner) as [p|] eqn:Hp; [|exact Hco].
  destruct (Cell.colony o) eqn:Eo; [exact Hco|].
  destruct (Cell.colony p) eqn:Ep; [exact Hco|].
  pose proof (new_coherent this o w Ho Eo Hco) as H1.
  assert (Hpartner : this ≠ partner ->
            cells (snd (Colony.new this w)) !! partner = Some p).
  { intros Hne. unfold Colony.new, bind, draw.
    destruct (random (rng w)) as [r g]. cbn [snd fst].
    rewrite lookup_modify_cell_ne by exact Hne. exact Hp. }
  assert (Hself : forall k w1, Colony.new this w = (k, w1) ->
            exists col, colonies w1 !! k = Some col /\ members col = [this]).
  { unfold Colony.new, bind, draw.
    destruct (random (rng w)) as [r g]. cbn [snd fst].
    intros k w1 [= <- <-]. rewrite colonies_modify_cell. cbn.
    rewrite lookup_insert_eq. eauto. }
  destruct (Colony.new this w) as [k w1] eqn:Enew. cbn [snd] in H1, Hpartner.
  destruct (decide (this = partner)) as [<-|Hne].
  - destruct (Hself k w1 eq_refl) as (col & Hcol & Hmem).
    unfold Colony.addMember. rewrite Hcol, Hmem. unfold Colony.includes.
    rewrite bool_decide_eq_true_2 by (apply list_elem_of_singleton; reflexivity).
    exact H1.
  - pose proof (addMember_coherent k partner (Some this) p w1 (Hpartner Hne) Ep H1)
      as H2.
    destruct (Colony.addMember k partner (Some this) w1) as [r w2]. exact H2.
Qed.

(** Replacing a bond by one between the same two cells keeps the store
    coherent. *)
Lemma coherent_rebond (k : colony_id) (col : ColonyData) (key : string)
    (b b' : Bond) (w : World) :
  colonies w !! k = Some col -> bondMap col !! key = Some b ->
  cell1 b' = cell1 b -> cell2 b' = cell2 b ->
  colony_coherent w ->
  colony_coherent
    (modify_colony k (Colony.set_bondMap (<[key := b']> (bondMap col))) w).
Proof.
  intros Hcol Hkey H1 H2 [Hm Hb].
  set (w' := modify_colony k _ w).
  assert (Hcols : forall a, colonies w' !! a
            = if decide (k = a)
              then Some (Colony.set_bondMap (<[key := b']> (bondMap col)) col)
              else colonies w !! a).
  { intros a. unfold w'. rewrite lookup_modify_colony.
    destruct (decide (k = a)) as [<-|]; [rewrite Hcol|]; reflexivity. }
  split.
  - intros a cola Ha. rewrite Hcols in Ha.
    destruct (decide (k = a)) as [<-|].
    + injection Ha as <-. exact (Hm k col Hcol).
    + exact (Hm a cola Ha).
  - intros a o d Ho Hd. unfold w' in Ho. rewrite cells_modify_colony in Ho.
    destruct (Hb a o d Ho Hd) as [Hex (k0 & col0 & key0 & b0 & Hk0 & Hc0 & Hkb & Hends)].
    split; [exact Hex|].
    exists k0. destruct (decide (k = k0)) as [<-|Hne].
    + assert (col0 = col) by congruence. subst col0.
      destruct (decide (key = key0)) as [<-|Hnk].
      * assert (b0 = b) by congruence. subst b0.
        eexists _, key, b'. split; [exact Hk0|].
        split; [rewrite Hcols, decide_True by reflexivity; reflexivity|].
        split; [cbn; apply lookup_insert_eq|]. rewrite H1, H2. exact Hends.
      * eexists _, key0, b0. split; [exact Hk0|].
        split; [rewrite Hcols, decide_True by reflexivity; reflexivity|].
        split; [cbn; rewrite lookup_insert_ne by exact Hnk; exact Hkb|exact Hends].
    + exists col0, key0, b0. split; [exact Hk0|].
      split; [rewrite Hcols, decide_False by exact Hne; exact Hc0|].
      split; [exact Hkb|exact Hends].
Qed.

(** The bond pass of [updateColonyBehavior], for one bond: when the bond
    is deleted, each end is filtered out of the other's list. *)
Lemma manageBond_coherent (M : MathLib) (k : colony_id) (key : string)
    (w : World) :
  colony_coherent w -> colony_coherent (Colony.manageBond M k key w).
Proof.
  intros Hco. unfold Colony.manageBond.
  destruct (colonies w !! k) as [col|] eqn:Hcol; [|exact Hco].
  destruct (bondMap col !! key) as [b|] eqn:Hkey; [|exact Hco].
  cbv zeta.
  set (b1 := mkBond (cell1 b) (cell2 b) (strength b) (bondAge b + 1)).
  pose proof (coherent_rebond k col key b b1 w Hcol Hkey eq_refl eq_refl Hco) as H1.
  destruct (Colony.includes (members col) (cell1 b)
            && Colony.includes (members col) (cell2 b)); [|exact H1].
  destruct (cells w !! cell1 b) as [o1|] eqn:E1; [|exact H1].
  destruct (cells w !! cell2 b) as [o2|] eqn:E2; [|exact H1].
  match goal with |- context [Qle_bool ?s 0] => set (s' := s) end.
  destruct (Qle_bool s' 0).
  2:{ match goal with
      | |- context [<[key := ?b2]> (bondMap col)] =>
          pose proof (coherent_rebond k col key b b2 w Hcol Hkey eq_refl eq_refl Hco)
            as H2
      end.
      destruct H1 as [Hm1 Hb1], H2 as [Hm2 Hb2]. split.
      - intros a cola Ha. rewrite lookup_modify_colony in Ha.
        destruct (decide (k = a)) as [<-|].
        + rewrite lookup_modify_colony_eq, Hcol in Ha. cbn in Ha. injection Ha as <-.
          destruct Hco as [Hm _]. destruct (Hm k col Hcol) as [Hnd Hin].
          split; [exact Hnd|exact Hin].
        + rewrite lookup_modify_colony, decide_False in Ha by assumption.
          destruct Hco as [Hm _]. exact (Hm a cola Ha).
      - intros a o d Ho Hd. rewrite !cells_modify_colony in Ho.
        destruct (Hb2 a o d Ho Hd)
          as [Hex (k0 & col0 & key0 & b0 & Hk0 & Hc0 & Hkb & Hends)].
        split; [exact Hex|].
        exists k0. rewrite lookup_modify_colony in Hc0.
        rewrite !lookup_modify_colony.
        destruct (decide (k = k0)) as [<-|].
        + rewrite Hcol in Hc0 |- *. cbn in Hc0 |- *. injection Hc0 as <-.
          eexists _, key0, b0. split; [exact Hk0|]. split; [reflexivity|].
          split; [exact Hkb|exact Hends].
        + exists col0, key0, b0. auto. }
  (* the bond is deleted *)
  destruct Hco as [Hm Hb].
  set (w' := modify_cell (cell2 b) _ _).
  assert (Hcols : forall a, colonies w' !! a
            = if decide (k = a)
              then Some (Colony.set_bondMap (delete key (bondMap col)) col)
              else colonies w !! a).
  { intros a. unfold w'. rewrite !colonies_modify_cell, !lookup_modify_colony.
    destruct (decide (k = a)) as [<-|]; [rewrite Hcol|]; reflexivity. }
  assert (Hcell : forall a o', cells w' !! a = Some o' ->
            exists o, cells w !! a = Some o /\ Cell.colony o' = Cell.colony o /\
              forall d, d ∈ Cell.bonds o' ->
                d ∈ Cell.bonds o /\
                (a = cell1 b -> d ≠ cell2 b) /\ (a = cell2 b -> d ≠ cell1 b)).
  { intros a o' H. unfold w' in H.
    apply lookup_modify_cell in H as (o4 & H & ->).
    apply lookup_modify_cell in H as (o3 & H & ->).
    apply lookup_modify_cell in H as (o2' & H & ->).
    apply lookup_modify_cell in H as (o & H & ->).
    rewrite !cells_modify_colony in H. exists o. split; [exact H|].
    destruct (decide (cell1 b = a)) as [Ea1|Na1],
             (decide (cell2 b = a)) as [Ea2|Na2];
      (split; [reflexivity|]); intros d; cbn; rewrite ?list_elem_of_filter;
      intuition congruence. }
  split.
  - intros a cola Ha. rewrite Hcols in Ha.
    assert (Hold : exists col0, colonies w !! a = Some col0
                                /\ members cola = members col0).
    { destruct (decide (k = a)) as [<-|].
      - injection Ha as <-. exists col. split; [exact Hcol|reflexivity].
      - exists cola. split; [exact Ha|reflexivity]. }
    destruct Hold as (col0 & Hcol0 & ->).
    destruct (Hm a col0 Hcol0) as [Hnd Hin]. split; [exact Hnd|].
    intros c Hc. destruct (Hin c Hc) as (o & Ho & Hk).
    assert (Hex : is_Some (cells w' !! c)).
    { unfold w'. rewrite !is_Some_modify_cell, !cells_modify_colony. eauto. }
    destruct Hex as [o' Ho']. exists o'. split; [exact Ho'|].
    destruct (Hcell c o' Ho') as (o0 & Ho0 & -> & _). congruence.
  - intros a o' d Ho' Hd.
    destruct (Hcell a o' Ho') as (o & Ho & Ec & Eb).
    destruct (Eb d Hd) as (Hd0 & Hf1 & Hf2). clear Hd. rename Hd0 into Hd.
    destruct (Hb a o d Ho Hd)
      as [Hex (k0 & col0 & key0 & b0 & Hk0 & Hc0 & Hkb & Hends)].
    split.
    { unfold w'. rewrite !is_Some_modify_cell, !cells_modify_colony. exact Hex. }
    rewrite Ec. exists k0. destruct (decide (k = k0)) as [<-|Hne].
    + assert (col0 = col) by congruence. subst col0.
      destruct (decide (key = key0)) as [<-|Hnk].
      * assert (b0 = b) by congruence. subst b0. exfalso.
        destruct Hends as [[Ha Hd']|[Hd' Ha]].
        -- apply (Hf1 (eq_sym Ha)). symmetry. exact Hd'.
        -- apply (Hf2 (eq_sym Ha)). symmetry. exact Hd'.
      * eexists _, key0, b0. split; [exact Hk0|].
        split; [rewrite Hcols, decide_True by reflexivity; reflexivity|].
        split; [cbn; rewrite lookup_delete_ne by exact Hnk; exact Hkb|exact Hends].
    + exists col0, key0, b0. split; [exact Hk0|].
      split; [rewrite Hcols, decide_False by exact Hne; exact Hc0|].
      split; [exact Hkb|exact Hends].
Qed.

Lemma manageBonds_coherent (M : MathLib) (k : colony_id) (w : World) :
  colony_coherent w -> colony_coherent (Colony.manageBonds M k w).
Proof.
  intros H. unfold Colony.manageBonds.
  destruct (colonies w !! k) as [col|]; [|exact H].
  generalize (map fst (map_to_list (bondMap col))). intros keys.
  revert w H. induction keys as [|key keys IH]; intros w H; [exact H|].
  simpl. apply IH. apply manageBond_coherent. exact H.
Qed.

Lemma remove_first_subset (c x : cell_id) (l : list cell_id) :
  x ∈ Colony.remove_first c l -> x ∈ l.
Proof.
  induction l as [|a l IH]; cbn; [auto|].
  destruct (decide (a = c)); intros H.
  - now right.
  - apply elem_of_cons in H as [->|H]; [now left|right; auto].
Qed.

Lemma remove_first_NoDup (c : cell_id) (l : list cell_id) :
  NoDup l -> NoDup (Colony.remove_first c l) /\ c ∉ Colony.remove_first c l.
Proof.
  induction l as [|a l IH]; cbn; intros Hnd.
  - split; [constructor|apply not_elem_of_nil].
  - apply NoDup_cons in Hnd as [Ha Hnd]. destruct (decide (a = c)) as [->|Hne].
    + split; assumption.
    + destruct (IH Hnd) as [IH1 IH2]. split.
      * apply NoDup_cons. split; [|exact IH1].
        intros H. apply Ha. eapply remove_first_subset, H.
      * apply not_elem_of_cons. split; [congruence|exact IH2].
Qed.

(** In a coherent store a member of a colony without bonds lists no
    bond. *)
Lemma member_without_bonds (k : colony_id) (col : ColonyData) (c : cell_id)
    (o : Cell.t) (w : World) :
  colony_coherent w ->
  colonies w !! k = Some col -> c ∈ members col -> bondMap col = ∅ ->
  cells w !! c = Some o -> Cell.bonds o = [].
Proof.
  intros [Hm Hb] Hcol Hin Hempty Ho.
  destruct (Cell.bonds o) as [|d l] eqn:E; [reflexivity|].
  exfalso.
  destruct (Hb c o d Ho) as [_ (k0 & col0 & key & b & Hk0 & Hc0 & Hkb & _)].
  { rewrite E. now left. }
  destruct (Hm k col Hcol) as [_ Hmem].
  destruct (Hmem c Hin) as (o' & Ho' & Hk).
  assert (k0 = k) by congruence. subst k0.
  assert (col0 = col) by congruence. subst col0.
  rewrite Hempty in Hkb. inversion Hkb.
Qed.

(** [removeMember] on a coherent store: either it throws before it has
    touched a bond list, or the list it clears is empty already. *)
Lemma removeMember_symmetric (k : colony_id) (c : cell_id) (w : World) :
  colony_coherent w -> bonds_symmetric w ->
  bonds_symmetric (snd (Colony.removeMember k c w)).
Proof.
  intros Hco Hsym.
  destruct (fst (Colony.removeMember k c w)) as [r|] eqn:Hres;
    [|apply removeMember_throw_cells; assumption].
  revert Hres. unfold Colony.removeMember.
  destruct (colonies w !! k) as [col|] eqn:Hcol; [|intros _; exact Hsym].
  destruct (Colony.includes (members col) c) eqn:Hinc; [|intros _; exact Hsym].
  apply bool_decide_eq_true in Hinc. cbv zeta.
  destruct (decide (bondMap col = ∅)) as [Hempty|]; [|discriminate].
  intros _. cbn [snd].
  intros a b ca cb Ha Hb Hin.
  assert (Hsame : forall x ox', 
            cells (modify_cell c (Cell.set_bonds [])
                     (modify_cell c (Cell.set_colony None)
                        (modify_colony k
                           (Colony.set_members (Colony.remove_first c (members col)))
                           w))) !! x = Some ox' ->
            exists ox, cells w !! x = Some ox /\ Cell.bonds ox' = Cell.bonds ox).
  { intros x ox' H.
    apply lookup_modify_cell in H as (o2 & H & ->).
    apply lookup_modify_cell in H as (o1 & H & ->).
    rewrite cells_modify_colony in H. exists o1. split; [exact H|].
    destruct (decide (c = x)) as [<-|]; [|reflexivity].
    cbn. symmetry.
    exact (member_without_bonds k col c o1 w Hco Hcol Hinc Hempty H). }
  destruct (Hsame a ca Ha) as (oa & Hoa & Ea).
  destruct (Hsame b cb Hb) as (ob & Hob & Eb).
  rewrite Ea in Hin. rewrite Eb. exact (Hsym a b oa ob Hoa Hob Hin).
Qed.

(** When [removeMember] returns, the store is coherent again. *)
Lemma removeMember_coherent (k : colony_id) (c : cell_id) (w : World) :
  colony_coherent w ->
  fst (Colony.removeMember k c w) <> TypeError ->
  colony_coherent (snd (Colony.removeMember k c w)).
Proof.
  intros Hco. unfold Colony.removeMember.
  destruct (colonies w !! k) as [col|] eqn:Hcol; [|intros _; exact Hco].
  destruct (Colony.includes (members col) c) eqn:Hinc; [|intros _; exact Hco].
  apply bool_decide_eq_true in Hinc. cbv zeta.
  destruct (decide (bondMap col = ∅)) as [Hempty|]; [|intros H; contradiction].
  intros _. cbn [snd].
  set (w' := modify_cell c (Cell.set_bonds []) _).
  pose proof Hco as [Hm Hb].
  destruct (Hm k col Hcol) as [Hnd Hmem].
  destruct (Hmem c Hinc) as (oc & Hoc & Hkc).
  pose proof (member_without_bonds k col c oc w Hco Hcol Hinc Hempty Hoc) as Hnone.
  assert (Hcols : forall a, colonies w' !! a
            = if decide (k = a)
              then Some (Colony.set_members (Colony.remove_first c (members col)) col)
              else colonies w !! a).
  { intros a. unfold w'. rewrite !colonies_modify_cell, lookup_modify_colony.
    destruct (decide (k = a)) as [<-|]; [rewrite Hcol|]; reflexivity. }
  assert (Hcell : forall x ox', cells w' !! x = Some ox' ->
            exists ox, cells w !! x = Some ox /\ Cell.bonds ox' = Cell.bonds ox /\
              (x ≠ c -> ox' = ox)).
  { intros x ox' H. unfold w' in H.
    apply lookup_modify_cell in H as (o2 & H & ->).
    apply lookup_modify_cell in H as (o1 & H & ->).
    rewrite cells_modify_colony in H. exists o1. split; [exact H|].
    destruct (decide (c = x)) as [<-|Hne].
    - split; [|intros Hx; contradiction]. cbn.
      assert (o1 = oc) by congruence. subst o1. symmetry. exact Hnone.
    - split; [reflexivity|]. intros _. reflexivity. }
  assert (Hkeep : forall x ox, x ≠ c -> cells w !! x = Some ox ->
            cells w' !! x = Some ox).
  { intros x ox Hne H. unfold w'.
    rewrite !lookup_modify_cell_ne by congruence.
    rewrite cells_modify_colony. exact H. }
  split.
  - intros a cola Ha. rewrite Hcols in Ha.
    destruct (decide (k = a)) as [<-|Hne].
    + injection Ha as <-. cbn.
      destruct (remove_first_NoDup c (members col) Hnd) as [Hnd' Hout].
      split; [exact Hnd'|].
      intros x Hx. assert (x ≠ c) by (intros ->; contradiction).
      apply remove_first_subset in Hx.
      destruct (Hmem x Hx) as (ox & Hox & Hk). exists ox.
      split; [apply Hkeep; assumption|exact Hk].
    + destruct (Hm a cola Ha) as [Hnd' Hmem']. split; [exact Hnd'|].
      intros x Hx. destruct (Hmem' x Hx) as (ox & Hox & Hk).
      assert (x ≠ c) by (intros ->; congruence).
      exists ox. split; [apply Hkeep; assumption|exact Hk].
  - intros a o' d Ho' Hd.
    destruct (Hcell a o' Ho') as (o & Ho & Eb & Hsame).
    rewrite Eb in Hd.
    assert (Hac : a ≠ c).
    { intros ->. assert (o = oc) by congruence. subst o.
      rewrite Hnone in Hd. inversion Hd. }
    rewrite (Hsame Hac).
    destruct (Hb a o d Ho Hd)
      as [Hex (k0 & col0 & key0 & b0 & Hk0 & Hc0 & Hkb & Hends)].
    split.
    { unfold w'. rewrite !is_Some_modify_cell, cells_modify_colony. exact Hex. }
    exists k0. destruct (decide (k = k0)) as [<-|Hne].
    + assert (col0 = col) by congruence. subst col0.
      rewrite Hempty in Hkb. inversion Hkb.
    + exists col0, key0, b0. split; [exact Hk0|].
      split; [rewrite Hcols, decide_False by exact Hne; exact Hc0|].
      split; [exact Hkb|exact Hends].
Qed.

(** ** Colony formation keeps the bonds in order *)

(** A store is in order when it is coherent and its bonds are
    symmetric. *)
Lemma in_order_draw (w : World) :
  colony_coherent w /\ bonds_symmetric w ->
  colony_coherent (snd (draw w)) /\ bonds_symmetric (snd (draw w)).
Proof. unfold draw. destruct (random (rng w)). intros H. exact H. Qed.

Lemma draw_colonies (w : World) : colonies (snd (draw w)) = colonies w.
Proof. unfold draw. destruct (random (rng w)). reflexivity. Qed.

Lemma nearbyCells_frame (M : MathLib) (this : cell_id) (l : list cell_id) :
  forall w,
    cells (snd (Behaviour.nearbyCells M this l w)) = cells w /\
    colonies (snd (Behaviour.nearbyCells M this l w)) = colonies w.
Proof.
  induction l as [|c l IH]; intros w; cbn [Behaviour.nearbyCells];
    [split; reflexivity|].
  repeat case_match; simplify_eq; cbn [snd]; try apply IH;
    repeat match goal with
           | E : Behaviour.nearbyCells M this l ?w0 = _ |- _ =>
               let A := fresh in let B := fresh in
               destruct (IH w0) as [A B]; rewrite E in A, B; cbn [snd] in A, B;
               clear E
           | E : draw ?w0 = _ |- _ =>
               let A := fresh in let B := fresh in
               pose proof (cells_draw w0) as A; pose proof (draw_colonies w0) as B;
               rewrite E in A, B; cbn [snd] in A, B; clear E
           end;
    split; congruence.
Qed.

Lemma find_withoutColony (w : World) (l : list cell_id) (c : cell_id) :
  List.find (Behaviour.withoutColony w) l = Some c ->
  exists o, cells w !! c = Some o /\ Cell.colony o = None.
Proof.
  intros H. apply find_some in H as [_ H]. unfold Behaviour.withoutColony in H.
  destruct (cells w !! c) as [o|]; [|discriminate].
  apply bool_decide_eq_true in H. eauto.
Qed.

(** [updateColonyBehavior] keeps a coherent store coherent and its bonds
    symmetric: the cell it invites has no colony, and the bond pass
    filters both ends. *)
Lemma updateColonyBehavior_in_order (M : MathLib) (l : list cell_id)
    (this : cell_id) (w : World) :
  colony_coherent w /\ bonds_symmetric w ->
  colony_coherent (snd (Behaviour.updateColonyBehavior M l this w)) /\
  bonds_symmetric (snd (Behaviour.updateColonyBehavior M l this w)).
Proof.
  intros H. unfold Behaviour.updateColonyBehavior, bind, ret.
  assert (H1 : colony_coherent (snd (Behaviour.settled this w)) /\
               bonds_symmetric (snd (Behaviour.settled this w))).
  { unfold Behaviour.settled. repeat case_match; simplify_eq; cbn; try exact H.
    match goal with E : draw w = _ |- _ =>
      pose proof (in_order_draw w H) as Hd; rewrite E in Hd; exact Hd end. }
  destruct (Behaviour.settled this w) as [stop w1]. cbn [snd] in H1.
  destruct stop; [exact H1|].
  assert (H2 : colony_coherent (snd (Behaviour.nearbyCells M this l w1)) /\
               bonds_symmetric (snd (Behaviour.nearbyCells M this l w1))).
  { destruct (nearbyCells_frame M this l w1) as [Hc Hk].
    destruct H1 as [[Hm Hb] Hs]. split; [split|].
    - intros k col Hcol. rewrite Hk in Hcol. destruct (Hm k col Hcol) as [? Hin].
      split; [assumption|]. rewrite Hc. exact Hin.
    - intros c o d. rewrite Hc. intros Ho Hd.
      destruct (Hb c o d Ho Hd) as [? Hrec]. split; [assumption|].
      rewrite Hk. exact Hrec.
    - intros a b ca cb. rewrite Hc. apply Hs. }
  destruct (Behaviour.nearbyCells M this l w1) as [nearby w2]. cbn [snd] in H2.
  destruct nearby as [|n nearby]; [exact H2|].
  assert (H3 : colony_coherent (snd (Behaviour.considerFounding this (n :: nearby) w2)) /\
               bonds_symmetric (snd (Behaviour.considerFounding this (n :: nearby) w2))).
  { unfold Behaviour.considerFounding.
    destruct (cells w2 !! this); [|exact H2].
    destruct (_ && _); [|exact H2].
    destruct (List.find _ _); [|exact H2].
    pose proof (in_order_draw w2 H2) as Hd.
    destruct (draw w2) as [r w3]. cbn [snd] in Hd.
    destruct (Qlt_bool r _); [|exact Hd]. cbn [snd].
    destruct Hd. split; [apply foundColony_coherent|apply foundColony_symmetric];
      assumption. }
  destruct (Behaviour.considerFounding this (n :: nearby) w2) as [u w3].
  cbn [snd] in H3.
  assert (H4 : colony_coherent (snd (Behaviour.considerInviting this (n :: nearby) w3)) /\
               bonds_symmetric (snd (Behaviour.considerInviting this (n :: nearby) w3))).
  { unfold Behaviour.considerInviting.
    destruct (cells w3 !! this) as [o|]; [|exact H3].
    destruct (Cell.colony o) as [k|]; [|exact H3].
    destruct (colonies w3 !! k); [|exact H3].
    destruct (_ && _); [|exact H3].
    destruct (List.find _ _) as [candidate|] eqn:Efind; [|exact H3].
    apply find_withoutColony in Efind as (oc & Hoc & Hnone).
    pose proof (in_order_draw w3 H3) as Hd.
    pose proof (cells_draw w3) as Hcd.
    destruct (draw w3) as [r w4]. cbn [snd] in Hd, Hcd.
    destruct (Qlt_bool r 0.04); [|exact Hd]. cbn [snd].
    rewrite <- Hcd in Hoc. destruct Hd.
    split; [eapply addMember_coherent; eassumption
           |apply addMember_symmetric; assumption]. }
  destruct (Behaviour.considerInviting this (n :: nearby) w3) as [u' w4].
  cbn [snd] in H4.
  destruct (cells w4 !! this) as [o|]; [|exact H4].
  destruct (Cell.colony o) as [k|]; [|exact H4]. cbn [snd].
  destruct H4. split; [apply manageBonds_coherent|apply manageBonds_symmetric];
    assumption.
Qed.

(** *** Colonies and bonds through a tick *)

Lemma kin_cell (w w' : World) (c : cell_id) (o' : Cell.t) :
  kin w' = kin w -> cells w' !! c = Some o' ->
  exists o, cells w !! c = Some o /\
            Cell.colony o = Cell.colony o' /\ Cell.bonds o = Cell.bonds o'.
Proof.
  intros Hk Ho'. apply (f_equal fst) in Hk. cbn in Hk.
  apply (f_equal (fun m => m !! c)) in Hk. unfold view in Hk.
  rewrite !lookup_fmap, Ho' in Hk. cbn in Hk.
  destruct (cells w !! c) as [o|]; [|discriminate]. cbn in Hk.
  exists o. unfold kinship in Hk. split; [reflexivity|].
  split; congruence.
Qed.

Lemma kin_colony (w w' : World) (k : colony_id) (col' : ColonyData) :
  kin w' = kin w -> colonies w' !! k = Some col' ->
  exists col, colonies w !! k = Some col /\ members col = members col' /\
    forall key b', bondMap col' !! key = Some b' ->
      exists b, bondMap col !! key = Some b /\
                cell1 b = cell1 b' /\ cell2 b = cell2 b'.
Proof.
  intros Hk Hc. apply (f_equal snd) in Hk. cbn in Hk.
  apply (f_equal (fun m => m !! k)) in Hk.
  rewrite !lookup_fmap, Hc in Hk. cbn in Hk.
  destruct (colonies w !! k) as [col|]; [|discriminate]. cbn in Hk.
  exists col. unfold colonyShape in Hk. split; [reflexivity|].
  split; [congruence|].
  intros key b' Hb'.
  assert (Hm : (fun b => (cell1 b, cell2 b)) <$> bondMap col'
               = (fun b => (cell1 b, cell2 b)) <$> bondMap col) by congruence.
  apply (f_equal (fun m => m !! key)) in Hm.
  rewrite !lookup_fmap, Hb' in Hm. cbn in Hm.
  destruct (bondMap col !! key) as [b|]; [|discriminate]. cbn in Hm.
  exists b. split; [reflexivity|]. split; congruence.
Qed.

(** Being in order is read off the members, the bonded pairs, and each
    cell's colony and bond list. *)
Lemma in_order_kin (w w' : World) :
  kin w' = kin w -> bonds_in_order w -> bonds_in_order w'.
Proof.
  intros Hk [[Hm Hb] Hs]. pose proof (eq_sym Hk) as Hk'.
  split; [split|].
  - intros k col' Hc'.
    destruct (kin_colony _ _ _ _ Hk Hc') as (col & Hc & Hmem & _).
    destruct (Hm k col Hc) as [Hnd Hin]. rewrite <- Hmem.
    split; [exact Hnd|]. intros c Hc0.
    destruct (Hin c Hc0) as (o & Ho & Hcol).
    destruct (kin_cell _ _ _ _ Hk' Ho) as (o' & Ho' & Ec & _).
    exists o'. split; [exact Ho'|congruence].
  - intros c o' d Ho' Hd.
    destruct (kin_cell _ _ _ _ Hk Ho') as (o & Ho & Ec & Eb).
    rewrite <- Eb in Hd.
    destruct (Hb c o d Ho Hd) as [[od Hod] (k & col & key & b & Hk0 & Hc & Hkey & Hends)].
    split.
    + destruct (kin_cell _ _ _ _ Hk' Hod) as (od' & Hod' & _). eauto.
    + destruct (kin_colony _ _ _ _ Hk' Hc) as (col' & Hc' & _ & Hbm).
      destruct (Hbm key b Hkey) as (b' & Hb' & E1 & E2).
      exists k, col', key, b'. rewrite <- Ec, E1, E2. auto.
  - intros a b ca' cb' Ha' Hb' Hin.
    destruct (kin_cell _ _ _ _ Hk Ha') as (ca & Ha & _ & Eb1).
    destruct (kin_cell _ _ _ _ Hk Hb') as (cb & Hb0 & _ & Eb2).
    rewrite <- Eb2. apply (Hs a b ca cb Ha Hb0). rewrite Eb1. exact Hin.
Qed.

(** A new cell of no colony and without bonds enters a store in order. *)
Lemma allocate_in_order (o : Cell.t) (w : World) :
  kinship o = (None, []) ->
  bonds_in_order w -> bonds_in_order (snd (Simulation.allocate o w)).
Proof.
  intros Ho [[Hm Hb] Hs]. unfold Simulation.allocate. cbn [snd].
  set (k := fresh (dom (cells w))).
  assert (Hk : cells w !! k = None)
    by (apply not_elem_of_dom; apply is_fresh).
  assert (Hbo : Cell.bonds o = []) by (unfold kinship in Ho; congruence).
  assert (Hold : forall c x, cells w !! c = Some x ->
            <[k := o]> (cells w) !! c = Some x).
  { intros c x Hc. rewrite lookup_insert_ne; [exact Hc|]. congruence. }
  assert (Hnew : forall c x, <[k := o]> (cells w) !! c = Some x ->
            (c = k /\ x = o) \/ (c <> k /\ cells w !! c = Some x)).
  { intros c x Hc. destruct (decide (k = c)) as [->|Hne].
    - rewrite lookup_insert_eq in Hc. left. split; congruence.
    - rewrite lookup_insert_ne in Hc by exact Hne. right. split; congruence. }
  split; [split|]; cbn.
  - intros k0 col Hc. destruct (Hm k0 col Hc) as [Hnd Hin].
    split; [exact Hnd|]. intros c Hc0.
    destruct (Hin c Hc0) as (x & Hx & Hcol). eauto.
  - intros c x d Hx Hd.
    destruct (Hnew c x Hx) as [[-> ->]|[Hne Hx0]];
      [rewrite Hbo in Hd; inversion Hd|].
    destruct (Hb c x d Hx0 Hd) as [[od Hod] Hrec].
    split; [eauto|exact Hrec].
  - intros a b ca cb Ha Hb0 Hin.
    destruct (Hnew a ca Ha) as [[-> ->]|[Hna Ha0]];
      [rewrite Hbo in Hin; inversion Hin|].
    destruct (Hnew b cb Hb0) as [[-> ->]|[Hnb Hb1]].
    + destruct (Hb a ca k Ha0 Hin) as [[x Hx] _]. congruence.
    + exact (Hs a b ca cb Ha0 Hb1 Hin).
Qed.

Lemma construct_in_in_order (E : Simulation.Externals) x y g traits (w : World) :
  keeps_bonds E -> bonds_in_order w ->
  bonds_in_order (snd (Simulation.construct_in E x y g traits w)).
Proof.
  intros HE Hw. unfold Simulation.construct_in.
  pose proof (kb_construct E HE x y g traits (rng w)) as Hc.
  destruct (Simulation.construct E x y g traits (rng w)) as [o r].
  apply allocate_in_order; [exact Hc|exact Hw].
Qed.

Lemma kinship_updateLifecycle o :
  kinship (Behaviour.updateLifecycle o) = kinship o.
Proof. unfold Behaviour.updateLifecycle. repeat case_match; reflexivity. Qed.

Lemma update_in_order (E : Simulation.Externals) l env c (w : World) :
  keeps_bonds E -> bonds_in_order w ->
  bonds_in_order
    (snd (Behaviour.update (Simulation.math E) (Simulation.rest E) l env c w)).
Proof.
  intros HE Hw. unfold Behaviour.update, bind.
  repeat match goal with
         | |- context [match ?e with pair _ _ => _ end] =>
             let a := fresh "a" in
             let w' := fresh "w" in
             let H := fresh "H" in
             destruct e as [a w'] eqn:H;
             apply (f_equal (fun p => kin (snd p))) in H;
             cbv beta in H; cbn [snd] in H;
             autorewrite with frames in H
         end.
  match goal with
  | |- bonds_in_order (snd ((if ?dead then _ else _) ?w')) =>
      assert (Hk : kin w' = kin w) by congruence;
      pose proof (in_order_kin _ _ Hk Hw) as Hin;
      destruct dead; cbn [snd ret]; [exact Hin|];
      apply (kb_rest E HE); exact Hin
  end.
Qed.

Lemma kin_feed E c food w : kin (Simulation.feed E c food w) = kin w.
Proof. unfold Simulation.feed. frames. Qed.

Lemma kin_fight E c others w log :
  kin (fst (Simulation.fight E c others w log)) = kin w.
Proof.
  unfold Simulation.fight. revert w log.
  induction others as [|b others IH]; intros w log; [reflexivity|].
  cbn [foldl].
  destruct (cells w !! c), (cells w !! b); try apply IH.
  destruct (_ && _); [|apply IH].
  rewrite IH. apply kin_handleCellInteraction.
Qed.

Lemma reproduce_in_order E c rate w :
  keeps_bonds E -> bonds_in_order w ->
  bonds_in_order (snd (Simulation.reproduce E c rate w)).
Proof.
  intros HE Hw. unfold Simulation.reproduce.
  destruct (cells w !! c) as [o|]; [|exact Hw].
  destruct (negb (Cell.reproduced o)); [exact Hw|].
  cbv zeta.
  destruct (draw _) as [r w1] eqn:Hd.
  apply (f_equal (fun p => kin (snd p))) in Hd. cbn [snd] in Hd.
  rewrite kin_draw, kin_modify_cell in Hd by reflexivity.
  destruct (Mutation.mutate o rate (rng w1)) as [tr g].
  destruct (Simulation.construct_in E _ _ _ _ _) as [k w2] eqn:Hc.
  cbn [snd].
  change w2 with (snd (k, w2)). rewrite <- Hc.
  apply construct_in_in_order; [exact HE|].
  apply (in_order_kin w1); [reflexivity|].
  apply (in_order_kin w); [symmetry; exact Hd|exact Hw].
Qed.

Lemma visit_in_order E s env food acc index c :
  keeps_bonds E -> bonds_in_order (Simulation.passWorld acc) ->
  bonds_in_order (Simulation.passWorld (Simulation.visit E s env food acc index c)).
Proof.
  intros HE Hw. unfold Simulation.visit.
  pose proof (update_in_order E (Simulation.cellsArr s) env c _ HE Hw) as Hu.
  destruct (Behaviour.update _ _ _ _ _ _) as [alive w1]. cbn [snd] in Hu.
  destruct (Simulation.foundDead alive w1 c); [exact Hu|].
  cbv zeta.
  pose proof (kin_fight E c (Simulation.cellsArr s) (Simulation.feed E c food w1)
                (Simulation.interactions acc)) as Hf.
  rewrite kin_feed in Hf.
  destruct (Simulation.fight _ _ _ _ _) as [w2 log]. cbn [fst] in Hf.
  pose proof (in_order_kin _ _ Hf Hu) as H2.
  destruct (match cells w2 !! c with Some o => Cell.reproduced o | None => false end);
    [|exact H2].
  pose proof (reproduce_in_order E c
                (Simulation.mutationRate (Simulation.settings s)) w2 HE H2) as Hr.
  destruct (Simulation.reproduce _ _ _ _) as [off w3]. cbn [snd] in Hr.
  destruct off; [|exact Hr].
  destruct (Qlt_bool _ _); exact Hr.
Qed.

Lemma pass_from_in_order E s env food index remaining acc :
  keeps_bonds E -> bonds_in_order (Simulation.passWorld acc) ->
  bonds_in_order
    (Simulation.passWorld (Simulation.pass_from E s env food index remaining acc)).
Proof.
  intros HE. revert index acc.
  induction remaining as [|c more IH]; intros index acc Hw; [exact Hw|].
  cbn [Simulation.pass_from]. apply IH. apply visit_in_order; assumption.
Qed.

Lemma kin_removeDead E dead arr w :
  kin (snd (Simulation.removeDead E dead arr w)) = kin w.
Proof.
  unfold Simulation.removeDead. generalize (reverse dead). intros l.
  revert arr w. induction l as [|[c i] l IH]; intros arr w; [reflexivity|].
  cbn [foldl Simulation.removeOne].
  rewrite IH. destruct (cells w !! c); [|reflexivity].
  destruct (FoodManager.spawnFromDeath _ _ _ _ _ _). reflexivity.
Qed.

Lemma kin_walkColonies turns index arr w :
  kin (snd (Simulation.walkColonies turns index arr w)) = kin w.
Proof.
  revert index arr w. induction turns as [|n IH]; intros index arr w;
    [reflexivity|].
  cbn [Simulation.walkColonies].
  destruct (arr !! index); [|reflexivity].
  destruct (colonies w !! c) as [col|]; [|apply IH].
  destruct (members col) as [|? [|? ?]]; try apply IH.
  rewrite IH. apply kin_shareResources.
Qed.

Lemma for_loop_keeps {G S} (Inv : G -> Prop) (body : nat -> S -> State G S) n :
  (forall i s g, Inv g -> Inv (snd (body i s g))) ->
  forall i s g, Inv g -> Inv (snd (for_loop n i body s g)).
Proof.
  intros Hbody. induction n as [|n IH]; intros i s g Hg; cbn; [exact Hg|].
  unfold bind. pose proof (Hbody i s g Hg) as H1.
  destruct (body i s g) as [s' g']. apply IH. exact H1.
Qed.

Lemma spawnInitialCells_in_order E s :
  keeps_bonds E -> bonds_in_order (Simulation.world s) ->
  bonds_in_order (Simulation.world (Simulation.spawnInitialCells E s)).
Proof.
  intros HE Hw. unfold Simulation.spawnInitialCells.
  match goal with
  | |- context [for_loop ?n ?i ?body ?a ?w] =>
      pose proof (for_loop_keeps bonds_in_order body n) as Hloop;
      specialize (fun H => Hloop H i a w Hw);
      destruct (for_loop n i body a w) as [arr w'] eqn:Hfor
  end.
  cbn [snd] in Hloop. cbn. apply Hloop.
  intros i a w0 H0.
  destruct (draw w0) as [rx w1] eqn:E1.
  apply (f_equal (fun p => kin (snd p))) in E1. cbn [snd] in E1.
  rewrite kin_draw in E1.
  destruct (draw w1) as [ry w2] eqn:E2.
  apply (f_equal (fun p => kin (snd p))) in E2. cbn [snd] in E2.
  rewrite kin_draw in E2. cbv zeta.
  destruct (Simulation.construct_in E _ _ _ _ _) as [k w3] eqn:Hc.
  cbn [snd fst]. change w3 with (snd (k, w3)). rewrite <- Hc.
  apply construct_in_in_order; [exact HE|].
  apply (in_order_kin w0); [congruence|exact H0].
Qed.

Lemma kin_applyPoisonEffects E s :
  kin (Simulation.world (Simulation.applyPoisonEffects E s))
  = kin (Simulation.world s).
Proof.
  unfold Simulation.applyPoisonEffects. cbn.
  apply kin_foldl. intros w c.
  destruct (cells w !! c) as [o|]; [|reflexivity].
  destruct (negb _); [reflexivity|].
  destruct (Qle_bool _ _); [reflexivity|].
  cbv zeta. apply kin_foldl. intros w0 target.
  destruct (bool_decide _); [reflexivity|].
  destruct (cells w0 !! c), (cells w0 !! target); try reflexivity.
  destruct (Qlt_bool _ _); [|reflexivity].
  apply kin_modify_cell. reflexivity.
Qed.

Lemma beginStep_in_order E s :
  keeps_bonds E -> bonds_in_order (Simulation.world s) ->
  bonds_in_order (Simulation.world (Simulation.beginStep E s).1.1).
Proof.
  intros HE Hw. unfold Simulation.beginStep. cbv zeta.
  destruct (FoodManager.update _ _) as [fm g] eqn:Hf. cbn.
  unfold Simulation.updateRoundSystem. cbv zeta.
  destruct (_ <=? _)%Z; cbn; [|exact Hw].
  apply (kb_endRound E HE). exact Hw.
Qed.

Lemma endStep_in_order E s env p :
  keeps_bonds E -> bonds_in_order (Simulation.passWorld p) ->
  bonds_in_order (Simulation.world (Simulation.endStep E s env p)).
Proof.
  intros HE Hw. unfold Simulation.endStep. cbv zeta.
  pose proof (kin_removeDead E (Simulation.deadCells p)
    (Simulation.cellsArr (Simulation.set_maxGeneration (Simulation.passMaxGeneration p)
       (Simulation.set_world (Simulation.passWorld p) s)))
    (Simulation.world (Simulation.set_maxGeneration (Simulation.passMaxGeneration p)
       (Simulation.set_world (Simulation.passWorld p) s)))) as Hr.
  destruct (Simulation.removeDead _ _ _ _) as [arr w1]. cbn [snd] in Hr.
  cbn [Simulation.world Simulation.set_maxGeneration Simulation.set_world] in Hr.
  pose proof (in_order_kin _ _ Hr Hw) as H1.
  match goal with
  | |- context [Simulation.updateViruses E ?a ?b ?c ?d] =>
      pose proof (kb_updateViruses E HE a b c d) as Hu;
      destruct (Simulation.updateViruses E a b c d) as [vs w2]
  end.
  cbn [snd] in Hu. specialize (Hu H1).
  match goal with
  | |- context [Simulation.spawnViruses E ?a ?b ?c] =>
      pose proof (kb_spawnViruses E HE a b c) as Hs;
      destruct (Simulation.spawnViruses E a b c) as [vs' w3]
  end.
  cbn [snd] in Hs. specialize (Hs Hu).
  match goal with
  | |- context [Simulation.updateColonies ?s0] =>
      assert (Hc : bonds_in_order (Simulation.world (Simulation.updateColonies s0)));
      [|generalize dependent (Simulation.updateColonies s0)]
  end.
  { unfold Simulation.updateColonies.
    match goal with
    | |- context [Simulation.walkColonies ?a ?b ?c ?d] =>
        pose proof (kin_walkColonies a b c d) as Hk;
        destruct (Simulation.walkColonies a b c d) as [arr' w4]
    end.
    cbn [snd] in Hk. cbn. apply (in_order_kin _ _ Hk). exact Hs. }
  intros s4 H4.
  assert (H5 : bonds_in_order (Simulation.world
            match Simulation.cellsArr s4 with
            | [] => Simulation.spawnInitialCells E
                      (Simulation.set_stats
                         (Simulation.set_extinctions
                            (Simulation.extinctions (Simulation.stats s4) + 1)
                            (Simulation.stats s4)) s4)
            | _ :: _ => s4
            end)).
  { destruct (Simulation.cellsArr s4); [|exact H4].
    apply spawnInitialCells_in_order; [exact HE|exact H4]. }
  match type of H5 with
  | bonds_in_order (Simulation.world ?s5) => generalize dependent s5
  end.
  intros s5 H5.
  unfold Simulation.updateStats. cbn [Simulation.world Simulation.set_stats].
  apply (in_order_kin _ _ (kin_applyPoisonEffects E _)).
  destruct (Simulation.cellsArr s5); exact H5.
Qed.

Lemma updateSingleStep_in_order E s :
  keeps_bonds E -> bonds_in_order (Simulation.world s) ->
  bonds_in_order (Simulation.world (Simulation.updateSingleStep E s)).
Proof.
  intros HE Hw. unfold Simulation.updateSingleStep.
  pose proof (beginStep_in_order E s HE Hw) as Hb.
  destruct (Simulation.beginStep E s) as [[s1 env] food]. cbn in Hb.
  apply endStep_in_order; [exact HE|].
  unfold Simulation.pass. apply pass_from_in_order; [exact HE|exact Hb].
Qed.

(** Coherence cannot be dropped.  Cell 1 founds a colony with cell 2 and
    the two are bonded; a second colony is then constructed around cell 1,
    which no call site of the constructor does: all of them take a cell
    without a colony.  The bonds are symmetric at that point, but cell 1
    lists a bond its colony has no record of.  [removeMember] of cell 1
    from the second colony returns true and empties the bond list of
    cell 1 only.  On the first colony, whose bond map is not empty, the
    same method throws before it reaches the bond lists. *)
Lemma removeMember_needs_coherence :
  bonds_symmetric (snd Scenario.regrouped) /\
  fst Scenario.removal = Normal true /\
  (exists c1 c2,
     cells (snd Scenario.removal) !! 1%nat = Some c1 /\
     cells (snd Scenario.removal) !! 2%nat = Some c2 /\
     1%nat ∈ Cell.bonds c2 /\ 2%nat ∉ Cell.bonds c1) /\
  ~ bonds_symmetric (snd Scenario.removal) /\
  fst (Colony.removeMember 0%nat 1%nat Scenario.bonded) = TypeError.
Proof.
  assert (Hwitness : exists c1 c2,
             cells (snd Scenario.removal) !! 1%nat = Some c1 /\
             cells (snd Scenario.removal) !! 2%nat = Some c2 /\
             1%nat ∈ Cell.bonds c2 /\ 2%nat ∉ Cell.bonds c1).
  { eexists _, _. split; [vm_compute; reflexivity|].
    split; [vm_compute; reflexivity|]. cbn [Cell.bonds].
    split; [apply list_elem_of_singleton; reflexivity | apply not_elem_of_nil]. }
  split.
  { apply new_symmetric, foundColony_symmetric, pair_symmetric. }
  split; [vm_compute; reflexivity|].
  split; [exact Hwitness|].
  split; [|vm_compute; reflexivity].
  intros Hsym. destruct Hwitness as (c1 & c2 & H1 & H2 & Hin & Hout).
  exact (Hout (Hsym 2%nat 1%nat c2 c1 H2 H1 Hin)).
Qed.

Lemma pair_in_order : bonds_in_order Scenario.pair.
Proof.
  apply unbonded_coherent; [reflexivity|].
  intros c o Ho. unfold Scenario.pair, Sample.world in Ho. cbn [cells] in Ho.
  apply lookup_insert_Some in Ho as [[_ <-]|[_ Ho]]; [reflexivity|].
  apply lookup_singleton_Some in Ho as [_ <-]. reflexivity.
Qed.

Lemma bonded_in_order : bonds_in_order Scenario.bonded.
Proof.
  destruct pair_in_order as [Hc Hs]. split.
  - apply foundColony_coherent, Hc.
  - apply foundColony_symmetric, Hs.
Qed.

Lemma social_keeps_bonds : keeps_bonds Scenario.social.
Proof.
  constructor.
  - intros l env c w Hw. apply updateColonyBehavior_in_order. exact Hw.
  - intros s Hs. exact Hs.
  - intros x y g traits r. reflexivity.
  - intros vs cs env w Hw. exact Hw.
  - intros vs cs w Hw. exact Hw.
Qed.

Lemma iter_in_order (E : Simulation.Externals) (s : Simulation.t) (n : nat) :
  keeps_bonds E -> bonds_in_order (Simulation.world s) ->
  bonds_in_order
    (Simulation.world (Nat.iter n (Simulation.updateSingleStep E) s)).
Proof.
  intros HE Hs. induction n as [|n IH]; [exact Hs|].
  cbn [Nat.iter]. apply updateSingleStep_in_order; [exact HE|exact IH].
Qed.

Lemma simulation_update_in_order (E : Simulation.Externals) (s : Simulation.t) :
  keeps_bonds E -> bonds_in_order (Simulation.world s) ->
  bonds_in_order (Simulation.world (Simulation.update E s)).
Proof.
  intros HE Hs. unfold Simulation.update.
  destruct (Qle_bool _ 0); [exact Hs|]. cbv zeta.
  pose proof (iter_in_order E s (Simulation.updates s) HE Hs) as Hn.
  destruct (Qlt_bool 0 _); [|exact Hn].
  pose proof (kin_draw
    (Simulation.world (Nat.iter (Simulation.updates s)
                         (Simulation.updateSingleStep E) s))) as Hd.
  destruct (draw _) as [r w1]. cbn [snd] in Hd.
  pose proof (in_order_kin _ _ Hd Hn) as H1.
  destruct (Qlt_bool r _); [|exact H1].
  apply updateSingleStep_in_order; [exact HE|exact H1].
Qed.




(** ** The viewport *)

Lemma clamp_cases (lo hi v : Q) :
  (clamp lo hi v == lo /\ (v <= lo \/ hi <= lo)) \/
  (clamp lo hi v == hi /\ lo <= hi /\ hi <= v) \/
  (clamp lo hi v == v /\ lo <= v /\ v <= hi).
Proof.
  unfold clamp.
  destruct (Q.min_spec hi v) as [[H1 E1]|[H1 E1]];
  destruct (Q.max_spec lo (Qmin hi v)) as [[H2 E2]|[H2 E2]].
  - right. left. repeat split; lra.
  - left. split; [lra|]. right. lra.
  - right. right. repeat split; lra.
  - left. split; [lra|]. left. lra.
Qed.

Lemma Qdiv_le_mono (a b z : Q) : 0 < z -> a <= b -> a / z <= b / z.
Proof.
  intros Hz Hab. unfold Qdiv. apply Qmult_le_compat_r; [exact Hab|].
  apply Qlt_le_weak, Qinv_lt_0_compat, Hz.
Qed.

Lemma Qdiv_nonneg (a z : Q) : 0 < z -> 0 <= a -> 0 <= a / z.
Proof.
  intros Hz Ha. unfold Qdiv. apply Qmult_le_0_compat; [exact Ha|].
  apply Qlt_le_weak, Qinv_lt_0_compat, Hz.
Qed.

(** X1.  With a positive zoom, [worldToScreen] sends the position of the
    camera to the origin of the screen, [screenToWorld] sends the origin
    of the screen to the position of the camera, and both keep the order
    of the coordinates on each axis: a point further right or further
    down is mapped further right or further down, or to the same
    place. *)
Theorem camera_maps_keep_origin_and_order (c : Camera.t) :
  0 < Camera.zoom c ->
  (fst (Camera.worldToScreen c (Camera.x c) (Camera.y c)) == 0 /\
   snd (Camera.worldToScreen c (Camera.x c) (Camera.y c)) == 0) /\
  (fst (Camera.screenToWorld c 0 0) == Camera.x c /\
   snd (Camera.screenToWorld c 0 0) == Camera.y c) /\
  (forall a a' b b',
     a <= a' -> b <= b' ->
     fst (Camera.worldToScreen c a b) <= fst (Camera.worldToScreen c a' b') /\
     snd (Camera.worldToScreen c a b) <= snd (Camera.worldToScreen c a' b')) /\
  (forall a a' b b',
     a <= a' -> b <= b' ->
     fst (Camera.screenToWorld c a b) <= fst (Camera.screenToWorld c a' b') /\
     snd (Camera.screenToWorld c a b) <= snd (Camera.screenToWorld c a' b')).
Proof.
  intros Hz. cbn.
  split; [split; ring|].
  split; [split; field; lra|].
  split.
  - intros a a' b b' Ha Hb. split; nra.
  - intros a a' b b' Ha Hb.
    pose proof (Qdiv_le_mono a a' _ Hz Ha).
    pose proof (Qdiv_le_mono b b' _ Hz Hb).
    split; lra.
Qed.

Lemma camera_maps_keep_origin_and_order_witness :
  0 < Camera.zoom (Camera.new 800 600 4000 3000) /\
  fst (Camera.worldToScreen (Camera.new 800 600 4000 3000) 120 45)
  <= fst (Camera.worldToScreen (Camera.new 800 600 4000 3000) 130 45).
Proof.
  assert (H : 0 < Camera.zoom (Camera.new 800 600 4000 3000)) by reflexivity.
  split; [exact H|].
  destruct (camera_maps_keep_origin_and_order (Camera.new 800 600 4000 3000) H)
    as (_ & _ & Hmono & _).
  apply (Hmono 120 130 45 45); unfold Qle; simpl; lia.
Defined.

(** X2.  [setZoom] puts the zoom into [minZoom, maxZoom] whatever it is
    asked for, takes a request inside the range as it is, and leaves the
    position of the camera and everything but the zoom and the target
    alone.  [zoomBy] and the mouse wheel go through [setZoom] and stay in
    the range. *)
Theorem setZoom_clamps (c : Camera.t) (z : Q) :
  Camera.minZoom c <= Camera.maxZoom c ->
  let c' := Camera.setZoom z c in
  Camera.minZoom c <= Camera.zoom c' <= Camera.maxZoom c /\
  (Camera.minZoom c <= z <= Camera.maxZoom c -> Camera.zoom c' == z) /\
  (z <= Camera.minZoom c -> Camera.zoom c' == Camera.minZoom c) /\
  (Camera.maxZoom c <= z -> Camera.zoom c' == Camera.maxZoom c) /\
  Camera.x c' = Camera.x c /\ Camera.y c' = Camera.y c /\
  Camera.minZoom c' = Camera.minZoom c /\ Camera.maxZoom c' = Camera.maxZoom c /\
  Camera.canvasWidth c' = Camera.canvasWidth c /\
  Camera.canvasHeight c' = Camera.canvasHeight c /\
  Camera.worldWidth c' = Camera.worldWidth c /\
  Camera.worldHeight c' = Camera.worldHeight c /\
  Camera.isDragging c' = Camera.isDragging c /\
  (forall factor,
     Camera.minZoom c <= Camera.zoom (Camera.zoomBy factor c) <= Camera.maxZoom c) /\
  (forall deltaY,
     Camera.minZoom c <= Camera.zoom (Camera.handleWheel deltaY c)
       <= Camera.maxZoom c).
Proof.
  intros Hle. cbn.
  pose proof (clamp_bounds (Camera.minZoom c) (Camera.maxZoom c) z Hle) as [Hlo Hhi].
  pose proof (clamp_cases (Camera.minZoom c) (Camera.maxZoom c) z) as Hcases.
  split; [split; assumption|].
  split; [intros [H1 H2]; lra|].
  split; [intros H1; lra|].
  split; [intros H1; lra|].
  do 9 (split; [reflexivity|]).
  split; [intros factor; apply clamp_bounds; exact Hle|].
  intros deltaY; apply clamp_bounds; exact Hle.
Qed.

Lemma setZoom_clamps_witness :
  Camera.minZoom (Camera.new 800 600 4000 3000)
    <= Camera.maxZoom (Camera.new 800 600 4000 3000) /\
  Camera.zoom (Camera.setZoom 10 (Camera.new 800 600 4000 3000))
    == Camera.maxZoom (Camera.new 800 600 4000 3000).
Proof.
  assert (H : Camera.minZoom (Camera.new 800 600 4000 3000)
              <= Camera.maxZoom (Camera.new 800 600 4000 3000))
    by (unfold Qle; simpl; lia).
  split; [exact H|].
  destruct (setZoom_clamps (Camera.new 800 600 4000 3000) 10 H)
    as (_ & _ & _ & Hmax & _).
  apply Hmax. unfold Qle; simpl; lia.
Defined.

Lemma clamp_room (room v : Q) :
  0 <= clamp 0 room v /\
  (0 <= room -> clamp 0 room v <= room) /\
  (room <= 0 -> clamp 0 room v == 0) /\
  (0 <= v <= room -> clamp 0 room v == v) /\
  clamp 0 room (clamp 0 room v) == clamp 0 room v.
Proof.
  pose proof (clamp_cases 0 room v) as H.
  pose proof (clamp_cases 0 room (clamp 0 room v)) as H'.
  repeat split; intros; lra.
Qed.

(** X3.  With a positive zoom, after [constrainToWorld] the position and the target are at 0 or
    beyond; when the view fits into the world they are at most the world
    size minus the view size; when the view is larger than the world they
    are pinned to 0; a position already inside is kept; and constraining
    twice is constraining once. *)
Theorem constrainToWorld_bounds (c : Camera.t) :
  0 < Camera.zoom c ->
  let c' := Camera.constrainToWorld c in
  let roomX := Camera.worldWidth c - Camera.canvasWidth c / Camera.zoom c in
  let roomY := Camera.worldHeight c - Camera.canvasHeight c / Camera.zoom c in
  (0 <= Camera.x c' /\ 0 <= Camera.y c' /\
   0 <= Camera.targetX c' /\ 0 <= Camera.targetY c') /\
  (0 <= roomX -> Camera.x c' <= roomX /\ Camera.targetX c' <= roomX) /\
  (0 <= roomY -> Camera.y c' <= roomY /\ Camera.targetY c' <= roomY) /\
  (roomX <= 0 -> Camera.x c' == 0 /\ Camera.targetX c' == 0) /\
  (roomY <= 0 -> Camera.y c' == 0 /\ Camera.targetY c' == 0) /\
  (0 <= Camera.x c <= roomX -> Camera.x c' == Camera.x c) /\
  (0 <= Camera.y c <= roomY -> Camera.y c' == Camera.y c) /\
  Camera.x (Camera.constrainToWorld c') == Camera.x c' /\
  Camera.y (Camera.constrainToWorld c') == Camera.y c' /\
  Camera.targetX (Camera.constrainToWorld c') == Camera.targetX c' /\
  Camera.targetY (Camera.constrainToWorld c') == Camera.targetY c'.
Proof.
  intros _. cbn.
  set (rx := Camera.worldWidth c - Camera.canvasWidth c / Camera.zoom c).
  set (ry := Camera.worldHeight c - Camera.canvasHeight c / Camera.zoom c).
  destruct (clamp_room rx (Camera.x c)) as (X1 & X2 & X3 & X4 & X5).
  destruct (clamp_room ry (Camera.y c)) as (Y1 & Y2 & Y3 & Y4 & Y5).
  destruct (clamp_room rx (Camera.targetX c)) as (TX1 & TX2 & TX3 & _ & TX5).
  destruct (clamp_room ry (Camera.targetY c)) as (TY1 & TY2 & TY3 & _ & TY5).
  repeat split; auto.
Qed.

Lemma constrainToWorld_bounds_witness :
  0 < Camera.zoom (Camera.new 800 600 4000 3000) /\
  0 <= Camera.x (Camera.constrainToWorld (Camera.new 800 600 4000 3000)).
Proof.
  assert (H : 0 < Camera.zoom (Camera.new 800 600 4000 3000)) by reflexivity.
  split; [exact H|].
  exact (proj1 (proj1 (constrainToWorld_bounds (Camera.new 800 600 4000 3000) H))).
Defined.

Lemma clamp_gap (lo hi a b : Q) :
  Qabs (clamp lo hi a - clamp lo hi b) <= Qabs (a - b).
Proof.
  destruct (clamp_cases lo hi a) as [[Ea Ha]|[[Ea Ha]|[Ea Ha]]];
  destruct (clamp_cases lo hi b) as [[Eb Hb]|[[Eb Hb]|[Eb Hb]]];
  apply Qabs_case; intros; apply Qabs_case; intros; lra.
Qed.

Lemma clamp_mono (lo hi a b : Q) : a <= b -> clamp lo hi a <= clamp lo hi b.
Proof.
  intros Hab.
  destruct (clamp_cases lo hi a) as [[Ea Ha]|[[Ea Ha]|[Ea Ha]]];
  destruct (clamp_cases lo hi b) as [[Eb Hb]|[[Eb Hb]|[Eb Hb]]]; lra.
Qed.

(** X4.  With a positive zoom and smooth panning, one [update] never takes
    the position past the target: on each axis, a position that was not
    beyond the target is not beyond it afterwards, from either side, and
    the distance between the two has not grown.  Without smooth panning
    the position is on the (constrained) target after one [update]. *)
Theorem update_never_overshoots (c : Camera.t) :
  0 < Camera.zoom c ->
  let c' := Camera.update c in
  (Camera.smoothPan c = true ->
   (Camera.x c <= Camera.targetX c -> Camera.x c' <= Camera.targetX c') /\
   (Camera.targetX c <= Camera.x c -> Camera.targetX c' <= Camera.x c') /\
   (Camera.y c <= Camera.targetY c -> Camera.y c' <= Camera.targetY c') /\
   (Camera.targetY c <= Camera.y c -> Camera.targetY c' <= Camera.y c') /\
   Qabs (Camera.targetX c' - Camera.x c') <= Qabs (Camera.targetX c - Camera.x c) /\
   Qabs (Camera.targetY c' - Camera.y c') <= Qabs (Camera.targetY c - Camera.y c)) /\
  (Camera.smoothPan c = false ->
   Camera.x c' = Camera.targetX c' /\ Camera.y c' = Camera.targetY c').
Proof.
  intros _. cbv zeta. unfold Camera.update, Camera.constrainToWorld.
  split; intros Hs; rewrite Hs;
    cbn [Camera.x Camera.y Camera.targetX Camera.targetY Camera.zoom
         Camera.canvasWidth Camera.canvasHeight Camera.worldWidth
         Camera.worldHeight Camera.set_position Camera.set_target].
  - split; [intros H; apply clamp_mono; lra|].
    split; [intros H; apply clamp_mono; lra|].
    split; [intros H; apply clamp_mono; lra|].
    split; [intros H; apply clamp_mono; lra|].
    split.
    + eapply Qle_trans; [apply clamp_gap|].
      apply Qabs_case; intros; apply Qabs_case; intros; lra.
    + eapply Qle_trans; [apply clamp_gap|].
      apply Qabs_case; intros; apply Qabs_case; intros; lra.
  - split; reflexivity.
Qed.

Lemma update_never_overshoots_witness :
  0 < Camera.zoom (Camera.setTarget 100 0 (Camera.new 800 600 4000 3000)) /\
  Camera.x (Camera.update (Camera.setTarget 100 0 (Camera.new 800 600 4000 3000)))
  <= Camera.targetX
       (Camera.update (Camera.setTarget 100 0 (Camera.new 800 600 4000 3000))) /\
  Camera.x (Camera.update (Camera.setTarget 100 0 (Camera.new 800 600 4000 3000)))
  == 10.
Proof.
  assert (H : 0 < Camera.zoom (Camera.setTarget 100 0 (Camera.new 800 600 4000 3000)))
    by reflexivity.
  split; [exact H|].
  split; [|vm_compute; reflexivity].
  destruct (update_never_overshoots
              (Camera.setTarget 100 0 (Camera.new 800 600 4000 3000)) H)
    as [Hsmooth _].
  apply (proj1 (Hsmooth eq_refl)). unfold Qle; simpl; lia.
Defined.

Lemma Qle_bool_proper (a a' b b' : Q) :
  a == a' -> b == b' -> Qle_bool a b = Qle_bool a' b'.
Proof.
  intros Ha Hb.
  destruct (Qle_bool a b) eqn:E1; destruct (Qle_bool a' b') eqn:E2;
    try reflexivity.
  - apply Qle_bool_iff in E1. apply Qle_bool_false in E2. lra.
  - apply Qle_bool_iff in E2. apply Qle_bool_false in E1. lra.
Qed.

(** X5.  With a positive zoom, an area of width and height 0 is visible
    exactly when its corner is visible with margin 0; a point visible with
    a margin is visible with every larger margin; and an area that
    contains a point visible with margin 0 is visible. *)
Theorem visibility_of_points_and_areas (c : Camera.t) (wx wy : Q) :
  0 < Camera.zoom c ->
  Camera.isAreaVisible c wx wy 0 0 = Camera.isVisible c wx wy 0 /\
  (forall m m',
     m <= m' -> Camera.isVisible c wx wy m = true ->
     Camera.isVisible c wx wy m' = true) /\
  (forall ax ay width height,
     Camera.isVisible c wx wy 0 = true ->
     ax <= wx <= ax + width -> ay <= wy <= ay + height ->
     Camera.isAreaVisible c ax ay width height = true).
Proof.
  intros _. unfold Camera.isVisible, Camera.isAreaVisible. cbv zeta.
  set (vw := Camera.canvasWidth c / Camera.zoom c).
  set (vh := Camera.canvasHeight c / Camera.zoom c).
  split; [|split].
  - unfold Qlt_bool. rewrite !negb_orb, !negb_involutive.
    rewrite (Qle_bool_proper (Camera.x c) (Camera.x c - 0) (wx + 0) wx) by ring.
    rewrite (Qle_bool_proper wx wx (Camera.x c + vw) (Camera.x c + vw + 0)) by ring.
    rewrite (Qle_bool_proper (Camera.y c) (Camera.y c - 0) (wy + 0) wy) by ring.
    rewrite (Qle_bool_proper wy wy (Camera.y c + vh) (Camera.y c + vh + 0)) by ring.
    reflexivity.
  - intros m m' Hm. rewrite !andb_true_iff, !Qle_bool_iff.
    intros [[[H1 H2] H3] H4]. repeat split; lra.
  - intros ax ay width height. rewrite !andb_true_iff, !Qle_bool_iff.
    intros [[[H1 H2] H3] H4] [Hx1 Hx2] [Hy1 Hy2].
    apply negb_true_iff. rewrite !orb_false_iff, !Qlt_bool_false.
    repeat split; lra.
Qed.

Lemma visibility_of_points_and_areas_witness :
  0 < Camera.zoom (Camera.new 800 600 4000 3000) /\
  Camera.isVisible (Camera.new 800 600 4000 3000) 120 45 0 = true /\
  Camera.isAreaVisible (Camera.new 800 600 4000 3000) 100 40 50 10 = true.
Proof.
  assert (H : 0 < Camera.zoom (Camera.new 800 600 4000 3000)) by reflexivity.
  split; [exact H|].
  split; [vm_compute; reflexivity|].
  destruct (visibility_of_points_and_areas (Camera.new 800 600 4000 3000) 120 45 H)
    as (_ & _ & Harea).
  apply Harea; [vm_compute; reflexivity| |]; split; unfold Qle; simpl; lia.
Defined.

(** X6.  A mouse move while no drag is on changes nothing.  During a drag
    it records the mouse position and moves the target only: the position,
    the zoom and the drag stay as they are, and with a positive zoom the
    target moves against the mouse on each axis (not forward when the
    mouse went forward, not back when it went back, and not at all on an
    axis along which the mouse is where it was recorded).  A press starts
    a drag and records the mouse; a release ends the drag and moves
    nothing. *)
Theorem drag_moves_target_against_mouse (c : Camera.t) (e : Camera.MouseEvent) :
  0 < Camera.zoom c ->
  let c' := Camera.handleMouseMove e c in
  let mouseX := Camera.clientX e - Camera.rectLeft e in
  let mouseY := Camera.clientY e - Camera.rectTop e in
  (Camera.isDragging c = false -> c' = c) /\
  (Camera.isDragging c = true ->
   Camera.lastMouseX c' = mouseX /\ Camera.lastMouseY c' = mouseY /\
   Camera.x c' = Camera.x c /\ Camera.y c' = Camera.y c /\
   Camera.zoom c' = Camera.zoom c /\ Camera.isDragging c' = true /\
   (Camera.lastMouseX c <= mouseX -> Camera.targetX c' <= Camera.targetX c) /\
   (mouseX <= Camera.lastMouseX c -> Camera.targetX c <= Camera.targetX c') /\
   (Camera.lastMouseY c <= mouseY -> Camera.targetY c' <= Camera.targetY c) /\
   (mouseY <= Camera.lastMouseY c -> Camera.targetY c <= Camera.targetY c')) /\
  (Camera.isDragging (Camera.handleMouseDown e c) = true /\
   Camera.lastMouseX (Camera.handleMouseDown e c) = mouseX /\
   Camera.lastMouseY (Camera.handleMouseDown e c) = mouseY /\
   Camera.targetX (Camera.handleMouseDown e c) = Camera.targetX c /\
   Camera.targetY (Camera.handleMouseDown e c) = Camera.targetY c) /\
  (Camera.isDragging (Camera.handleMouseUp c) = false /\
   Camera.targetX (Camera.handleMouseUp c) = Camera.targetX c /\
   Camera.targetY (Camera.handleMouseUp c) = Camera.targetY c /\
   Camera.x (Camera.handleMouseUp c) = Camera.x c /\
   Camera.y (Camera.handleMouseUp c) = Camera.y c).
Proof.
  intros Hz. cbv zeta. unfold Camera.handleMouseMove.
  split; [|split; [|split]].
  - intros Hd. rewrite Hd. reflexivity.
  - intros Hd. rewrite Hd. cbn.
    do 5 (split; [reflexivity|]). split; [exact Hd|].
    set (mx := Camera.clientX e - Camera.rectLeft e).
    set (my := Camera.clientY e - Camera.rectTop e).
    split; [intros H;
            pose proof (Qdiv_nonneg (mx - Camera.lastMouseX c) _ Hz ltac:(lra)); lra|].
    split; [intros H;
            pose proof (Qdiv_nonneg (Camera.lastMouseX c - mx) _ Hz ltac:(lra)) as Hn;
            unfold Qdiv in *; lra|].
    split; [intros H;
            pose proof (Qdiv_nonneg (my - Camera.lastMouseY c) _ Hz ltac:(lra)); lra|].
    intros H.
    pose proof (Qdiv_nonneg (Camera.lastMouseY c - my) _ Hz ltac:(lra)) as Hn.
    unfold Qdiv in *; lra.
  - cbn. repeat split; reflexivity.
  - cbn. repeat split; reflexivity.
Qed.

Lemma drag_moves_target_against_mouse_witness :
  0 < Camera.zoom
        (Camera.handleMouseDown (Camera.mkMouseEvent 10 20 0 0)
           (Camera.new 800 600 4000 3000)) /\
  Camera.isDragging
    (Camera.handleMouseDown (Camera.mkMouseEvent 10 20 0 0)
       (Camera.new 800 600 4000 3000)) = true /\
  Camera.targetX
    (Camera.handleMouseMove (Camera.mkMouseEvent 30 50 0 0)
       (Camera.handleMouseDown (Camera.mkMouseEvent 10 20 0 0)
          (Camera.new 800 600 4000 3000)))
  <= Camera.targetX
       (Camera.handleMouseDown (Camera.mkMouseEvent 10 20 0 0)
          (Camera.new 800 600 4000 3000)) /\
  Camera.targetX
    (Camera.handleMouseMove (Camera.mkMouseEvent 30 50 0 0)
       (Camera.handleMouseDown (Camera.mkMouseEvent 10 20 0 0)
          (Camera.new 800 600 4000 3000)))
  == -20.
Proof.
  assert (H : 0 < Camera.zoom
                    (Camera.handleMouseDown (Camera.mkMouseEvent 10 20 0 0)
                       (Camera.new 800 600 4000 3000))) by reflexivity.
  split; [exact H|].
  split; [reflexivity|].
  split; [|vm_compute; reflexivity].
  destruct (drag_moves_target_against_mouse
              (Camera.handleMouseDown (Camera.mkMouseEvent 10 20 0 0)
                 (Camera.new 800 600 4000 3000))
              (Camera.mkMouseEvent 30 50 0 0) H) as (_ & Hdrag & _).
  destruct (Hdrag eq_refl) as (_ & _ & _ & _ & _ & _ & Hx & _).
  apply Hx. vm_compute. discriminate.
Defined.

(** ** The food field *)

Lemma age_and_filter_live (l : list Food.t) :
  Forall (fun p => Food.consumed p = false /\ inject_Z (Food.age p) <= Food.maxAge p)
         (FoodManager.age_and_filter l) /\
  (length (FoodManager.age_and_filter l) <= length l)%nat.
Proof.
  induction l as [|f l [IH1 IH2]]; cbn; [split; [constructor|lia]|].
  unfold Food.update.
  destruct (Food.consumed f) eqn:Ec; [split; [exact IH1|lia]|].
  destruct (Qlt_bool _ _) eqn:E; [split; [exact IH1|lia]|].
  apply Qlt_bool_false in E. split; [|cbn; lia].
  constructor; [|exact IH1]. cbn. split; [reflexivity|exact E].
Qed.

Lemma getFood_all (l : list Food.t) :
  Forall (fun p => Food.consumed p = false) l ->
  List.filter (fun particle => negb (Food.consumed particle)) l = l.
Proof.
  induction 1 as [|p l Hp _ IH]; cbn; [reflexivity|]. rewrite Hp, IH. reflexivity.
Qed.

(** X7.  After [FoodManager.update()] the field holds live particles only:
    none is consumed and none is older than its [maxAge], so [getFood()]
    returns the whole field; and the field has grown by at most one
    particle. *)
Theorem foodManager_update_keeps_live_particles (m : FoodManager.t) (g : Rng) :
  fair g ->
  let m' := fst (FoodManager.update m g) in
  (forall p, p ∈ FoodManager.food m' ->
     Food.consumed p = false /\ inject_Z (Food.age p) <= Food.maxAge p) /\
  FoodManager.getFood m' = FoodManager.food m' /\
  (length (FoodManager.food m') <= S (length (FoodManager.food m)))%nat.
Proof.
  intros Hg. cbv zeta.
  assert (H : Forall (fun p => Food.consumed p = false /\
                              inject_Z (Food.age p) <= Food.maxAge p)
                     (FoodManager.food (fst (FoodManager.update m g))) /\
              (length (FoodManager.food (fst (FoodManager.update m g)))
               <= S (length (FoodManager.food m)))%nat).
  { unfold FoodManager.update. cbv zeta.
    destruct (age_and_filter_live (FoodManager.food m)) as [Hlive Hlen].
    destruct (_ && _).
    - unfold bind, ret.
      match goal with
      | |- context [FoodManager.spawnFood None None ?m2 g] =>
          destruct (spawnFood_particle None None m2 g Hg)
            as [(_ & _ & _ & _ & _ & p & Hp & Hc & Ha & _ & _ & _ & Hm & _) _];
          destruct (FoodManager.spawnFood None None m2 g) as [m3 g3]
      end.
      cbn in *. rewrite Hp. split.
      + apply Forall_app. split; [exact Hlive|].
        constructor; [|constructor]. split; [exact Hc|]. rewrite Ha.
        change (inject_Z 0) with 0. lra.
      + rewrite length_app. cbn. lia.
    - cbn. split; [exact Hlive|lia]. }
  destruct H as [Hlive Hlen]. split; [|split; [|exact Hlen]].
  - intros p Hp. rewrite Forall_forall in Hlive. apply Hlive, Hp.
  - unfold FoodManager.getFood. apply getFood_all.
    eapply Forall_impl; [exact Hlive|]. intros p [Hc _]. exact Hc.
Qed.

Lemma foodManager_update_keeps_live_particles_witness :
  fair (constant_rng 0.5) /\
  FoodManager.getFood (fst (FoodManager.update Sample.foodManager (constant_rng 0.5)))
  = FoodManager.food (fst (FoodManager.update Sample.foodManager (constant_rng 0.5))).
Proof.
  split; [exact fair_constant_half|].
  exact (proj1 (proj2 (foodManager_update_keeps_live_particles
                         Sample.foodManager (constant_rng 0.5) fair_constant_half))).
Defined.

Lemma spawnFood_frame x y m g :
  FoodManager.maxFood (fst (FoodManager.spawnFood x y m g)) = FoodManager.maxFood m /\
  FoodManager.width (fst (FoodManager.spawnFood x y m g)) = FoodManager.width m /\
  FoodManager.height (fst (FoodManager.spawnFood x y m g)) = FoodManager.height m /\
  FoodManager.spawnRate (fst (FoodManager.spawnFood x y m g)) = FoodManager.spawnRate m /\
  FoodManager.spawnCooldown (fst (FoodManager.spawnFood x y m g))
    = FoodManager.spawnCooldown m.
Proof.
  unfold FoodManager.spawnFood, bind, ret.
  repeat case_match; simplify_eq; cbn; repeat split; reflexivity.
Qed.

(** X8.  With a whole number as [maxFood], [update()] never takes a field
    that is within the cap above it, and leaves the cap alone.  While the
    cooldown is above 1 nothing is spawned, and after a spawn the cooldown
    is at least 1. *)
Theorem foodManager_update_respects_maxFood (m : FoodManager.t) (g : Rng) (n : nat) :
  FoodManager.maxFood m == inject_Z (Z.of_nat n) ->
  (length (FoodManager.food m) <= n)%nat ->
  let m' := fst (FoodManager.update m g) in
  (length (FoodManager.food m') <= n)%nat /\
  FoodManager.maxFood m' = FoodManager.maxFood m /\
  (1 < FoodManager.spawnCooldown m ->
   (length (FoodManager.food m') <= length (FoodManager.food m))%nat) /\
  ((length (FoodManager.food m) < length (FoodManager.food m'))%nat ->
   1 <= FoodManager.spawnCooldown m').
Proof.
  intros Hmax Hlen. cbv zeta. unfold FoodManager.update. cbv zeta.
  destruct (age_and_filter_live (FoodManager.food m)) as [_ Hfil].
  destruct (Qle_bool _ 0) eqn:Ecool; cbn [andb].
  - destruct (Qlt_bool _ _) eqn:Eroom.
    + unfold bind, ret.
      match goal with
      | |- context [FoodManager.spawnFood None None ?m2 g] =>
          pose proof (spawnFood_length None None m2 g) as Hsp;
          pose proof (spawnFood_frame None None m2 g) as (Hf & _);
          destruct (FoodManager.spawnFood None None m2 g) as [m3 g3]
      end.
      apply Qlt_bool_iff in Eroom. apply Qle_bool_iff in Ecool.
      cbn in *. rewrite Hmax in Eroom. rewrite <- Zlt_Qlt in Eroom.
      repeat split.
      * lia.
      * exact Hf.
      * intros H1. lra.
      * intros _. apply Q.le_max_l.
    + cbn. repeat split; lia.
  - cbn. repeat split; lia.
Qed.

Lemma foodManager_update_respects_maxFood_witness :
  (FoodManager.maxFood Sample.foodManager == inject_Z (Z.of_nat 150) /\
   (length (FoodManager.food Sample.foodManager) <= 150)%nat) /\
  (length (FoodManager.food
             (fst (FoodManager.update Sample.foodManager (constant_rng 0.5))))
   <= 150)%nat.
Proof.
  assert (H1 : FoodManager.maxFood Sample.foodManager == inject_Z (Z.of_nat 150))
    by reflexivity.
  assert (H2 : (length (FoodManager.food Sample.foodManager) <= 150)%nat)
    by (simpl; lia).
  split; [split; assumption|].
  exact (proj1 (foodManager_update_respects_maxFood
                  Sample.foodManager (constant_rng 0.5) 150 H1 H2)).
Defined.





(** X11.  An [update()] of a particle that is not consumed counts its age
    up by one, keeps the particle exactly as long as the new age is not
    beyond [maxAge], and keeps [decay] in [0, 1]: untouched up to four
    fifths of [maxAge], and from there on the older of two particles of
    the same [maxAge] is the more faded one, or as faded. *)
Theorem food_update_fades_with_age (f : Food.t) :
  Food.consumed f = false -> 0 < Food.maxAge f ->
  0 <= Food.decay f <= 1 ->
  let f' := snd (Food.update f) in
  let age' := inject_Z (Food.age f') in
  Food.age f' = (Food.age f + 1)%Z /\
  (fst (Food.update f) = true <-> age' <= Food.maxAge f) /\
  0 <= Food.decay f' <= 1 /\
  (age' <= Food.maxAge f * 0.8 -> Food.decay f' = Food.decay f) /\
  (forall g,
     Food.consumed g = false -> Food.maxAge g = Food.maxAge f ->
     Food.maxAge f * 0.8 < age' -> (Food.age f <= Food.age g)%Z ->
     Food.decay (snd (Food.update g)) <= Food.decay f').
Proof.
  intros Hc Hm Hd. cbv zeta.
  assert (Hfade : forall a b : Q, a <= b ->
            Qmax 0 (1 - (b - Food.maxAge f * 0.8) / (Food.maxAge f * 0.2))
            <= Qmax 0 (1 - (a - Food.maxAge f * 0.8) / (Food.maxAge f * 0.2))).
  { intros a b Hab.
    pose proof (Qdiv_le_mono (a - Food.maxAge f * 0.8) (b - Food.maxAge f * 0.8)
                  (Food.maxAge f * 0.2) ltac:(lra) ltac:(lra)) as Hdiv.
    apply Q.max_le_compat_l. lra. }
  split; [|split; [|split; [|split]]].
  - unfold Food.update. rewrite Hc. cbv zeta.
    destruct (Qlt_bool (Food.maxAge f) _); reflexivity.
  - unfold Food.update. rewrite Hc. cbv zeta.
    destruct (Qlt_bool (Food.maxAge f) (inject_Z (Food.age f + 1))) eqn:Eout;
      cbn [fst snd Food.age].
    + apply Qlt_bool_iff in Eout. split; [discriminate|]. intros H. lra.
    + apply Qlt_bool_false in Eout. split; [intros _; exact Eout|reflexivity].
  - unfold Food.update. rewrite Hc. cbv zeta.
    set (a := inject_Z (Food.age f + 1)).
    assert (Hdecay : 0 <= (if Qlt_bool (Food.maxAge f * 0.8) a
                           then Qmax 0 (1 - (a - Food.maxAge f * 0.8)
                                              / (Food.maxAge f * 0.2))
                           else Food.decay f) <= 1).
    { destruct (Qlt_bool (Food.maxAge f * 0.8) a) eqn:Efade; [|exact Hd].
      apply Qlt_bool_iff in Efade.
      pose proof (Qdiv_nonneg (a - Food.maxAge f * 0.8) (Food.maxAge f * 0.2)
                    ltac:(lra) ltac:(lra)) as Hx.
      split; [apply Q.le_max_l|]. apply Q.max_lub; lra. }
    destruct (Qlt_bool (Food.maxAge f) a); cbn [snd Food.decay]; exact Hdecay.
  - unfold Food.update. rewrite Hc. cbv zeta.
    destruct (Qlt_bool (Food.maxAge f) _); cbn [snd Food.age Food.decay];
      intros Hle; apply Qlt_bool_false in Hle; rewrite Hle; reflexivity.
  - intros g Hgc Hgm Hold Hyoung.
    assert (Ef : Food.decay (snd (Food.update f))
                 = Qmax 0 (1 - (inject_Z (Food.age f + 1) - Food.maxAge f * 0.8)
                               / (Food.maxAge f * 0.2))).
    { revert Hold. unfold Food.update. rewrite Hc. cbv zeta.
      destruct (Qlt_bool (Food.maxAge f) _); cbn [snd Food.age Food.decay];
        intros Hold; apply Qlt_bool_iff in Hold; rewrite Hold; reflexivity. }
    assert (Hages : inject_Z (Food.age f + 1) <= inject_Z (Food.age g + 1))
      by (rewrite <- Zle_Qle; lia).
    assert (Hgold : Food.maxAge f * 0.8 < inject_Z (Food.age g + 1)).
    { revert Hold. unfold Food.update. rewrite Hc. cbv zeta.
      destruct (Qlt_bool (Food.maxAge f) _); cbn [snd Food.age]; intros Hold; lra. }
    assert (Eg : Food.decay (snd (Food.update g))
                 = Qmax 0 (1 - (inject_Z (Food.age g + 1) - Food.maxAge f * 0.8)
                               / (Food.maxAge f * 0.2))).
    { unfold Food.update. rewrite Hgc, Hgm. cbv zeta.
      apply Qlt_bool_iff in Hgold.
      destruct (Qlt_bool (Food.maxAge f) _); cbn [snd Food.decay];
        rewrite Hgold; reflexivity. }
    rewrite Ef, Eg. apply Hfade. exact Hages.
Qed.

Lemma food_update_fades_with_age_witness :
  (Food.consumed (Food.mk 0 0 4 32 false 1700 2000 Food.Yellow 0 1) = false /\
   0 < Food.maxAge (Food.mk 0 0 4 32 false 1700 2000 Food.Yellow 0 1) /\
   0 <= Food.decay (Food.mk 0 0 4 32 false 1700 2000 Food.Yellow 0 1) <= 1) /\
  Food.decay (snd (Food.update (Food.mk 0 0 4 32 false 1700 2000 Food.Yellow 0 1)))
  == 299 # 400 /\
  Food.decay (snd (Food.update (Food.mk 0 0 4 32 false 1800 2000 Food.Yellow 0 1)))
  <= Food.decay (snd (Food.update (Food.mk 0 0 4 32 false 1700 2000 Food.Yellow 0 1))).
Proof.
  assert (H1 : Food.consumed (Food.mk 0 0 4 32 false 1700 2000 Food.Yellow 0 1) = false)
    by reflexivity.
  assert (H2 : 0 < Food.maxAge (Food.mk 0 0 4 32 false 1700 2000 Food.Yellow 0 1))
    by reflexivity.
  assert (H3 : 0 <= Food.decay (Food.mk 0 0 4 32 false 1700 2000 Food.Yellow 0 1) <= 1)
    by (split; unfold Qle; simpl; lia).
  split; [repeat split; try assumption; apply H3|].
  split; [vm_compute; reflexivity|].
  destruct (food_update_fades_with_age _ H1 H2 H3) as (_ & _ & _ & _ & Hfade).
  apply (Hfade (Food.mk 0 0 4 32 false 1800 2000 Food.Yellow 0 1));
    [reflexivity|reflexivity|vm_compute; reflexivity|vm_compute; discriminate].
Defined.

(** ** The life of a cell *)

(** X12.  [updateLifecycle] moves a cell forward only and one stage at a
    time: it leaves the cell as it is, or makes a juvenile past its
    maturity age an adult (maximal health and energy grow by 20 and 15 per
    cent and the health is filled up), or makes an adult past its elder age
    an elder (slower, seeing further).  An elder stays as it is, and no
    cell becomes a juvenile. *)
Theorem updateLifecycle_only_forward (o : Cell.t) :
  let o' := Behaviour.updateLifecycle o in
  let stage := Traits.lifestage (Cell.traits o) in
  let stage' := Traits.lifestage (Cell.traits o') in
  (o' = o \/
   (stage = juvenile /\ stage' = adult /\
    Cell.maturityAge o < inject_Z (Cell.age o) /\
    Cell.maxHealth o' = Cell.maxHealth o * 1.2 /\
    Cell.health o' = Cell.maxHealth o' /\
    Cell.maxEnergy o' = Cell.maxEnergy o * 1.15 /\
    Cell.energy o' = Cell.energy o) \/
   (stage = adult /\ stage' = elder /\
    Cell.elderAge o < inject_Z (Cell.age o) /\
    Traits.speed (Cell.traits o') = Traits.speed (Cell.traits o) * 0.7 /\
    Traits.visionRange (Cell.traits o') = Traits.visionRange (Cell.traits o) * 1.5 /\
    Cell.health o' = Cell.health o /\ Cell.energy o' = Cell.energy o)) /\
  (stage = elder -> o' = o) /\
  (stage = juvenile -> inject_Z (Cell.age o) <= Cell.maturityAge o -> o' = o) /\
  (stage' = juvenile -> stage = juvenile).
Proof.
  cbv zeta. unfold Behaviour.updateLifecycle.
  destruct (Qlt_bool (Cell.maturityAge o) _) eqn:E1;
    destruct (Qlt_bool (Cell.elderAge o) _) eqn:E2;
    destruct (Traits.lifestage (Cell.traits o)) eqn:Es;
    repeat case_bool_decide; try discriminate; cbn [andb].
  all: try apply Qlt_bool_iff in E1; try apply Qlt_bool_false in E1.
  all: try apply Qlt_bool_iff in E2; try apply Qlt_bool_false in E2.
  all: rewrite ?Es.
  all: repeat split; try (intros; discriminate); try (intros; reflexivity);
       try (left; reflexivity); try (intros; congruence).
  all: try (right; left; repeat split; try reflexivity; assumption).
  all: try (right; right; repeat split; try reflexivity; assumption).
  all: try (intros; lra).
Qed.

(** X13.  A particle feeds one cell once.  [eat] that returns false has
    changed nothing.  [eat] that returns true has marked the particle
    consumed, raised the energy of the eater by the particle's value and
    capped it at its maximum, and touched no other particle and no other
    cell; the particle is no longer among the food the orchestrator hands
    out, and every later [eat] of it, by whichever cell, returns false and
    changes nothing. *)
Theorem eaten_particle_feeds_once (M : MathLib) (c : cell_id) (i : nat) (w : World) :
  let w' := snd (Behaviour.eat M c i w) in
  (fst (Behaviour.eat M c i w) = false -> w' = w) /\
  (fst (Behaviour.eat M c i w) = true ->
   (exists f,
      FoodManager.food (foodManager w) !! i = Some f /\ Food.consumed f = false /\
      FoodManager.food (foodManager w') !! i = Some (Food.set_consumed true f) /\
      exists o o',
        cells w !! c = Some o /\ cells w' !! c = Some o' /\
        Cell.energy o' = Qmin (Cell.energy o + Food.energyValue f) (Cell.maxEnergy o) /\
        Cell.health o' = Cell.health o) /\
   length (FoodManager.food (foodManager w')) = length (FoodManager.food (foodManager w)) /\
   (forall j, j ≠ i ->
      FoodManager.food (foodManager w') !! j = FoodManager.food (foodManager w) !! j) /\
   (forall a, a ≠ c -> cells w' !! a = cells w !! a) /\
   (i ∉ Simulation.getFood w') /\
   forall c2, Behaviour.eat M c2 i w' = (false, w')).
Proof.
  cbv zeta. unfold Behaviour.eat.
  destruct (cells w !! c) as [o|] eqn:Eo; [|split; [reflexivity|discriminate]].
  destruct (FoodManager.food (foodManager w) !! i) as [f|] eqn:Ef;
    [|split; [reflexivity|discriminate]].
  destruct (Behaviour.canEat M o f && negb (Food.consumed f)) eqn:Ecan;
    [|split; [reflexivity|discriminate]].
  apply andb_true_iff in Ecan as [_ Hc]. apply negb_true_iff in Hc.
  split; [discriminate|]. intros _. cbv zeta. cbn [snd].
  assert (Hlt : (i < length (FoodManager.food (foodManager w)))%nat)
    by (eapply lookup_lt_Some; exact Ef).
  assert (Hfood : forall w0 f1 f2,
            foodManager (modify_cell c f1 (modify_cell c f2 w0)) = foodManager w0)
    by reflexivity.
  rewrite !Hfood. cbn [foodManager set_foodManager FoodManager.food FoodManager.set_food].
  assert (Hi : <[i:=Food.set_consumed true f]> (FoodManager.food (foodManager w)) !! i
               = Some (Food.set_consumed true f))
    by (apply list_lookup_insert_eq; exact Hlt).
  split; [|split; [|split; [|split; [|split]]]].
  - exists f. split; [reflexivity|]. split; [exact Hc|]. split; [exact Hi|].
    exists o. eexists. split; [reflexivity|].
    rewrite !lookup_modify_cell_eq. cbn [cells set_foodManager]. rewrite Eo.
    cbn [fmap option_fmap option_map]. split; [reflexivity|]. split; reflexivity.
  - apply length_insert.
  - intros j Hj. apply list_lookup_insert_ne. auto.
  - intros a Ha. rewrite !lookup_modify_cell_ne by auto. reflexivity.
  - unfold Simulation.getFood. rewrite list_elem_of_In, filter_In.
    rewrite ?Hfood. cbn [foodManager set_foodManager FoodManager.food FoodManager.set_food].
    rewrite Hi. intros [_ H]. cbn in H. discriminate.
  - intros c2. rewrite ?Hfood.
    cbn [foodManager set_foodManager FoodManager.food FoodManager.set_food].
    rewrite Hi.
    destruct (cells _ !! c2); [|reflexivity].
    cbn [Food.consumed Food.set_consumed negb]. rewrite andb_false_r. reflexivity.
Qed.

(** X14.  At a mutation rate of 0 or less [mutate] returns the parent's
    traits as they are, with the generation counted up: every one of its
    eighteen rolls fails, and exactly eighteen draws are used. *)
Theorem mutate_rate_zero_copies (c : Cell.t) (rate : Q) (g : Rng) :
  fair g -> rate <= 0 ->
  fst (Mutation.mutate c rate g)
  = Traits.set_generation (Some (Cell.generation c + 1)%Z) (Cell.traits c) /\
  cursor (snd (Mutation.mutate c rate g)) = (cursor g + 18)%nat /\
  draws (snd (Mutation.mutate c rate g)) = draws g.
Proof.
  intros Hg Hrate.
  assert (Hroll : forall p body t g0, fair g0 -> p <= 0 ->
            Mutation.roll p body t g0 = (t, mkRng (draws g0) (S (cursor g0)))).
  { intros p body t g0 Hg0 Hp. unfold Mutation.roll, bind, random. cbn.
    destruct (Hg0 (cursor g0)) as [H0 _].
    assert (E : Qlt_bool (draws g0 (cursor g0)) p = false)
      by (apply Qlt_bool_false; lra).
    rewrite E. reflexivity. }
  assert (Hfair : forall n, fair (mkRng (draws g) n)) by (intros n k; apply Hg).
  unfold Mutation.mutate, bind, ret. cbv zeta.
  unfold Mutation.mutate_size, Mutation.mutate_speed, Mutation.mutate_health,
    Mutation.mutate_energy, Mutation.mutate_shape, Mutation.mutate_defenseType,
    Mutation.mutate_specialAbility, Mutation.mutate_metabolismType,
    Mutation.mutate_socialBehavior, Mutation.mutate_temperatureTolerance,
    Mutation.mutate_acidTolerance, Mutation.mutate_radiationResistance,
    Mutation.mutate_visionRange, Mutation.mutate_communicationRange,
    Mutation.mutate_pheromoneProduction, Mutation.mutate_toxinResistance,
    Mutation.mutate_magneticSensitivity, Mutation.mutate_electrogenesis.
  rewrite (Hroll _ _ _ g Hg) by lra. cbn [draws cursor].
  repeat (rewrite Hroll by (try apply Hfair; lra); cbn [draws cursor]).
  cbn. repeat split. lia.
Qed.

Lemma mutate_rate_zero_copies_witness :
  (fair (constant_rng 0.5) /\ 0 <= 0) /\
  fst (Mutation.mutate Sample.parent 0 (constant_rng 0.5))
  = Traits.set_generation (Some (Cell.generation Sample.parent + 1)%Z)
      (Cell.traits Sample.parent).
Proof.
  assert (H : 0 <= 0) by (unfold Qle; simpl; lia).
  split; [split; [exact fair_constant_half|exact H]|].
  exact (proj1 (mutate_rate_zero_copies Sample.parent 0 (constant_rng 0.5)
                  fair_constant_half H)).
Defined.

Lemma bounce_bounds (r w x : Q) :
  let x' := if Qlt_bool (x - r) 0 || Qlt_bool w (x + r)
            then clamp r (w - r) x else x in
  (r * 2 <= w -> r <= x' <= w - r) /\ (w < r * 2 -> x' == r).
Proof.
  cbv zeta.
  pose proof (clamp_cases r (w - r) x) as Hc.
  destruct (Qlt_bool (x - r) 0) eqn:E1; destruct (Qlt_bool w (x + r)) eqn:E2;
    cbn [orb].
  all: try apply Qlt_bool_iff in E1; try apply Qlt_bool_false in E1.
  all: try apply Qlt_bool_iff in E2; try apply Qlt_bool_false in E2.
  all: split; intros; lra.
Qed.



(** X16.  The course of an infection.  [handleInfection] leaves a cell
    that is not infected, and every other cell, alone.  For an infected
    cell each call costs half the severity in health and 0.15 of it in
    energy and counts the timer down; when the timer has run out the cell
    is either cured (no longer infected, timer and severity 0, toxin
    resistance raised by 0.1 up to 0.9) or its health is set to 0. *)
Theorem handleInfection_course (c : cell_id) (w : World) (o : Cell.t) :
  cells w !! c = Some o ->
  let w' := snd (Behaviour.handleInfection c w) in
  let damage := Cell.infectionSeverity o * 0.5 in
  (Cell.isInfected o = false -> w' = w) /\
  (Cell.isInfected o = true ->
   exists o',
     cells w' !! c = Some o' /\
     Cell.energy o' = Cell.energy o - damage * 0.3 /\
     (0 < Cell.infectionTimer o - 1 ->
      Cell.isInfected o' = true /\
      Cell.infectionTimer o' = Cell.infectionTimer o - 1 /\
      Cell.health o' = Cell.health o - damage) /\
     (Cell.infectionTimer o - 1 <= 0 ->
      (Cell.isInfected o' = false /\ Cell.infectionTimer o' = 0 /\
       Cell.infectionSeverity o' = 0 /\
       Cell.health o' = Cell.health o - damage /\
       Traits.toxinResistance (Cell.traits o')
       = Qmin 0.9 (Traits.toxinResistance (Cell.traits o) + 0.1))
      \/ (Cell.isInfected o' = true /\ Cell.health o' = 0))) /\
  (forall a, a ≠ c -> cells w' !! a = cells w !! a).
Proof.
  intros Ho. cbv zeta.
  remember (snd (Behaviour.handleInfection c w)) as w' eqn:Ew.
  unfold Behaviour.handleInfection, bind in Ew.
  unfold Behaviour.read_cell at 1 in Ew. rewrite Ho in Ew.
  destruct (Cell.isInfected o) eqn:Einf; cbn [negb] in Ew.
  2:{ cbn in Ew. subst w'. split; [reflexivity|]. split; [discriminate|]. reflexivity. }
  split; [discriminate|].
  unfold Behaviour.on_cell at 1 in Ew.
  set (f := fun o0 : Cell.t => _) in Ew.
  set (w1 := modify_cell c f w) in Ew.
  assert (H1 : cells w1 !! c = Some (f o)).
  { unfold w1. rewrite lookup_modify_cell_eq, Ho. reflexivity. }
  assert (N1 : forall a, a ≠ c -> cells w1 !! a = cells w !! a).
  { intros a Ha. unfold w1. apply lookup_modify_cell_ne. auto. }
  unfold Behaviour.read_cell at 1 in Ew. rewrite H1 in Ew.
  assert (Ht : Cell.infectionTimer (f o) = Cell.infectionTimer o - 1) by reflexivity.
  rewrite Ht in Ew.
  set (m := if Behaviour.divides 20 _ then Behaviour.discard 9 else ret tt) in Ew.
  assert (H2 : cells (snd (m w1)) = cells w1).
  { unfold m. destruct (Behaviour.divides 20 _); [apply cells_discard|reflexivity]. }
  destruct (m w1) as [[] w2]. cbn [snd] in H2.
  destruct (Qle_bool (Cell.infectionTimer o - 1) 0) eqn:Et.
  - apply Qle_bool_iff in Et.
    unfold Behaviour.read_cell at 1 in Ew. rewrite H2, H1 in Ew.
    pose proof (cells_draw w2) as Hd. destruct (draw w2) as [r w3]. cbn [snd] in Hd.
    destruct (Qlt_bool r _); unfold Behaviour.on_cell in Ew; cbn [snd] in Ew; subst w'.
    + split.
      * intros _. eexists. rewrite lookup_modify_cell_eq, Hd, H2, H1.
        split; [reflexivity|]. split; [reflexivity|]. split; [intros; lra|].
        intros _. left. repeat split.
      * intros a Ha. rewrite lookup_modify_cell_ne, Hd, H2 by auto. apply N1, Ha.
    + split.
      * intros _. eexists. rewrite lookup_modify_cell_eq, Hd, H2, H1.
        split; [reflexivity|]. split; [reflexivity|]. split; [intros; lra|].
        intros _. right. split; [exact Einf|reflexivity].
      * intros a Ha. rewrite lookup_modify_cell_ne, Hd, H2 by auto. apply N1, Ha.
  - apply Qle_bool_false in Et. cbn [ret snd] in Ew. subst w'. split.
    + intros _. exists (f o). rewrite H2. split; [exact H1|].
      split; [reflexivity|]. split; [|intros; lra].
      intros _. split; [exact Einf|]. split; reflexivity.
    + intros a Ha. rewrite H2. apply N1, Ha.
Qed.

Lemma handleInfection_course_witness :
  cells Scenario.pair !! 1%nat = Some (Sample.cell 100 100) /\
  (Cell.isInfected (Sample.cell 100 100) = false ->
   snd (Behaviour.handleInfection 1%nat Scenario.pair) = Scenario.pair).
Proof.
  assert (H : cells Scenario.pair !! 1%nat = Some (Sample.cell 100 100))
    by (vm_compute; reflexivity).
  split; [exact H|].
  exact (proj1 (handleInfection_course 1%nat Scenario.pair (Sample.cell 100 100) H)).
Defined.

(** X17.  [findNearestCell] returns a nearest cell: a cell of the list
    other than the seeker, closer than the range, and no other cell of the
    list is closer; it returns nothing exactly when no other cell of the
    list is closer than the range. *)
Theorem findNearestCell_is_nearest (M : MathLib) (arr : list cell_id)
    (this : cell_id) (maxRange : Q) (w : World) (o : Cell.t) :
  cells w !! this = Some o ->
  match Behaviour.findNearestCell M arr this maxRange w with
  | Some n =>
      n ∈ arr /\ n ≠ this /\
      exists on, cells w !! n = Some on /\ distanceTo M o on < maxRange /\
        forall c oc, c ∈ arr -> c ≠ this -> cells w !! c = Some oc ->
          distanceTo M o on <= distanceTo M o oc
  | None =>
      forall c oc, c ∈ arr -> c ≠ this -> cells w !! c = Some oc ->
        maxRange <= distanceTo M o oc
  end.
Proof.
  intros Ho. unfold Behaviour.findNearestCell. rewrite Ho.
  set (f := fun (acc : option cell_id * Q) (c : cell_id) => _).
  pose (Inv := fun (acc : option cell_id * Q) (visited : list cell_id) =>
    (forall c oc, c ∈ visited -> c ≠ this -> cells w !! c = Some oc ->
       snd acc <= distanceTo M o oc) /\
    match fst acc with
    | Some n => n ∈ visited /\ n ≠ this /\
                exists on, cells w !! n = Some on /\ snd acc = distanceTo M o on /\
                           distanceTo M o on < maxRange
    | None => snd acc = maxRange
    end).
  assert (Hfold : forall l acc visited,
            Inv acc visited -> Inv (foldl f acc l) (visited ++ l)).
  { induction l as [|c l IH]; intros acc visited Hacc.
    - rewrite app_nil_r. exact Hacc.
    - cbn [foldl]. replace (visited ++ c :: l) with ((visited ++ [c]) ++ l)
        by (rewrite <- app_assoc; reflexivity).
      apply IH. destruct Hacc as [Hmin Hbest]. unfold f.
      destruct (decide (c = this)) as [->|Hne].
      { split.
        - intros c' oc Hin Hc'. apply elem_of_app in Hin as [Hin|Hin].
          + eapply Hmin; eassumption.
          + apply list_elem_of_singleton in Hin. contradiction.
        - destruct (fst acc) as [n|]; [|exact Hbest].
          destruct Hbest as (Hn & Hnt & Hon). split; [|split; assumption].
          apply elem_of_app. now left. }
      destruct (cells w !! c) as [oc|] eqn:Ec.
      2:{ split.
          - intros c' oc' Hin Hc' Hoc'. apply elem_of_app in Hin as [Hin|Hin].
            + eapply Hmin; eassumption.
            + apply list_elem_of_singleton in Hin. subst. congruence.
          - destruct (fst acc) as [n|]; [|exact Hbest].
            destruct Hbest as (Hn & Hnt & Hon). split; [|split; assumption].
            apply elem_of_app. now left. }
      cbv zeta. destruct (Qlt_bool (distanceTo M o oc) (snd acc)) eqn:Elt.
      + apply Qlt_bool_iff in Elt. unfold Inv. cbn [fst snd]. split.
        * intros c' oc' Hin Hc' Hoc'. apply elem_of_app in Hin as [Hin|Hin].
          -- pose proof (Hmin c' oc' Hin Hc' Hoc'). lra.
          -- apply list_elem_of_singleton in Hin. subst. rewrite Ec in Hoc'.
             injection Hoc' as <-. lra.
        * split; [apply elem_of_app; right; now left|]. split; [exact Hne|].
          exists oc. split; [exact Ec|]. split; [reflexivity|].
          destruct (fst acc) as [n|].
          -- destruct Hbest as (_ & _ & on & _ & Hs & Hr). rewrite Hs in Elt. lra.
          -- rewrite Hbest in Elt. exact Elt.
      + apply Qlt_bool_false in Elt. split.
        * intros c' oc' Hin Hc' Hoc'. apply elem_of_app in Hin as [Hin|Hin].
          -- eapply Hmin; eassumption.
          -- apply list_elem_of_singleton in Hin. subst. rewrite Ec in Hoc'.
             injection Hoc' as <-. exact Elt.
        * destruct (fst acc) as [n|]; [|exact Hbest].
          destruct Hbest as (Hn & Hnt & Hon). split; [|split; assumption].
          apply elem_of_app. now left. }
  specialize (Hfold arr (None, maxRange) []).
  cbn [app] in Hfold.
  destruct Hfold as [Hmin Hbest].
  { split; [|reflexivity]. intros c oc Hin. inversion Hin. }
  destruct (fst (foldl f (None, maxRange) arr)) as [n|].
  - destruct Hbest as (Hn & Hnt & on & Hon & Hs & Hr).
    split; [exact Hn|]. split; [exact Hnt|]. exists on.
    split; [exact Hon|]. split; [exact Hr|].
    intros c oc Hin Hc Hoc. rewrite <- Hs. eapply Hmin; eassumption.
  - intros c oc Hin Hc Hoc. rewrite <- Hbest. eapply Hmin; eassumption.
Qed.

Lemma findNearestCell_is_nearest_witness :
  cells Scenario.pair !! 1%nat = Some (Sample.cell 100 100) /\
  match Behaviour.findNearestCell Sample.math [1; 2]%nat 1%nat 60 Scenario.pair with
  | Some n => n ∈ [1; 2]%nat /\ n ≠ 1%nat
  | None => True
  end.
Proof.
  assert (H : cells Scenario.pair !! 1%nat = Some (Sample.cell 100 100))
    by (vm_compute; reflexivity).
  split; [exact H|].
  pose proof (findNearestCell_is_nearest Sample.math [1; 2]%nat 1%nat 60
                Scenario.pair (Sample.cell 100 100) H) as K.
  destruct (Behaviour.findNearestCell Sample.math [1; 2]%nat 1%nat 60 Scenario.pair).
  - destruct K as (K1 & K2 & _). split; assumption.
  - exact I.
Defined.

(** ** Colonies: capacity, bonds and sharing *)

(** X18.  A colony holds one bond at a time.  The key of a bond is built
    with [Math.min] and [Math.max] from ids that are not numbers, so every
    pair of cells has the same key: as soon as the bond map of a colony
    holds the key of any pair, [createBond] refuses every pair and changes
    nothing; in particular, after one successful [createBond] every
    further one on that colony fails. *)
Theorem colony_holds_one_bond (k : colony_id) (w : World) :
  (forall a b c3 c4 col,
     colonies w !! k = Some col ->
     is_Some (bondMap col !! Colony.bondKey a b) ->
     Colony.createBond k c3 c4 w = (false, w)) /\
  (forall c1 c2,
     fst (Colony.createBond k c1 c2 w) = true ->
     (exists col',
        colonies (snd (Colony.createBond k c1 c2 w)) !! k = Some col' /\
        bondMap col' !! Colony.bondKey c1 c2 = Some (mkBond c1 c2 1 0)) /\
     forall c3 c4,
       Colony.createBond k c3 c4 (snd (Colony.createBond k c1 c2 w))
       = (false, snd (Colony.createBond k c1 c2 w))).
Proof.
  assert (Hblock : forall w0 a b c3 c4 col,
            colonies w0 !! k = Some col ->
            is_Some (bondMap col !! Colony.bondKey a b) ->
            Colony.createBond k c3 c4 w0 = (false, w0)).
  { intros w0 a b c3 c4 col Hcol [bd Hb]. unfold Colony.createBond. rewrite Hcol.
    destruct (cells w0 !! c3); [|reflexivity].
    destruct (cells w0 !! c4); [|reflexivity].
    destruct (negb _ || negb _); [reflexivity|].
    destruct (_ || _); [reflexivity|].
    change (Colony.bondKey c3 c4) with (Colony.bondKey a b). rewrite Hb. reflexivity. }
  split; [apply Hblock|].
  intros c1 c2 Hok.
  assert (Hafter : exists col',
            colonies (snd (Colony.createBond k c1 c2 w)) !! k = Some col' /\
            bondMap col' !! Colony.bondKey c1 c2 = Some (mkBond c1 c2 1 0)).
  { revert Hok. unfold Colony.createBond.
    destruct (colonies w !! k) as [col|] eqn:Hcol; [|discriminate].
    destruct (cells w !! c1); [|discriminate].
    destruct (cells w !! c2); [|discriminate].
    destruct (negb _ || negb _); [discriminate|].
    destruct (_ || _); [discriminate|].
    destruct (bondMap col !! Colony.bondKey c1 c2); [discriminate|].
    intros _. cbv zeta. cbn [snd]. rewrite !colonies_modify_cell.
    rewrite lookup_modify_colony_eq, Hcol. cbn.
    eexists. split; [reflexivity|]. cbn. apply lookup_insert_eq. }
  split; [exact Hafter|].
  destruct Hafter as (col' & Hc & Hb). intros c3 c4.
  apply (Hblock _ c1 c2 c3 c4 col' Hc). rewrite Hb. eauto.
Qed.

(** X19.  [createBond] on two different cells never takes a cell beyond
    its [maxBonds]: if every cell is within its limit before, every cell
    is within it afterwards, the limit itself is not changed, and a bond
    list grows by at most one entry. *)
Theorem createBond_respects_maxBonds (k : colony_id) (c1 c2 : cell_id) (w : World) :
  c1 ≠ c2 ->
  (forall a o, cells w !! a = Some o -> (length (Cell.bonds o) <= Cell.maxBonds o)%nat) ->
  forall a o', cells (snd (Colony.createBond k c1 c2 w)) !! a = Some o' ->
    (length (Cell.bonds o') <= Cell.maxBonds o')%nat /\
    exists o, cells w !! a = Some o /\ Cell.maxBonds o' = Cell.maxBonds o /\
      (length (Cell.bonds o) <= length (Cell.bonds o') <= S (length (Cell.bonds o)))%nat.
Proof.
  intros Hne Hinv a o'.
  destruct (fst (Colony.createBond k c1 c2 w)) eqn:Hres.
  2:{ rewrite createBond_refused by exact Hres. intros H.
      split; [eapply Hinv, H|]. exists o'. split; [exact H|]. split; [reflexivity|lia]. }
  revert Hres. unfold Colony.createBond.
  destruct (colonies w !! k) as [col|]; [|discriminate].
  destruct (cells w !! c1) as [o1|] eqn:E1; [|discriminate].
  destruct (cells w !! c2) as [o2|] eqn:E2; [|discriminate].
  destruct (negb _ || negb _); [discriminate|].
  destruct (_ || _) eqn:Efull; [discriminate|].
  destruct (bondMap col !! Colony.bondKey c1 c2); [discriminate|].
  apply orb_false_iff in Efull as [F1 F2].
  apply Nat.leb_gt in F1, F2.
  intros _ H. cbv zeta in H. cbn [snd] in H.
  apply lookup_modify_cell in H as (o4 & H & ->).
  apply lookup_modify_cell in H as (o3 & H & ->).
  apply lookup_modify_cell in H as (o2' & H & ->).
  apply lookup_modify_cell in H as (o & H & ->).
  rewrite cells_modify_colony in H.
  assert (Hres : (length (Cell.bonds
             (if decide (c2 = a) then Cell.set_bonds (Cell.bonds
                (if decide (c1 = a) then Cell.set_bonds (Cell.bonds o ++ [c2]) o else o) ++ [c1])
                (if decide (c1 = a) then Cell.set_bonds (Cell.bonds o ++ [c2]) o else o)
              else (if decide (c1 = a) then Cell.set_bonds (Cell.bonds o ++ [c2]) o else o)))
           <= Cell.maxBonds o)%nat /\
          (length (Cell.bonds o) <= length (Cell.bonds
             (if decide (c2 = a) then Cell.set_bonds (Cell.bonds
                (if decide (c1 = a) then Cell.set_bonds (Cell.bonds o ++ [c2]) o else o) ++ [c1])
                (if decide (c1 = a) then Cell.set_bonds (Cell.bonds o ++ [c2]) o else o)
              else (if decide (c1 = a) then Cell.set_bonds (Cell.bonds o ++ [c2]) o else o)))
           <= S (length (Cell.bonds o)))%nat).
  { pose proof (Hinv a o H) as Ha.
    destruct (decide (c1 = a)) as [->|]; destruct (decide (c2 = a)) as [->|];
      try congruence; cbn; rewrite ?length_app; cbn.
    - rewrite E1 in H. injection H as <-. lia.
    - rewrite E2 in H. injection H as <-. lia.
    - lia. }
  split.
  - destruct (decide (c1 = a)), (decide (c2 = a)); cbn in *; lia.
  - exists o. split; [exact H|].
    destruct (decide (c1 = a)), (decide (c2 = a)); cbn in *; split; try reflexivity; lia.
Qed.

Lemma createBond_respects_maxBonds_witness :
  (1%nat ≠ 2%nat /\
   forall a o, cells Scenario.bonded !! a = Some o ->
     (length (Cell.bonds o) <= Cell.maxBonds o)%nat) /\
  forall a o',
    cells (snd (Colony.createBond 0%nat 1%nat 2%nat Scenario.bonded)) !! a = Some o' ->
    (length (Cell.bonds o') <= Cell.maxBonds o')%nat.
Proof.
  assert (H1 : 1%nat ≠ 2%nat) by discriminate.
  assert (H2 : forall a o, cells Scenario.bonded !! a = Some o ->
                 (length (Cell.bonds o) <= Cell.maxBonds o)%nat).
  { intros a o H. apply elem_of_map_to_list in H.
    assert (F : Forall (fun p => (length (Cell.bonds p.2) <= Cell.maxBonds p.2)%nat)
                  (map_to_list (cells Scenario.bonded)))
      by (vm_compute; repeat constructor).
    rewrite Forall_forall in F. exact (F (a, o) H). }
  split; [split; assumption|].
  intros a o' H.
  exact (proj1 (createBond_respects_maxBonds 0%nat 1%nat 2%nat Scenario.bonded
                  H1 H2 a o' H)).
Defined.

Lemma createBond_members (k a : colony_id) (c1 c2 : cell_id) (w : World) :
  members <$> colonies (snd (Colony.createBond k c1 c2 w)) !! a
  = members <$> colonies w !! a.
Proof.
  unfold Colony.createBond.
  destruct (colonies w !! k) as [col|] eqn:Hcol; [|reflexivity].
  destruct (cells w !! c1); [|reflexivity].
  destruct (cells w !! c2); [|reflexivity].
  destruct (negb _ || negb _); [reflexivity|].
  destruct (_ || _); [reflexivity|].
  destruct (bondMap col !! Colony.bondKey c1 c2); [reflexivity|].
  cbv zeta. cbn [snd]. rewrite !colonies_modify_cell, lookup_modify_colony.
  destruct (decide (k = a)) as [<-|]; [|reflexivity].
  rewrite Hcol. reflexivity.
Qed.

(** X20.  [addMember] admits a cell exactly when it is not a member yet
    and the colony has fewer than twenty members; a refusal changes
    nothing; an admitted cell is appended to the members and refers to the
    colony.  So the member list of a colony stays free of duplicates and
    never grows beyond twenty. *)
Theorem addMember_capacity (k : colony_id) (c : cell_id) (bondWith : option cell_id)
    (w : World) (col : ColonyData) :
  colonies w !! k = Some col ->
  let r := Colony.addMember k c bondWith w in
  (fst r = true <-> (c ∉ members col) /\ (length (members col) < 20)%nat) /\
  (fst r = false -> snd r = w) /\
  (fst r = true ->
   (exists col', colonies (snd r) !! k = Some col' /\
                 members col' = members col ++ [c]) /\
   (forall o', cells (snd r) !! c = Some o' -> Cell.colony o' = Some k)) /\
  (NoDup (members col) -> (length (members col) <= 20)%nat ->
   forall col', colonies (snd r) !! k = Some col' ->
     NoDup (members col') /\ (length (members col') <= 20)%nat).
Proof.
  intros Hcol. cbv zeta. unfold Colony.addMember. rewrite Hcol.
  unfold Colony.includes.
  destruct (bool_decide (c ∈ members col)) eqn:Ein.
  { apply bool_decide_eq_true in Ein. cbn.
    split; [split; [discriminate|intros [H _]; contradiction]|].
    split; [reflexivity|]. split; [discriminate|].
    intros Hnd Hlen col' H. rewrite Hcol in H. injection H as <-. auto. }
  apply bool_decide_eq_false in Ein.
  destruct (20 <=? length (members col))%nat eqn:Efull.
  { apply Nat.leb_le in Efull. cbn.
    split; [split; [discriminate|intros [_ H]; lia]|].
    split; [reflexivity|]. split; [discriminate|].
    intros Hnd Hlen col' H. rewrite Hcol in H. injection H as <-. auto. }
  apply Nat.leb_gt in Efull. cbv zeta. cbn [fst snd].
  set (w2 := modify_cell c (Cell.set_colony (Some k))
               (modify_colony k (Colony.set_members (members col ++ [c])) w)).
  set (w3 := match bondWith with
             | Some b => if bool_decide (b ∈ members col ++ [c])
                         then snd (Colony.createBond k c b w2) else w2
             | None => w2
             end).
  assert (Hm2 : members <$> colonies w2 !! k = Some (members col ++ [c])).
  { unfold w2. rewrite colonies_modify_cell, lookup_modify_colony_eq, Hcol. reflexivity. }
  assert (Hm3 : members <$> colonies w3 !! k = Some (members col ++ [c])).
  { unfold w3. destruct bondWith as [b|]; [|exact Hm2].
    destruct (bool_decide _); [|exact Hm2]. rewrite createBond_members. exact Hm2. }
  assert (Hc2 : forall o', cells w2 !! c = Some o' -> Cell.colony o' = Some k).
  { unfold w2. intros o' H. apply lookup_modify_cell in H as (o & _ & ->).
    rewrite decide_True by reflexivity. reflexivity. }
  assert (Hc3 : forall o', cells w3 !! c = Some o' -> Cell.colony o' = Some k).
  { unfold w3. destruct bondWith as [b|]; [|exact Hc2].
    destruct (bool_decide _); [|exact Hc2].
    intros o' H.
    destruct (fst (Colony.createBond k c b w2)) eqn:Hres.
    - revert Hres H. unfold Colony.createBond.
      destruct (colonies w2 !! k) as [col2|]; [|discriminate].
      destruct (cells w2 !! c) as [o1|] eqn:E1; [|discriminate].
      destruct (cells w2 !! b) as [o2|] eqn:E2; [|discriminate].
      destruct (negb _ || negb _); [discriminate|].
      destruct (_ || _); [discriminate|].
      destruct (bondMap col2 !! Colony.bondKey c b); [discriminate|].
      intros _ H. cbv zeta in H. cbn [snd] in H.
      apply lookup_modify_cell in H as (o4 & H & ->).
      apply lookup_modify_cell in H as (o3 & H & ->).
      apply lookup_modify_cell in H as (o2' & H & ->).
      apply lookup_modify_cell in H as (o & H & ->).
      rewrite cells_modify_colony, E1 in H. injection H as <-.
      pose proof (Hc2 _ eq_refl) as Hk.
      repeat case_match; cbn; exact Hk.
    - rewrite createBond_refused in H by exact Hres. apply Hc2, H. }
  split; [split; [intros _; split; [exact Ein|exact Efull]|reflexivity]|].
  split; [discriminate|].
  split.
  - intros _. split; [|exact Hc3].
    destruct (colonies w3 !! k) as [col3|]; [|discriminate].
    exists col3. split; [reflexivity|]. cbn in Hm3. congruence.
  - intros Hnd Hlen col' H. rewrite H in Hm3. cbn in Hm3. injection Hm3 as ->.
    split.
    + apply NoDup_app. split; [exact Hnd|]. split; [|apply NoDup_singleton].
      intros x Hx Hx'. apply list_elem_of_singleton in Hx'. subst. contradiction.
    + rewrite length_app. cbn. lia.
Qed.

Lemma addMember_capacity_witness :
  exists col,
    colonies Scenario.bonded !! 0%nat = Some col /\
    (fst (Colony.addMember 0%nat 2%nat None Scenario.bonded) = false ->
     snd (Colony.addMember 0%nat 2%nat None Scenario.bonded) = Scenario.bonded).
Proof.
  destruct (colonies Scenario.bonded !! 0%nat) as [col|] eqn:H.
  - exists col. split; [reflexivity|].
    exact (proj1 (proj2 (addMember_capacity 0%nat 2%nat None Scenario.bonded col H))).
  - exfalso. revert H. vm_compute. discriminate.
Defined.

(** X21.  [shareResources] only gives.  With no energy below 0 in the
    store, the sharing of a colony lowers the energy of no cell and
    changes neither health nor the maximal energy; a cell that is not a
    member, and every cell when the colony does not exist, is left exactly
    as it is.  Nothing is taken from the members the energy is said to be
    pooled from. *)
Theorem shareResources_only_gives (k : colony_id) (w : World) (a : cell_id)
    (o' : Cell.t) :
  (forall c o, cells w !! c = Some o -> 0 <= Cell.energy o) ->
  cells (Colony.shareResources k w) !! a = Some o' ->
  exists o, cells w !! a = Some o /\
    Cell.health o' = Cell.health o /\ Cell.maxEnergy o' = Cell.maxEnergy o /\
    Cell.energy o <= Cell.energy o' /\
    (forall col, colonies w !! k = Some col -> a ∉ members col -> o' = o) /\
    (colonies w !! k = None -> o' = o).
Proof.
  intros Hpos H.
  destruct (shareResources_cells k w a o' Hpos H) as (o & Ho & Eh & _ & Eme & Ele & _).
  exists o. split; [exact Ho|]. split; [exact Eh|]. split; [exact Eme|].
  split; [exact Ele|].
  split.
  - intros col Hcol Hnot. revert H. unfold Colony.shareResources. rewrite Hcol.
    cbv zeta.
    set (w1 := modify_colony k _ w).
    assert (Hw1 : cells w1 !! a = Some o) by exact Ho. clearbody w1.
    revert w1 Hw1 Hnot. generalize (Colony.totalEnergy w (members col) * 0.9
                             / inject_Z (Z.of_nat (length (members col)))).
    generalize (Colony.totalEnergy w (members col) * 0.1).
    induction (members col) as [|c l IH]; intros sh ind w1 Hw1 Hnot H.
    + cbn in H. congruence.
    + cbn [foldl] in H. apply not_elem_of_cons in Hnot as [Hne Hnot].
      refine (IH sh ind _ _ Hnot H).
      unfold Colony.shareWith. destruct (cells w1 !! c); [|exact Hw1].
      destruct (Qlt_bool _ _); [|exact Hw1].
      rewrite cells_modify_colony, lookup_modify_cell_ne by auto. exact Hw1.
  - intros Hnone. revert H. unfold Colony.shareResources. rewrite Hnone.
    intros H. congruence.
Qed.

Lemma shareResources_only_gives_witness :
  ((forall c o, cells Scenario.unequal !! c = Some o -> 0 <= Cell.energy o) /\
   exists o', cells (Colony.shareResources 0%nat Scenario.unequal) !! 1%nat = Some o') /\
  exists o o',
    cells Scenario.unequal !! 1%nat = Some o /\
    cells (Colony.shareResources 0%nat Scenario.unequal) !! 1%nat = Some o' /\
    Cell.energy o == 10 /\ Cell.energy o' == 19 /\
    Cell.energy o <= Cell.energy o'.
Proof.
  assert (H1 : forall c o, cells Scenario.unequal !! c = Some o -> 0 <= Cell.energy o).
  { intros a o H. apply elem_of_map_to_list in H.
    assert (F : Forall (fun p => 0 <= Cell.energy p.2)
                  (map_to_list (cells Scenario.unequal)))
      by (vm_compute; repeat constructor; discriminate).
    rewrite Forall_forall in F. exact (F (a, o) H). }
  assert (H2 : exists o',
             cells (Colony.shareResources 0%nat Scenario.unequal) !! 1%nat = Some o' /\
             Cell.energy o' == 19)
    by (eexists; split; vm_compute; reflexivity).
  destruct H2 as (o' & H2 & E19).
  split; [split; [exact H1|exists o'; exact H2]|].
  destruct (shareResources_only_gives 0%nat Scenario.unequal 1%nat o' H1 H2)
    as (o & Ho & _ & _ & Hle & _).
  exists o, o'. split; [exact Ho|]. split; [exact H2|].
  split; [|split; [exact E19|exact Hle]].
  assert (E : exists o0, cells Scenario.unequal !! 1%nat = Some o0 /\
                         Cell.energy o0 == 10)
    by (eexists; split; vm_compute; reflexivity).
  destruct E as (o0 & Ho0 & E10).
  pose proof (eq_trans (eq_sym Ho) Ho0) as Heq. injection Heq as ->.
  exact E10.
Defined.

(** ** Reproduction: reserves and offspring *)

(** X22.  [considerReproduction] asks for reserves and spends energy
    only.  The energy threshold it computes lies between 0.6 and 0.85 and
    the cooldown is at most 520; a cell found ready has more than 60 per
    cent of its energy, more than half of its health and more than 7 ticks
    since its last reproduction.  A cell not ready is left as it is; a
    ready one is flagged and pays 30 or 40 per cent of its energy, and in
    neither case does the health or the maximal energy change. *)
Theorem considerReproduction_needs_reserves (members : option nat) (c : Cell.t) :
  0.6 <= Reproduction.energyThreshold members c <= 0.85 /\
  Reproduction.reproductionCooldown members c <= 520 /\
  (Reproduction.ready members c = true ->
   0.6 < Reproduction.energyRatio c /\ 0.5 < Reproduction.healthRatio c /\
   7 < inject_Z (Cell.age c - Cell.lastReproduction c)) /\
  let c' := Reproduction.considerReproduction members c in
  Cell.health c' = Cell.health c /\ Cell.maxEnergy c' = Cell.maxEnergy c /\
  (Reproduction.ready members c = false -> c' = c) /\
  (Reproduction.ready members c = true ->
   Cell.reproduced c' = true /\
   (Cell.energy c' = Cell.energy c * 0.7 \/ Cell.energy c' = Cell.energy c * 0.6)).
Proof.
  assert (Hth : 0.6 <= Reproduction.energyThreshold members c <= 0.85 /\
                Reproduction.reproductionCooldown members c <= 520).
  { unfold Reproduction.energyThreshold, Reproduction.reproductionCooldown,
      Reproduction.cooldownAndThreshold.
    destruct (Qlt_bool 0.85 (Reproduction.energyRatio c));
    destruct (Qlt_bool 0.95 (Reproduction.energyRatio c));
    destruct (Reproduction.inGrowingColony members);
    destruct (decide (Cell.colonyRole c = sedentary));
    destruct (Qlt_bool 0.9 (Reproduction.healthRatio c));
    destruct (Traits.lifestage (Cell.traits c));
    vm_compute; repeat split; discriminate. }
  destruct Hth as [Hth Hcd]. split; [exact Hth|]. split; [exact Hcd|].
  split.
  - intros Hr. unfold Reproduction.ready in Hr.
    apply andb_true_iff in Hr as [Hr Hh]. apply andb_true_iff in Hr as [Hc He].
    apply Qlt_bool_iff in Hc, He, Hh.
    pose proof (reproductionCooldown_floor members c) as Hfloor.
    unfold Reproduction.timeSinceLastReproduction in Hc.
    repeat split; lra.
  - cbv zeta. unfold Reproduction.considerReproduction,
      Reproduction.handleRoleBasedReproduction, Reproduction.createOffspring.
    destruct (Reproduction.ready members c).
    + destruct (Qlt_bool 0.95 _); cbn; repeat split; try discriminate; auto.
    + repeat split; discriminate.
Qed.

(** X23.  [reproduce] gives one offspring per flag.  For a cell that is
    missing or not flagged it returns null and changes nothing.  For a
    flagged cell it returns a new object, different from the parent and
    from every cell there was, clears the flag of the parent without
    changing anything else of it, leaves every other cell alone, and a
    second call right after returns null. *)
Theorem reproduce_one_offspring_per_flag (E : Externals) (c : cell_id) (rate : Q)
    (w : World) :
  let r := reproduce E c rate w in
  (cells w !! c = None -> r = (None, w)) /\
  (forall o, cells w !! c = Some o -> Cell.reproduced o = false -> r = (None, w)) /\
  (forall o, cells w !! c = Some o -> Cell.reproduced o = true ->
   exists k,
     fst r = Some k /\ (k ∉ dom (cells w)) /\ k ≠ c /\
     is_Some (cells (snd r) !! k) /\
     cells (snd r) !! c = Some (Cell.set_reproduced false o) /\
     (forall a, a ≠ c -> a ≠ k -> cells (snd r) !! a = cells w !! a) /\
     fst (reproduce E c rate (snd r)) = None).
Proof.
  cbv zeta. split; [|split].
  - intros H. unfold reproduce. rewrite H. reflexivity.
  - intros o H Hr. unfold reproduce. rewrite H, Hr. reflexivity.
  - intros o H Hr.
    assert (Hin : c ∈ dom (cells w)) by (apply elem_of_dom; eauto).
    remember (reproduce E c rate w) as r eqn:Er.
    unfold reproduce in Er. rewrite H, Hr in Er. cbn [negb] in Er.
    set (w1 := modify_cell c (Cell.set_reproduced false) w) in Er.
    assert (Hc1 : cells w1 !! c = Some (Cell.set_reproduced false o)).
    { unfold w1. rewrite lookup_modify_cell_eq, H. reflexivity. }
    assert (Hn1 : forall a, a ≠ c -> cells w1 !! a = cells w !! a).
    { intros a Ha. unfold w1. apply lookup_modify_cell_ne. auto. }
    assert (Hd1 : dom (cells w1) = dom (cells w)) by apply dom_modify_cell.
    pose proof (cells_draw w1) as Hd. destruct (draw w1) as [r0 w2]. cbn [snd] in Hd.
    destruct (Mutation.mutate o rate (rng w2)) as [mt g].
    unfold construct_in, allocate in Er.
    cbn [rng set_rng] in Er.
    destruct (construct E _ _ _ _ g) as [child g'].
    cbn [cells set_cells set_rng] in Er.
    set (k := fresh (dom (cells w2))) in Er.
    assert (Hk : k ∉ dom (cells w)).
    { unfold k. rewrite Hd, Hd1. apply is_fresh. }
    assert (Hkc : k ≠ c) by (intros ->; contradiction).
    subst r. cbn [fst snd cells set_cells]. exists k.
    split; [reflexivity|]. split; [exact Hk|]. split; [exact Hkc|].
    split; [rewrite lookup_insert_eq; eauto|].
    split; [rewrite lookup_insert_ne, Hd by auto; exact Hc1|].
    split.
    + intros a Ha Hak. rewrite lookup_insert_ne, Hd by auto. apply Hn1, Ha.
    + unfold reproduce. cbn [cells set_cells]. 
      rewrite lookup_insert_ne, Hd, Hc1 by auto. reflexivity.
Qed.

(** ** Combat touches the two parties only *)

Section Bystander.

Variables (c1 c2 a : cell_id).
Hypothesis (H1 : c1 ≠ a) (H2 : c2 ≠ a).

Lemma bystander_first f w : cells (modify_cell c1 f w) !! a = cells w !! a.
Proof. apply lookup_modify_cell_ne, H1. Qed.

Lemma bystander_second f w : cells (modify_cell c2 f w) !! a = cells w !! a.
Proof. apply lookup_modify_cell_ne, H2. Qed.

Lemma bystander_draw w : cells (snd (draw w)) !! a = cells w !! a.
Proof. rewrite cells_draw. reflexivity. Qed.

Create Rewrite HintDb bystander.
#[local] Hint Rewrite bystander_first bystander_second bystander_draw : bystander.

Ltac bystander_eq :=
  match goal with
  | E : ?e = (?r, ?w') |- _ =>
      lazymatch type of w' with World => idtac end;
      apply (f_equal (fun p => cells (snd p) !! a)) in E;
      cbv beta in E; cbn [snd] in E;
      autorewrite with bystander in E
  end.

Ltac bystander :=
  repeat first
    [ bystander_eq
    | case_match
    | progress cbv beta zeta
    | progress cbn [snd fst]
    | progress autorewrite with bystander ];
  cbn [snd fst] in *;
  autorewrite with bystander in *;
  try congruence.

Lemma bystander_calculateDefenseInteraction q w :
  cells (snd (Combat.calculateDefenseInteraction c1 c2 q w)) !! a = cells w !! a.
Proof. unfold Combat.calculateDefenseInteraction, Combat.on_states. bystander. Qed.

Lemma bystander_calculateDefenseInteraction_rev q w :
  cells (snd (Combat.calculateDefenseInteraction c2 c1 q w)) !! a = cells w !! a.
Proof. unfold Combat.calculateDefenseInteraction, Combat.on_states. bystander. Qed.

Lemma bystander_handleSpecialCombatEffects w :
  cells (snd (Combat.handleSpecialCombatEffects c1 c2 w)) !! a = cells w !! a.
Proof. unfold Combat.handleSpecialCombatEffects, Combat.on_states. bystander. Qed.

Lemma bystander_handleCellInteraction M w :
  cells (snd (Combat.handleCellInteraction M c1 c2 w)) !! a = cells w !! a.
Proof.
  unfold Combat.handleCellInteraction.
  destruct (cells w !! c1) as [o1|]; [|reflexivity].
  destruct (cells w !! c2) as [o2|]; [|reflexivity].
  destruct (negb _); [reflexivity|]. cbv zeta.
  pose proof (bystander_calculateDefenseInteraction (Cell.size o1 * 0.2) w) as E1.
  destruct (Combat.calculateDefenseInteraction c1 c2 _ w) as [d1 w1]. cbn [snd] in E1.
  pose proof (bystander_calculateDefenseInteraction_rev (Cell.size o2 * 0.2) w1) as E2.
  destruct (Combat.calculateDefenseInteraction c2 c1 _ w1) as [d2 w2]. cbn [snd] in E2.
  rewrite bystander_handleSpecialCombatEffects.
  autorewrite with bystander. congruence.
Qed.

End Bystander.

(** X24.  An interaction touches its two parties only.
    [handleCellInteraction] changes no cell other than the two it is
    called with, creates and destroys no cell, and changes nothing at all
    when the two do not collide or one of them does not exist. *)
Theorem combat_touches_only_its_parties (M : MathLib) (c1 c2 : cell_id) (w : World) :
  let w' := snd (Combat.handleCellInteraction M c1 c2 w) in
  (forall a, a ≠ c1 -> a ≠ c2 -> cells w' !! a = cells w !! a) /\
  dom (cells w') = dom (cells w) /\
  (forall o1 o2, cells w !! c1 = Some o1 -> cells w !! c2 = Some o2 ->
     Behaviour.collidesWith M o1 o2 = false -> w' = w) /\
  (cells w !! c1 = None \/ cells w !! c2 = None -> w' = w).
Proof.
  cbv zeta. split; [|split; [|split]].
  - intros a Ha1 Ha2. apply bystander_handleCellInteraction; auto.
  - apply dom_handleCellInteraction.
  - intros o1 o2 Ho1 Ho2 Hc. unfold Combat.handleCellInteraction.
    rewrite Ho1, Ho2, Hc. reflexivity.
  - intros [H|H]; unfold Combat.handleCellInteraction; rewrite H;
      [reflexivity|destruct (cells w !! c1); reflexivity].
Qed.

(** X25.  Predation is never mutual: of two cells of which one at least
    has a positive size, if the first can prey on the second, the second
    cannot prey on the first. *)
Theorem canPredate_never_mutual (a b : Cell.t) :
  0 < Cell.size a \/ 0 < Cell.size b ->
  Predation.canPredate a b = true -> Predation.canPredate b a = false.
Proof.
  intros Hpos Hab. apply canPredate_iff in Hab as (Hsize & _).
  destruct (Predation.canPredate b a) eqn:Hba; [|reflexivity].
  apply canPredate_iff in Hba as (Hsize' & _). lra.
Qed.

Lemma canPredate_never_mutual_witness :
  ((0 < Cell.size Sample.hunter \/ 0 < Cell.size Sample.quarry) /\
   Predation.canPredate Sample.hunter Sample.quarry = true) /\
  Predation.canPredate Sample.quarry Sample.hunter = false.
Proof.
  assert (H1 : 0 < Cell.size Sample.hunter \/ 0 < Cell.size Sample.quarry)
    by (left; reflexivity).
  assert (H2 : Predation.canPredate Sample.hunter Sample.quarry = true)
    by (vm_compute; reflexivity).
  split; [split; assumption|].
  exact (canPredate_never_mutual Sample.hunter Sample.quarry H1 H2).
Defined.

(** ** Population set-up, bookkeeping and interventions *)

Lemma for_loop_counted {G S} (P : nat -> S -> G -> Prop)
    (body : nat -> S -> State G S) (n : nat) :
  (forall i j s g, P j s g -> P (Datatypes.S j) (body i s g).1 (body i s g).2) ->
  forall i j s g, P j s g ->
    P (j + n)%nat (for_loop n i body s g).1 (for_loop n i body s g).2.
Proof.
  intros Hbody. induction n as [|n IH]; intros i j s g Hs; cbn.
  - rewrite Nat.add_0_r. exact Hs.
  - unfold bind. pose proof (Hbody i j s g Hs) as Hstep.
    destruct (body i s g) as [s1 g1]. cbn [fst snd] in Hstep.
    replace (j + Datatypes.S n)%nat with (Datatypes.S j + n)%nat by lia.
    apply IH, Hstep.
Qed.

(** X26.  [spawnInitialCells] appends exactly [initialCells] cells to the
    array, each one a new object that was not in the store before; the
    array stays free of duplicates, every cell of it is in the store, and
    the cells there were are left as they are. *)
Theorem spawnInitialCells_population (E : Externals) (s : t) :
  NoDup (cellsArr s) -> array_in_store s ->
  let s' := spawnInitialCells E s in
  length (cellsArr s') = (length (cellsArr s) + initialCells (settings s))%nat /\
  (exists fresh_cells, cellsArr s' = cellsArr s ++ fresh_cells /\
     forall c, c ∈ fresh_cells -> c ∉ dom (cells (world s))) /\
  NoDup (cellsArr s') /\ array_in_store s' /\
  (forall c o, cells (world s) !! c = Some o -> cells (world s') !! c = Some o).
Proof.
  intros Hnd Hsto. cbv zeta. unfold spawnInitialCells.
  pose (P := fun (j : nat) (arr : list cell_id) (w : World) =>
    length arr = (length (cellsArr s) + j)%nat /\
    (exists fresh_cells, arr = cellsArr s ++ fresh_cells /\
       forall c, c ∈ fresh_cells -> c ∉ dom (cells (world s))) /\
    NoDup arr /\ (forall c, c ∈ arr -> c ∈ dom (cells w)) /\
    (forall c o, cells (world s) !! c = Some o -> cells w !! c = Some o)).
  match goal with
  | |- context [for_loop ?n 0 ?body (cellsArr s) (world s)] =>
      assert (Hstep : forall i j arr w, P j arr w ->
                P (S j) (body i arr w).1 (body i arr w).2);
      [|pose proof (for_loop_counted P body n Hstep 0%nat 0%nat (cellsArr s) (world s))
          as Hloop]
  end.
  2:{ destruct (for_loop _ _ _ _ _) as [arr w]. cbn [fst snd] in Hloop.
      destruct Hloop as (Hlen & Hfresh & Hnd' & Hsto' & Hkeep).
      { unfold P. rewrite Nat.add_0_r. split; [reflexivity|]. split.
        - exists []. rewrite app_nil_r. split; [reflexivity|]. intros c Hc. inversion Hc.
        - split; [exact Hnd|]. split; [exact Hsto|]. auto. }
      cbn. repeat split; assumption. }
  cbv beta.
  intros i j arr w (Hlen & (fr & Hfr & Hfresh) & Hnd' & Hsto' & Hkeep).
  pose proof (cells_draw w) as Hd1. destruct (draw w) as [rx w1]. cbn [snd] in Hd1.
  pose proof (cells_draw w1) as Hd2. destruct (draw w1) as [ry w2]. cbn [snd] in Hd2.
  unfold construct_in, allocate.
  destruct (construct E _ _ _ _ _) as [o g]. cbn [fst snd cells set_cells set_rng].
  set (k := fresh (dom (cells w2))).
  assert (Hk : k ∉ dom (cells w2)) by apply is_fresh.
  assert (Hw : cells w2 = cells w) by congruence.
  rewrite Hw in *.
  unfold P. cbn [fst snd cells set_cells set_rng].
  split; [rewrite length_app; cbn; lia|]. split.
  - exists (fr ++ [k]). rewrite Hfr, app_assoc. split; [reflexivity|].
    intros c Hc. apply elem_of_app in Hc as [Hc|Hc]; [apply Hfresh, Hc|].
    apply list_elem_of_singleton in Hc. subst c. intros Hin.
    apply Hk. apply elem_of_dom in Hin as [oc Hoc]. apply elem_of_dom.
    exists oc. apply Hkeep, Hoc.
  - split.
    + apply NoDup_app. split; [exact Hnd'|]. split; [|apply NoDup_singleton].
      intros x Hx Hx'. apply list_elem_of_singleton in Hx'. subst. apply Hk, Hsto', Hx.
    + split.
      * intros c Hc. rewrite dom_insert. apply elem_of_app in Hc as [Hc|Hc].
        -- apply elem_of_union. right. apply Hsto', Hc.
        -- apply list_elem_of_singleton in Hc. subst. apply elem_of_union. left.
           apply elem_of_singleton. reflexivity.
      * intros c oc Hoc. rewrite lookup_insert_ne; [apply Hkeep, Hoc|].
        intros <-. apply Hk. apply elem_of_dom. exists oc. apply Hkeep, Hoc.
Qed.

Lemma spawnInitialCells_population_witness :
  (NoDup (cellsArr Scenario.wake) /\ array_in_store Scenario.wake) /\
  length (cellsArr (spawnInitialCells Scenario.inert Scenario.wake)) = 52%nat.
Proof.
  split; [exact (proj2 wake_ready)|].
  exact (proj1 (spawnInitialCells_population Scenario.inert Scenario.wake
                  (proj1 (proj2 wake_ready)) (proj2 (proj2 wake_ready)))).
Defined.

Lemma last_drop_lt {A} (n : nat) (l : list A) :
  (n < length l)%nat -> last (drop n l) = last l.
Proof.
  intros H. rewrite !last_lookup, lookup_drop, length_drop. f_equal. lia.
Qed.

(** X27.  [updateStats] counts the cells and the food that is not
    consumed, and changes neither the array nor the store.  Every tenth
    tick it appends one entry to the population history; a history that
    has reached 1000 entries is cut down to its last 500, the new entry
    last, so the history never exceeds 1000 entries. *)
Theorem updateStats_history_bounded (s : t) :
  let s' := updateStats s in
  let h := populationHistory (stats s) in
  let h' := populationHistory (stats s') in
  totalCells (stats s') = length (cellsArr s) /\
  foodCount (stats s') = length (getFood (world s)) /\
  cellsArr s' = cellsArr s /\ world s' = world s /\
  ((length h <= 1000)%nat -> (length h' <= 1000)%nat) /\
  ((tick s mod 10 ≠ 0)%Z -> h' = h) /\
  ((tick s mod 10 = 0)%Z -> (length h < 1000)%nat ->
   h' = h ++ [(tick s, length (cellsArr s), length (getFood (world s)))]) /\
  ((tick s mod 10 = 0)%Z -> (1000 <= length h)%nat ->
   length h' = 500%nat /\
   last h' = Some (tick s, length (cellsArr s), length (getFood (world s)))).
Proof.
  cbv zeta. unfold updateStats. cbv zeta.
  cbn [stats set_stats populationHistory totalCells foodCount cellsArr world].
  destruct (tick s mod 10 =? 0)%Z eqn:Et;
    [apply Z.eqb_eq in Et|apply Z.eqb_neq in Et].
  - set (h1 := populationHistory (stats s) ++ _).
    assert (Hl : length h1 = S (length (populationHistory (stats s))))
      by (unfold h1; rewrite length_app; cbn; lia).
    destruct (1000 <? length h1)%nat eqn:Eb;
      [apply Nat.ltb_lt in Eb|apply Nat.ltb_ge in Eb].
    + repeat split; try (intros; lia); try (intros; contradiction).
      * intros _. rewrite length_drop. lia.
      * rewrite length_drop. lia.
      * rewrite last_drop_lt by lia. apply last_snoc.
    + repeat split; try (intros; lia); try (intros; contradiction).
  - repeat split; try (intros; lia); try (intros; contradiction).
Qed.

Lemma foldl_preserves {A B} (P : A -> Prop) (f : A -> B -> A) (l : list B) (a : A) :
  P a -> (forall a b, P a -> P (f a b)) -> P (foldl f a l).
Proof.
  intros Ha Hf. revert a Ha. induction l as [|b l IH]; intros a Ha; cbn; auto.
Qed.

Lemma foldl_preserves_in {A B} (P : A -> Prop) (f : A -> B -> A) (l : list B) (a : A) :
  P a -> (forall a b, b ∈ l -> P a -> P (f a b)) -> P (foldl f a l).
Proof.
  revert a. induction l as [|b l IH]; intros a Ha Hf; cbn; [exact Ha|].
  apply IH; [apply Hf; [now left|exact Ha]|].
  intros a' b' Hb'. apply Hf. now right.
Qed.

(** X28.  [applyPoisonEffects] only hurts.  It leaves the array as it is,
    creates and destroys no cell, and changes a cell only by a whole
    number of doses: its health is what taking 0.3 away that many times
    leaves, its energy what taking 0.2 away that many times leaves, so
    neither grows; a cell outside the array gets no dose, and without a
    poisonous cell with an active aura nothing changes. *)
Theorem applyPoisonEffects_only_hurts (E : Externals) (s : t) :
  let s' := applyPoisonEffects E s in
  cellsArr s' = cellsArr s /\
  (forall a o', cells (world s') !! a = Some o' ->
     exists o (doses : nat),
       cells (world s) !! a = Some o /\
       Cell.health o' = Nat.iter doses (fun h => h - 0.3) (Cell.health o) /\
       Cell.energy o' = Nat.iter doses (fun e => e - 0.2) (Cell.energy o) /\
       Cell.health o' <= Cell.health o /\ Cell.energy o' <= Cell.energy o /\
       Cell.maxHealth o' = Cell.maxHealth o /\ Cell.maxEnergy o' = Cell.maxEnergy o /\
       Cell.x o' = Cell.x o /\ Cell.y o' = Cell.y o /\
       (a ∉ cellsArr s -> doses = 0%nat)) /\
  ((forall c o, c ∈ cellsArr s -> cells (world s) !! c = Some o ->
      Traits.defenseType (Cell.traits o) = poison ->
      DefenseStates.poisonAura (Cell.defenseStates o) <= 0) ->
   world s' = world s).
Proof.
  cbv zeta. unfold applyPoisonEffects. cbn [cellsArr world set_world].
  split; [reflexivity|]. split.
  - set (R := fun w' : World => forall a o', cells w' !! a = Some o' ->
       exists o (doses : nat),
         cells (world s) !! a = Some o /\
         Cell.health o' = Nat.iter doses (fun h => h - 0.3) (Cell.health o) /\
         Cell.energy o' = Nat.iter doses (fun e => e - 0.2) (Cell.energy o) /\
         Cell.health o' <= Cell.health o /\ Cell.energy o' <= Cell.energy o /\
         Cell.maxHealth o' = Cell.maxHealth o /\ Cell.maxEnergy o' = Cell.maxEnergy o /\
         Cell.x o' = Cell.x o /\ Cell.y o' = Cell.y o /\
         (a ∉ cellsArr s -> doses = 0%nat)).
    assert (Hstep : forall w target, R w -> target ∈ cellsArr s ->
              R (modify_cell target (fun c =>
                   Cell.set_energy (Cell.energy c - 0.2)
                     (Cell.set_health (Cell.health c - 0.3) c)) w)).
    { intros w target HR Hin a o' H.
      apply lookup_modify_cell in H as (o1 & H & ->).
      destruct (HR a o1 H)
        as (o & n & Ho & Hh & He & Hhle & Hele & Hmh & Hme & Hx & Hy & Hout).
      destruct (decide (target = a)) as [->|Hne].
      - exists o, (S n). split; [exact Ho|].
        cbn [Cell.health Cell.energy Cell.set_energy Cell.set_health Cell.traits
             Cell.set_traits Traits.health Traits.energy Traits.set_health
             Traits.set_energy Cell.maxHealth Cell.maxEnergy Traits.maxHealth
             Traits.maxEnergy Cell.x Cell.y].
        fold (Cell.health o1). fold (Cell.energy o1).
        fold (Cell.maxHealth o1). fold (Cell.maxEnergy o1).
        split; [rewrite Hh; reflexivity|].
        split; [rewrite He; reflexivity|].
        split; [lra|]. split; [lra|].
        split; [exact Hmh|]. split; [exact Hme|]. split; [exact Hx|].
        split; [exact Hy|]. intros Hnot. contradiction.
      - exists o, n. repeat split; assumption. }
    apply (foldl_preserves R).
    + intros a o' H. exists o', 0%nat. split; [exact H|].
      repeat split; try reflexivity; apply Qle_refl.
    + intros w c HR. destruct (cells w !! c) as [oc|]; [|exact HR].
      destruct (negb _); [exact HR|]. destruct (Qle_bool _ 0); [exact HR|].
      cbv zeta.
      assert (Hall : forall l, (forall x, x ∈ l -> x ∈ cellsArr s) ->
                R (foldl (fun w0 target =>
                     if bool_decide (target = c) then w0
                     else match cells w0 !! c, cells w0 !! target with
                          | Some o, Some p =>
                              if Qlt_bool (distanceTo (math E) o p) (Cell.radius oc + 20)
                              then modify_cell target (fun c0 =>
                                     Cell.set_energy (Cell.energy c0 - 0.2)
                                       (Cell.set_health (Cell.health c0 - 0.3) c0)) w0
                              else w0
                          | _, _ => w0
                          end) w l)).
      { intros l. revert w HR. induction l as [|x l IH]; intros w HR Hl; [exact HR|].
        cbn [foldl]. apply IH; [|intros y Hy; apply Hl; now right].
        destruct (bool_decide (x = c)); [exact HR|].
        destruct (cells w !! c); [|exact HR]. destruct (cells w !! x); [|exact HR].
        destruct (Qlt_bool _ _); [|exact HR].
        apply Hstep; [exact HR|]. apply Hl. now left. }
      apply Hall. auto.
  - intros Hnone.
    apply (foldl_preserves_in (fun w => w = world s)); [reflexivity|].
    intros w c Hc ->.
    destruct (cells (world s) !! c) as [oc|] eqn:Ec; [|reflexivity].
    destruct (negb (bool_decide _)) eqn:Ep; [reflexivity|].
    apply negb_false_iff, bool_decide_eq_true in Ep.
    destruct (Qle_bool _ 0) eqn:Ea; [reflexivity|].
    apply Qle_bool_false in Ea.
    pose proof (Hnone c oc Hc Ec Ep) as Hle. lra.
Qed.

(** [Math.floor(Math.random() * n)] is an index below [n]. *)
Lemma random_index_in_range (r : Q) (n : nat) :
  0 <= r -> r < 1 -> (0 < n)%nat ->
  (Z.to_nat (floor (r * inject_Z (Z.of_nat n))) < n)%nat.
Proof.
  intros H0 H1 Hn. unfold floor.
  assert (Hpos : 0 < inject_Z (Z.of_nat n)).
  { change 0 with (inject_Z 0). rewrite <- Zlt_Qlt. lia. }
  assert (Hlo : (0 <= Qfloor (r * inject_Z (Z.of_nat n)))%Z).
  { change 0%Z with (Qfloor 0). apply Qfloor_resp_le. nra. }
  assert (Hhi : (Qfloor (r * inject_Z (Z.of_nat n)) < Z.of_nat n)%Z).
  { rewrite Zlt_Qlt. eapply Qle_lt_trans; [apply Qfloor_le|]. nra. }
  lia.
Qed.

(** X29.  [killRandomCell] does nothing to an empty population.
    Otherwise it removes exactly one cell from the array, at an index
    inside it, leaves the cell objects themselves untouched, and adds to
    the food the particles of that one corpse. *)
Theorem killRandomCell_removes_one (E : Externals) (s : t) :
  fair (rng (world s)) ->
  let s' := killRandomCell E s in
  (cellsArr s = [] -> s' = s) /\
  (cellsArr s ≠ [] ->
   exists i c,
     cellsArr s !! i = Some c /\
     cellsArr s' = delete i (cellsArr s) /\
     S (length (cellsArr s')) = length (cellsArr s) /\
     cells (world s') = cells (world s) /\
     length (FoodManager.food (foodManager (world s')))
     = (length (FoodManager.food (foodManager (world s)))
        + corpseParticles (world s) c)%nat).
Proof.
  intros Hg. cbv zeta. unfold killRandomCell.
  destruct (cellsArr s) as [|c0 l] eqn:Earr; [split; [reflexivity|congruence]|].
  split; [discriminate|]. intros _.
  pose proof (draw_frame (world s)) as (Hc & _ & Hf).
  assert (Hr : 0 <= fst (draw (world s)) /\ fst (draw (world s)) < 1).
  { unfold draw. destruct (random_fair (rng (world s)) Hg) as (H0 & H1 & _).
    destruct (random (rng (world s))). cbn in *. auto. }
  destruct (draw (world s)) as [r w]. cbn [fst snd] in *.
  destruct Hr as [H0 H1].
  set (i := Z.to_nat (floor (r * inject_Z (Z.of_nat (length (c0 :: l)))))).
  assert (Hi : (i < length (c0 :: l))%nat).
  { apply random_index_in_range; [exact H0|exact H1|cbn; lia]. }
  destruct (lookup_lt_is_Some_2 _ _ Hi) as [c Hc0]. rewrite Hc0.
  pose proof (removeOne_food E [(c, i)] (c0 :: l) w) as [Hcells Hfood].
  cbn [foldl sum_list_with fst] in Hcells, Hfood.
  destruct (removeOne E (c0 :: l, w) (c, i)) as [arr w'] eqn:Erm.
  assert (Harr : arr = delete i (c0 :: l)).
  { unfold removeOne in Erm. injection Erm as <- _. reflexivity. }
  cbn [cellsArr world set_world set_cellsArr snd] in *.
  exists i, c. split; [exact Hc0|]. split; [exact Harr|].
  split.
  - rewrite Harr, length_delete by eauto. cbn in *. lia.
  - split; [congruence|]. rewrite Hfood, Hf.
    unfold corpseParticles. rewrite Hc. lia.
Qed.

Lemma killRandomCell_removes_one_witness :
  fair (rng (world Scenario.wake)) /\
  (cellsArr Scenario.wake = [] ->
   killRandomCell Scenario.inert Scenario.wake = Scenario.wake).
Proof.
  split; [exact fair_constant_half|].
  exact (proj1 (killRandomCell_removes_one Scenario.inert Scenario.wake
                  fair_constant_half)).
Defined.

(** X30.  [introduceDisease] spares small populations: with fewer than
    five cells nothing changes (the draws are those of [Math.random], in
    [0, 1), so every index drawn is in the array).  In general it leaves the array and the
    set of cells as they are, and a cell keeps its energy and has the
    health that multiplying by 0.7 once for every time it was drawn leaves
    (a cell can be drawn more than once); a cell outside the array is
    never drawn, and a health that was not negative stays so and does not
    grow. *)
Theorem introduceDisease_spares_small_populations (s : t) :
  fair (rng (world s)) ->
  let s' := introduceDisease s in
  cellsArr s' = cellsArr s /\
  dom (cells (world s')) = dom (cells (world s)) /\
  ((length (cellsArr s) < 5)%nat -> s' = s) /\
  (forall a o', cells (world s') !! a = Some o' ->
     exists o (times : nat),
       cells (world s) !! a = Some o /\
       Cell.health o' = Nat.iter times (fun h => h * 0.7) (Cell.health o) /\
       Cell.energy o' = Cell.energy o /\
       (a ∉ cellsArr s -> times = 0%nat) /\
       (0 <= Cell.health o -> 0 <= Cell.health o' <= Cell.health o)).
Proof.
  intros _. cbv zeta. unfold introduceDisease.
  set (body := fun (_ : nat) (_ : unit) (w : World) => _).
  set (n := Z.to_nat _).
  pose (R := fun w' : World =>
    dom (cells w') = dom (cells (world s)) /\
    forall a o', cells w' !! a = Some o' ->
     exists o (times : nat),
       cells (world s) !! a = Some o /\
       Cell.health o' = Nat.iter times (fun h => h * 0.7) (Cell.health o) /\
       Cell.energy o' = Cell.energy o /\
       (a ∉ cellsArr s -> times = 0%nat) /\
       (0 <= Cell.health o -> 0 <= Cell.health o' <= Cell.health o)).
  assert (Hloop : forall m i u w, R w -> R (for_loop m i body u w).2).
  { induction m as [|m IH]; intros i u w HR; [exact HR|].
    cbn [for_loop]. unfold bind.
    destruct (body i u w) as [u1 w1] eqn:Eb. apply IH.
    unfold body in Eb.
    pose proof (cells_draw w) as Hd. destruct (draw w) as [r w0]. cbn [snd] in Hd.
    destruct (cellsArr s !! _) as [cell|] eqn:Ecell;
      injection Eb as _ <-; destruct HR as [Hdom HR].
    2:{ split; [congruence|]. rewrite Hd. exact HR. }
    split; [rewrite dom_modify_cell; congruence|].
    intros a o' H. apply lookup_modify_cell in H as (o1 & H & ->).
    rewrite Hd in H.
    destruct (HR a o1 H) as (o & k & Ho & Hh & He & Hout & Hpos).
    destruct (decide (cell = a)) as [->|Hne].
    - exists o, (S k). split; [exact Ho|].
      cbn [Cell.health Cell.energy Cell.set_health Cell.traits Cell.set_traits
           Traits.health Traits.energy Traits.set_health].
      fold (Cell.health o1). fold (Cell.energy o1).
      split.
      { rewrite Hh. reflexivity. }
      split; [exact He|]. split.
      { intros Hnot. exfalso. apply Hnot. eapply list_elem_of_lookup_2, Ecell. }
      intros Hp. specialize (Hpos Hp). lra.
    - exists o, k. repeat split; try assumption; apply Hpos; assumption. }
  assert (HR0 : R (world s)).
  { split; [reflexivity|]. intros a o' H. exists o', 0%nat. split; [exact H|].
    split; [reflexivity|]. split; [reflexivity|]. split; [reflexivity|]. intros; lra. }
  pose proof (Hloop n 0%nat tt (world s) HR0) as [Hdom HR].
  destruct (for_loop n 0 body tt (world s)) as [[] w] eqn:Ef. cbn [snd] in *.
  cbn [cellsArr world set_world].
  split; [reflexivity|]. split; [exact Hdom|]. split; [|exact HR].
  intros Hsmall.
  assert (Hn : n = 0%nat).
  { unfold n, floor.
    assert (Hf : (Qfloor (inject_Z (Z.of_nat (length (cellsArr s))) * 0.2) < 1)%Z).
    { rewrite Zlt_Qlt. eapply Qle_lt_trans; [apply Qfloor_le|].
      assert (inject_Z (Z.of_nat (length (cellsArr s))) < 5).
      { change 5 with (inject_Z 5). rewrite <- Zlt_Qlt. lia. }
      change (inject_Z 1) with 1. lra. }
    lia. }
  rewrite Hn in Ef. cbn in Ef. injection Ef as <-.
  destruct s; reflexivity.
Qed.

Lemma introduceDisease_spares_small_populations_witness :
  fair (rng (world (Scenario.simulation Sample.crowdArray Sample.crowd))) /\
  cellsArr (introduceDisease (Scenario.simulation Sample.crowdArray Sample.crowd))
  = Sample.crowdArray.
Proof.
  split; [exact fair_constant_half|].
  exact (proj1 (introduceDisease_spares_small_populations
                  (Scenario.simulation Sample.crowdArray Sample.crowd)
                  fair_constant_half)).
Defined.
